(* ===== verification/_CoqProject ===== *)
-Q . S2P
Prelude.v
GuestMemory.v
KvmArm64.v
KvmAmd64.v
GuestViews.v
Uart8250.v
VirtQueue.v
VirtMmio.v
RxRing.v
VirtioConsole.v
VirtioRng.v
VirtioBalloon.v
Vsock.v
VsockConn.v
VsockHost.v
VsockRing.v
SimpleVsock.v
Tcp.v
Packet.v
TcpConn.v
NetStack.v
VirtioNet.v
NetQueues.v
NetReceive.v
NetRuns.v
GuestNet.v
Regions.v
RegionWrite.v
PageTable.v
ImageVm.v
ImageCopy.v
Bitmap.v
Fdt.v
NvmePrp.v
Nvme.v
NvmeIO.v
NvmeQueue.v
Initramfs.v
ImageStore.v
ImagePages.v
