(* ===== verification/Prelude.v ===== *)
(** * A verification of tinyrange/cc

    The program runs small virtual machines.  A host process maps guest
    memory, runs the vCPUs of a hypervisor and emulates the devices the guest
    sees: a serial port, virtio devices over memory-mapped registers, an NVMe
    disk, and a network card whose frames end in a TCP/IP stack written in the
    host process.  Around it are builders of disk images, a registry client, boot
    loaders and a daemon.  This library models the parts in which the guest's
    input meets the host's state, and the virtual disk image.

    ** Parts and files

    - [Prelude]: Go's results, errors and panics, a state monad for methods,
      fixed-width integers, byte strings, functional record update, and the
      tactics and hint databases.
    - [GuestMemory]: the [GuestMemory] interface of internal/virtio as a type
      class with laws.  [KvmArm64] and [KvmAmd64] model the accesses of
      internal/hv/kvm to guest memory; the arm64 one is an instance.
    - [Uart8250]: the serial port of internal/serial.
    - [VirtQueue]: descriptor chains and rings, internal/virtio/queue_io.go and
      queue_helpers.go, over any guest memory that satisfies the laws.
    - [VirtMmio]: registers, interrupt status, ring loop and snapshots that the
      devices of internal/virtio share.  [VirtioConsole], [VirtioRng] and
      [VirtioBalloon] are the devices of console.go, rng.go and balloon.go.
    - [Vsock]: the socket device of internal/virtio/vsock.go and the packets of
      vsock_protocol.go.  [VsockConn] takes its handlers and goroutines as
      events and is about one connection of a guest; [VsockHost] is about the
      host side, over any backend that keeps to its interface; [VsockRing]
      shows that the device's methods are sequences of events and what they do
      to the queues.  [SimpleVsock] is the backend of vsock.go, connections
      joined by channels, as an instance of the interface.  [RxRing] is the
      loop, shared with the network card, that stores waiting packets in posted
      chains.
    - [Tcp]: options, send and receive buffers, timers and congestion
      control of internal/netstack/tcp.go.
    - [Packet]: checksums, headers, whole frames and the check of the guest's
      source addresses, from netstack.go and source_validation.go.
    - [TcpConn]: one connection, the [tcpConn] of netstack.go.
    - [NetStack]: the stack: buffer pool, access policy, handlers of frames,
      listeners, dialling and UDP sockets.
    - [VirtioNet]: the network card of internal/virtio/net.go, with its cached
      slices, its options, both register layouts and the goroutine that
      transmits.  [NetQueues] is about the transmit queue, [NetReceive] about
      the receive queue, [NetRuns] about runs of the device from its creation;
      [GuestNet] puts the card in front of the stack as
      internal/vm/network_common.go does.
    - [Regions], [RegionWrite]: the views of bytes that a disk image is made
      of, internal/fsimage/vm.  [Bitmap] is the bitmap region.
    - [PageTable], [ImageVm], [ImageCopy]: the page tables and the virtual
      image of vm.go, reading, writing, mapping, reinterpreting and copying.
    - [ImageStore]: the pages of the writable root file system,
      internal/virtio/fs_image_store.go.  [ImagePages] is about the map from
      tokens to pages that they stand for.
    - [Fdt]: the device tree builder of internal/fdt.  [Initramfs]: the archive
      writer of internal/linux/initramfs.
    - [GuestViews]: slices of guest memory that a device keeps, as a type class
      with laws and an arm64 instance.  [NvmePrp] (the page lists of a
      command) and [Nvme] (registers, queues, commands, interrupts) are the
      controller of internal/nvme.  [NvmeIO] shows what read and write
      commands do to memory and disk, with the image of [ImageVm] as an
      instance of the disk; [NvmeQueue] is about queues, completions and the
      interrupt line.

    A Go struct is a record with the source's field names, an interface a
    type class, a method a function from the receiver's state to the new
    state with a result ([Prelude.M]).  A call to a function of another
    package that has effects (a writer, an interrupt controller, a random
    source, a page reclaimer) is an operation of a class or a log of calls.
    Locks are not modelled: a method that holds a lock throughout is one step,
    and where a lock is released in between the steps are separate: a register
    write of the network card and each packet it then hands over, the two parts
    of a close of the socket device.  The exception is [TcpConn], where a write
    and a segment that completes a handshake are one step each although the
    source releases the lock in between, and a connection is given to an open
    listener at once, although the source waits when its queue is full.  A goroutine
    is a place in its code ([Vsock.at_]) and a step per place; an operation
    that waits, or that a [select] decides, has the list of its outcomes.

    ** What is shown

    - Devices: register accesses keep registers in their width, interrupt
      lines agree with status registers, queues hand over exactly the bytes
      the driver linked, used rings are published once per chain, snapshots
      restore what they saved.  The legacy layout agrees with the vring
      layout; ranges told to the host are the pages of the queue.
    - Sockets: whatever the order of packets, goroutines and calls, the guest
      never gets more bytes than its buffer has room for, the streams of both
      directions arrive in order, a process reads a prefix of what the guest
      sent, packets are stored in the chains the driver posted and taken from
      those it filled, each once.
    - NVMe: a read command fills exactly the memory its page list describes
      with the blocks of the disk, a write stores them, and the two compose
      whatever lists they use; from the creation of a completion queue on,
      completions reach a polling driver in order; the interrupt line follows
      the completion queues; queues drain.
    - Network: built frames parse back with valid checksums, reassembly hands
      out the contiguous stream, acknowledgements release what they cover,
      timers and windows stay in bounds, a reader gets the guest's stream,
      writes respect the window.  Whatever frames a guest sends, every
      connection it holds goes where the access settings allow, also when
      they arrive through the card and however its goroutine runs.  The card
      hands over the packets of the transmit chains and stores waiting packets
      in the receive chains, in order, each once; the slices it keeps are the
      memory of the rings; a notification is not lost.
    - Images: the image refines an array of bytes under mappings, writes and
      resets; reinterpreting keeps the bytes; the batched copy equals the
      image; bitmaps agree with their bits.
    - Tables: a device tree blob reads back as the tree it was built from, an
      archive as the files.
    - Faults: each theorem that states one gives the condition for it, and
      each is listed with its place in the source in the findings.

    ** Bounds

    Loops without a bound in the source take one as an argument and return
    [None], or an error of their own, when it is used up.  Chains of
    descriptors take the queue size, which is the source's own bound.
    Reassembly takes one pass more than there are segments, since each pass
    but the last removes one.  Option parsing takes any bound; the theorem
    says on which inputs one turn per byte is enough and that on the others
    no bound is.  The NVMe submission loop takes any
    bound; one turn per waiting entry is enough when the tail is in range, and
    no bound is when it is not.  Page lists recurse on the number of entries
    left.  The socket device's receive loop takes one turn per entry of the
    available ring.  Regions recurse on their depth.  Reads and writes of an
    image take one step per byte and one more; the theorems show that a
    well-formed image never uses it up.  Integers keep their width wherever
    the source's arithmetic can wrap; lengths of byte strings and offsets in
    an image are plain integers, below 2^63.

    ** Not modelled

    The hypervisor back ends other than the memory accesses above (system
    calls and platform libraries); the virtio devices whose work is host I/O
    (file system, GPU, input, display); the goroutines
    that copy between connections and host sockets; the formats built on
    the image (ext4, FAT, FFS: generated accessors); boot tables, kernels,
    the registry client, the guest agent, the daemon and the commands, which
    are files, sockets and processes.  Timers are modelled by the functions
    they call.

    ** Plan

    Next: the wire format of NFS, and name service. *)

From Stdlib Require Export ZArith Lia.
From stdpp Require Export base list numbers strings gmap relations.

#[global] Open Scope Z_scope.
#[export] Set Default Goal Selector "!".

Declare Scope go_scope.
Delimit Scope go_scope with go.
#[global] Open Scope go_scope.

(** * Functional record update

    Go methods mutate fields of a struct in place.  A definition that models
    one writes [r <| field := v |>].  A record opts in with an [Eta] instance,
    the record rebuilt from its own projections; the setter of a projection is
    then found by the tactic below. *)

Class Eta (R : Type) := eta : R → R.
Class Setter {R T : Type} (proj : R → T) := update : (T → T) → R → R.
Arguments update {R T} proj {_} _ _ /.

Ltac derive_setter :=
  lazymatch goal with
  | |- @Setter ?R ?T ?proj =>
    let e := constr:(_ : Eta R) in
    let e' := eval hnf in e in
    exact (fun (f : T → T) (r : R) => ltac:(
      let body := eval cbv beta in (e' r) in
      let p := eval pattern (proj r) in body in
      lazymatch p with
      | ?g _ => let res := eval cbv beta in (g (f (proj r))) in exact res
      end))
  end.
#[export] Hint Extern 0 (Setter _) => derive_setter : typeclass_instances.

Notation "r <| p := v |>" := (update p (λ _, v) r)
  (at level 1, left associativity, format "r  <| p  :=  v |>") : go_scope.

(** A pointer or interface value is an option; [p != nil]. *)
Definition non_nil {A} (p : option A) : bool := match p with Some _ => true | None => false end.

(** * Results of Go calls

    A call returns a value, returns a non-nil error, or panics (an index out
    of range, a division by zero).  Errors carry the constant part of their
    message. *)

Inductive result (A : Type) : Type :=
  | Ok (a : A)
  | Err (msg : string)
  | Panic.
Arguments Ok {A} _.
Arguments Err {A} _.
Arguments Panic {A}.

#[global] Instance result_ret : MRet result := λ A a, Ok a.
#[global] Instance result_bind : MBind result := λ A B f m,
  match m with Ok a => f a | Err e => Err e | Panic => Panic end.

#[global] Instance result_eq_dec `{EqDecision A} : EqDecision (result A).
Proof. solve_decision. Defined.

Lemma mapM_result_cons {A B} (f : A → result B) (x : A) (l : list A) :
  mapM f (x :: l) =
    match f x with
    | Ok y => match mapM f l with Ok k => Ok (y :: k) | Err e => Err e | Panic => Panic end
    | Err e => Err e
    | Panic => Panic
    end.
Proof. done. Qed.

(** A method threads the state of its receiver.  The state reached when a
    call fails is kept: Go does not roll back on an error. *)

Definition M (S A : Type) : Type := S → S * result A.

#[global] Instance M_ret S : MRet (M S) := λ A a s, (s, Ok a).
#[global] Instance M_bind S : MBind (M S) := λ A B f m s,
  match m s with
  | (s', Ok a) => f a s'
  | (s', Err e) => (s', Err e)
  | (s', Panic) => (s', Panic)
  end.

Definition fail {S A} (e : string) : M S A := λ s, (s, Err e).
Definition panic {S A} : M S A := λ s, (s, Panic).
Definition gets {S A} (f : S → A) : M S A := λ s, (s, Ok (f s)).
Definition modify {S} (f : S → S) : M S unit := λ s, (f s, Ok tt).
Definition lift {S A} (r : result A) : M S A := λ s, (s, r).
Definition total {S A} (f : S → S * A) : M S A := λ s, let '(s', a) := f s in (s', Ok a).

(** Run the second call unless the first failed. *)
Notation "m ;;; k" := (mbind (λ _, k) m) (at level 100, right associativity) : go_scope.

(** A call preserves an invariant of its receiver's state, whatever it
    returns. *)
Definition preserves {S A} (P : S → Prop) (m : M S A) : Prop := ∀ s, P s → P (m s).1.

Create HintDb preserves.

Section preserves.
Context {S : Type} (P : S → Prop).
Lemma preserves_ret {A} (a : A) : preserves P (mret a).
Proof. by intros s. Qed.
Lemma preserves_fail {A} e : preserves P (fail (A := A) e).
Proof. by intros s. Qed.
Lemma preserves_panic {A} : preserves P (panic (A := A)).
Proof. by intros s. Qed.
Lemma preserves_gets {A} (f : S → A) : preserves P (gets f).
Proof. by intros s. Qed.
Lemma preserves_lift {A} (r : result A) : preserves P (lift r).
Proof. by intros s. Qed.
Lemma preserves_modify f : (∀ s, P s → P (f s)) → preserves P (modify f).
Proof. by intros Hf s Hs; apply Hf. Qed.
Lemma preserves_bind {A B} (m : M S A) (k : A → M S B) :
  preserves P m → (∀ a, preserves P (k a)) → preserves P (m ≫= k).
Proof.
  intros Hm Hk s Hs. unfold mbind, M_bind. specialize (Hm s Hs).
  destruct (m s) as [s' [a| |]]; [by apply Hk|done..].
Qed.
Lemma preserves_if {A} (b : bool) (m k : M S A) :
  preserves P m → preserves P k → preserves P (if b then m else k).
Proof. by destruct b. Qed.
End preserves.
(** A call keeps an invariant, and what it returns satisfies [Q]. *)
Definition yields {S A} (P : S → Prop) (Q : A → Prop) (m : M S A) : Prop :=
  ∀ s, P s → P (m s).1 ∧ ∀ a, (m s).2 = Ok a → Q a.

Section yields.
Context {S : Type} (P : S → Prop).
Lemma yields_ret {A} (Q : A → Prop) a : Q a → yields P Q (mret a).
Proof. intros Ha s Hs. split; [done|]. by intros ? [= <-]. Qed.
Lemma yields_bind {A B} (Q : A → Prop) (R : B → Prop) (m : M S A) (k : A → M S B) :
  yields P Q m → (∀ a, Q a → yields P R (k a)) → yields P R (m ≫= k).
Proof.
  intros Hm Hk s Hs. destruct (Hm s Hs) as [Hs' Ha]. unfold mbind, M_bind. destruct (m s) as [s' [a| |]]; [|done..]. by apply Hk; [apply Ha|].
Qed.
Lemma yields_fail {A} (Q : A → Prop) e : yields P Q (fail e).
Proof. by intros s Hs. Qed.
Lemma yields_panic {A} (Q : A → Prop) : yields P Q panic.
Proof. by intros s Hs. Qed.
Lemma yields_preserves {A} (m : M S A) : preserves P m ↔ yields P (λ _, True) m.
Proof. split; intros Hm s Hs; [split; [by apply Hm|done]|by apply Hm]. Qed.
Lemma yields_weaken {A} (Q : A → Prop) (m : M S A) : yields P Q m → preserves P m.
Proof. intros Hm s Hs. by apply Hm. Qed.
(** Looking at the state: what follows runs in that state. *)
Lemma yields_get {A} (Q : A → Prop) (k : S → M S A) :
  (∀ s, P s → P (k s s).1 ∧ ∀ a, (k s s).2 = Ok a → Q a) → yields P Q (gets id ≫= k).
Proof. intros Hk s Hs. by apply Hk. Qed.
Lemma preserves_at {A B} (m : M S A) (k : A → M S B) s : P (m s).1 → (∀ a, preserves P (k a)) → P ((m ≫= k) s).1.
Proof. intros Hm Hk. unfold mbind, M_bind. destruct (m s) as [s' [a| |]]; [by apply Hk|done..]. Qed.
Lemma yields_then {A B} (Q : A → Prop) (m : M S A) (k : A → M S B) :
  yields P Q m → (∀ a, Q a → preserves P (k a)) → preserves P (m ≫= k).
Proof. intros Hm Hk. apply yields_preserves. eapply yields_bind; [done|]. intros a Ha. by apply yields_preserves, Hk. Qed.
Lemma yields_match {A} (Q : A → Prop) (m : M S A) :
  (∀ s, P s → P (m s).1 ∧ match (m s).2 with Ok a => Q a | _ => True end) → yields P Q m.
Proof. intros Hm s Hs. destruct (Hm s Hs) as [? Ha]. split; [done|]. intros a E. by rewrite E in Ha. Qed.
Lemma yields_lift {A} (Q : A → Prop) (r : result A) : (∀ a, r = Ok a → Q a) → yields P Q (lift r).
Proof. by intros Hr s Hs. Qed.
End yields.

(** What a call establishes from a given state. *)
Definition wp {S A} (m : M S A) (s : S) (Q : S → result A → Prop) : Prop := Q (m s).1 (m s).2.

Section wp.
Context {S : Type}.
Lemma wp_ret {A} (a : A) (s : S) (Q : S → result A → Prop) : Q s (Ok a) → wp (mret a) s Q.
Proof. done. Qed.
Lemma wp_fail {A} e (s : S) (Q : S → result A → Prop) : Q s (Err e) → wp (fail e) s Q.
Proof. done. Qed.
Lemma wp_gets {A} (f : S → A) (s : S) (Q : S → result A → Prop) : Q s (Ok (f s)) → wp (gets f) s Q.
Proof. done. Qed.
Lemma wp_modify f (s : S) (Q : S → result unit → Prop) : Q (f s) (Ok tt) → wp (modify f) s Q.
Proof. done. Qed.
Lemma wp_bind {A B} (m : M S A) (k : A → M S B) (s : S) (Q : S → result B → Prop) :
  wp m s (λ s' r, match r with Ok a => wp (k a) s' Q | Err e => Q s' (Err e) | Panic => Q s' Panic end) →
  wp (m ≫= k) s Q.
Proof. unfold wp, mbind, M_bind. by destruct (m s) as [s' [a| |]]. Qed.
Lemma wp_mono {A} (m : M S A) (s : S) (P Q : S → result A → Prop) :
  wp m s P → (∀ s' r, P s' r → Q s' r) → wp m s Q.
Proof. intros Hm HPQ. by apply HPQ. Qed.
End wp.

(** One step along the structure of a method. *)
Ltac preserves_step :=
  lazymatch goal with
  | |- preserves _ (mbind _ _) => apply preserves_bind; [|intros ?]
  | |- preserves _ (mret _) => apply preserves_ret
  | |- preserves _ (fail _) => apply preserves_fail
  | |- preserves _ panic => apply preserves_panic
  | |- preserves _ (gets _) => apply preserves_gets
  | |- preserves _ (lift _) => apply preserves_lift
  | |- preserves _ (if ?b then _ else _) => destruct b
  | |- preserves _ (match ?x with _ => _ end) => destruct x
  end.
#[export] Hint Resolve preserves_ret preserves_fail preserves_panic preserves_gets
  preserves_lift preserves_modify preserves_bind preserves_if : preserves.

(** * Machine integers: a [w]-bit value is a [Z] in range, wrap-around explicit *)

Definition u8 (z : Z) : Z := z mod 2^8.
Definition u16 (z : Z) : Z := z mod 2^16.
Definition u32 (z : Z) : Z := z mod 2^32.
Definition u64 (z : Z) : Z := z mod 2^64.

(** Conversion to a signed type re-reads the low [w] bits as two's complement. *)
Definition signed (w z : Z) : Z :=
  let u := z mod 2^w in if u <? 2^(w-1) then u else u - 2^w.
Definition i32 : Z → Z := signed 32.
Definition i64 : Z → Z := signed 64.

Definition is_u (w z : Z) : Prop := 0 ≤ z < 2^w.
Abbreviation is_u8 := (is_u 8).
Abbreviation is_u16 := (is_u 16).
Abbreviation is_u32 := (is_u 32).
Abbreviation is_u64 := (is_u 64).

(** Go's [x &^ y] clears in [x] the bits of [y]. *)
Notation "x &^ y" := (Z.ldiff x y) (at level 40, left associativity) : go_scope.

(** A bit test [x&m != 0]. *)
Definition has (x m : Z) : bool := negb (Z.land x m =? 0).

Create HintDb go.

Lemma is_u_mod w z : 0 ≤ w → is_u w (z mod 2^w).
Proof. intros. apply Z.mod_pos_bound. apply Z.pow_pos_nonneg; lia. Qed.
Lemma is_u8_u8 z : is_u8 (u8 z).
Proof. by apply is_u_mod. Qed.
Lemma is_u16_u16 z : is_u16 (u16 z).
Proof. by apply is_u_mod. Qed.
Lemma is_u32_u32 z : is_u32 (u32 z).
Proof. by apply is_u_mod. Qed.
Lemma is_u64_u64 z : is_u64 (u64 z).
Proof. by apply is_u_mod. Qed.
#[export] Hint Resolve is_u8_u8 is_u16_u16 is_u32_u32 is_u64_u64 : go.

Lemma u16_add_u16 x y : u16 (u16 x + y) = u16 (x + y).
Proof. apply Zplus_mod_idemp_l. Qed.

Lemma u8_small z : is_u8 z → u8 z = z.
Proof. apply Z.mod_small. Qed.
Lemma u16_small z : is_u16 z → u16 z = z.
Proof. apply Z.mod_small. Qed.
Lemma u32_small z : is_u32 z → u32 z = z.
Proof. apply Z.mod_small. Qed.
Lemma u64_small z : is_u64 z → u64 z = z.
Proof. apply Z.mod_small. Qed.

(** Bitwise operators keep a value in range: the range of a [w]-bit value is
    that no bit at or above [w] is set. *)
Lemma is_u_bits w z : 0 ≤ w → is_u w z ↔ 0 ≤ z ∧ ∀ i, w ≤ i → Z.testbit z i = false.
Proof.
  intros Hw. split.
  - intros [Hz Hlt]. split; [done|]. intros i Hi.
    rewrite <-(Z.mod_small z (2^w)) by done. by apply Z.mod_pow2_bits_high.
  - intros [Hz Hb]. split; [done|].
    rewrite <-(Z.mod_small z (2^w)) at 1; [|split; [done|]].
    + apply Z.mod_pos_bound, Z.pow_pos_nonneg; lia.
    + destruct (decide (z = 0)) as [->|Hne]; [apply Z.pow_pos_nonneg; lia|].
      apply Z.log2_lt_pow2; [lia|]. apply Z.nle_gt. intros Hge.
      specialize (Hb _ Hge). rewrite Z.bit_log2 in Hb; [done|lia].
Qed.

Lemma is_u_land w x y : 0 ≤ w → is_u w x → 0 ≤ y → is_u w (Z.land x y).
Proof.
  intros Hw [Hx Hb]%is_u_bits Hy; [|done]. apply is_u_bits; [done|]. split.
  - apply Z.land_nonneg; lia.
  - intros i Hi. by rewrite Z.land_spec, Hb.
Qed.
Lemma is_u_lor w x y : 0 ≤ w → is_u w x → is_u w y → is_u w (Z.lor x y).
Proof.
  intros Hw [Hx Hbx]%is_u_bits [Hy Hby]%is_u_bits; [|done..].
  apply is_u_bits; [done|]. split.
  - by apply Z.lor_nonneg.
  - intros i Hi. by rewrite Z.lor_spec, Hbx, Hby.
Qed.
Lemma is_u_ldiff w x y : 0 ≤ w → is_u w x → 0 ≤ y → is_u w (x &^ y).
Proof.
  intros Hw [Hx Hb]%is_u_bits Hy; [|done]. apply is_u_bits; [done|]. split.
  - apply Z.ldiff_nonneg; lia.
  - intros i Hi. by rewrite Z.ldiff_spec, Hb.
Qed.
#[export] Hint Resolve is_u_land is_u_lor is_u_ldiff : go.

(** Bit tests. *)
Lemma has_bit x i : 0 ≤ i → has x (Z.shiftl 1 i) = Z.testbit x i.
Proof.
  intros Hi. unfold has. rewrite Z.shiftl_1_l.
  destruct (Z.testbit x i) eqn:Hb.
  - apply negb_true_iff, Z.eqb_neq. intros H.
    assert (Z.testbit (Z.land x (2^i)) i = false) as Hc by (by rewrite H, Z.bits_0).
    by rewrite Z.land_spec, Hb, Z.pow2_bits_true in Hc.
  - apply negb_false_iff, Z.eqb_eq, Z.bits_inj'. intros j Hj.
    rewrite Z.land_spec, Z.bits_0. destruct (decide (i = j)) as [->|Hne]; [by rewrite Hb|].
    by rewrite Z.pow2_bits_false, andb_false_r.
Qed.

Lemma has_ldiff x m : has (x &^ m) m = false.
Proof.
  unfold has. apply negb_false_iff, Z.eqb_eq. apply Z.bits_inj'. intros i Hi.
  rewrite Z.land_spec, Z.ldiff_spec, Z.bits_0. destruct (Z.testbit x i), (Z.testbit m i); done.
Qed.

Lemma has_lor_self x m : m ≠ 0 → has (Z.lor x m) m = true.
Proof.
  intros Hm. unfold has. apply negb_true_iff, Z.eqb_neq. intros H. apply Hm.
  apply Z.bits_inj'. intros i Hi. rewrite Z.bits_0.
  assert (Z.testbit (Z.land (Z.lor x m) m) i = false) as Hb by (by rewrite H, Z.bits_0).
  rewrite Z.land_spec, Z.lor_spec in Hb.
  destruct (Z.testbit x i), (Z.testbit m i); done.
Qed.

(** A value whose bits are all below [k], and the disjunction with bits
    shifted above it. *)
Lemma testbit_small k lo i : 0 ≤ k ≤ i → 0 ≤ lo < 2^k → Z.testbit lo i = false.
Proof.
  intros Hk Hlo. rewrite <-(Z.mod_small lo (2^k)) by done. by rewrite Z.mod_pow2_bits_high by lia.
Qed.
Lemma lor_shift lo hi k : 0 ≤ k → 0 ≤ lo < 2^k → Z.lor lo (Z.shiftl hi k) = lo + 2^k * hi.
Proof.
  intros Hk Hlo. rewrite (Z.mul_comm (2^k)), <-Z.shiftl_mul_pow2, <-Z.add_lor_land by done.
  replace (Z.land lo (Z.shiftl hi k)) with 0; [lia|].
  symmetry. apply Z.bits_inj'. intros i Hi. rewrite Z.land_spec, Z.bits_0.
  destruct (decide (i < k)).
  - by rewrite Z.shiftl_spec_low, andb_false_r.
  - by rewrite (testbit_small k) by lia.
Qed.
Lemma is_u_shiftl w k z : 0 ≤ k → 0 ≤ w → is_u w z → is_u (w + k) (Z.shiftl z k).
Proof.
  intros Hk Hw [Hz Hlt]. rewrite Z.shiftl_mul_pow2 by done. unfold is_u.
  rewrite Z.pow_add_r by done. pose proof (Z.pow_pos_nonneg 2 k). nia.
Qed.

Lemma u8_nonneg z : 0 ≤ u8 z.
Proof. apply is_u8_u8. Qed.
Lemma u16_nonneg z : 0 ≤ u16 z.
Proof. apply is_u16_u16. Qed.
Lemma u32_nonneg z : 0 ≤ u32 z.
Proof. apply is_u32_u32. Qed.
Lemma u64_nonneg z : 0 ≤ u64 z.
Proof. apply is_u64_u64. Qed.
#[export] Hint Resolve u8_nonneg u16_nonneg u32_nonneg u64_nonneg : go.

(** Side conditions [is_u w c] on constants and numeric comparisons; only
    closed terms are evaluated. *)
Ltac closed_constant x :=
  first [ is_const x | is_constructor x
        | lazymatch x with ?f ?a => closed_constant f; closed_constant a end ].
#[export] Hint Extern 1 (is_u _ ?x) =>
  (closed_constant x; split; [vm_compute; congruence | vm_compute; congruence]) : go.
#[export] Hint Extern 1 (_ ≤ _) => lia : go.
#[export] Hint Extern 2 (0 ≤ ?x) => (closed_constant x; vm_compute; congruence) : go.
#[export] Hint Extern 1 (_ < _) => lia : go.

(** * Byte strings and the fixed-width encodings of [encoding/binary] *)

Definition is_bytes (l : list Z) : Prop := Forall is_u8 l.
Abbreviation len l := (Z.of_nat (length l)).

(** [l[off : off+n]] for offsets already known to be in range. *)
Definition sub (l : list Z) (off n : nat) : list Z := take n (drop off l).

(** [copy(dst[off:], src)]: overwrite as much of [dst] from [off] as [src]
    covers, never growing [dst]. *)
Definition overwrite (dst : list Z) (off : nat) (src : list Z) : list Z :=
  take off dst ++ take (length dst - off) src ++ drop (off + length src) dst.

Fixpoint le_bytes (n : nat) (v : Z) : list Z :=
  match n with
  | O => []
  | S n => v mod 256 :: le_bytes n (v / 256)
  end.
Fixpoint le_val (l : list Z) : Z :=
  match l with
  | [] => 0
  | b :: l => b + 256 * le_val l
  end.
Definition be_bytes (n : nat) (v : Z) : list Z := rev (le_bytes n v).
Definition be_val (l : list Z) : Z := le_val (rev l).

Lemma length_le_bytes n v : length (le_bytes n v) = n.
Proof. revert v. induction n as [|n IH]; intros v; simpl; [done|]. by rewrite IH. Qed.
Lemma length_be_bytes n v : length (be_bytes n v) = n.
Proof. unfold be_bytes. by rewrite length_rev, length_le_bytes. Qed.

Lemma le_bytes_is_bytes n v : is_bytes (le_bytes n v).
Proof.
  revert v. induction n as [|n IH]; intros v; simpl; [constructor|].
  constructor; [apply Z.mod_pos_bound; lia|apply IH].
Qed.
Lemma be_bytes_is_bytes n v : is_bytes (be_bytes n v).
Proof. apply Forall_rev, le_bytes_is_bytes. Qed.

Lemma pow256_S (n : nat) : 256 ^ Z.of_nat (S n) = 256 * 256 ^ Z.of_nat n.
Proof. rewrite Nat2Z.inj_succ, Z.pow_succ_r; lia. Qed.

Lemma pow256_pos (n : nat) : 0 < 256 ^ Z.of_nat n.
Proof. apply Z.pow_pos_nonneg; lia. Qed.

Lemma le_val_bytes n v : le_val (le_bytes n v) = v mod 256 ^ Z.of_nat n.
Proof.
  revert v. induction n as [|n IH]; intros v; cbn [le_bytes le_val].
  { by rewrite Z.mod_1_r. }
  rewrite IH, pow256_S, Z.rem_mul_r; [done|lia|apply pow256_pos].
Qed.

Lemma le_val_bound l : is_bytes l → 0 ≤ le_val l < 256 ^ len l.
Proof.
  induction 1 as [|b l Hb Hl IH]; [simpl; lia|].
  cbn [le_val length]. rewrite pow256_S. unfold is_u in Hb. lia.
Qed.

Lemma le_bytes_val l : is_bytes l → le_bytes (length l) (le_val l) = l.
Proof.
  induction 1 as [|b l Hb Hl IH]; [done|]. cbn [le_val length le_bytes].
  unfold is_u in Hb. change (2^8) with 256 in Hb.
  rewrite (Z.mul_comm 256), Z.mod_add, Z.mod_small, Z.div_add by lia.
  rewrite Z.div_small, Z.add_0_l by lia. by rewrite IH.
Qed.

Lemma be_val_bytes n v : be_val (be_bytes n v) = v mod 256 ^ Z.of_nat n.
Proof. unfold be_val, be_bytes. by rewrite rev_involutive, le_val_bytes. Qed.

Lemma be_bytes_val l : is_bytes l → be_bytes (length l) (be_val l) = l.
Proof.
  intros Hl. unfold be_val, be_bytes.
  rewrite <-(length_rev l), le_bytes_val, rev_involutive; [done|].
  by apply Forall_rev.
Qed.

Lemma be_val_bound l : is_bytes l → 0 ≤ be_val l < 256 ^ len l.
Proof.
  intros Hl. unfold be_val. rewrite <-(length_rev l).
  by apply le_val_bound, Forall_rev.
Qed.

Lemma length_overwrite dst off src : length (overwrite dst off src) = length dst.
Proof. unfold overwrite. rewrite !length_app, !length_take, length_drop. lia. Qed.

Lemma is_bytes_app l k : is_bytes l → is_bytes k → is_bytes (l ++ k).
Proof. apply Forall_app_2. Qed.
Lemma is_bytes_take n l : is_bytes l → is_bytes (take n l).
Proof. apply Forall_take. Qed.
Lemma is_bytes_drop n l : is_bytes l → is_bytes (drop n l).
Proof. apply Forall_drop. Qed.
Lemma is_bytes_sub l off n : is_bytes l → is_bytes (sub l off n).
Proof. intros. by apply is_bytes_take, is_bytes_drop. Qed.
Lemma is_bytes_overwrite dst off src :
  is_bytes dst → is_bytes src → is_bytes (overwrite dst off src).
Proof. intros. unfold overwrite. auto using is_bytes_app, is_bytes_take, is_bytes_drop. Qed.
#[export] Hint Resolve is_bytes_app is_bytes_take is_bytes_drop is_bytes_sub
  is_bytes_overwrite le_bytes_is_bytes be_bytes_is_bytes : go.

(** The part of an updated byte string that was written reads back. *)
Lemma sub_overwrite_same dst off src :
  (off + length src ≤ length dst)%nat → sub (overwrite dst off src) off (length src) = src.
Proof.
  intros Hle. unfold sub, overwrite.
  rewrite (take_ge src) by lia.
  rewrite drop_app_length' by (rewrite length_take; lia).
  by rewrite take_app_length.
Qed.

(** A part that does not meet the write is unchanged. *)
Lemma sub_overwrite_before dst off src o n :
  (o + n ≤ off)%nat → (off ≤ length dst)%nat → sub (overwrite dst off src) o n = sub dst o n.
Proof.
  intros Hle Hd. unfold sub, overwrite.
  rewrite drop_app_le by (rewrite length_take; lia).
  rewrite take_app_le by (rewrite length_drop, length_take; lia).
  rewrite !take_drop_commute, take_take. do 2 f_equal. lia.
Qed.

Lemma sub_overwrite_after dst off src o n :
  (off + length src ≤ o)%nat → (off + length src ≤ length dst)%nat →
  sub (overwrite dst off src) o n = sub dst o n.
Proof.
  intros Hle Hd. unfold sub, overwrite.
  rewrite (take_ge src) by lia. rewrite app_assoc.
  rewrite drop_app_ge by (rewrite length_app, length_take; lia).
  rewrite drop_drop. do 2 f_equal. rewrite length_app, length_take. lia.
Qed.

Lemma length_sub l off n : (off + n ≤ length l)%nat → length (sub l off n) = n.
Proof. intros. unfold sub. rewrite length_take, length_drop. lia. Qed.

(** * Updating a list element *)

Lemma list_alter_alter {A} (f g : A → A) (i : nat) (l : list A) :
  alter f i (alter g i l) = alter (f ∘ g) i l.
Proof. revert i. induction l as [|x l IH]; intros [|i]; cbn; [done..|]. by rewrite IH. Qed.

Lemma list_alter_same {A} (f : A → A) (i : nat) (l : list A) :
  (∀ x, l !! i = Some x → f x = x) → alter f i l = l.
Proof.
  revert i. induction l as [|x l IH]; intros [|i] Hf; cbn; [done..| |].
  - by rewrite Hf.
  - by rewrite IH.
Qed.

(** * Case analysis of boolean tests in goals and hypotheses *)

Ltac bool_cases :=
  repeat match goal with
  | |- context [if ?b then _ else _] => destruct b eqn:?
  | H : context [if ?b then _ else _] |- _ => destruct b eqn:?
  end.

(** * Overwriting part of a byte string *)

Lemma lookup_overwrite dst off src i :
  overwrite dst off src !! i =
    if decide (i < length dst)%nat then
      if decide (off ≤ i < off + length src)%nat then src !! (i - off)%nat else dst !! i
    else None.
Proof.
  unfold overwrite. destruct (decide (i < length dst)%nat) as [Hi|Hi].
  2:{ apply lookup_ge_None. rewrite !length_app, !length_take, length_drop. lia. }
  destruct (decide (i < off)%nat) as [Ho|Ho].
  - rewrite lookup_app_l by (rewrite length_take; lia). rewrite lookup_take_lt by done.
    destruct (decide _); [lia|done].
  - rewrite lookup_app_r by (rewrite length_take; lia). rewrite length_take.
    replace (i - off `min` length dst)%nat with (i - off)%nat by lia.
    destruct (decide (off ≤ i < off + length src)%nat).
    + rewrite lookup_app_l by (rewrite length_take; lia). by rewrite lookup_take_lt by lia.
    + rewrite lookup_app_r by (rewrite length_take; lia). rewrite length_take, lookup_drop. f_equal. lia.
Qed.

Lemma overwrite_limit p k s :
  (k ≤ length p)%nat → (k ≤ length s)%nat →
  overwrite (take k p) 0 s ++ drop k p = overwrite p 0 (take k s).
Proof.
  intros Hp Hs. unfold overwrite. rewrite !length_take, !Nat.min_l, !Nat.sub_0_r by lia. cbn [take Nat.add app].
  rewrite (drop_ge (take k p)) by (rewrite length_take; lia). rewrite app_nil_r.
  by rewrite (take_ge (take k s)) by (rewrite length_take; lia).
Qed.
Lemma overwrite_take_src p k s : (length p ≤ k)%nat → overwrite p 0 (take k s) = overwrite p 0 s.
Proof.
  intros Hp. unfold overwrite. rewrite Nat.sub_0_r, take_take, Nat.min_l by lia. f_equal. f_equal.
  destruct (decide (length s ≤ k)%nat); [by rewrite take_ge|].
  rewrite !drop_ge by (rewrite ?length_take; lia). done.
Qed.
Lemma overwrite_overwrite p i a b :
  (i + length a ≤ length p)%nat → overwrite (overwrite p i a) (i + length a) b = overwrite p i (a ++ b).
Proof.
  intros Hl. apply list_eq. intros j. rewrite !lookup_overwrite, length_overwrite, length_app.
  repeat destruct (decide _); try lia; try done.
  - rewrite lookup_app_r by lia. f_equal. lia.
  - by rewrite lookup_app_l by lia.
Qed.
Lemma overwrite_tail q k c : (k ≤ length q)%nat → take k q ++ overwrite (drop k q) 0 c = overwrite q k c.
Proof.
  intros Hk. unfold overwrite. rewrite length_drop, Nat.sub_0_r, drop_drop. cbn [take Nat.add app]. done.
Qed.
Lemma overwrite_app_l (l m p : list Z) k :
  (k + length p ≤ length l)%nat → overwrite (l ++ m) k p = overwrite l k p ++ m.
Proof.
  intros Hk. unfold overwrite. rewrite length_app, take_app_le, drop_app_le, !(take_ge p), <-!app_assoc by lia. done.
Qed.
Lemma overwrite_app_r (l m p : list Z) k :
  (length l ≤ k)%nat → overwrite (l ++ m) k p = l ++ overwrite m (k - length l) p.
Proof.
  intros Hk. unfold overwrite. rewrite length_app, take_app_ge, drop_app_ge, <-app_assoc by lia.
  do 2 f_equal. f_equal; [f_equal; lia|f_equal; lia].
Qed.
Lemma overwrite_app_split (l m p : list Z) k :
  (k ≤ length l)%nat → (length l ≤ k + length p)%nat →
  overwrite (l ++ m) k p = overwrite l k p ++ overwrite m 0 (drop (length l - k) p).
Proof.
  intros Hk Hp. apply list_eq. intros i.
  rewrite lookup_app, !lookup_overwrite, length_app, length_overwrite, length_drop, lookup_drop.
  destruct (decide (i < length l)%nat) as [Hi|Hi].
  - destruct (lookup_lt_is_Some_2 l i Hi) as [x Hx]. rewrite lookup_app_l, Hx by done.
    destruct (decide (i < length l + length m)%nat); [|lia].
    destruct (decide (k ≤ i < k + length p)%nat); [|done].
    destruct (lookup_lt_is_Some_2 p (i - k)) as [y Hy]; [lia|]. by rewrite Hy.
  - rewrite (lookup_app_r l) by lia. repeat destruct (decide _); try lia; try done. f_equal. lia.
Qed.
Lemma overwrite_middle (x y y' z : list Z) : length y = length y' → overwrite (x ++ y ++ z) (length x) y' = x ++ y' ++ z.
Proof.
  intros Hl. unfold overwrite. rewrite take_app_length, take_ge by (rewrite !length_app; lia). f_equal. f_equal.
  rewrite drop_app_ge by lia. replace (length x + length y' - length x)%nat with (length y) by lia. by rewrite drop_app_length.
Qed.
Lemma overwrite_own (l : list Z) o n : (o + n ≤ length l)%nat → overwrite l o (sub l o n) = l.
Proof.
  intros Hl. apply list_eq. intros i. rewrite lookup_overwrite, length_sub by lia.
  destruct (decide (i < length l)%nat); [|symmetry; apply lookup_ge_None; lia].
  destruct (decide _); [|done]. unfold sub. rewrite lookup_take_lt, lookup_drop by lia. f_equal. lia.
Qed.
Lemma overwrite_nil p i : overwrite p i [] = p.
Proof. unfold overwrite. rewrite take_nil, Nat.add_0_r. cbn [app]. apply take_drop. Qed.

Lemma sub_sub l i n off k : (off + k ≤ n)%nat → sub (sub l i n) off k = sub l (i + off) k.
Proof.
  intros H. unfold sub. rewrite take_drop_commute, take_take, Nat.min_l by lia.
  by rewrite <-take_drop_commute, drop_drop.
Qed.
Lemma sub_split (l : list Z) o a b : sub l o (a + b) = sub l o a ++ sub l (o + a) b.
Proof. unfold sub. by rewrite <-take_take_drop, drop_drop. Qed.
Lemma sub_at (x y z : list Z) i n : length x = i → length y = n → sub (x ++ y ++ z) i n = y.
Proof. intros <- <-. unfold sub. by rewrite drop_app_length, take_app_length. Qed.
