(* ===== verification/GuestMemory.v ===== *)
(** The guest-memory interface the device models share.

    [GuestMemory] is the Go interface of that name (src/internal/virtio/
    console.go): devices see guest physical memory only through [ReadIPA] and
    [WriteIPA].  [GuestMemoryOk] states what a device may rely on; the KVM
    virtual machines of src/internal/hv/kvm discharge it (files KvmArm64 and
    KvmAmd64), and the device theorems are proved from it alone. *)
From S2P Require Import Prelude.

Class GuestMemory (T : Type) := {
  ReadIPA : T → Z → Z → result (list Z);
  WriteIPA : T → Z → list Z → T * result unit;
}.

(** [mem_ok] is the implementation's own invariant.  [mapped m a n] says that
    the [n] bytes at guest address [a] are backed by memory. *)
Class GuestMemoryOk (T : Type) `{GuestMemory T} := {
  mem_ok : T → Prop;
  mapped : T → Z → Z → Prop;
  mapped_prefix m a n k : mapped m a n → 0 ≤ k ≤ n → mapped m a k;
  read_length m a n bs : mem_ok m → 0 ≤ n < 2^63 → ReadIPA m a n = Ok bs → len bs = n;
  read_bytes m a n bs : mem_ok m → ReadIPA m a n = Ok bs → is_bytes bs;
  read_mapped m a n : mem_ok m → 0 ≤ n → mapped m a n → ∃ bs, ReadIPA m a n = Ok bs;
  write_mem_ok m a bs : mem_ok m → is_bytes bs → mem_ok (WriteIPA m a bs).1;
  write_mapped m a bs : mem_ok m → mapped m a (len bs) → (WriteIPA m a bs).2 = Ok tt;
  mapped_write m a bs b n :
    mem_ok m → mapped m b n → mapped (WriteIPA m a bs).1 b n;
  read_write_same m a bs :
    mem_ok m → mapped m a (len bs) → ReadIPA (WriteIPA m a bs).1 a (len bs) = Ok bs;
  read_write_other m a bs b n :
    mem_ok m → mapped m a (len bs) → mapped m b n → 0 ≤ n →
    a + len bs ≤ b ∨ b + n ≤ a →
    ReadIPA (WriteIPA m a bs).1 b n = ReadIPA m b n;
}.
#[global] Hint Mode GuestMemoryOk ! - : typeclass_instances.

Lemma reads_bytes {T} `{GuestMemoryOk T} (m : T) :
  mem_ok m → ∀ a n bs, ReadIPA m a n = Ok bs → is_bytes bs.
Proof. eauto using read_bytes. Qed.
