(* ===== verification/KvmArm64.v ===== *)
(** Guest memory of the arm64 KVM virtual machine,
    src/internal/hv/kvm/vm_linux_arm64.go.

    The memory of a [VM] is one mapping at a guest physical base.  Slicing
    outside the mapping panics in Go and is [Panic] here.  The outcome of
    every access is characterised, and the accesses that stay inside the
    mapping satisfy the device interface of GuestMemory. *)
From S2P Require Import Prelude GuestMemory.

Record VM := mkVM { GuestPhysAddr : Z; MemorySize : Z; mem : list Z }.

#[export] Instance eta_VM : Eta VM := λ v, mkVM (GuestPhysAddr v) (MemorySize v) (mem v).

(** Go checks [0 <= lo <= hi <= len] when it slices [s[lo:hi]]. *)
Definition slice_ok (s : list Z) (lo hi : Z) : bool := (lo <=? hi) && (hi <=? len s).

(** The receiver is a pointer: [None] is nil. *)
Definition ReadIPAInto (v : option VM) (addr n : Z) : result (list Z) :=
  match v with
  | None => Err "vm is nil"
  | Some v =>
    if n =? 0 then Ok []
    else
      let start := GuestPhysAddr v in
      let end_ := u64 (start + MemorySize v) in
      if (addr <? start) || (u64 (addr + n) >? end_) then Err "read guest memory: unmapped"
      else
        let off := u64 (addr - start) in
        if slice_ok (mem v) off (u64 (off + n))
        then Ok (sub (mem v) (Z.to_nat off) (Z.to_nat n)) else Panic
  end.

Definition ReadIPA (v : option VM) (addr size : Z) : result (list Z) :=
  match v with
  | None => Err "vm is nil"
  | Some _ =>
    if size <? 0 then Err "invalid read size"
    else if size =? 0 then Ok []
    else ReadIPAInto v addr size
  end.

(** [SliceIPA] returns an alias of guest memory; the model returns where in
    [mem] it lies. *)
Definition SliceIPA (v : option VM) (addr size : Z) : result (Z * Z) :=
  match v with
  | None => Err "vm is nil"
  | Some v =>
    if size <? 0 then Err "invalid slice size"
    else if size =? 0 then Ok (0, 0)
    else
      let start := GuestPhysAddr v in
      let end_ := u64 (start + MemorySize v) in
      if (addr <? start) || (u64 (addr + size) >? end_) then Err "slice guest memory: unmapped"
      else
        let off := u64 (addr - start) in
        if slice_ok (mem v) off (u64 (off + size)) then Ok (off, size) else Panic
  end.

Definition WriteIPA (v : option VM) (addr : Z) (data : list Z) : option VM * result unit :=
  match v with
  | None => (None, Err "vm is nil")
  | Some v =>
    if len data =? 0 then (Some v, Ok tt)
    else
      let start := GuestPhysAddr v in
      let end_ := u64 (start + MemorySize v) in
      if (addr <? start) || (u64 (addr + len data) >? end_)
      then (Some v, Err "write guest memory: unmapped")
      else
        let off := u64 (addr - start) in
        if slice_ok (mem v) off (u64 (off + len data))
        then (Some (v <| mem := overwrite (mem v) (Z.to_nat off) data |>), Ok tt)
        else (Some v, Panic)
  end.

(** The mapping was made with the size it is registered with and does not
    reach the end of the address space. *)
Definition vm_ok (v : option VM) : Prop :=
  match v with
  | None => False
  | Some v =>
    0 ≤ GuestPhysAddr v ∧ GuestPhysAddr v + MemorySize v < 2^64 ∧
    MemorySize v = len (mem v) ∧ is_bytes (mem v)
  end.

Definition vm_mapped (v : option VM) (a n : Z) : Prop :=
  match v with
  | None => False
  | Some v => n = 0 ∨ GuestPhysAddr v ≤ a ∧ a + n ≤ GuestPhysAddr v + MemorySize v
  end.

Lemma access_inside v a n :
  vm_ok (Some v) → 0 < n → GuestPhysAddr v ≤ a → a + n ≤ GuestPhysAddr v + MemorySize v →
  (a <? GuestPhysAddr v) || (u64 (a + n) >? u64 (GuestPhysAddr v + MemorySize v)) = false ∧
  u64 (a - GuestPhysAddr v) = a - GuestPhysAddr v ∧
  slice_ok (mem v) (a - GuestPhysAddr v) (u64 (a - GuestPhysAddr v + n)) = true.
Proof.
  intros (Hb & Hw & Hl & _) Hn Ha He.
  rewrite !u64_small by (unfold is_u; lia).
  split_and!; [|done|unfold slice_ok; lia].
  rewrite Z.gtb_ltb. apply orb_false_iff. rewrite !Z.ltb_ge. lia.
Qed.

(** Go's [int] of a length is non-negative. *)
Lemma ReadIPA_inside v a n :
  vm_ok (Some v) → 0 < n → GuestPhysAddr v ≤ a → a + n ≤ GuestPhysAddr v + MemorySize v →
  ReadIPA (Some v) a n = Ok (sub (mem v) (Z.to_nat (a - GuestPhysAddr v)) (Z.to_nat n)).
Proof.
  intros Hv Hn Ha He. destruct (access_inside v a n Hv Hn Ha He) as (E1 & E2 & E3).
  unfold ReadIPA, ReadIPAInto. destruct (Z.ltb_spec n 0); [lia|].
  destruct (Z.eqb_spec n 0); [lia|]. by rewrite E1, E2, E3.
Qed.

Lemma WriteIPA_inside v a d :
  vm_ok (Some v) → 0 < len d → GuestPhysAddr v ≤ a →
  a + len d ≤ GuestPhysAddr v + MemorySize v →
  WriteIPA (Some v) a d =
    (Some (v <| mem := overwrite (mem v) (Z.to_nat (a - GuestPhysAddr v)) d |>), Ok tt).
Proof.
  intros Hv Hn Ha He. destruct (access_inside v a _ Hv Hn Ha He) as (E1 & E2 & E3).
  unfold WriteIPA. destruct (Z.eqb_spec (len d) 0); [lia|]. by rewrite E1, E2, E3.
Qed.

(** A write changes memory contents only. *)
Lemma WriteIPA_shape v a d :
  ∃ m', (WriteIPA (Some v) a d).1 = Some (v <| mem := m' |>) ∧ length m' = length (mem v) ∧
    (is_bytes (mem v) → is_bytes d → is_bytes m').
Proof.
  assert (v = v <| mem := mem v |>) as Hv by (by destruct v).
  unfold WriteIPA. bool_cases; cbn [fst].
  1,2,4: exists (mem v); rewrite <-Hv; auto.
  exists (overwrite (mem v) (Z.to_nat (u64 (a - GuestPhysAddr v))) d).
  rewrite length_overwrite. auto with go.
Qed.

#[export] Instance arm64_memory : GuestMemory (option VM) :=
  {| GuestMemory.ReadIPA := ReadIPA; GuestMemory.WriteIPA := WriteIPA |}.

Lemma ReadIPA_Ok v a n bs :
  0 ≤ n → ReadIPA (Some v) a n = Ok bs →
  bs = [] ∧ n = 0 ∨ 0 < n ∧ ∃ off, bs = sub (mem v) off (Z.to_nat n) ∧
    (n < 2^63 → Z.of_nat off + n ≤ len (mem v)).
Proof.
  unfold ReadIPA, ReadIPAInto, slice_ok. intros Hn.
  destruct (Z.ltb_spec n 0); [lia|]. destruct (Z.eqb_spec n 0); [intros [= <-]; auto|].
  destruct (_ || _); [done|]. destruct (_ && _) eqn:E; [|done]. intros [= <-].
  right. split; [lia|]. eexists. split; [done|]. intros Hn'.
  pose proof (is_u64_u64 (a - GuestPhysAddr v)) as [? ?].
  apply andb_true_iff in E as [E1 E2]. apply Z.leb_le in E1, E2.
  rewrite Z2Nat.id by lia.
  set (o := u64 (a - GuestPhysAddr v)) in *. unfold u64 in E1, E2.
  destruct (decide (o + n < 2^64)); [rewrite Z.mod_small in E2; lia|].
  rewrite <-(Z.mod_add _ (-1)), Z.mod_small in E1 by lia. lia.
Qed.

Lemma vm_ok_write v m' :
  vm_ok (Some v) → length m' = length (mem v) → is_bytes m' → vm_ok (Some (v <| mem := m' |>)).
Proof. intros (? & ? & Hs & ?) Hl ?. cbn. rewrite Hl. auto. Qed.

Lemma read_after_write v a bs b n :
  vm_ok (Some v) → vm_mapped (Some v) a (len bs) → vm_mapped (Some v) b n → 0 < n → 0 < len bs →
  ReadIPA (WriteIPA (Some v) a bs).1 b n =
    Ok (sub (overwrite (mem v) (Z.to_nat (a - GuestPhysAddr v)) bs)
          (Z.to_nat (b - GuestPhysAddr v)) (Z.to_nat n)).
Proof.
  intros Hv [?|[? ?]] [?|[? ?]] ? ?; [lia..|]. rewrite WriteIPA_inside by done. cbn [fst].
  set (w := overwrite _ _ _). change (GuestPhysAddr v) with (GuestPhysAddr (v <| mem := w |>)).
  destruct Hv as (? & ? & Hs & ?).
  unfold ReadIPA, ReadIPAInto. destruct (Z.ltb_spec n 0); [lia|]. destruct (Z.eqb_spec n 0); [lia|].
  cbn. unfold slice_ok. rewrite !u64_small by (unfold is_u; lia).
  subst w. rewrite length_overwrite.
  rewrite Z.gtb_ltb.
  destruct (Z.ltb_spec b (GuestPhysAddr v)); [lia|]. cbn.
  destruct (Z.ltb_spec (GuestPhysAddr v + MemorySize v) (b + n)); [lia|].
  destruct (Z.leb_spec (b - GuestPhysAddr v) (b - GuestPhysAddr v + n)); [|lia]. cbn.
  by destruct (Z.leb_spec (b - GuestPhysAddr v + n) (len (mem v))); [|lia].
Qed.

#[export] Instance arm64_memory_ok : GuestMemoryOk (option VM).
Proof.
  refine {| mem_ok := vm_ok; mapped := vm_mapped |}; intros [v|]; try done;
    cbn [GuestMemory.ReadIPA GuestMemory.WriteIPA arm64_memory].
  - intros a n k [?|[? ?]] ?; [left; lia|]. destruct (decide (k = 0)); [left; lia|right; lia].
  - intros a n bs Hv Hn H.
    apply ReadIPA_Ok in H as [[-> ->]|(? & off & -> & Hle)]; [done| |lia].
    rewrite length_sub; lia.
  - intros a n bs Hv H. destruct (decide (0 ≤ n)).
    + apply ReadIPA_Ok in H as [[-> ->]|(? & off & -> & _)]; [constructor| |done].
      apply is_bytes_sub, Hv.
    + unfold ReadIPA in H. destruct (Z.ltb_spec n 0); [done|lia].
  - intros a n Hv Hn Hm. destruct (decide (n = 0)) as [->|]; [by eexists|].
    destruct Hm as [?|[? ?]]; [lia|]. eexists. apply ReadIPA_inside; auto; lia.
  - intros a bs Hv Hbs. destruct (WriteIPA_shape v a bs) as (m' & E & Hl & Hb). rewrite E.
    apply vm_ok_write; auto. apply Hb; [apply Hv|done].
  - intros a bs Hv Hm. destruct (decide (len bs = 0)) as [E|].
    { unfold WriteIPA. by rewrite E. }
    destruct Hm as [?|[? ?]]; [lia|]. rewrite WriteIPA_inside; auto. lia.
  - intros a bs b n Hv Hm. destruct (WriteIPA_shape v a bs) as (m' & E & _). by rewrite E.
  - intros a bs Hv Hm. destruct (decide (len bs = 0)) as [E|].
    { destruct bs; [done|]. cbn in E. lia. }
    rewrite read_after_write by (auto; lia). f_equal. rewrite Nat2Z.id.
    apply sub_overwrite_same. destruct Hm as [?|[? ?]], Hv as (? & ? & ? & ?); lia.
  - intros a bs b n Hv Ha Hb Hn Hd. destruct (decide (n = 0)) as [->|].
    { destruct (WriteIPA_shape v a bs) as (m' & E & _). by rewrite E. }
    destruct (decide (len bs = 0)) as [E|]; [unfold WriteIPA; by rewrite E|].
    rewrite read_after_write by (auto; lia).
    destruct Ha as [?|[? ?]], Hb as [?|[? ?]]; [lia..|].
    rewrite ReadIPA_inside by (auto; lia). f_equal. destruct Hv as (? & ? & ? & ?).
    destruct Hd; [apply sub_overwrite_after|apply sub_overwrite_before]; lia.
Defined.

(** * The outcome of every read *)

(** a read of [n] bytes returns the bytes exactly when the range lies in
    the mapping.  A range that wraps past the end of the address space and
    ends low enough passes the bounds check and panics on the slice; every
    other range is refused with an error. *)
Theorem arm64_read_outcome (v : VM) (addr n : Z) :
  vm_ok (Some v) → is_u64 addr → 0 < n < 2^63 →
  let start := GuestPhysAddr v in
  let end_ := GuestPhysAddr v + MemorySize v in
  ReadIPA (Some v) addr n =
    if (start <=? addr) && (addr + n <=? end_)
    then Ok (sub (mem v) (Z.to_nat (addr - start)) (Z.to_nat n))
    else if (start <=? addr) && (2^64 <=? addr + n) && (addr + n - 2^64 <=? end_) then Panic
    else Err "read guest memory: unmapped".
Proof.
  intros Hv [Ha0 Ha] [Hn0 Hn] start end_.
  destruct (Z.leb_spec start addr) as [Hlo|Hlo]; cbn [andb].
  2: { unfold ReadIPA, ReadIPAInto. destruct (Z.ltb_spec n 0); [lia|].
       destruct (Z.eqb_spec n 0); [lia|]. fold start.
       by destruct (Z.ltb_spec addr start); [|lia]. }
  destruct (Z.leb_spec (addr + n) end_) as [Hhi|Hhi]; [by apply ReadIPA_inside|].
  destruct Hv as (? & ? & Hs & _). unfold ReadIPA, ReadIPAInto, slice_ok.
  destruct (Z.ltb_spec n 0); [lia|]. destruct (Z.eqb_spec n 0); [lia|]. fold end_ start.
  destruct (Z.ltb_spec addr start); [lia|]. rewrite Z.gtb_ltb. cbn [orb].
  rewrite (u64_small end_), (u64_small (addr - start)) by (unfold is_u; lia).
  destruct (Z.leb_spec (2^64) (addr + n)) as [Hw|Hw]; cbn [andb].
  - assert (u64 (addr + n) = addr + n - 2^64) as ->
      by (unfold u64; rewrite <-(Z.mod_add _ (-1)), Z.mod_small; lia).
    destruct (Z.leb_spec (addr + n - 2^64) end_), (Z.ltb_spec end_ (addr + n - 2^64));
      [lia| |done|lia].
    destruct (_ && _) eqn:E; [|done]. apply andb_true_iff in E as [E1 E2].
    apply Z.leb_le in E1, E2. unfold u64 in E1, E2.
    destruct (decide (addr - start + n < 2^64)).
    + rewrite Z.mod_small in E2; lia.
    + rewrite <-(Z.mod_add _ (-1)), Z.mod_small in E1; lia.
  - rewrite u64_small by (unfold is_u; lia).
    by destruct (Z.ltb_spec end_ (addr + n)); [|lia].
Qed.

Definition small_vm : VM := mkVM 0x40 16 (le_bytes 16 0x0f0e0d0c0b0a09080706050403020100).

Lemma arm64_read_outcome_witness :
  ReadIPA (Some small_vm) 0x44 4 = Ok [4; 5; 6; 7] ∧
  ReadIPA (Some small_vm) (2^64 - 8) 16 = Panic.
Proof.
  assert (vm_ok (Some small_vm)) as Hv.
  { split_and!; [done|done|done|apply le_bytes_is_bytes]. }
  split.
  - rewrite (arm64_read_outcome small_vm 0x44 4 Hv); [reflexivity|done|done].
  - rewrite (arm64_read_outcome small_vm (2^64 - 8) 16 Hv); [reflexivity|done|done].
Defined.
