(* ===== verification/KvmAmd64.v ===== *)
(** Guest memory of the amd64 KVM virtual machine,
    src/internal/hv/kvm/vm_linux_amd64.go.

    Several Go slices view one anonymous mapping: [mem] is all of it and the
    high region is its tail.  The model keeps that aliasing: [host] is the
    backing store and a [slice] is a window of it.  [copyFromGuest] and
    [copyToGuest] loop over the regions; a turn that copies nothing would
    repeat for ever, which is [None] here, and is shown not to happen.  The
    accesses inside one region satisfy the device interface; an access that
    runs over the low-memory limit is characterised separately. *)
From S2P Require Import Prelude GuestMemory.

Record slice := mkSlice { soff : Z; slen : Z }.
Record memoryMapping := mkMapping { guestPhysAddr : Z; rmem : slice }.
Record VM := mkVM {
  host : list Z;
  mem : slice;
  lowMemLimit : Z;
  regions : list memoryMapping;
}.
#[export] Instance eta_VM : Eta VM := λ v, mkVM (host v) (mem v) (lowMemLimit v) (regions v).

Definition covers (addr : Z) (r : memoryMapping) : Prop :=
  guestPhysAddr r ≤ addr < u64 (guestPhysAddr r + slen (rmem r)).
#[export] Instance covers_dec addr r : Decision (covers addr r).
Proof. unfold covers. apply _. Defined.

Definition findMemoryRegion (v : VM) (addr : Z) : option (slice * Z) :=
  if addr <? lowMemLimit v then Some (mem v, addr)
  else
    '(_, r) ← list_find (covers addr) (regions v);
    Some (rmem r, addr - guestPhysAddr r).

(** [copy(out, region[off:])] moves this many bytes, or panics when [off] is
    past the end. *)
Definition copy_count (s : slice) (off n : Z) : result Z :=
  if off >? slen s then Panic else Ok (Z.min n (slen s - off)).

Fixpoint copyFromGuest (fuel : nat) (v : VM) (addr n : Z) : option (result (list Z)) :=
  if n <=? 0 then Some (Ok [])
  else
    match fuel with
    | O => None
    | S fuel =>
      match findMemoryRegion v addr with
      | None => Some (Err "unmapped")
      | Some (region, off) =>
        match copy_count region off n with
        | Ok k =>
          rest ← copyFromGuest fuel v (u64 (addr + k)) (n - k);
          Some (match rest with
                | Ok bs => Ok (sub (host v) (Z.to_nat (soff region + off)) (Z.to_nat k) ++ bs)
                | r => r
                end)
        | _ => Some Panic
        end
      end
    end.

Fixpoint copyToGuest (fuel : nat) (v : VM) (addr : Z) (data : list Z)
    : option (VM * result unit) :=
  if len data <=? 0 then Some (v, Ok tt)
  else
    match fuel with
    | O => None
    | S fuel =>
      match findMemoryRegion v addr with
      | None => Some (v, Err "unmapped")
      | Some (region, off) =>
        match copy_count region off (len data) with
        | Ok k =>
          copyToGuest fuel
            (v <| host := overwrite (host v) (Z.to_nat (soff region + off))
                            (take (Z.to_nat k) data) |>)
            (u64 (addr + k)) (drop (Z.to_nat k) data)
        | _ => Some (v, Panic)
        end
      end
    end.

(** Every error of the copy loop becomes the caller's own. *)
Definition wrap_err {A} (msg : string) (r : result A) : result A :=
  match r with Err _ => Err msg | r => r end.

Definition ReadIPAInto (v : option VM) (addr n : Z) : option (result (list Z)) :=
  match v with
  | None => Some (Err "vm is nil")
  | Some v =>
    if n =? 0 then Some (Ok [])
    else wrap_err "read guest memory: unmapped" <$> copyFromGuest (Z.to_nat n) v addr n
  end.

Definition ReadIPA (v : option VM) (addr size : Z) : option (result (list Z)) :=
  match v with
  | None => Some (Err "vm is nil")
  | Some _ =>
    if size <? 0 then Some (Err "invalid read size")
    else if size =? 0 then Some (Ok [])
    else ReadIPAInto v addr size
  end.

Definition SliceIPA (v : option VM) (addr size : Z) : result slice :=
  match v with
  | None => Err "vm is nil"
  | Some v =>
    if size <? 0 then Err "invalid slice size"
    else if size =? 0 then Ok (mkSlice 0 0)
    else
      match findMemoryRegion v addr with
      | Some (region, off) =>
        if size >? u64 (slen region - off) then Err "slice guest memory: unmapped"
        else Ok (mkSlice (soff region + off) size)
      | None => Err "slice guest memory: unmapped"
      end
  end.

Definition WriteIPA (v : option VM) (addr : Z) (data : list Z)
    : option (option VM * result unit) :=
  match v with
  | None => Some (None, Err "vm is nil")
  | Some v =>
    if len data =? 0 then Some (Some v, Ok tt)
    else
      (λ '(v', r), (Some v', wrap_err "write guest memory: unmapped" r)) <$>
        copyToGuest (length data) v addr data
  end.

(** The layout of [mapAMD64GuestMemoryBytes]: the first [lowSize] bytes of the
    mapping at guest address 0, the rest at 4 GiB. *)
Definition HighMemoryBase : Z := Z.shiftl 4 30.
Definition mapAMD64GuestMemoryBytes (lowSize highSize : Z) (bytes : list Z) : result VM :=
  if negb (len bytes =? lowSize + highSize)
  then Err "guest memory size does not match requested VM memory"
  else
    Ok (mkVM bytes (mkSlice 0 (len bytes)) lowSize
          (if highSize >? 0 then [mkMapping HighMemoryBase (mkSlice lowSize highSize)] else [])).

(** * Where a guest address lives in the host mapping *)

(** The host offset of a guest address and the bytes left in its region. *)
Definition resolve (v : VM) (addr : Z) : option (Z * Z) :=
  if addr <? lowMemLimit v then Some (soff (mem v) + addr, lowMemLimit v - addr)
  else
    '(_, r) ← list_find (covers addr) (regions v);
    Some (soff (rmem r) + (addr - guestPhysAddr r), slen (rmem r) - (addr - guestPhysAddr r)).

Definition slice_in (h : list Z) (s : slice) : Prop :=
  0 ≤ soff s ∧ 0 ≤ slen s ∧ soff s + slen s ≤ len h.
Definition apart (o1 l1 o2 l2 : Z) : Prop := o1 + l1 ≤ o2 ∨ o2 + l2 ≤ o1.

Record vm_ok (v : VM) : Prop := {
  ok_host : is_bytes (host v);
  ok_mem : slice_in (host v) (mem v);
  ok_low : 0 ≤ lowMemLimit v ≤ slen (mem v);
  ok_low_addr : lowMemLimit v < 2^64;
  ok_regions : Forall (λ r, slice_in (host v) (rmem r) ∧
    0 ≤ guestPhysAddr r ∧ guestPhysAddr r + slen (rmem r) < 2^64) (regions v);
  ok_apart_low : Forall (λ r, apart (soff (mem v)) (lowMemLimit v)
    (soff (rmem r)) (slen (rmem r))) (regions v);
  ok_apart i j r1 r2 : i ≠ j → regions v !! i = Some r1 → regions v !! j = Some r2 →
    apart (soff (rmem r1)) (slen (rmem r1)) (soff (rmem r2)) (slen (rmem r2));
}.

Lemma resolve_find v a h k :
  vm_ok v → 0 ≤ a → resolve v a = Some (h, k) →
  ∃ s off, findMemoryRegion v a = Some (s, off) ∧ h = soff s + off ∧ 0 ≤ off ∧
    0 < k ≤ slen s - off ∧ slice_in (host v) s.
Proof.
  intros Hv Ha. unfold resolve, findMemoryRegion.
  destruct (Z.ltb_spec a (lowMemLimit v)).
  { intros [= <- <-]. exists (mem v), a. destruct (ok_low v Hv). pose proof (ok_mem v Hv).
    split_and!; [done|done|lia|lia|lia|done]. }
  destruct (list_find _ _) as [[i r]|] eqn:E; [|done]. cbn. intros [= <- <-].
  apply list_find_Some in E as (Hi & [Hc1 Hc2] & _).
  pose proof (ok_regions v Hv) as Hr. rewrite Forall_lookup in Hr.
  destruct (Hr _ _ Hi) as (Hin & ? & ?). pose proof Hin as (? & ? & ?).
  rewrite u64_small in Hc2 by (unfold is_u; lia).
  exists (rmem r), (a - guestPhysAddr r). split_and!; [done|done|lia..|done].
Qed.

Lemma resolve_bounds v a h k :
  vm_ok v → 0 ≤ a → resolve v a = Some (h, k) → 0 ≤ h ∧ 0 < k ∧ h + k ≤ len (host v).
Proof.
  intros Hv Ha Hr.
  destruct (resolve_find v a h k Hv Ha Hr) as (s & off & _ & -> & ? & ? & (? & ? & ?)). lia.
Qed.

(** Disjoint guest ranges, each inside one region, are disjoint in the host. *)
Lemma resolve_apart v a b h k h' k' n n' :
  vm_ok v → 0 ≤ a → 0 ≤ b → resolve v a = Some (h, k) → resolve v b = Some (h', k') →
  0 < n ≤ k → 0 < n' ≤ k' → a + n ≤ b ∨ b + n' ≤ a → apart h n h' n'.
Proof.
  intros Hv Ha Hb. unfold resolve, apart.
  pose proof (ok_regions v Hv) as Hr. rewrite Forall_lookup in Hr.
  pose proof (ok_apart_low v Hv) as Hl. rewrite Forall_lookup in Hl.
  assert (∀ x i r, list_find (covers x) (regions v) = Some (i, r) →
    regions v !! i = Some r ∧ guestPhysAddr r ≤ x < guestPhysAddr r + slen (rmem r)) as Hf.
  { intros x i r (Hi & [Hc1 Hc2] & _)%list_find_Some. split; [done|].
    destruct (Hr _ _ Hi) as ((? & ? & ?) & ? & ?).
    rewrite u64_small in Hc2 by (unfold is_u; lia). lia. }
  destruct (Z.ltb_spec a (lowMemLimit v)), (Z.ltb_spec b (lowMemLimit v)).
  - intros [= <- <-] [= <- <-]. lia.
  - intros [= <- <-]. destruct (list_find (covers b) _) as [[j r']|] eqn:Ej; [|done].
    intros [= <- <-]. destruct (Hf _ _ _ Ej) as [Hj ?]. specialize (Hl _ _ Hj).
    unfold apart in Hl. lia.
  - destruct (list_find (covers a) _) as [[i r]|] eqn:Ei; [|done].
    intros [= <- <-] [= <- <-]. destruct (Hf _ _ _ Ei) as [Hi ?]. specialize (Hl _ _ Hi).
    unfold apart in Hl. lia.
  - destruct (list_find (covers a) _) as [[i r]|] eqn:Ei; [|done].
    destruct (list_find (covers b) _) as [[j r']|] eqn:Ej; [|done].
    intros [= <- <-] [= <- <-]. destruct (Hf _ _ _ Ei) as [Hi ?], (Hf _ _ _ Ej) as [Hj ?].
    destruct (decide (i = j)) as [->|Hne].
    { rewrite Hi in Hj. injection Hj as <-. lia. }
    pose proof (ok_apart v Hv _ _ _ _ Hne Hi Hj) as Hap. unfold apart in Hap. lia.
Qed.

(** * The copy loops *)

Lemma find_progress v a s off n :
  vm_ok v → 0 ≤ a → findMemoryRegion v a = Some (s, off) → 0 < n →
  ∃ k, copy_count s off n = Ok k ∧ k = Z.min n (slen s - off) ∧ 0 < k ∧ 0 ≤ off ∧
    slice_in (host v) s.
Proof.
  intros Hv Ha Hf Hn.
  assert (is_Some (resolve v a)) as [[h k] Hr].
  { unfold resolve, findMemoryRegion in *. destruct (_ <? _); [done|].
    destruct (list_find _ _) as [[i r]|]; [done|done]. }
  destruct (resolve_find v a h k Hv Ha Hr) as (s' & off' & Hf' & _ & ? & ? & Hin).
  rewrite Hf in Hf'. injection Hf' as <- <-.
  exists (Z.min n (slen s - off)). split_and!; [|done|lia|done|done].
  unfold copy_count. rewrite Z.gtb_ltb. by destruct (Z.ltb_spec (slen s) off); [lia|].
Qed.

Lemma vm_ok_host v h :
  vm_ok v → length h = length (host v) → is_bytes h → vm_ok (v <| host := h |>).
Proof.
  intros [] Hl Hb. constructor; cbn; auto; unfold slice_in in *; by rewrite Hl.
Qed.

Lemma resolve_host v h a : resolve (v <| host := h |>) a = resolve v a.
Proof. done. Qed.

(** A read returns as many bytes as asked for, or fails: the loop terminates. *)
Lemma copyFromGuest_total fuel v a n :
  vm_ok v → 0 ≤ a → n ≤ Z.of_nat fuel →
  ∃ r, copyFromGuest fuel v a n = Some r ∧ r ≠ Panic ∧
    ∀ bs, r = Ok bs → len bs = Z.max 0 n ∧ is_bytes bs.
Proof.
  intros Hv. revert a n. induction fuel as [|fuel IH]; intros a n Ha Hn; cbn [copyFromGuest].
  - destruct (Z.leb_spec n 0); [|lia]. eexists. split_and!; [done|done|].
    intros bs [= <-]. split; [cbn; lia|constructor].
  - destruct (Z.leb_spec n 0).
    { eexists. split_and!; [done|done|]. intros bs [= <-]. split; [cbn; lia|constructor]. }
    destruct (findMemoryRegion v a) as [[s off]|] eqn:Hf; [|by eexists].
    destruct (find_progress v a s off n Hv Ha Hf) as (k & -> & Hk & Hk0 & Hoff & (? & ? & ?)); [lia|].
    pose proof (is_u64_u64 (a + k)) as [? _].
    destruct (IH (u64 (a + k)) (n - k)) as (r & -> & Hp & Hbs); [done|lia|]. cbn.
    eexists. split_and!; [done|by destruct r|]. destruct r as [rest| |]; [|done..].
    intros bs [= <-]. destruct (Hbs rest eq_refl) as [Hlen Hb]. split.
    + rewrite length_app, length_sub; lia.
    + apply is_bytes_app; [apply is_bytes_sub, Hv|done].
Qed.

Lemma copyToGuest_total fuel v a data :
  vm_ok v → 0 ≤ a → is_bytes data → len data ≤ Z.of_nat fuel →
  ∃ v' r, copyToGuest fuel v a data = Some (v', r) ∧ r ≠ Panic ∧ vm_ok v' ∧
    ∃ h, v' = v <| host := h |>.
Proof.
  revert v a data. induction fuel as [|fuel IH]; intros v a data Hv Ha Hd Hn; cbn [copyToGuest].
  - destruct (Z.leb_spec (len data) 0); [|lia]. exists v, (Ok tt). split_and!; auto.
    exists (host v). by destruct v.
  - destruct (Z.leb_spec (len data) 0).
    { exists v, (Ok tt). split_and!; auto. exists (host v). by destruct v. }
    destruct (findMemoryRegion v a) as [[s off]|] eqn:Hf.
    2: { eexists _, _. split_and!; [done|done|done|]. exists (host v). by destruct v. }
    destruct (find_progress v a s off (len data) Hv Ha Hf)
      as (k & -> & Hk & Hk0 & Hoff & (? & ? & ?)); [lia|].
    pose proof (is_u64_u64 (a + k)) as [? _].
    set (h := overwrite (host v) (Z.to_nat (soff s + off)) (take (Z.to_nat k) data)).
    destruct (IH (v <| host := h |>) (u64 (a + k)) (drop (Z.to_nat k) data))
      as (v' & r & E & Hp & Hv' & h' & ->); [|done|auto with go|rewrite length_drop; lia|].
    { apply vm_ok_host; [done|apply length_overwrite|].
      apply is_bytes_overwrite; [apply Hv|by apply is_bytes_take]. }
    rewrite E. eexists _, _. split_and!; [done|done|done|]. by exists h'.
Qed.

(** Inside one region the loop body runs once. *)
Lemma copyFromGuest_inside fuel v a h k n :
  vm_ok v → 0 ≤ a → resolve v a = Some (h, k) → 0 < n ≤ k → n ≤ Z.of_nat fuel →
  copyFromGuest fuel v a n = Some (Ok (sub (host v) (Z.to_nat h) (Z.to_nat n))).
Proof.
  intros Hv Ha Hr Hn Hfuel. destruct fuel as [|fuel]; [lia|]. cbn [copyFromGuest].
  destruct (resolve_find v a h k Hv Ha Hr) as (s & off & -> & -> & ? & ? & ?).
  destruct (Z.leb_spec n 0); [lia|]. unfold copy_count. rewrite Z.gtb_ltb.
  destruct (Z.ltb_spec (slen s) off); [lia|]. rewrite Z.min_l by lia.
  replace (n - n) with 0 by lia. destruct fuel; cbn; by rewrite app_nil_r.
Qed.

Lemma copyToGuest_inside fuel v a h k data :
  vm_ok v → 0 ≤ a → resolve v a = Some (h, k) → 0 < len data ≤ k → len data ≤ Z.of_nat fuel →
  copyToGuest fuel v a data =
    Some (v <| host := overwrite (host v) (Z.to_nat h) data |>, Ok tt).
Proof.
  intros Hv Ha Hr Hn Hfuel. destruct fuel as [|fuel]; [lia|]. cbn [copyToGuest].
  destruct (resolve_find v a h k Hv Ha Hr) as (s & off & -> & -> & ? & ? & ?).
  destruct (Z.leb_spec (len data) 0); [lia|]. unfold copy_count. rewrite Z.gtb_ltb.
  destruct (Z.ltb_spec (slen s) off); [lia|]. rewrite Z.min_l by lia.
  rewrite Nat2Z.id, drop_all, firstn_all. destruct fuel; done.
Qed.

(** * The device interface *)

Definition opt_ok (v : option VM) : Prop := match v with Some v => vm_ok v | None => False end.
Definition opt_mapped (v : option VM) (a n : Z) : Prop :=
  match v with
  | Some v => n = 0 ∨ is_u64 a ∧ ∃ h k, resolve v a = Some (h, k) ∧ n ≤ k
  | None => False
  end.

(** Guest addresses are 64-bit values; a call that would not return is
    reported as [Panic] (it does not happen, see [copyFromGuest_total]). *)
#[export] Instance amd64_memory : GuestMemory (option VM) := {|
  GuestMemory.ReadIPA v a n := default Panic (ReadIPA v (u64 a) n);
  GuestMemory.WriteIPA v a d := default (v, Panic) (WriteIPA v (u64 a) d);
|}.

Lemma ReadIPA_unfold v a n :
  0 < n → ReadIPA (Some v) a n = wrap_err "read guest memory: unmapped" <$>
    copyFromGuest (Z.to_nat n) v a n.
Proof.
  intros Hn. unfold ReadIPA, ReadIPAInto.
  destruct (Z.ltb_spec n 0); [lia|]. by destruct (Z.eqb_spec n 0); [lia|].
Qed.

Lemma read_inside v a h k n :
  vm_ok v → is_u64 a → resolve v a = Some (h, k) → 0 < n ≤ k →
  GuestMemory.ReadIPA (Some v) a n = Ok (sub (host v) (Z.to_nat h) (Z.to_nat n)).
Proof.
  intros Hv Ha Hr Hn. cbn [GuestMemory.ReadIPA amd64_memory].
  rewrite u64_small, ReadIPA_unfold by (done || lia).
  rewrite (copyFromGuest_inside _ v a h k n) by (try apply Ha; done || lia). done.
Qed.

Lemma write_inside v a h k data :
  vm_ok v → is_u64 a → resolve v a = Some (h, k) → 0 < len data ≤ k →
  GuestMemory.WriteIPA (Some v) a data =
    (Some (v <| host := overwrite (host v) (Z.to_nat h) data |>), Ok tt).
Proof.
  intros Hv Ha Hr Hn. cbn [GuestMemory.WriteIPA amd64_memory]. unfold WriteIPA.
  rewrite u64_small by done. destruct (Z.eqb_spec (len data) 0); [lia|].
  rewrite (copyToGuest_inside _ v a h k data) by (try apply Ha; done || lia). done.
Qed.

Lemma write_shape v a data :
  vm_ok v → is_bytes data →
  ∃ h, (GuestMemory.WriteIPA (Some v) a data).1 = Some (v <| host := h |>) ∧
    vm_ok (v <| host := h |>).
Proof.
  intros Hv Hd. cbn [GuestMemory.WriteIPA amd64_memory]. unfold WriteIPA.
  destruct (_ =? _). { exists (host v). by destruct v. }
  destruct (copyToGuest_total (length data) v (u64 a) data)
    as (v' & r & -> & _ & Hv' & h & ->); [done|apply is_u64_u64|done|lia|]. by exists h.
Qed.

Lemma copyToGuest_layout fuel v a data v' r :
  copyToGuest fuel v a data = Some (v', r) → ∃ h, v' = v <| host := h |>.
Proof.
  assert (∀ v, v = v <| host := host v |>) as Hid by (by intros []).
  revert v a data. induction fuel as [|fuel IH]; intros v a data; cbn [copyToGuest].
  - destruct (_ <=? 0); [|done]. intros [= <- <-]. eauto.
  - destruct (_ <=? 0); [intros [= <- <-]; eauto|].
    destruct (findMemoryRegion v a) as [[s off]|]; [|intros [= <- <-]; eauto].
    destruct (copy_count s off _); [|intros [= <- <-]; eauto..].
    intros H. apply IH in H as [h ->]. by exists h.
Qed.

Lemma write_keeps_layout v a data :
  ∃ h, (GuestMemory.WriteIPA (Some v) a data).1 = Some (v <| host := h |>).
Proof.
  assert (v = v <| host := host v |>) as Hid by (by destruct v).
  cbn [GuestMemory.WriteIPA amd64_memory]. unfold WriteIPA.
  destruct (_ =? 0); [exists (host v); cbn [default fst id]; by rewrite <-Hid|].
  destruct (copyToGuest _ _ _ _) as [[v' r]|] eqn:E; cbn.
  - apply copyToGuest_layout in E as [h ->]. by exists h.
  - exists (host v). by destruct v.
Qed.

Lemma read_after v a h k data b h' k' n :
  vm_ok v → is_u64 a → is_u64 b → resolve v a = Some (h, k) → resolve v b = Some (h', k') →
  0 < n ≤ k' →
  GuestMemory.ReadIPA (Some (v <| host := overwrite (host v) (Z.to_nat h) data |>)) b n =
    Ok (sub (overwrite (host v) (Z.to_nat h) data) (Z.to_nat h') (Z.to_nat n)).
Proof.
  intros Hv Ha Hb Hr Hr' Hn. cbn [GuestMemory.ReadIPA amd64_memory].
  rewrite u64_small, ReadIPA_unfold by (done || lia).
  destruct (resolve_find v b h' k' Hv) as (s & off & Hf & -> & ? & ? & ?); [apply Hb|done|].
  destruct (Z.to_nat n) as [|fuel] eqn:E; [lia|]. cbn [copyFromGuest].
  destruct (Z.leb_spec n 0); [lia|].
  change (findMemoryRegion (v <| host := _ |>) b) with (findMemoryRegion v b). rewrite Hf.
  unfold copy_count. rewrite Z.gtb_ltb. destruct (Z.ltb_spec (slen s) off); [lia|].
  rewrite Z.min_l by lia. replace (n - n) with 0 by lia. rewrite E.
  destruct fuel; cbn; by rewrite app_nil_r.
Qed.

#[export] Instance amd64_memory_ok : GuestMemoryOk (option VM).
Proof.
  refine {| mem_ok := opt_ok; mapped := opt_mapped |}; intros [v|]; try done.
  - intros a n k [?|(Ha & h & m & Hr & Hm)] ?; [left; lia|].
    destruct (decide (k = 0)); [left; lia|right]. split; [done|]. exists h, m. auto with lia.
  - intros a n bs Hv Hn. cbn [GuestMemory.ReadIPA amd64_memory].
    destruct (decide (n = 0)) as [->|]; [intros [= <-]; done|].
    rewrite ReadIPA_unfold by lia.
    destruct (copyFromGuest_total (Z.to_nat n) v (u64 a) n) as (r & -> & _ & Hbs);
      [done|apply is_u64_u64|lia|].
    destruct r; [|done..]. intros [= <-]. destruct (Hbs _ eq_refl). lia.
  - intros a n bs Hv. cbn [GuestMemory.ReadIPA amd64_memory].
    destruct (decide (n ≤ 0)).
    { unfold ReadIPA. destruct (Z.ltb_spec n 0); [done|].
      destruct (Z.eqb_spec n 0); [intros [= <-]; constructor|lia]. }
    rewrite ReadIPA_unfold by lia.
    destruct (copyFromGuest_total (Z.to_nat n) v (u64 a) n) as (r & -> & _ & Hbs);
      [done|apply is_u64_u64|lia|].
    destruct r; [|done..]. intros [= <-]. by destruct (Hbs _ eq_refl).
  - intros a n Hv Hn Hm. destruct (decide (n = 0)) as [->|]; [by eexists|].
    destruct Hm as [?|(Ha & h & k & Hr & Hk)]; [lia|].
    eexists. eapply read_inside; eauto. lia.
  - intros a bs Hv Hbs. by destruct (write_shape v a bs Hv Hbs) as (h & -> & ?).
  - intros a bs Hv Hm. destruct (decide (len bs = 0)) as [E|].
    { cbn. by rewrite E. }
    destruct Hm as [?|(Ha & h & k & Hr & Hk)]; [lia|].
    erewrite write_inside by (eauto; lia). done.
  - intros a bs b n Hv Hm. destruct (write_keeps_layout v a bs) as [h ->]. done.
  - intros a bs Hv Hm. destruct (decide (len bs = 0)) as [E|].
    { destruct bs; [done|]. cbn in E. lia. }
    destruct Hm as [?|(Ha & h & k & Hr & Hk)]; [lia|].
    destruct (resolve_bounds v a h k Hv) as (? & ? & ?); [apply Ha|done|].
    erewrite write_inside by (eauto; lia). cbn [fst].
    rewrite (read_after v a h k bs a h k) by (auto; lia). f_equal. rewrite Nat2Z.id.
    apply sub_overwrite_same. lia.
  - intros a bs b n Hv Hm Hm' Hn Hd. destruct (decide (n = 0)) as [->|].
    { destruct (write_keeps_layout v a bs) as [h ->]. done. }
    destruct (decide (len bs = 0)) as [E|]; [cbn; by rewrite E|].
    destruct Hm as [?|(Ha & h & k & Hr & Hk)]; [lia|].
    destruct Hm' as [?|(Hb & h' & k' & Hr' & Hk')]; [lia|].
    destruct (resolve_bounds v a h k Hv) as (? & ? & ?); [apply Ha|done|].
    destruct (resolve_bounds v b h' k' Hv) as (? & ? & ?); [apply Hb|done|].
    erewrite write_inside by (eauto; lia). cbn [fst].
    rewrite (read_after v a h k bs b h' k'), (read_inside v b h' k') by (auto; lia). f_equal.
    destruct (resolve_apart v a b h k h' k' (len bs) n); auto; try lia;
      [apply Ha|apply Hb|apply sub_overwrite_after; lia|apply sub_overwrite_before; lia].
Defined.

(** * The low-memory limit *)

(** with memory above 4 GiB, a read that starts below the low-memory limit
    and runs past it is not refused: the bytes past the limit are the ones the
    guest has at 4 GiB, because the low slice is the whole mapping. *)
Theorem amd64_low_limit_aliases (lowSize highSize : Z) (bytes : list Z) (v : VM) (a n : Z) :
  mapAMD64GuestMemoryBytes lowSize highSize bytes = Ok v →
  is_bytes bytes → 0 ≤ lowSize ≤ HighMemoryBase → highSize < 2^62 →
  0 ≤ a < lowSize → lowSize < a + n ≤ lowSize + highSize →
  ∃ low, ReadIPA (Some v) a (lowSize - a) = Some (Ok low) ∧
    ∃ high, ReadIPA (Some v) HighMemoryBase (a + n - lowSize) = Some (Ok high) ∧
      ReadIPA (Some v) a n = Some (Ok (low ++ high)).
Proof.
  unfold mapAMD64GuestMemoryBytes.
  destruct (Z.eqb_spec (len bytes) (lowSize + highSize)) as [Hlen|]; cbn [negb]; [|done].
  intros [= <-] Hb Hlow Hhigh Ha Hn. destruct (Z.gtb_spec highSize 0); [|lia].
  set (v := mkVM _ _ _ _). change HighMemoryBase with (2^32) in *.
  assert (vm_ok v) as Hv.
  { constructor; cbn; unfold slice_in; cbn; try (done || lia).
    - repeat constructor; cbn; lia.
    - repeat constructor. unfold apart. cbn. lia.
    - intros [|i] [|j] r1 r2 Hne; cbn; rewrite ?lookup_nil; done. }
  assert (resolve v a = Some (a, lowSize - a)) as R1.
  { unfold resolve; cbn. by destruct (Z.ltb_spec a lowSize); [|lia]. }
  assert (resolve v (2^32) = Some (lowSize, highSize)) as R2.
  { unfold resolve. cbn. destruct (Z.ltb_spec (2^32) lowSize); [lia|].
    rewrite decide_True by (unfold covers; cbn; rewrite u64_small by (unfold is_u; lia); lia).
    cbn. f_equal. f_equal; lia. }
  exists (sub bytes (Z.to_nat a) (Z.to_nat (lowSize - a))). split.
  { rewrite ReadIPA_unfold by lia.
    by rewrite (copyFromGuest_inside _ v a _ _ (lowSize - a) Hv (proj1 Ha) R1) by lia. }
  exists (sub bytes (Z.to_nat lowSize) (Z.to_nat (a + n - lowSize))). split.
  { rewrite ReadIPA_unfold by lia.
    by rewrite (copyFromGuest_inside _ v (2^32) _ _ (a + n - lowSize) Hv ltac:(lia) R2) by lia. }
  rewrite ReadIPA_unfold by lia. destruct (Z.to_nat n) as [|fuel] eqn:Hf; [lia|].
  cbn [copyFromGuest]. destruct (Z.leb_spec n 0); [lia|].
  unfold findMemoryRegion, copy_count; cbn. destruct (Z.ltb_spec a lowSize); [|lia].
  cbn [slen soff]. rewrite Z.gtb_ltb. destruct (Z.ltb_spec (len bytes) a); [lia|].
  rewrite Z.min_l by lia. replace (n - n) with 0 by lia.
  assert (∀ fuel a, copyFromGuest fuel v a 0 = Some (Ok [])) as -> by (by intros []).
  cbn -[Z.to_nat]. rewrite app_nil_r. do 2 f_equal. unfold sub.
  replace (Z.to_nat n) with (Z.to_nat (lowSize - a) + Z.to_nat (a + n - lowSize))%nat by lia.
  rewrite <-take_take_drop, drop_drop. do 3 f_equal. lia.
Qed.

Lemma amd64_low_limit_aliases_witness :
  ∃ v low high,
    mapAMD64GuestMemoryBytes 4 4 [1; 2; 3; 4; 5; 6; 7; 8] = Ok v ∧
    ReadIPA (Some v) 2 (4 - 2) = Some (Ok low) ∧
    ReadIPA (Some v) HighMemoryBase (2 + 4 - 4) = Some (Ok high) ∧
    ReadIPA (Some v) 2 4 = Some (Ok (low ++ high)).
Proof.
  eexists.
  edestruct (amd64_low_limit_aliases 4 4 [1; 2; 3; 4; 5; 6; 7; 8] _ 2 4 eq_refl)
    as (low & Hl & high & Hh & Ha); [|done..|].
  { repeat constructor; done. }
  exists low, high. split; [reflexivity|]. split; [exact Hl|]. split; [exact Hh|exact Ha].
Defined.
