(* ===== verification/GuestViews.v ===== *)
(** Views of guest memory: the optional interfaces of a guest memory.

    A device asks whether its memory can also return a slice that aliases guest
    memory ([SliceIPA]) or read into a buffer of the caller ([ReadIPAInto]);
    src/internal/nvme/controller.go does so for its queues and transfers.
    [GuestViews] holds both with the outcome of the type assertion,
    [GuestViewsOk] what a device may rely on: a slice is the memory it names,
    and accesses to adjacent ranges combine.  The arm64 virtual machine
    discharges it. *)
From S2P Require Import Prelude KvmArm64 GuestMemory.

(** A slice is given by its place in the implementation's memory; [view_read]
    is its bytes now, [view_write] is [copy(view[off:], bs)]. *)
Class GuestViews (T : Type) := {
  slicer : bool;
  SliceIPA : T → Z → Z → result (Z * Z);
  view_read : T → Z * Z → list Z;
  view_write : T → Z * Z → Z → list Z → T;
  reader_into : bool;
  ReadIPAInto : T → Z → Z → result (list Z);
}.

Class GuestViewsOk (T : Type) `{GuestMemoryOk T} `{!GuestViews T} := {
  (** [view_of m w a n]: slice [w] is the [n] bytes at address [a]. *)
  view_of : T → Z * Z → Z → Z → Prop;
  slice_view m a n w : mem_ok m → is_u64 a → 0 < n < 2^63 → SliceIPA m a n = Ok w → view_of m w a n;
  slice_mapped m a n : mem_ok m → 0 < n → mapped m a n → ∃ w, SliceIPA m a n = Ok w;
  view_mapped m w a n : mem_ok m → view_of m w a n → mapped m a n;
  view_len m w a n : mem_ok m → view_of m w a n → len (view_read m w) = n;
  view_bytes m w a n off k :
    mem_ok m → view_of m w a n → 0 ≤ off → 0 < k → off + k ≤ n →
    ReadIPA m (a + off) k = Ok (sub (view_read m w) (Z.to_nat off) (Z.to_nat k));
  view_update m w a n off bs :
    mem_ok m → view_of m w a n → 0 ≤ off → 0 < len bs → off + len bs ≤ n →
    view_write m w off bs = (WriteIPA m (a + off) bs).1;
  view_keep m w a n b bs : mem_ok m → view_of m w a n → view_of (WriteIPA m b bs).1 w a n;
  view_read_bytes m w : mem_ok m → is_bytes (view_read m w);
  view_write_ok m w off bs : mem_ok m → is_bytes bs → mem_ok (view_write m w off bs);
  read_into m a n : ReadIPAInto m a n = ReadIPA m a n;
  mapped_bound m a n : mem_ok m → 0 < n → mapped m a n → 0 ≤ a ∧ a + n < 2^64;
  mapped_app m a n k : mapped m a n → 0 < n → mapped m (a + n) k → 0 < k → mapped m a (n + k);
  mapped_suffix m a n k : mapped m a n → 0 ≤ k ≤ n → mapped m (a + k) (n - k);
  read_app m a n k x y :
    mem_ok m → 0 < n → 0 < k → ReadIPA m a n = Ok x → ReadIPA m (a + n) k = Ok y →
    mapped m a (n + k) → ReadIPA m a (n + k) = Ok (x ++ y);
  write_app m a x y :
    mem_ok m → is_bytes x → 0 < len x → 0 < len y → mapped m a (len x + len y) →
    WriteIPA m a (x ++ y) = WriteIPA (WriteIPA m a x).1 (a + len x) y;
}.
#[global] Hint Mode GuestViewsOk ! - - - : typeclass_instances.

(** * The arm64 virtual machine *)

#[export] Instance arm64_views : GuestViews (option VM) := {
  slicer := true;
  SliceIPA := KvmArm64.SliceIPA;
  view_read v w := match v with Some v => sub (mem v) (Z.to_nat w.1) (Z.to_nat w.2) | None => [] end;
  view_write v w off bs :=
    match v with
    | Some v => Some (v <| mem := overwrite (mem v) (Z.to_nat (w.1 + off)) (take (Z.to_nat (w.2 - off)) bs) |>)
    | None => None
    end;
  reader_into := true;
  ReadIPAInto v a n := if n <? 0 then KvmArm64.ReadIPA v a n else KvmArm64.ReadIPAInto v a n;
}.

(** A slice lies where the address says. *)
Definition arm64_view_of (v : option VM) (w : Z * Z) (a n : Z) : Prop :=
  match v with
  | None => False
  | Some v => 0 < n ∧ GuestPhysAddr v ≤ a ∧ a + n ≤ GuestPhysAddr v + MemorySize v ∧ w = (a - GuestPhysAddr v, n)
  end.

Lemma SliceIPA_inside v a n :
  vm_ok (Some v) → 0 < n → GuestPhysAddr v ≤ a → a + n ≤ GuestPhysAddr v + MemorySize v →
  KvmArm64.SliceIPA (Some v) a n = Ok (a - GuestPhysAddr v, n).
Proof.
  intros Hv Hn Ha He. destruct (access_inside v a n Hv Hn Ha He) as (E1 & E2 & E3).
  unfold KvmArm64.SliceIPA. destruct (Z.ltb_spec n 0); [lia|].
  destruct (Z.eqb_spec n 0); [lia|]. by rewrite E1, E2, E3.
Qed.
Lemma SliceIPA_Ok v a n w :
  vm_ok (Some v) → is_u64 a → 0 < n < 2^63 → KvmArm64.SliceIPA (Some v) a n = Ok w → arm64_view_of (Some v) w a n.
Proof.
  intros (? & ? & Hs & _) [Ha0 Ha] Hn. unfold KvmArm64.SliceIPA, slice_ok.
  destruct (Z.ltb_spec n 0); [lia|]. destruct (Z.eqb_spec n 0); [lia|].
  rewrite Z.gtb_ltb. destruct (Z.ltb_spec a (GuestPhysAddr v)); [done|]. cbn [orb].
  rewrite (u64_small (GuestPhysAddr v + _)), (u64_small (a - _)) by (unfold is_u; lia).
  destruct (Z.ltb_spec (GuestPhysAddr v + MemorySize v) (u64 (a + n))) as [?|He]; [done|].
  destruct (_ && _) eqn:E; [|done]. intros [= <-]. apply andb_true_iff in E as [E1 E2].
  apply Z.leb_le in E1, E2. unfold u64 in *.
  assert (a - GuestPhysAddr v + n < 2^64) as Hw.
  { destruct (decide (a - GuestPhysAddr v + n < 2^64)); [done|].
    rewrite <-(Z.mod_add _ (-1)), Z.mod_small in E1; lia. }
  rewrite Z.mod_small in E2 by lia. cbn. split_and!; [lia|lia|lia|done].
Qed.
Lemma WriteIPA_view v w a n b bs :
  arm64_view_of v w a n → arm64_view_of (KvmArm64.WriteIPA v b bs).1 w a n.
Proof. destruct v as [v|]; [|done]. destruct (WriteIPA_shape v b bs) as (m' & E & _). by rewrite E. Qed.

Lemma arm64_read_app v a n k :
  vm_ok (Some v) → 0 < n → 0 < k → vm_mapped (Some v) a (n + k) →
  ∃ x y, KvmArm64.ReadIPA (Some v) a n = Ok x ∧ KvmArm64.ReadIPA (Some v) (a + n) k = Ok y ∧
    KvmArm64.ReadIPA (Some v) a (n + k) = Ok (x ++ y).
Proof.
  intros Hv Hn Hk [?|[? ?]]; [lia|]. do 2 eexists.
  rewrite !ReadIPA_inside by (done || lia). split_and!; [done|done|]. f_equal. unfold sub.
  replace (Z.to_nat (n + k)) with (Z.to_nat n + Z.to_nat k)%nat by lia.
  replace (Z.to_nat (a + n - GuestPhysAddr v)) with (Z.to_nat (a - GuestPhysAddr v) + Z.to_nat n)%nat by lia.
  by rewrite <-drop_drop, take_take_drop.
Qed.
Lemma arm64_write_app v a x y :
  vm_ok (Some v) → is_bytes x → 0 < len x → 0 < len y → vm_mapped (Some v) a (len x + len y) →
  KvmArm64.WriteIPA (Some v) a (x ++ y) =
    KvmArm64.WriteIPA (KvmArm64.WriteIPA (Some v) a x).1 (a + len x) y.
Proof.
  intros Hv Hbx Hx Hy [?|[? ?]]; [lia|]. pose proof Hv as (? & ? & Hs & Hb).
  rewrite (WriteIPA_inside v a (x ++ y)), (WriteIPA_inside v a x) by (done || (rewrite ?length_app; lia)).
  cbn [fst]. set (v' := v <| mem := overwrite (mem v) _ x |>).
  rewrite (WriteIPA_inside v').
  - f_equal. f_equal. unfold v'. destruct v as [g sz m]. cbn in *. f_equal.
    replace (Z.to_nat (a + len x - g)) with (Z.to_nat (a - g) + length x)%nat by lia.
    symmetry. apply overwrite_overwrite. lia.
  - apply vm_ok_write; [done|apply length_overwrite|by apply is_bytes_overwrite].
  - done.
  - change (GuestPhysAddr v') with (GuestPhysAddr v). lia.
  - change (GuestPhysAddr v') with (GuestPhysAddr v). change (MemorySize v') with (MemorySize v). lia.
Qed.

#[export] Instance arm64_views_ok : GuestViewsOk (option VM).
Proof.
  refine {| view_of := arm64_view_of |}; intros [v|]; try done;
    cbn [ReadIPA WriteIPA arm64_memory SliceIPA view_read view_write arm64_views mem_ok mapped arm64_memory_ok ReadIPAInto].
  - intros a n w Hv Ha Hn. by apply SliceIPA_Ok.
  - intros a n Hv Hn [?|[? ?]]; [lia|]. eexists. by apply SliceIPA_inside.
  - intros w a n Hv (? & ? & ? & ->). right. lia.
  - intros w a n (? & ? & Hs & _) (? & ? & ? & ->). cbn [fst snd]. rewrite length_sub; lia.
  - intros w a n off k Hv (? & ? & ? & ->) ? ? ?. pose proof Hv as (? & ? & Hs & _). cbn [fst snd].
    rewrite ReadIPA_inside by (done || lia). f_equal. rewrite sub_sub by lia. f_equal. lia.
  - intros w a n off bs Hv (? & ? & ? & ->) ? ? ?. cbn [fst snd].
    rewrite WriteIPA_inside by (done || lia). cbn [fst]. rewrite take_ge by lia.
    by replace (a - GuestPhysAddr v + off) with (a + off - GuestPhysAddr v) by lia.
  - intros w a n b bs _. apply WriteIPA_view.
  - intros w (? & ? & ? & ?). by apply is_bytes_sub.
  - intros w off bs Hv Hb. apply vm_ok_write; [done|apply length_overwrite|]. destruct Hv as (? & ? & ? & ?). auto with go.
  - intros a n. unfold KvmArm64.ReadIPA. destruct (Z.ltb_spec n 0); [done|].
    by destruct (Z.eqb_spec n 0) as [->|].
  - intros a n. by destruct (n <? 0).
  - intros a n (? & ? & _) ? [?|[? ?]]; lia.
  - intros a n k [?|[? ?]] ? [?|[? ?]] ?; [lia..|right; lia].
  - intros a n k [?|[? ?]] ?; [left; lia|right; lia].
  - intros a n k x y Hv Hn Hk Hx Hy Hm. destruct (arm64_read_app v a n k Hv Hn Hk Hm) as (x' & y' & Hx' & Hy' & ->).
    congruence.
  - intros a x y. apply arm64_write_app.
Defined.
