(* ===== verification/Uart8250.v ===== *)
(** The 8250 UART of src/internal/serial/uart8250.go.

    [UART] is the struct, with the output writer and the interrupt controller
    as the logs of the calls made on them ([None] is a nil interface).  Each
    method is a definition of the same name.  The theorems: a register
    invariant that every guest access and host injection preserves, which ties
    the interrupt identification register and the level last driven on the
    interrupt line to the enable and status registers; the text written to
    [out]; in-order delivery of injected bytes under any interleaving with the
    guest; the address decoding; the transmitter state after a loopback
    write. *)
From S2P Require Import Prelude.

Definition UART8250Size : Z := 0x1000.
Definition uartRegisterCount : Z := 8.
Definition uartLCRDLAB : Z := Z.shiftl 1 7.
Definition uartMCRLoop : Z := Z.shiftl 1 4.
Definition uartLSRDataReady : Z := Z.shiftl 1 0.
Definition uartLSRTHRE : Z := Z.shiftl 1 5.
Definition uartLSRTEMT : Z := Z.shiftl 1 6.

Record UART := mkUART {
  base : Z; size : Z; stride : Z;
  out : option (list Z);
  irq : option (list (Z * bool));
  irqLine : Z;
  dll : Z; dlm : Z; ier : Z; fcr : Z; lcr : Z; mcr : Z; lsr : Z;
  msrStatus : Z; msrDelta : Z; scr : Z; rbr : Z; pendingIIR : Z;
  fifoEnabled : bool; skipLF : bool;
}.

#[export] Instance eta_UART : Eta UART := λ u,
  mkUART (base u) (size u) (stride u) (out u) (irq u) (irqLine u)
    (dll u) (dlm u) (ier u) (fcr u) (lcr u) (mcr u) (lsr u)
    (msrStatus u) (msrDelta u) (scr u) (rbr u) (pendingIIR u)
    (fifoEnabled u) (skipLF u).

(** [u.out.Write(bs)] with its result dropped. *)
Definition emit (bs : list Z) (u : UART) : UART := u <| out := (λ o, o ++ bs) <$> out u |>.

(** [u.irq.SetIRQ(line, level)] with its result dropped. *)
Definition drive (line : Z) (level : bool) (u : UART) : UART :=
  u <| irq := (λ log, log ++ [(line, level)]) <$> irq u |>.

(** The cascade of [updateInterrupts]: line status, received data, transmitter
    empty, modem status, none. *)
Definition interruptID (u : UART) : Z :=
  if has (ier u) 0x04 && has (lsr u) 0x1e then 0x06
  else if has (ier u) 0x01 && has (lsr u) uartLSRDataReady then 0x04
  else if has (ier u) 0x02 && has (lsr u) uartLSRTHRE then 0x02
  else if has (ier u) 0x08 && negb (msrDelta u =? 0) then 0x00
  else 0x01.

Definition updateInterrupts (u : UART) : UART :=
  let interrupt := interruptID u in
  let u := u <| pendingIIR := interrupt |> in
  match irq u with
  | Some _ =>
    if negb (irqLine u =? 0) then drive (irqLine u) (negb (interrupt =? 0x01)) u else u
  | None => u
  end.

Definition updateModemStatus (u : UART) : UART :=
  let bitCTS := Z.shiftl 1 4 in
  let bitDSR := Z.shiftl 1 5 in
  let bitRI := Z.shiftl 1 6 in
  let bitDCD := Z.shiftl 1 7 in
  let u := u <| msrStatus := Z.lor (Z.lor bitCTS bitDSR) bitDCD |> in
  if has (mcr u) 0x04 then u <| msrStatus := Z.lor (msrStatus u) bitRI |> else u.

Definition NewUART8250 (base regShift : Z) (out : option (list Z)) : UART :=
  let stride := u64 (Z.shiftl 1 regShift) in
  let stride := if stride =? 0 then 1 else stride in
  let u := mkUART base UART8250Size stride out None 0 0 0 0 0 0 0
             (Z.lor uartLSRTHRE uartLSRTEMT) 0 0 0 0 0x01 false false in
  updateInterrupts (updateModemStatus u).

Definition AttachIRQ (log : option (list (Z * bool))) (line : Z) (u : UART) : UART :=
  updateInterrupts (u <| irq := log |> <| irqLine := line |>).

Definition Contains (u : UART) (addr size_ : Z) : bool :=
  if size_ <=? 0 then false
  else
    let end_ := u64 (addr + size_) in
    (addr >=? base u) && (end_ >? addr) && (end_ <=? u64 (base u + size u)).

Definition clearRX (u : UART) : UART :=
  updateInterrupts (u <| rbr := 0 |> <| lsr := lsr u &^ uartLSRDataReady |>).

Definition setIER (value : Z) (u : UART) : UART :=
  updateInterrupts (u <| ier := Z.land value 0x0f |>).

Definition setFCR (value : Z) (u : UART) : UART :=
  let u := if has value 0x02 then clearRX u else u in
  u <| fcr := value |> <| fifoEnabled := has value 0x01 |>.

Definition setMCR (value : Z) (u : UART) : UART :=
  let prev := mcr u in
  let u := u <| mcr := Z.land value 0x1f |> in
  let u := if has prev uartMCRLoop && negb (has (mcr u) uartMCRLoop) then clearRX u else u in
  updateInterrupts (updateModemStatus u).

Definition modemStatus (u : UART) : UART * Z :=
  (u <| msrDelta := 0 |>, Z.lor (msrStatus u) (msrDelta u)).

Definition CR : Z := 13.
Definition LF : Z := 10.

Definition transmit (value : Z) (u : UART) : UART :=
  if has (mcr u) uartMCRLoop then
    updateInterrupts (u <| rbr := value |> <| lsr := Z.lor (lsr u) uartLSRDataReady |>)
  else
    let u :=
      match out u with
      | None => u
      | Some _ =>
        if value =? CR then emit [LF] u <| skipLF := true |>
        else if value =? LF then
          if skipLF u then u <| skipLF := false |> else emit [LF] u
        else emit [value] (u <| skipLF := false |>)
      end in
    updateInterrupts (u <| lsr := Z.lor (lsr u) (Z.lor uartLSRTHRE uartLSRTEMT) |>).

Definition writeRegister (reg value : Z) (u : UART) : UART :=
  if reg =? 0 then
    if has (lcr u) uartLCRDLAB then u <| dll := value |>
    else transmit value (updateInterrupts (u <| lsr := lsr u &^ uartLSRTHRE |>))
  else if reg =? 1 then
    if has (lcr u) uartLCRDLAB then u <| dlm := value |> else setIER value u
  else if reg =? 2 then setFCR value u
  else if reg =? 3 then u <| lcr := value |>
  else if reg =? 4 then setMCR value u
  else if reg =? 7 then u <| scr := value |>
  else u.

Definition readRegister (reg : Z) (u : UART) : UART * Z :=
  if reg =? 0 then
    if has (lcr u) uartLCRDLAB then (u, dll u)
    else
      (updateInterrupts (u <| rbr := 0 |> <| lsr := lsr u &^ uartLSRDataReady |>), rbr u)
  else if reg =? 1 then
    if has (lcr u) uartLCRDLAB then (u, dlm u) else (u, ier u)
  else if reg =? 2 then (u, pendingIIR u)
  else if reg =? 3 then (u, lcr u)
  else if reg =? 4 then (u, mcr u)
  else if reg =? 5 then (u, lsr u)
  else if reg =? 6 then modemStatus u
  else if reg =? 7 then (u, scr u)
  else (u, 0).

Definition registerAt (u : UART) (addr : Z) : result Z :=
  if (addr <? base u) || (addr >=? u64 (base u + size u)) then
    Err "uart address outside range"
  else
    let offset := addr - base u in
    if negb (offset mod stride u =? 0) then Err "uart address is not register aligned"
    else
      let reg := offset / stride u in
      if reg >=? uartRegisterCount then Err "uart register index out of range"
      else Ok (u16 reg).

Definition writeByte (addr value : Z) : M UART unit :=
  u ← gets id;
  reg ← lift (registerAt u addr);
  modify (writeRegister reg value).

Definition readByte (addr : Z) : M UART Z :=
  u ← gets id;
  reg ← lift (registerAt u addr);
  total (readRegister reg).

Fixpoint Write_from (i : Z) (addr : Z) (data : list Z) : M UART unit :=
  match data with
  | [] => mret tt
  | value :: data => writeByte (u64 (addr + i)) value ;;; Write_from (i + 1) addr data
  end.
Definition Write (addr : Z) (data : list Z) : M UART unit := Write_from 0 addr data.

(** The bytes read before a failing one stay in the caller's buffer, which the
    callers discard on an error; the device state reached is kept. *)
Fixpoint Read_from (i : Z) (addr : Z) (n : nat) : M UART (list Z) :=
  match n with
  | O => mret []
  | S n =>
    value ← readByte (u64 (addr + i));
    rest ← Read_from (i + 1) addr n;
    mret (value :: rest)
  end.
Definition Read (addr : Z) (n : nat) : M UART (list Z) := Read_from 0 addr n.

Definition WriteValue (addr size_ value : Z) : M UART unit :=
  if (size_ <=? 0) || (size_ >? 8) then fail "invalid write size"
  else Write addr (take (Z.to_nat size_) (le_bytes 8 value)).

Definition ReadValue (addr size_ : Z) : M UART Z :=
  if (size_ <=? 0) || (size_ >? 8) then fail "invalid read size"
  else
    buf ← Read addr (Z.to_nat size_);
    mret (le_val (buf ++ replicate (8 - Z.to_nat size_) 0)).

Definition InjectRXByte (value : Z) (u : UART) : UART :=
  updateInterrupts (u <| rbr := value |> <| lsr := Z.lor (lsr u) uartLSRDataReady |>).

(** One turn of the polling loop of [InjectRXBytes] under the lock: the first
    pending byte enters the receive register when that is empty, otherwise the
    loop sleeps and tries again. *)
Definition injectAttempt (pending : list Z) (u : UART) : list Z * UART :=
  match pending with
  | [] => ([], u)
  | value :: rest =>
    if negb (has (lsr u) uartLSRDataReady) then
      (rest, updateInterrupts (u <| rbr := value |>
                                 <| lsr := Z.lor (lsr u) uartLSRDataReady |>))
    else (pending, u)
  end.

(** * The register invariant *)

Record regs_ok (u : UART) : Prop := {
  ok_dll : is_u8 (dll u); ok_dlm : is_u8 (dlm u); ok_ier : is_u 4 (ier u);
  ok_fcr : is_u8 (fcr u); ok_lcr : is_u8 (lcr u); ok_mcr : is_u 5 (mcr u);
  ok_lsr : is_u8 (lsr u); ok_msr : is_u8 (msrStatus u); ok_scr : is_u8 (scr u);
  ok_rbr : is_u8 (rbr u); ok_delta : msrDelta u = 0;
}.

(** The level last driven on the interrupt line is the one the interrupt
    identification register stands for. *)
Definition line_ok (u : UART) : Prop :=
  match irq u with
  | Some log => irqLine u ≠ 0 → last log = Some (irqLine u, negb (pendingIIR u =? 0x01))
  | None => True
  end.

Record wf (u : UART) : Prop := {
  wf_regs : regs_ok u;
  wf_iir : pendingIIR u = interruptID u;
  wf_line : line_ok u;
}.

(** Guest accesses, host injections and attachment, in any order. *)
Inductive step : UART → UART → Prop :=
  | step_write u u' addr data r :
      is_bytes data → Write addr data u = (u', r) → step u u'
  | step_read u u' addr n r : Read addr n u = (u', r) → step u u'
  | step_inject u v : is_u8 v → step u (InjectRXByte v u)
  | step_attempt u pending : is_bytes pending → step u (injectAttempt pending u).2
  | step_attach u log line : step u (AttachIRQ log line u).

Lemma updateInterrupts_regs u : regs_ok u → regs_ok (updateInterrupts u).
Proof.
  intros [].
  unfold updateInterrupts. cbn. destruct (irq u); [destruct (negb _)|]; constructor; cbn; auto.
Qed.

Lemma interruptID_ext u v :
  ier u = ier v → lsr u = lsr v → msrDelta u = msrDelta v → interruptID u = interruptID v.
Proof. intros He Hl Hm. unfold interruptID. by rewrite He, Hl, Hm. Qed.

Lemma updateInterrupts_wf u : regs_ok u → wf (updateInterrupts u).
Proof.
  intros Hr. split; [by apply updateInterrupts_regs|..].
  all: unfold updateInterrupts, line_ok, drive; cbn.
  all: destruct (irq u) as [log|] eqn:Hi; [destruct (irqLine u =? 0) eqn:Hz|]; cbn.
  1-3: by apply interruptID_ext.
  - by apply Z.eqb_eq in Hz.
  - intros _. by rewrite last_snoc.
  - done.
Qed.

(** An update that leaves the interrupt inputs alone keeps the invariant. *)
Lemma wf_frame u v :
  regs_ok v → ier u = ier v → lsr u = lsr v → pendingIIR u = pendingIIR v →
  irq u = irq v → irqLine u = irqLine v → wf u → wf v.
Proof.
  intros Hv He Hl Hp Hi Hline [Hu Hiir Hlev]. split; [done|..].
  - rewrite <-Hp, Hiir. apply interruptID_ext; [done..|].
    by rewrite (ok_delta _ Hu), (ok_delta _ Hv).
  - unfold line_ok in *. by rewrite <-Hi, <-Hline, <-Hp.
Qed.

#[local] Hint Resolve updateInterrupts_regs updateInterrupts_wf : go.

(** Decide [regs_ok] of a state built by field updates. *)
Ltac solve_regs :=
  match goal with
  | H : regs_ok ?u |- regs_ok _ => destruct H; constructor; cbn; eauto with go
  end.

Lemma updateModemStatus_regs u : regs_ok u → regs_ok (updateModemStatus u).
Proof. intros H. unfold updateModemStatus. cbn. destruct (has _ _); solve_regs. Qed.

Lemma clearRX_wf u : regs_ok u → wf (clearRX u).
Proof. intros H. apply updateInterrupts_wf. solve_regs. Qed.
#[local] Hint Resolve updateModemStatus_regs clearRX_wf wf_regs : go.

Lemma land_is_u w x m : 0 ≤ w → is_u w m → 0 ≤ x → is_u w (Z.land x m).
Proof. intros. rewrite Z.land_comm. by apply is_u_land. Qed.

Lemma transmit_wf v u : is_u8 v → wf u → wf (transmit v u).
Proof.
  intros Hv [Hr _ _]. unfold transmit. destruct (has _ _).
  - apply updateInterrupts_wf. solve_regs.
  - apply updateInterrupts_wf. unfold emit. destruct (out u); cbn.
    + destruct (v =? CR); [solve_regs|]. destruct (v =? LF); [destruct (skipLF u)|]; solve_regs.
    + solve_regs.
Qed.

Lemma writeRegister_wf reg v u : is_u8 v → wf u → wf (writeRegister reg v u).
Proof.
  intros Hv Hw. pose proof (wf_regs _ Hw) as Hr. assert (0 ≤ v) by (destruct Hv; lia).
  unfold writeRegister.
  destruct (reg =? 0); [|destruct (reg =? 1); [|destruct (reg =? 2); [|destruct (reg =? 3);
    [|destruct (reg =? 4); [|destruct (reg =? 7)]]]]]; [..|done].
  - destruct (has _ _).
    + eapply wf_frame, Hw; [solve_regs|done..].
    + apply transmit_wf; [done|]. apply updateInterrupts_wf. solve_regs.
  - destruct (has _ _).
    + eapply wf_frame, Hw; [solve_regs|done..].
    + apply updateInterrupts_wf. destruct Hr; constructor; cbn; auto. by apply land_is_u.
  - unfold setFCR. set (u' := if has v 2 then clearRX u else u).
    assert (wf u') as Hw' by (subst u'; destruct (has v 2); auto with go).
    pose proof (wf_regs _ Hw'). eapply wf_frame, Hw'; [solve_regs|done..].
  - eapply wf_frame, Hw; [solve_regs|done..].
  - unfold setMCR. apply updateInterrupts_wf, updateModemStatus_regs.
    assert (regs_ok (u <| mcr := Z.land v 31 |>))
      by (destruct Hr; constructor; cbn; auto; by apply land_is_u).
    destruct (_ && _); auto with go.
  - eapply wf_frame, Hw; [solve_regs|done..].
Qed.

Lemma readRegister_wf reg u : wf u → wf (readRegister reg u).1.
Proof.
  intros Hw. pose proof (wf_regs _ Hw) as Hr. unfold readRegister, modemStatus.
  repeat (destruct (_ =? _); [try destruct (has _ _); cbn; try done|]); [..|done].
  - apply updateInterrupts_wf. solve_regs.
  - eapply wf_frame, Hw; [solve_regs|done..].
Qed.

(** A multi-byte access applies its byte accesses one after the other and
    stops at the first that fails, so what every byte access preserves the
    whole access preserves. *)
Lemma Write_from_ind (P : UART → Prop) i addr data u :
  (∀ reg v u, v ∈ data → P u → P (writeRegister reg v u)) →
  P u → P (Write_from i addr data u).1.
Proof.
  revert i u. induction data as [|v data IH]; intros i u Hstep Hu; [done|].
  cbn [Write_from]. unfold writeByte, mbind, M_bind, gets, lift, modify. cbn.
  destruct (registerAt u _) as [reg| |]; cbn; [|done..].
  apply IH; [|apply Hstep; [left|done]].
  intros reg' v' u' Hin. apply Hstep. by right.
Qed.

Lemma Read_from_ind (P : UART → Prop) i addr n u :
  (∀ reg u, P u → P (readRegister reg u).1) → P u → P (Read_from i addr n u).1.
Proof.
  intros Hstep. revert i u. induction n as [|n IH]; intros i u Hu; [done|].
  cbn [Read_from]. unfold readByte, mbind, M_bind, gets, lift, total. cbn.
  destruct (registerAt u _) as [reg| |]; cbn; [|done..].
  specialize (Hstep reg u Hu). destruct (readRegister reg u) as [u' v]. cbn in *.
  specialize (IH (i + 1) u' Hstep).
  destruct (Read_from (i + 1) addr n u') as [u'' [rest| |]]; done.
Qed.

Lemma step_wf u u' : wf u → step u u' → wf u'.
Proof.
  intros Hw Hs. destruct Hs as [u u' addr data r Hd HW|u u' addr n r HR|u v Hv|u p Hp|u log line].
  - replace u' with (Write addr data u).1 by (by rewrite HW).
    apply (Write_from_ind wf); [|done]. intros reg v w Hin Hw'.
    apply writeRegister_wf; [|done]. unfold is_bytes in Hd. rewrite Forall_forall in Hd. auto.
  - replace u' with (Read addr n u).1 by (by rewrite HR).
    apply (Read_from_ind wf); [|done]. intros. by apply readRegister_wf.
  - pose proof (wf_regs _ Hw). apply updateInterrupts_wf. solve_regs.
  - pose proof (wf_regs _ Hw). destruct p as [|v p]; cbn; [done|].
    destruct (negb _); cbn; [|done]. inversion_clear Hp.
    apply updateInterrupts_wf. solve_regs.
  - pose proof (wf_regs _ Hw). apply updateInterrupts_wf. solve_regs.
Qed.

Lemma New_wf b s o : wf (NewUART8250 b s o).
Proof.
  apply updateInterrupts_wf, updateModemStatus_regs. constructor; cbn; auto with go.
Qed.

(** C33: in every state reached from a new UART by guest reads and writes, host
    injections and attachments, in any order, every register is in its width,
    the interrupt identification register is the one the enable and status
    registers call for, and the level last driven on the attached interrupt
    line is high exactly when that register reports a pending interrupt. *)
Theorem uart_interrupt_invariant (b s : Z) (o : option (list Z)) (u : UART) :
  rtc step (NewUART8250 b s o) u →
  regs_ok u ∧ pendingIIR u = interruptID u ∧ line_ok u.
Proof.
  intros Hs. cut (wf u); [intros []; auto|].
  revert Hs. generalize (New_wf b s o). generalize (NewUART8250 b s o) as u0.
  intros u0 Hw Hs. induction Hs as [|u0 u1 u2 Hs _ IH]; [done|]. eauto using step_wf.
Qed.

Lemma uart_interrupt_invariant_witness :
  let u0 := NewUART8250 0x3f8 0 (Some []) in
  let u := (Write 0x3f9 [0x02] (AttachIRQ (Some []) 4 u0)).1 in
  regs_ok u ∧ pendingIIR u = interruptID u ∧ line_ok u.
Proof.
  cbv zeta. apply (uart_interrupt_invariant 0x3f8 0 (Some [])).
  eapply rtc_l; [apply (step_attach _ (Some []) 4)|].
  eapply rtc_l; [|apply rtc_refl].
  eapply (step_write _ _ 0x3f9 [0x02]); [|vm_compute; reflexivity].
  repeat constructor; vm_compute; congruence.
Defined.

(** * The text written to the host *)

(** What a byte adds to the output given the byte before it: a carriage
    return is a line feed, a line feed that follows a carriage return is
    nothing. *)
Definition newline (prev cur : Z) : list Z :=
  if cur =? CR then [LF] else if (cur =? LF) && (prev =? CR) then [] else [cur].
Definition host_text (prev : Z) (bs : list Z) : list Z :=
  concat (zip_with newline (prev :: bs) bs).

(** Guest writes of [bs] to the transmit register, one register write each. *)
Definition transmit_all (bs : list Z) (u : UART) : UART :=
  foldl (λ u b, writeRegister 0 b u) u bs.

Definition tx_ready (u : UART) : Prop :=
  has (lcr u) uartLCRDLAB = false ∧ has (mcr u) uartMCRLoop = false.

(** [updateInterrupts] writes only the identification register and the line. *)
Lemma updateInterrupts_fields u :
  out (updateInterrupts u) = out u ∧ lcr (updateInterrupts u) = lcr u ∧
  mcr (updateInterrupts u) = mcr u ∧ skipLF (updateInterrupts u) = skipLF u ∧
  lsr (updateInterrupts u) = lsr u ∧ rbr (updateInterrupts u) = rbr u.
Proof.
  unfold updateInterrupts, drive. cbn.
  destruct (irq u); [destruct (negb _)|]; cbn; auto 10.
Qed.
Lemma ui_out u : out (updateInterrupts u) = out u.
Proof. apply updateInterrupts_fields. Qed.
Lemma ui_lcr u : lcr (updateInterrupts u) = lcr u.
Proof. apply updateInterrupts_fields. Qed.
Lemma ui_mcr u : mcr (updateInterrupts u) = mcr u.
Proof. apply updateInterrupts_fields. Qed.
Lemma ui_skipLF u : skipLF (updateInterrupts u) = skipLF u.
Proof. apply updateInterrupts_fields. Qed.
Lemma ui_lsr u : lsr (updateInterrupts u) = lsr u.
Proof. apply updateInterrupts_fields. Qed.
Lemma ui_rbr u : rbr (updateInterrupts u) = rbr u.
Proof. apply updateInterrupts_fields. Qed.
Create Rewrite HintDb uart.
#[local] Hint Rewrite ui_out ui_lcr ui_mcr ui_skipLF ui_lsr ui_rbr : uart.
Ltac uart := repeat (cbn [out irq irqLine dll dlm ier fcr lcr mcr lsr msrStatus msrDelta scr rbr
    pendingIIR fifoEnabled skipLF update fmap option_fmap option_map emit] in *;
  autorewrite with uart in * ).

Lemma transmit_spec prev b o u :
  has (mcr u) uartMCRLoop = false → out u = Some o → skipLF u = (prev =? CR) →
  lcr (transmit b u) = lcr u ∧ mcr (transmit b u) = mcr u ∧
  out (transmit b u) = Some (o ++ newline prev b) ∧ skipLF (transmit b u) = (b =? CR).
Proof.
  intros Hl Ho Hs. unfold transmit, newline. rewrite Hl, Ho.
  rewrite ui_lcr, ui_mcr, ui_out, ui_skipLF. unfold emit.
  destruct (Z.eqb_spec b CR) as [->|Hc]; cbn; [by rewrite Ho|].
  destruct (Z.eqb_spec b LF) as [->|Hf]; cbn; [|by rewrite Ho].
  rewrite Hs. destruct (prev =? CR); cbn; rewrite Ho, ?Hs; by rewrite ?app_nil_r.
Qed.

Lemma transmit_one prev b o u :
  tx_ready u → out u = Some o → skipLF u = (prev =? CR) →
  tx_ready (writeRegister 0 b u) ∧ out (writeRegister 0 b u) = Some (o ++ newline prev b) ∧
  skipLF (writeRegister 0 b u) = (b =? CR).
Proof.
  intros [Hd Hl] Ho Hs. unfold tx_ready, writeRegister. cbn [Z.eqb]. rewrite Hd.
  set (u' := u <| lsr := _ |>).
  destruct (transmit_spec prev b o (updateInterrupts u')) as (-> & -> & -> & ->).
  - by rewrite ui_mcr.
  - by rewrite ui_out.
  - by rewrite ui_skipLF.
  - by rewrite ui_lcr, ui_mcr.
Qed.

(** while the divisor latch is closed and loopback is off, the bytes the
    guest sends reach the host writer in order with carriage returns turned
    into line feeds and the line feed of a CR LF pair dropped, whatever the
    split into writes. *)
Theorem transmit_text (prev : Z) (bs o : list Z) (u : UART) :
  tx_ready u → out u = Some o → skipLF u = (prev =? CR) →
  out (transmit_all bs u) = Some (o ++ host_text prev bs).
Proof.
  revert prev o u. induction bs as [|b bs IH]; intros prev o u Hr Ho Hs.
  { cbn. by rewrite Ho, app_nil_r. }
  destruct (transmit_one prev b o u Hr Ho Hs) as (Hr' & Ho' & Hs').
  cbn [transmit_all foldl]. fold (transmit_all bs (writeRegister 0 b u)).
  rewrite (IH b _ _ Hr' Ho' Hs'). unfold host_text. cbn [zip_with concat].
  by rewrite app_assoc.
Qed.

Lemma transmit_text_witness :
  out (transmit_all [72; CR; LF; 105; LF; LF; CR] (NewUART8250 0x3f8 0 (Some [])))
  = Some [72; LF; 105; LF; LF; LF].
Proof.
  rewrite (transmit_text 0 _ []); [vm_compute; reflexivity|split; vm_compute; reflexivity|
    vm_compute; reflexivity|vm_compute; reflexivity].
Defined.

(** * In-order delivery of injected bytes *)

(** [InjectRXBytes] runs in the host while the guest polls the receive
    register.  A configuration is the UART, the bytes the host still has to
    inject and the bytes the guest has read so far. *)
Inductive rx_step : UART * list Z * list Z → UART * list Z * list Z → Prop :=
  | rx_host u pending got :
      rx_step (u, pending, got)
              ((injectAttempt pending u).2, (injectAttempt pending u).1, got)
  | rx_guest u pending got :
      has (lsr u) uartLSRDataReady = true →
      rx_step (u, pending, got)
              ((readRegister 0 u).1, pending, got ++ [(readRegister 0 u).2]).

(** The byte sitting in the receive register, if any. *)
Definition in_register (u : UART) : list Z :=
  if has (lsr u) uartLSRDataReady then [rbr u] else [].

Lemma rx_step_conserves u pending got c' :
  has (lcr u) uartLCRDLAB = false → rx_step (u, pending, got) c' →
  has (lcr c'.1.1) uartLCRDLAB = false ∧
  c'.2 ++ in_register c'.1.1 ++ c'.1.2 = got ++ in_register u ++ pending.
Proof.
  intros Hd Hs. unfold in_register. inversion Hs as [? ? ?|? ? ? Hr]; subst; cbn [fst snd].
  - destruct pending as [|v rest]; cbn [injectAttempt]; [done|].
    destruct (has (lsr u) uartLSRDataReady) eqn:Hr; cbn [negb fst snd]; [by rewrite Hr|].
    uart. rewrite Hd, has_lor_self by done. done.
  - unfold readRegister. cbn [Z.eqb]. rewrite Hd. cbn [fst snd]. uart.
    rewrite has_ldiff, Hr, Hd. by rewrite <-app_assoc.
Qed.

(** however the host's polling loop and the guest's reads of the receive
    register interleave, the bytes the guest has read, then the one in the
    register, then those not yet injected are always exactly the bytes given
    to [InjectRXBytes]: none is lost, repeated or reordered. *)
Theorem rx_in_order (u u' : UART) (data pending got : list Z) :
  has (lcr u) uartLCRDLAB = false → has (lsr u) uartLSRDataReady = false →
  rtc rx_step (u, data, []) (u', pending, got) →
  got ++ in_register u' ++ pending = data.
Proof.
  intros Hd Hr Hs.
  assert (∀ c c', rtc rx_step c c' → has (lcr c.1.1) uartLCRDLAB = false →
    c'.2 ++ in_register c'.1.1 ++ c'.1.2 = c.2 ++ in_register c.1.1 ++ c.1.2) as Hcons.
  { clear. intros c c' Hs. induction Hs as [c|c1 c2 c3 H12 _ IH]; [done|]. intros Hd.
    destruct c1 as [[u pending] got].
    destruct (rx_step_conserves u pending got c2 Hd H12) as [Hd' Heq].
    by rewrite IH, Heq. }
  specialize (Hcons _ _ Hs Hd). cbn [fst snd] in Hcons. rewrite Hcons.
  unfold in_register. by rewrite Hr.
Qed.

Lemma rx_in_order_witness :
  ∃ u' pending got, [] ≠ got ∧ got ++ in_register u' ++ pending = [1; 2; 3].
Proof.
  pose (u := NewUART8250 0x3f8 0 None).
  pose (u1 := (injectAttempt [1; 2; 3] u).2).
  pose (u2 := (readRegister 0 u1).1).
  exists (injectAttempt [2; 3] u2).2, [3], [1]. split; [done|].
  apply (rx_in_order u); [vm_compute; reflexivity|vm_compute; reflexivity|].
  eapply rtc_l; [apply rx_host|]. eapply rtc_l; [apply rx_guest; vm_compute; reflexivity|].
  eapply rtc_l; [apply rx_host|]. apply rtc_refl.
Defined.

(** * Address decoding *)

(** for a window that does not wrap the address space, an access decodes
    to register [r] exactly when its address is the [r]-th multiple of the
    stride from the base, [r] is one of the eight registers and the address is
    inside the window; every other address is an error and never reaches a
    register. *)
Theorem registerAt_decodes (u : UART) (addr r : Z) :
  0 ≤ base u → 0 ≤ size u → base u + size u < 2^64 → 0 < stride u →
  registerAt u addr = Ok r ↔
  0 ≤ r < uartRegisterCount ∧ addr = base u + r * stride u ∧ r * stride u < size u.
Proof.
  intros Hb Hs Hw Hst. unfold registerAt, uartRegisterCount.
  rewrite u64_small by (unfold is_u; lia). split.
  - destruct (_ || _) eqn:Hr; [done|]. apply orb_false_iff in Hr as [Hlo Hhi].
    apply Z.ltb_ge in Hlo. rewrite Z.geb_leb in Hhi. apply Z.leb_gt in Hhi.
    destruct (Z.eqb_spec ((addr - base u) mod stride u) 0) as [Hm|]; [|done].
    pose proof (Z.div_mod (addr - base u) (stride u)).
    assert (0 ≤ (addr - base u) / stride u) by (apply Z.div_pos; lia).
    cbn [negb]. rewrite Z.geb_leb. destruct (Z.leb_spec 8 ((addr - base u) / stride u)); [done|].
    intros [= <-]. rewrite u16_small by (unfold is_u; lia). lia.
  - intros ([Hr0 Hr8] & -> & Hlt).
    destruct (Z.ltb_spec (base u + r * stride u) (base u)); [nia|].
    rewrite Z.geb_leb. destruct (Z.leb_spec (base u + size u) (base u + r * stride u)); [lia|].
    cbn [orb]. replace (base u + r * stride u - base u) with (r * stride u) by lia.
    rewrite Z.mod_mul, Z.div_mul by lia. cbn [Z.eqb negb]. rewrite Z.geb_leb.
    destruct (Z.leb_spec 8 r); [lia|]. by rewrite u16_small by (unfold is_u; lia).
Qed.

Lemma registerAt_decodes_witness :
  registerAt (NewUART8250 0x10000000 2 None) 0x10000014 = Ok 5.
Proof.
  apply (registerAt_decodes (NewUART8250 0x10000000 2 None) 0x10000014 5);
    vm_compute; try congruence; repeat split; congruence.
Defined.

(** * The transmitter after a loopback write *)

(** A driver that respects the transmitter-holding-register-empty bit: it
    writes the transmit register only while the bit is set, and is otherwise
    free to read and write registers. *)
Inductive polite : UART → UART → Prop :=
  | polite_read u reg : polite u (readRegister reg u).1
  | polite_write u reg v :
      (reg = 0 → has (lcr u) uartLCRDLAB = false → has (lsr u) uartLSRTHRE = true) →
      polite u (writeRegister reg v u)
  | polite_inject u v : polite u (InjectRXByte v u).

Lemma has_thre_lor_dr x : has (Z.lor x uartLSRDataReady) uartLSRTHRE = has x uartLSRTHRE.
Proof. unfold uartLSRTHRE. rewrite !has_bit, Z.lor_spec by lia. by rewrite orb_false_r. Qed.
Lemma has_thre_ldiff_dr x : has (x &^ uartLSRDataReady) uartLSRTHRE = has x uartLSRTHRE.
Proof. unfold uartLSRTHRE. rewrite !has_bit, Z.ldiff_spec by lia. by rewrite andb_true_r. Qed.
Lemma ums_lsr u : lsr (updateModemStatus u) = lsr u.
Proof. unfold updateModemStatus. cbn. by destruct (has _ _). Qed.
#[local] Hint Rewrite has_thre_lor_dr has_thre_ldiff_dr ums_lsr : uart.

Lemma polite_thre u v :
  polite u v → has (lsr u) uartLSRTHRE = false → has (lsr v) uartLSRTHRE = false.
Proof.
  intros Hp Hu. destruct Hp as [u reg|u reg b Hok|u b].
  - unfold readRegister, modemStatus.
    repeat (destruct (_ =? _); [try destruct (has (lcr u) _); cbn [fst]; uart; done|]). done.
  - unfold writeRegister. destruct (Z.eqb_spec reg 0) as [->|Hne].
    { destruct (has (lcr u) uartLCRDLAB); [done|]. specialize (Hok eq_refl eq_refl). congruence. }
    unfold setIER, setFCR, setMCR, clearRX.
    repeat (destruct (_ =? _); [bool_cases; uart; done|]). done.
  - unfold InjectRXByte. uart. done.
Qed.

(** one byte written in loopback mode leaves the transmitter-empty bit
    clear for good as far as a driver that waits for the bit is concerned:
    no sequence of its register accesses and of host injections sets it
    again, leaving loopback mode included. *)
Theorem loopback_blocks_transmitter (u v : UART) (b : Z) :
  has (lcr u) uartLCRDLAB = false → has (mcr u) uartMCRLoop = true →
  rtc polite (writeRegister 0 b u) v → has (lsr v) uartLSRTHRE = false.
Proof.
  intros Hd Hl Hs.
  assert (has (lsr (writeRegister 0 b u)) uartLSRTHRE = false) as H0.
  { unfold writeRegister. cbn [Z.eqb]. rewrite Hd. set (u' := u <| lsr := _ |>).
    unfold transmit. rewrite ui_mcr. change (mcr u') with (mcr u). rewrite Hl, ui_lsr.
    cbn [lsr update]. rewrite has_thre_lor_dr, ui_lsr. apply has_ldiff. }
  revert H0. induction Hs as [|x y z Hxy _ IH]; [done|]. eauto using polite_thre.
Qed.

Lemma loopback_blocks_transmitter_witness :
  let u := writeRegister 4 0x10 (NewUART8250 0x3f8 0 (Some [])) in
  has (lsr (writeRegister 4 0 (writeRegister 0 0x55 u))) uartLSRTHRE = false.
Proof.
  cbv zeta. apply (loopback_blocks_transmitter (writeRegister 4 0x10 (NewUART8250 0x3f8 0 (Some []))) _ 0x55);
    [vm_compute; reflexivity|vm_compute; reflexivity|].
  eapply rtc_l; [apply (polite_write _ 4 0); intros H; discriminate H|apply rtc_refl].
Defined.
