(* ===== verification/VirtQueue.v ===== *)
(** Split virtqueues: src/internal/virtio/queue_io.go, the [queue] and
    [descriptor] structs of console.go and the queue part of state.go.

    A queue is the driver's descriptor table, available ring and used ring in
    guest memory.  The definitions are the Go functions over any memory with
    the [GuestMemory] operations.  The theorems: walking a descriptor chain
    returns exactly the chain the driver built, and reports a loop only when
    no finite chain exists; a request is the driver's readable bytes; a
    response reads back from the writable buffers; a used-ring entry reads
    back and the index advances modulo 2^16; the queue part of a snapshot
    restores. *)
From S2P Require Import Prelude KvmArm64 GuestMemory.

Definition descFNext : Z := 1.
Definition descFWrite : Z := 2.
Definition maxQueueRequestBytes : Z := Z.shiftl 1 20.

(** The cached slices alias guest memory: guest address and length. *)
Record queue := mkQueue {
  size : Z; ready : bool;
  descAddr : Z; availAddr : Z; usedAddr : Z;
  lastAvailIdx : Z; usedIdx : Z;
  noNotify : bool;
  descMem : option (Z * Z); availMem : option (Z * Z); usedMem : option (Z * Z);
}.
#[export] Instance eta_queue : Eta queue := λ q,
  mkQueue (size q) (ready q) (descAddr q) (availAddr q) (usedAddr q) (lastAvailIdx q)
    (usedIdx q) (noNotify q) (descMem q) (availMem q) (usedMem q).

(** The zero value [queue{}]. *)
Definition queue0 : queue := mkQueue 0 false 0 0 0 0 0 false None None None.

Definition clearCache (q : queue) : queue :=
  q <| descMem := None |> <| availMem := None |> <| usedMem := None |>.

Record descriptor := mkDescriptor { addr : Z; length_ : Z; flags : Z; next : Z }.
Record queueBuffer := mkBuffer { baddr : Z; blength : Z; bwrite : bool }.

(** The 16 bytes of a descriptor table entry. *)
Definition decode_descriptor (raw : list Z) : descriptor := {|
  addr := le_val (sub raw 0 8);
  length_ := le_val (sub raw 8 4);
  flags := le_val (sub raw 12 2);
  next := le_val (sub raw 14 2);
|}.

Definition buffer_of (d : descriptor) : queueBuffer :=
  mkBuffer (addr d) (length_ d) (has (flags d) descFWrite).

Section operations.
Context {T : Type} `{!GuestMemory T}.
Implicit Types mem : T.

(** A descriptor index in range reads its table entry. *)
Definition readDescriptor mem (q : queue) (index : Z) : result descriptor :=
  if index >=? size q then Err "descriptor index out of range"
  else raw ← ReadIPA mem (u64 (descAddr q + index * 16)) 16; Ok (decode_descriptor raw).

Definition readQueueDescriptor mem (q : option queue) (index : Z) : result descriptor :=
  match q with
  | None => Err "virtio descriptor index out of range"
  | Some q =>
    if (size q =? 0) || (index >=? size q) then Err "virtio descriptor index out of range"
    else raw ← ReadIPA mem (u64 (descAddr q + index * 16)) 16; Ok (decode_descriptor raw)
  end.

(** The loop of [readQueueChain] with [n] turns left. *)
Fixpoint readChain_loop (n : nat) mem (q : queue) (index : Z) (out : list queueBuffer)
    : result (list queueBuffer) :=
  match n with
  | O => Err "virtio descriptor chain loop"
  | S n =>
    desc ← readQueueDescriptor mem (Some q) index;
    let out := out ++ [buffer_of desc] in
    if negb (has (flags desc) descFNext) then Ok out
    else readChain_loop n mem q (next desc) out
  end.
Definition readQueueChain (mem : option T) (q : queue) (head : Z) : result (list queueBuffer) :=
  match mem with
  | None => Err "virtio queue has no guest memory"
  | Some mem => readChain_loop (Z.to_nat (size q)) mem q head []
  end.

(** The loop of the [readChainLocked] of console.go and of vsock.go with [n]
    turns left; the two differ in the text of the error. *)
Fixpoint readChain_turns (looped : string) (n : nat) mem (q : queue) (index : Z) (out : list Z)
    : result (list Z) :=
  match n with
  | O => Err looped
  | S n =>
    desc ← readDescriptor mem q index;
    out ← (if negb (has (flags desc) descFWrite) && (length_ desc >? 0)
           then chunk ← ReadIPA mem (addr desc) (length_ desc); Ok (out ++ chunk)
           else Ok out);
    if negb (has (flags desc) descFNext) then Ok out
    else readChain_turns looped n mem q (next desc) out
  end.

Definition maxInt : Z := 2^63 - 1.

(** First pass of [readQueueRequest]: the number of readable bytes. *)
Fixpoint request_total (buffers : list queueBuffer) (total : Z) (sawWritable : bool)
    : result Z :=
  match buffers with
  | [] => Ok total
  | b :: rest =>
    if bwrite b then request_total rest total true
    else if sawWritable then Err "virtio readable descriptor follows writable descriptor"
    else
      let total := u64 (total + blength b) in
      if total >? maxInt then Err "virtio request is too large"
      else if total >? maxQueueRequestBytes then Err "virtio request exceeds the maximum"
      else request_total rest total sawWritable
  end.

(** Second pass: fill the buffer from the readable descriptors. *)
Fixpoint request_fill mem (buffers : list queueBuffer) (out : list Z) (offset : nat)
    : result (list Z) :=
  match buffers with
  | [] => Ok out
  | b :: rest =>
    if bwrite b then Ok out
    else if blength b =? 0 then request_fill mem rest out offset
    else
      raw ← ReadIPA mem (baddr b) (blength b);
      request_fill mem rest (overwrite out offset raw) (offset + length raw)
  end.

Definition readQueueRequest mem (buffers : list queueBuffer) : result (list Z) :=
  total ← request_total buffers 0 false;
  if total =? 0 then Err "virtio request has no readable bytes"
  else request_fill mem buffers (replicate (Z.to_nat total) 0) 0.

(** The loop of [writeQueueResponse]: memory, bytes written, and whether a
    write failed. *)
Fixpoint response_loop mem (buffers : list queueBuffer) (data : list Z) (offset : nat)
    : T * nat * result unit :=
  match buffers with
  | [] => (mem, offset, Ok tt)
  | b :: rest =>
    if negb (bwrite b) || (blength b =? 0) then response_loop mem rest data offset
    else
      let count := len data - Z.of_nat offset in
      if count <=? 0 then (mem, offset, Ok tt)
      else
        let count := if count >? blength b then blength b else count in
        match WriteIPA mem (baddr b) (sub data offset (Z.to_nat count)) with
        | (mem, Ok _) => response_loop mem rest data (offset + Z.to_nat count)
        | (mem, e) => (mem, offset, e)
        end
  end.
Definition writeQueueResponse mem (buffers : list queueBuffer) (data : list Z)
    : T * Z * result unit :=
  let '(mem, offset, r) := response_loop mem buffers data 0 in
  match r with
  | Ok _ =>
    if negb (Nat.eqb offset (length data))
    then (mem, u32 (Z.of_nat offset), Err "virtio response needs more writable bytes")
    else (mem, u32 (Z.of_nat offset), Ok tt)
  | e => (mem, u32 (Z.of_nat offset), e)
  end.

Definition readAvailableIndex mem (q : queue) : result Z :=
  raw ← ReadIPA mem (u64 (availAddr q + 2)) 2; Ok (le_val raw).

Definition readAvailableHead mem (q : queue) (index : Z) : result Z :=
  if size q =? 0 then Panic
  else
    raw ← ReadIPA mem (u64 (availAddr q + 4 + (index mod size q) * 2)) 2; Ok (le_val raw).

(** The used-ring element and index updates; [%] by a zero size panics. *)
Definition writeQueueUsed mem (q : queue) (head usedLen : Z) : T * queue * result unit :=
  if size q =? 0 then (mem, q, Panic)
  else
    let slot := usedIdx q mod size q in
    let raw := le_bytes 4 (u32 head) ++ le_bytes 4 usedLen in
    match WriteIPA mem (u64 (usedAddr q + 4 + slot * 8)) raw with
    | (mem, Ok _) =>
      let q := q <| usedIdx := u16 (usedIdx q + 1) |> in
      let '(mem, r) := WriteIPA mem (u64 (usedAddr q + 2)) (le_bytes 2 (usedIdx q)) in
      (mem, q, r)
    | (mem, e) => (mem, q, e)
    end.
End operations.

(** * Snapshots of queues, state.go *)

Record QueueState := mkQueueState {
  Size : Z; Ready : bool; DescAddr : Z; AvailAddr : Z; UsedAddr : Z;
  LastAvailIdx : Z; UsedIdx : Z; NoNotify : bool;
}.

Definition snapshotQueue (q : queue) : QueueState :=
  mkQueueState (size q) (ready q) (descAddr q) (availAddr q) (usedAddr q)
    (lastAvailIdx q) (usedIdx q) (noNotify q).
Definition snapshotQueues (queues : list queue) : list QueueState := snapshotQueue <$> queues.

(** [hasMem] is [mem != nil]. *)
Definition restoreQueue (q : queue) (state : QueueState) (hasMem : bool) : queue :=
  let q := q <| size := Size state |> <| ready := Ready state |>
             <| descAddr := DescAddr state |> <| availAddr := AvailAddr state |>
             <| usedAddr := UsedAddr state |> <| lastAvailIdx := LastAvailIdx state |>
             <| usedIdx := UsedIdx state |> <| noNotify := NoNotify state |> in
  let q := clearCache q in
  if negb (ready q) || (size q =? 0) || negb hasMem
  then q <| lastAvailIdx := 0 |> <| usedIdx := 0 |> else q.

(** A queue with no recorded state is reset to the zero value. *)
Fixpoint restoreQueues (queues : list queue) (states : list QueueState) (hasMem : bool)
    : list queue :=
  match queues, states with
  | [], _ => []
  | _ :: queues, [] => queue0 :: restoreQueues queues [] hasMem
  | q :: queues, s :: states => restoreQueue q s hasMem :: restoreQueues queues states hasMem
  end.

(** * Descriptor chains *)

Section chains.
Context {T : Type} `{!GuestMemory T}.
Implicit Types mem : T.

(** [chain mem q i bs]: the descriptors linked from index [i], up to one
    without the NEXT flag, describe the buffers [bs]. *)
Inductive chain mem (q : queue) : Z → list queueBuffer → Prop :=
  | chain_last i d :
      readQueueDescriptor mem (Some q) i = Ok d → has (flags d) descFNext = false →
      chain mem q i [buffer_of d]
  | chain_next i d bs :
      readQueueDescriptor mem (Some q) i = Ok d → has (flags d) descFNext = true →
      chain mem q (next d) bs → chain mem q i (buffer_of d :: bs).

Lemma chain_det mem q i bs bs' : chain mem q i bs → chain mem q i bs' → bs = bs'.
Proof.
  intros Hc. revert bs'. induction Hc as [i d Hd Hf|i d bs Hd Hf _ IH]; intros bs' Hc';
    inversion Hc' as [? d' Hd' Hf'|? d' bs'' Hd' Hf' Hrest]; subst;
    rewrite Hd in Hd'; injection Hd' as <-; [done|congruence|congruence|].
  f_equal. by apply IH.
Qed.

Lemma readQueueDescriptor_range mem q i d :
  readQueueDescriptor mem (Some q) i = Ok d → i < size q.
Proof.
  unfold readQueueDescriptor. destruct (_ || _) eqn:E; [done|].
  apply orb_false_iff in E as [_ E]. rewrite Z.geb_leb in E. apply Z.leb_gt in E. lia.
Qed.

Lemma next_nonneg mem q i d :
  (∀ a n bs, ReadIPA mem a n = Ok bs → is_bytes bs) →
  readQueueDescriptor mem (Some q) i = Ok d → 0 ≤ next d.
Proof.
  intros Hb. unfold readQueueDescriptor. destruct (_ || _); [done|].
  destruct (ReadIPA _ _ _) as [raw| |] eqn:E; [|done..]. cbn. intros [= <-]. cbn.
  apply le_val_bound, is_bytes_sub. eauto.
Qed.

Lemma length_u32 mem q i d :
  (∀ a n bs, ReadIPA mem a n = Ok bs → is_bytes bs) →
  readQueueDescriptor mem (Some q) i = Ok d → is_u32 (length_ d).
Proof.
  intros Hb. unfold readQueueDescriptor. destruct (_ || _); [done|].
  destruct (ReadIPA _ _ _) as [raw| |] eqn:E; [|done..]. cbn. intros [= <-]. cbn.
  destruct (le_val_bound (sub raw 8 4)) as [Hlo Hhi]; [apply is_bytes_sub; eauto|].
  split; [done|]. eapply Z.lt_le_trans; [done|]. change (2^32) with (256^4).
  apply Z.pow_le_mono_r; [lia|]. unfold sub. rewrite length_take. lia.
Qed.

(** The two descriptor readers agree on what they accept. *)
Lemma readDescriptor_Ok mem q i d :
  readQueueDescriptor mem (Some q) i = Ok d → readDescriptor mem q i = Ok d.
Proof.
  unfold readQueueDescriptor, readDescriptor. by destruct (size q =? 0), (i >=? size q).
Qed.

(** The indices visited, all in range; the chain from each of them is a
    suffix. *)
Lemma chain_indices mem q i bs :
  (∀ a n bs, ReadIPA mem a n = Ok bs → is_bytes bs) → 0 ≤ i →
  chain mem q i bs →
  ∃ js, length js = length bs ∧
    ∀ k j, js !! k = Some j → 0 ≤ j < size q ∧ chain mem q j (drop k bs).
Proof.
  intros Hb Hi. induction 1 as [i d Hd Hf|i d bs Hd Hf Hc IH].
  - exists [i]. split; [done|]. intros [|k] j; cbn; [|done]. intros [= <-].
    split; [split; [done|by eapply readQueueDescriptor_range]|by constructor].
  - destruct IH as (js & Hl & IH); [by eapply next_nonneg|].
    exists (i :: js). split; [cbn; by rewrite Hl|]. intros [|k] j; cbn; [|apply IH].
    intros [= <-]. split; [split; [done|by eapply readQueueDescriptor_range]|].
    by eapply chain_next.
Qed.

(** A chain cannot be longer than the table: otherwise two of its positions
    would have the same index, hence the same remaining chain, although
    their remaining lengths differ. *)
Lemma chain_length mem q i bs :
  (∀ a n bs, ReadIPA mem a n = Ok bs → is_bytes bs) → 0 ≤ i →
  chain mem q i bs → (length bs ≤ Z.to_nat (size q))%nat.
Proof.
  intros Hb Hi Hc. destruct (chain_indices mem q i bs Hb Hi Hc) as (js & Hl & Hjs).
  rewrite <-Hl. rewrite <-(length_seqZ 0 (size q)). apply submseteq_length.
  apply NoDup_submseteq.
  - apply NoDup_alt. intros k k' j Hk Hk'.
    destruct (Hjs _ _ Hk) as [_ C], (Hjs _ _ Hk') as [_ C'].
    pose proof (f_equal length (chain_det mem q j _ _ C C')) as Hlen.
    apply lookup_lt_Some in Hk, Hk'. rewrite !length_drop in Hlen. lia.
  - intros j Hj. apply list_elem_of_lookup in Hj as [k Hk].
    apply elem_of_seqZ. destruct (Hjs _ _ Hk). lia.
Qed.

Lemma readChain_sound n mem q i out bs :
  readChain_loop n mem q i out = Ok bs → ∃ bs', bs = out ++ bs' ∧ chain mem q i bs'.
Proof.
  revert i out. induction n as [|n IH]; intros i out; [done|]. cbn [readChain_loop].
  destruct (readQueueDescriptor _ _ _) as [d| |] eqn:Hd; [|done..]. cbn.
  destruct (has (flags d) descFNext) eqn:Hf; cbn.
  - intros H. apply IH in H as (bs' & -> & Hc). exists (buffer_of d :: bs').
    rewrite <-app_assoc. split; [done|by eapply chain_next].
  - intros [= <-]. eexists. split; [done|by constructor].
Qed.

Lemma readChain_complete n mem q i out bs :
  chain mem q i bs → (length bs ≤ n)%nat → readChain_loop n mem q i out = Ok (out ++ bs).
Proof.
  intros Hc. revert n out. induction Hc as [i d Hd Hf|i d bs Hd Hf _ IH]; intros n out Hn;
    destruct n as [|n]; cbn [length] in Hn; try lia; cbn [readChain_loop]; rewrite Hd; cbn;
    rewrite Hf; cbn; [done|].
  rewrite IH by lia. by rewrite <-app_assoc.
Qed.
End chains.

(** C7: [readQueueChain] returns a list of buffers exactly when it is the
    finite chain linked from the head, and however the guest fills the table
    a finite chain is never rejected: the bound of one turn per table entry is
    exact, and the loop error means that no finite chain exists. *)
Theorem readQueueChain_correct {T} `{GuestMemoryOk T} (mem : T) (q : queue) (head : Z)
    (bufs : list queueBuffer) :
  mem_ok mem → 0 ≤ head →
  (readQueueChain (Some mem) q head = Ok bufs ↔ chain mem q head bufs) ∧
  (readQueueChain (Some mem) q head = Err "virtio descriptor chain loop" →
   ∀ bs, ¬ chain mem q head bs).
Proof.
  intros Hm Hh. pose proof (reads_bytes mem Hm) as Hb.
  assert (∀ bs, chain mem q head bs → readQueueChain (Some mem) q head = Ok bs) as Hcomp.
  { intros bs Hc. unfold readQueueChain.
    rewrite (readChain_complete _ _ _ _ _ _ Hc); [done|by eapply chain_length]. }
  split; [split|].
  - intros Hr. by apply readChain_sound in Hr as (bs' & -> & Hc).
  - apply Hcomp.
  - intros Hl bs Hc. apply Hcomp in Hc. congruence.
Qed.

(** A 96-byte guest: two linked descriptors at address 0, a readable buffer at
    64 and a writable one at 80. *)
Definition demo_table : list Z :=
  le_bytes 8 64 ++ le_bytes 4 4 ++ le_bytes 2 descFNext ++ le_bytes 2 1 ++
  le_bytes 8 80 ++ le_bytes 4 8 ++ le_bytes 2 descFWrite ++ le_bytes 2 0.
Definition demo_mem : option VM :=
  Some (mkVM 0 96 (demo_table ++ replicate 32 0 ++ [10; 11; 12; 13] ++ replicate 28 0)).
Definition demo_queue : queue := queue0 <| size := 2 |> <| ready := true |>.

Lemma demo_mem_ok : mem_ok demo_mem.
Proof.
  split_and!; [done|done|done|]. apply (bool_decide_unpack _). vm_compute. done.
Qed.

Lemma readQueueChain_correct_witness :
  chain demo_mem demo_queue 0 [mkBuffer 64 4 false; mkBuffer 80 8 true].
Proof.
  apply (readQueueChain_correct demo_mem demo_queue 0); [apply demo_mem_ok|done|].
  vm_compute. reflexivity.
Defined.

(** * Requests *)

Fixpoint sum_len (bs : list queueBuffer) : Z :=
  match bs with [] => 0 | b :: bs => blength b + sum_len bs end.
Definition lengths_ok (bs : list queueBuffer) : Prop := Forall (λ b, is_u32 (blength b)) bs.

Lemma sum_len_nonneg bs : lengths_ok bs → 0 ≤ sum_len bs.
Proof. induction 1 as [|b bs [? ?] _ IH]; cbn; lia. Qed.

Lemma request_total_writable bs total t :
  request_total bs total true = Ok t ↔ Forall bwrite bs ∧ t = total.
Proof.
  induction bs as [|b bs IH]; cbn.
  { split; [intros [= <-]; auto|by intros [_ ->]]. }
  rewrite Forall_cons. destruct (bwrite b) eqn:E.
  - rewrite IH. split; [intros [? ->]; auto|intros [[_ ?] ->]; auto].
  - split; [done|by intros [[[] _] _]].
Qed.

Lemma request_total_spec bs total t :
  lengths_ok bs → 0 ≤ total ≤ maxQueueRequestBytes →
  request_total bs total false = Ok t ↔
  ∃ rs ws, bs = rs ++ ws ∧ Forall (λ b, bwrite b = false) rs ∧ Forall bwrite ws ∧
    t = total + sum_len rs ∧ t ≤ maxQueueRequestBytes.
Proof.
  intros Hl. revert total. induction Hl as [|b bs [Hb0 Hb] Hl IH]; intros total Ht; cbn.
  - split.
    + intros [= <-]. exists [], []. cbn. split_and!; auto; lia.
    + intros ([|] & [|] & ? & _ & _ & -> & _); try done. cbn. f_equal. lia.
  - destruct (bwrite b) eqn:E.
    + rewrite request_total_writable. split.
      * intros [Hw ->]. exists [], (b :: bs). cbn.
        split_and!; [done|done|constructor; [by rewrite E|done]|lia|lia].
      * intros ([|r rs] & ws & Heq & Hr & Hw & -> & _); cbn in *.
        { subst ws. rewrite Forall_cons in Hw. split; [apply Hw|lia]. }
        injection Heq as <- ->. apply Forall_cons in Hr as [Hr _]. congruence.
    + change maxQueueRequestBytes with (2^20) in *. unfold maxInt in *.
      rewrite u64_small by (unfold is_u; lia). rewrite !Z.gtb_ltb.
      destruct (Z.ltb_spec (2^63 - 1) (total + blength b)); [lia|].
      destruct (Z.ltb_spec (2^20) (total + blength b)).
      { split; [done|]. intros ([|r rs] & ws & Heq & Hr & Hw & -> & Hle); cbn in *.
        - subst ws. apply Forall_cons in Hw as [Hw _]. by rewrite E in Hw.
        - injection Heq as <- ->. apply Forall_app in Hl as [Hl _].
          pose proof (sum_len_nonneg rs Hl). lia. }
      rewrite IH by lia. split.
      * intros (rs & ws & -> & Hr & Hw & -> & Hle). exists (b :: rs), ws. cbn.
        split_and!; auto; lia.
      * intros ([|r rs] & ws & Heq & Hr & Hw & -> & Hle); cbn in *.
        { subst ws. apply Forall_cons in Hw as [Hw _]. by rewrite E in Hw. }
        injection Heq as <- ->. apply Forall_cons in Hr as [_ Hr].
        exists rs, ws. split_and!; auto; lia.
Qed.

Section requests.
Context {T : Type} `{GuestMemoryOk T}.
Implicit Types mem : T.

(** The bytes of one readable buffer. *)
Definition read_buffer mem (b : queueBuffer) : result (list Z) :=
  if blength b =? 0 then Ok [] else ReadIPA mem (baddr b) (blength b).

Lemma request_fill_spec mem rs ws pre :
  mem_ok mem → lengths_ok rs → Forall (λ b, bwrite b = false) rs → Forall bwrite ws →
  request_fill mem (rs ++ ws) (pre ++ replicate (Z.to_nat (sum_len rs)) 0) (length pre) =
    parts ← mapM (read_buffer mem) rs; Ok (pre ++ concat parts).
Proof.
  intros Hm Hl Hr Hw. revert pre. induction Hl as [|b rs [Hb0 Hb] Hl IH]; intros pre.
  - cbn. destruct ws as [|w ws]; [done|]. cbn.
    apply Forall_cons in Hw as [Hw _]. by destruct (bwrite w).
  - apply Forall_cons in Hr as [Hb' Hr]. specialize (IH Hr).
    pose proof (sum_len_nonneg rs Hl). cbn [app request_fill sum_len].
    rewrite Hb', mapM_result_cons. unfold read_buffer at 1. unfold mbind, result_bind in *.
    destruct (Z.eqb_spec (blength b) 0) as [E|E].
    { rewrite E, Z.add_0_l, IH. by destruct (mapM _ rs). }
    destruct (ReadIPA mem (baddr b) (blength b)) as [raw| |] eqn:Hraw; [|done..].
    apply read_length in Hraw; [|done|lia].
    rewrite Z2Nat.inj_add, replicate_add by lia.
    replace (overwrite _ (length pre) raw)
      with ((pre ++ raw) ++ replicate (Z.to_nat (sum_len rs)) 0).
    + rewrite <-length_app, IH. destruct (mapM _ rs); [|done..].
      cbn [concat]. by rewrite <-app_assoc.
    + unfold overwrite. rewrite take_app_length, <-app_assoc. f_equal.
      rewrite !length_app, !length_replicate, take_ge by lia. f_equal.
      rewrite drop_app_ge by lia. rewrite drop_app_ge by (rewrite length_replicate; lia).
      rewrite length_replicate. by replace (_ - _ - _)%nat with 0%nat by lia.
Qed.
End requests.

(** C13: a request is read successfully exactly when the buffers are readable
    ones followed by writable ones, the readable ones hold between one byte
    and one mebibyte in all, and each of them can be read; the request is then
    their bytes in order. *)
Theorem readQueueRequest_correct {T} `{GuestMemoryOk T} (mem : T) (bufs : list queueBuffer)
    (out : list Z) :
  mem_ok mem → lengths_ok bufs →
  readQueueRequest mem bufs = Ok out ↔
  ∃ rs ws parts, bufs = rs ++ ws ∧
    Forall (λ b, bwrite b = false) rs ∧ Forall bwrite ws ∧
    0 < sum_len rs ≤ maxQueueRequestBytes ∧
    mapM (read_buffer mem) rs = Ok parts ∧ out = concat parts.
Proof.
  intros Hm Hl. unfold readQueueRequest.
  assert (0 ≤ 0 ≤ maxQueueRequestBytes) as Hz by (vm_compute; intuition congruence).
  split.
  - destruct (request_total _ _ _) as [t| |] eqn:Ht; [|done..]. cbn.
    apply request_total_spec in Ht as (rs & ws & -> & Hr & Hw & -> & Hle); [|done..].
    apply Forall_app in Hl as [Hl _]. pose proof (sum_len_nonneg rs Hl).
    destruct (Z.eqb_spec (0 + sum_len rs) 0); [done|].
    pose proof (request_fill_spec mem rs ws [] Hm Hl Hr Hw) as Hf. cbn [app length] in Hf.
    rewrite Z.add_0_l, Hf. destruct (mapM _ rs) as [parts| |] eqn:Hp; cbn; [|done..].
    intros [= <-]. exists rs, ws, parts. split_and!; auto; lia.
  - intros (rs & ws & parts & -> & Hr & Hw & [Hpos Hle] & Hp & ->).
    assert (request_total (rs ++ ws) 0 false = Ok (0 + sum_len rs)) as ->.
    { apply request_total_spec; [done..|]. exists rs, ws. split_and!; auto; lia. }
    cbn [mbind result_bind]. destruct (Z.eqb_spec (0 + sum_len rs) 0); [lia|].
    apply Forall_app in Hl as [Hl _].
    pose proof (request_fill_spec mem rs ws [] Hm Hl Hr Hw) as Hf. cbn [app length] in Hf.
    rewrite Z.add_0_l, Hf, Hp. done.
Qed.

Lemma readQueueRequest_correct_witness :
  ∃ rs ws parts, [mkBuffer 64 4 false; mkBuffer 80 8 true] = rs ++ ws ∧
    Forall (λ b, bwrite b = false) rs ∧ Forall bwrite ws ∧
    0 < sum_len rs ≤ maxQueueRequestBytes ∧
    mapM (read_buffer demo_mem) rs = Ok parts ∧ [10; 11; 12; 13] = concat parts.
Proof.
  apply (readQueueRequest_correct demo_mem); [apply demo_mem_ok| |vm_compute; reflexivity].
  repeat constructor; vm_compute; congruence.
Defined.

(** * Responses *)

(** The bytes the device may write. *)
Fixpoint room (bs : list queueBuffer) : Z :=
  match bs with [] => 0 | b :: bs => (if bwrite b then blength b else 0) + room bs end.

(** No writable buffer meets the [n] bytes at [a]. *)
Definition clear_of (a n : Z) (bs : list queueBuffer) : Prop :=
  Forall (λ b, bwrite b → a + n ≤ baddr b ∨ baddr b + blength b ≤ a) bs.
Fixpoint separate (bs : list queueBuffer) : Prop :=
  match bs with
  | [] => True
  | b :: bs => (bwrite b → clear_of (baddr b) (blength b) bs) ∧ separate bs
  end.

Lemma room_nonneg bs : lengths_ok bs → 0 ≤ room bs.
Proof. induction 1 as [|b bs [? ?] _ IH]; cbn; [lia|]. destruct (bwrite b); lia. Qed.

Section responses.
Context {T : Type} `{GuestMemoryOk T}.
Implicit Types mem : T.

Definition backed mem (bs : list queueBuffer) : Prop :=
  Forall (λ b, bwrite b → mapped mem (baddr b) (blength b)) bs.

(** What the driver finds when it reads [n] response bytes from the writable
    buffers. *)
Fixpoint gather mem (bs : list queueBuffer) (n : nat) : result (list Z) :=
  match bs with
  | [] => Ok []
  | b :: bs =>
    if negb (bwrite b) || (blength b =? 0) || (n =? 0)%nat then gather mem bs n
    else
      raw ← ReadIPA mem (baddr b) (Z.min (blength b) (Z.of_nat n));
      rest ← gather mem bs (n - Z.to_nat (blength b));
      Ok (raw ++ rest)
  end.

Lemma gather_0 mem bs : gather mem bs 0 = Ok [].
Proof. induction bs as [|b bs IH]; [done|]. cbn. by rewrite orb_true_r. Qed.

(** [mem'] is [mem] with some of the writable buffers [bs] rewritten. *)
Definition rewritten mem mem' (bs : list queueBuffer) : Prop :=
  mem_ok mem' ∧ (∀ a n, mapped mem a n → mapped mem' a n) ∧
  ∀ a n, 0 ≤ n → mapped mem a n → clear_of a n bs → ReadIPA mem' a n = ReadIPA mem a n.

Lemma rewritten_refl mem bs : mem_ok mem → rewritten mem mem bs.
Proof. split; auto. Qed.
Lemma rewritten_cons mem mem' b bs : rewritten mem mem' bs → rewritten mem mem' (b :: bs).
Proof. intros (? & ? & Hr). split_and!; auto. intros ????. intros [_ ?]%Forall_cons. auto. Qed.
Lemma rewritten_write mem mem' b bs piece :
  mem_ok mem → bwrite b = true → is_bytes piece → len piece ≤ blength b →
  mapped mem (baddr b) (len piece) →
  rewritten (WriteIPA mem (baddr b) piece).1 mem' bs → rewritten mem mem' (b :: bs).
Proof.
  intros Hm Hb Hp Hl Hmap (Hm' & Hmono & Hr). split_and!; [done| |].
  - intros a n ?. by apply Hmono, mapped_write.
  - intros a n Hn Ha [Hc Hcs]%Forall_cons. rewrite Hb in Hc.
    rewrite Hr by (auto using mapped_write). apply read_write_other; auto.
    destruct (Hc I); lia.
Qed.

Lemma rewritten_app mem1 mem2 mem3 b bs :
  rewritten mem1 mem2 [b] → rewritten mem2 mem3 bs → rewritten mem1 mem3 (b :: bs).
Proof.
  intros (_ & Hm12 & Hr12) (Hok & Hm23 & Hr23). split_and!; auto.
  intros a n Hn Ha [Hb Hbs]%Forall_cons. rewrite Hr23 by auto. apply Hr12; auto.
  by constructor.
Qed.
Lemma backed_mono mem mem' bs :
  (∀ a n, mapped mem a n → mapped mem' a n) → backed mem bs → backed mem' bs.
Proof. intros Hm Hbs. eapply Forall_impl; [apply Hbs|]. intros b Hb Hw. by apply Hm, Hb. Qed.

Lemma backed_write mem a piece bs :
  mem_ok mem → backed mem bs → backed (WriteIPA mem a piece).1 bs.
Proof.
  intros Hm Hbs. eapply Forall_impl; [apply Hbs|]. intros b Hb Hw. by apply mapped_write, Hb.
Qed.

(** The copy loop fills the writable buffers in order. *)
Lemma response_loop_spec mem bs data off :
  mem_ok mem → is_bytes data → lengths_ok bs → backed mem bs → separate bs →
  (off ≤ length data)%nat →
  ∃ mem', response_loop mem bs data off =
      (mem', (off + Nat.min (length data - off) (Z.to_nat (room bs)))%nat, Ok tt) ∧
    rewritten mem mem' bs ∧
    gather mem' bs (length data - off) = Ok (take (Z.to_nat (room bs)) (drop off data)).
Proof.
  intros Hm Hd Hl. revert mem off Hm. induction Hl as [|b bs [Hb0 Hb] Hl IH];
    intros mem off Hm Hbk Hsep Hoff.
  { exists mem. cbn. rewrite Nat.min_0_r, Nat.add_0_r. auto using rewritten_refl. }
  pose proof (room_nonneg bs Hl) as Hroom.
  apply Forall_cons in Hbk as [Hmap Hbk]. destruct Hsep as [Hclear Hsep].
  cbn [response_loop gather room].
  destruct (bwrite b) eqn:Hw; cbn [negb orb]; swap 1 2.
  { destruct (IH mem off) as (mem' & -> & Hr & Hg); [done..|]. exists mem'.
    auto using rewritten_cons. }
  destruct (Z.eqb_spec (blength b) 0) as [E|E]; cbn [orb].
  { destruct (IH mem off) as (mem' & -> & Hr & Hg); [done..|]. exists mem'.
    rewrite E. auto using rewritten_cons. }
  destruct (Z.leb_spec (len data - Z.of_nat off) 0).
  { exists mem. replace (length data - off)%nat with 0%nat by lia.
    rewrite Nat.add_0_r, gather_0, drop_ge, take_nil by lia. auto using rewritten_refl. }
  assert (Z.to_nat (if len data - Z.of_nat off >? blength b then blength b
                    else len data - Z.of_nat off)
          = Nat.min (Z.to_nat (blength b)) (length data - off)) as ->.
  { rewrite Z.gtb_ltb. destruct (Z.ltb_spec (blength b) (len data - Z.of_nat off)); lia. }
  set (k := Nat.min _ _). set (piece := sub data off k).
  assert (length piece = k) as Hk by (apply length_sub; lia).
  assert (mapped mem (baddr b) (len piece)) as Hpm
    by (eapply mapped_prefix; [by apply Hmap|lia]).
  pose proof (write_mapped mem (baddr b) piece Hm Hpm) as Hok.
  pose proof (read_write_same mem (baddr b) piece Hm Hpm) as Hback.
  pose proof (write_mem_ok mem (baddr b) piece Hm) as Hm1.
  destruct (IH (WriteIPA mem (baddr b) piece).1 (off + k)%nat) as (mem' & Hloop & Hr & Hg);
    [by apply Hm1, is_bytes_sub|by apply backed_write|done|lia|].
  exists mem'. destruct (WriteIPA mem (baddr b) piece) as [mem1 r] eqn:Hwr.
  cbn in Hok, Hloop, Hr, Hback. subst r. rewrite Hloop. split_and!.
  - f_equal. f_equal. lia.
  - eapply (rewritten_write _ _ _ _ piece); [done|done|by apply is_bytes_sub|lia|done|by rewrite Hwr].
  - destruct (Nat.eqb_spec (length data - off) 0); [lia|].
    replace (Z.min _ _) with (len piece) by lia.
    destruct Hr as (_ & _ & Hr). rewrite Hr, Hback; [|lia| |].
    2: { change mem1 with (mem1, @Ok unit tt).1. rewrite <-Hwr. by apply mapped_write. }
    2: { eapply Forall_impl; [apply (Hclear I)|]. intros c Hc Hcw.
         destruct (Hc Hcw); [left|right]; lia. }
    cbn [mbind result_bind].
    replace (length data - off - Z.to_nat (blength b))%nat
      with (length data - (off + k))%nat by lia.
    rewrite Hg. cbn [mbind result_bind]. f_equal. subst piece. unfold sub.
    rewrite Z2Nat.inj_add, <-drop_drop by lia. subst k.
    destruct (Nat.min_spec (Z.to_nat (blength b)) (length data - off)) as [[? ->]|[? ->]].
    + by rewrite take_take_drop.
    + rewrite (drop_ge (drop off data)) by (rewrite length_drop; lia).
      rewrite take_nil, app_nil_r, !take_ge by (rewrite length_drop; lia). done.
Qed.
End responses.

(** C25: a response that fits in the writable buffers is written whole, one
    that does not is cut to their room and reported as an error; either way
    the count is the number of bytes written, the driver reads exactly those
    bytes back, and no byte outside the writable buffers changes. *)
Theorem writeQueueResponse_correct {T} `{GuestMemoryOk T} (mem : T)
    (bufs : list queueBuffer) (data : list Z) :
  mem_ok mem → is_bytes data → len data < 2^32 →
  lengths_ok bufs → backed mem bufs → separate bufs →
  ∃ mem' n r, writeQueueResponse mem bufs data = (mem', n, r) ∧
    n = Z.min (len data) (room bufs) ∧
    (r = Ok tt ↔ len data ≤ room bufs) ∧
    gather mem' bufs (length data) = Ok (take (Z.to_nat n) data) ∧
    ∀ a k, 0 ≤ k → mapped mem a k → clear_of a k bufs → ReadIPA mem' a k = ReadIPA mem a k.
Proof.
  intros Hm Hd Hlen Hl Hbk Hsep. pose proof (room_nonneg bufs Hl).
  destruct (response_loop_spec mem bufs data 0) as (mem' & Hloop & Hr & Hg); auto; [lia|].
  rewrite Nat.sub_0_r, Nat.add_0_l, drop_0 in *. unfold writeQueueResponse. rewrite Hloop.
  rewrite u32_small by (unfold is_u; lia).
  assert (take (Z.to_nat (room bufs)) data = take (Z.to_nat (Z.min (len data) (room bufs))) data)
    as Ht.
  { destruct (Z.min_spec (len data) (room bufs)) as [[? ->]|[? ->]]; [|done].
    by rewrite !take_ge by lia. }
  rewrite Ht in Hg. destruct Hr as (_ & _ & Hr).
  exists mem', (Z.min (len data) (room bufs)), (if len data <=? room bufs then Ok tt
    else Err "virtio response needs more writable bytes").
  rewrite Nat2Z.inj_min, Z2Nat.id by lia. split_and!; auto.
  - destruct (Nat.eqb_spec (Nat.min (length data) (Z.to_nat (room bufs))) (length data)),
      (Z.leb_spec (len data) (room bufs)); cbn; done || lia.
  - destruct (Z.leb_spec (len data) (room bufs)); split; done || lia.
Qed.

Lemma writeQueueResponse_correct_witness :
  ∃ mem' n r, writeQueueResponse demo_mem [mkBuffer 64 4 false; mkBuffer 80 8 true] [1; 2; 3]
      = (mem', n, r) ∧ n = 3 ∧ r = Ok tt.
Proof.
  destruct (writeQueueResponse_correct demo_mem [mkBuffer 64 4 false; mkBuffer 80 8 true]
    [1; 2; 3]) as (mem' & n & r & E & Hn & [_ Hr] & _).
  - apply demo_mem_ok.
  - repeat constructor; vm_compute; congruence.
  - done.
  - repeat constructor; vm_compute; congruence.
  - apply Forall_cons; split; [done|]. apply Forall_cons; split; [|done].
    intros _. cbn. right. lia.
  - split; [done|]. split; [|done]. intros _. constructor.
  - exists mem', n, r. split_and!; [done|done|]. apply Hr. cbn. lia.
Defined.

(** * The used ring *)

Section used.
Context {T : Type} `{GuestMemoryOk T}.
Implicit Types mem : T.

(** The driver's view: the element [i] of the ring, and the index field. *)
Definition used_slot (q : queue) (i : Z) : Z := usedAddr q + 4 + (i mod size q) * 8.
Definition used_element mem (q : queue) (i : Z) : result (Z * Z) :=
  raw ← ReadIPA mem (used_slot q i) 8; Ok (le_val (sub raw 0 4), le_val (sub raw 4 4)).
Definition used_index mem (q : queue) : result Z :=
  raw ← ReadIPA mem (usedAddr q + 2) 2; Ok (le_val raw).

(** The ring lies in mapped memory below the end of the address space. *)
Definition used_ring_ok mem (q : queue) : Prop :=
  0 < size q ∧ 0 ≤ usedAddr q ∧ usedAddr q + 4 + size q * 8 < 2^64 ∧
  mapped mem (usedAddr q + 2) 2 ∧ ∀ i, mapped mem (used_slot q i) 8.

Lemma used_slot_range q i :
  0 < size q → usedAddr q + 4 ≤ used_slot q i ≤ usedAddr q + 4 + (size q - 1) * 8.
Proof. intros. pose proof (Z.mod_pos_bound i (size q)). unfold used_slot. lia. Qed.
End used.

Lemma le_val_app_l n x y : is_u (8 * Z.of_nat n) x → le_val (sub (le_bytes n x ++ y) 0 n) = x.
Proof.
  intros Hx. unfold sub. rewrite drop_0, take_app_length' by (by rewrite length_le_bytes).
  rewrite le_val_bytes. apply Z.mod_small. change 256 with (2^8). rewrite <-Z.pow_mul_r by lia.
  done.
Qed.
Lemma le_val_app_r n k x y :
  is_u (8 * Z.of_nat k) y → le_val (sub (le_bytes n x ++ le_bytes k y) n k) = y.
Proof.
  intros Hy. unfold sub. rewrite drop_app_length' by (by rewrite length_le_bytes).
  rewrite <-(app_nil_r (le_bytes k y)). by apply (le_val_app_l k y []).
Qed.

Lemma writeQueueUsed_spec {T} `{GuestMemoryOk T} (mem : T) (q : queue) (head usedLen : Z) :
  mem_ok mem → used_ring_ok mem q → is_u16 (usedIdx q) → is_u16 head → is_u32 usedLen →
  ∃ mem', writeQueueUsed mem q head usedLen
      = (mem', q <| usedIdx := u16 (usedIdx q + 1) |>, Ok tt) ∧
    mem_ok mem' ∧ (∀ a n, mapped mem a n → mapped mem' a n) ∧
    used_element mem' q (usedIdx q) = Ok (head, usedLen) ∧
    used_index mem' q = Ok (u16 (usedIdx q + 1)) ∧
    (∀ i, i mod size q ≠ usedIdx q mod size q → used_element mem' q i = used_element mem q i) ∧
    ∀ a n, 0 ≤ n → mapped mem a n →
      (a + n ≤ used_slot q (usedIdx q) ∨ used_slot q (usedIdx q) + 8 ≤ a) →
      (a + n ≤ usedAddr q + 2 ∨ usedAddr q + 4 ≤ a) → ReadIPA mem' a n = ReadIPA mem a n.
Proof.
  intros Hm (Hs & Hu & Hend & Hidx & Hslots) Hi Hh Hl. unfold writeQueueUsed.
  destruct (Z.eqb_spec (size q) 0) as [|_]; [lia|]. cbn [usedIdx usedAddr update].
  pose proof (used_slot_range q (usedIdx q) Hs) as Hr. fold (used_slot q (usedIdx q)).
  rewrite !u64_small by (unfold is_u; lia). assert (is_u32 head) as Hh32 by (unfold is_u in *; lia).
  rewrite (u32_small head Hh32). set (slot := used_slot q (usedIdx q)). set (elem := le_bytes 4 head ++ le_bytes 4 usedLen).
  assert (len elem = 8) as He by (unfold elem; by rewrite length_app, !length_le_bytes).
  assert (mapped mem slot (len elem)) as Hslot by (rewrite He; apply Hslots).
  pose proof (write_mapped mem slot elem Hm Hslot) as Hok.
  pose proof (read_write_same mem slot elem Hm Hslot) as Hback.
  pose proof (read_write_other mem slot elem) as Hother.
  pose proof (mapped_write mem slot elem) as Hmw.
  pose proof (write_mem_ok mem slot elem Hm) as Hm1.
  destruct (WriteIPA mem slot elem) as [mem1 r]. cbn [fst snd] in *. subst r.
  specialize (Hm1 ltac:(unfold elem; auto with go)).
  set (idx := le_bytes 2 (u16 (usedIdx q + 1))).
  assert (len idx = 2) as Hl2 by (unfold idx; by rewrite length_le_bytes).
  assert (mapped mem1 (usedAddr q + 2) (len idx)) as Hidx1 by (rewrite Hl2; by apply Hmw).
  pose proof (write_mapped mem1 _ idx Hm1 Hidx1) as Hok2.
  pose proof (read_write_same mem1 _ idx Hm1 Hidx1) as Hback2.
  pose proof (read_write_other mem1 (usedAddr q + 2) idx) as Hother2.
  pose proof (mapped_write mem1 (usedAddr q + 2) idx) as Hmw2.
  pose proof (write_mem_ok mem1 (usedAddr q + 2) idx Hm1) as Hm2.
  destruct (WriteIPA mem1 (usedAddr q + 2) idx) as [mem2 r2]. cbn [fst snd] in *. subst r2.
  rewrite He in *. rewrite Hl2 in *.
  exists mem2. split_and!; [done|unfold idx in *; auto with go|auto| | | |].
  - unfold used_element. fold slot. rewrite Hother2, Hback by (auto; lia).
    cbn [mbind result_bind]. f_equal. f_equal; [by apply le_val_app_l|by apply le_val_app_r].
  - unfold used_index. rewrite Hback2. cbn [mbind result_bind]. unfold idx.
    rewrite le_val_bytes. f_equal. apply Z.mod_small, is_u16_u16.
  - intros i Hne. unfold used_element. pose proof (used_slot_range q i Hs).
    rewrite Hother2, Hother; auto; try lia. unfold slot, used_slot. lia.
  - intros a n Hn Ha Hd1 Hd2. rewrite Hother2, Hother; auto; lia.
Qed.

(** C26: completing a buffer publishes it in the used ring: the driver finds
    the head and the length in the next slot and the index advanced modulo
    2^16, every other slot is unchanged, and so is every range of memory that
    meets neither the slot nor the index field. *)
Theorem writeQueueUsed_correct {T} `{GuestMemoryOk T} (mem : T) (q : queue) (head usedLen : Z) :
  mem_ok mem → used_ring_ok mem q → is_u16 (usedIdx q) → is_u16 head → is_u32 usedLen →
  ∃ mem', writeQueueUsed mem q head usedLen
      = (mem', q <| usedIdx := u16 (usedIdx q + 1) |>, Ok tt) ∧
    used_element mem' q (usedIdx q) = Ok (head, usedLen) ∧
    used_index mem' q = Ok (u16 (usedIdx q + 1)) ∧
    (∀ i, i mod size q ≠ usedIdx q mod size q → used_element mem' q i = used_element mem q i) ∧
    ∀ a n, 0 ≤ n → mapped mem a n →
      (a + n ≤ used_slot q (usedIdx q) ∨ used_slot q (usedIdx q) + 8 ≤ a) →
      (a + n ≤ usedAddr q + 2 ∨ usedAddr q + 4 ≤ a) → ReadIPA mem' a n = ReadIPA mem a n.
Proof.
  intros. destruct (writeQueueUsed_spec mem q head usedLen) as (mem' & ? & _ & _ & ?); eauto.
Qed.

Lemma writeQueueUsed_correct_witness :
  ∃ mem', writeQueueUsed demo_mem (demo_queue <| usedAddr := 40 |> <| usedIdx := 65535 |>) 1 8
      = (mem', demo_queue <| usedAddr := 40 |> <| usedIdx := 0 |>, Ok tt).
Proof.
  destruct (writeQueueUsed_correct demo_mem
    (demo_queue <| usedAddr := 40 |> <| usedIdx := 65535 |>) 1 8) as (mem' & E & _).
  - apply demo_mem_ok.
  - split_and!; [done|done|done|right; cbn; lia|]. intros i.
    pose proof (Z.mod_pos_bound i 2). right. unfold used_slot. cbn. lia.
  - vm_compute. intuition congruence.
  - vm_compute. intuition congruence.
  - vm_compute. intuition congruence.
  - exists mem'. apply E.
Defined.

(** * Snapshots *)

(** Restoring a snapshot gives back every queue, with its cache dropped; the
    indices of a queue that is not in use are zeroed. *)
Definition restored (hasMem : bool) (q : queue) : queue :=
  if negb (ready q) || (size q =? 0) || negb hasMem
  then clearCache q <| lastAvailIdx := 0 |> <| usedIdx := 0 |> else clearCache q.

Lemma restoreQueues_snapshot (fresh qs : list queue) (hasMem : bool) :
  length fresh = length qs →
  restoreQueues fresh (snapshotQueues qs) hasMem = restored hasMem <$> qs.
Proof.
  revert qs. induction fresh as [|f fresh IH]; intros [|q qs] Hl; try done.
  injection Hl as Hl. rewrite fmap_cons, <-(IH qs Hl). unfold restored.
  cbn. unfold restoreQueue. cbn. by destruct (_ || _).
Qed.

(** * Chains a device only reads

    A device that consumes readable buffers writes guest memory only in the
    used ring.  What the driver placed outside that ring stays readable while
    the device works through the available ring. *)

(** The buffers the device fetches from a chain. *)
Definition fetched (b : queueBuffer) : bool := negb (bwrite b) && negb (blength b =? 0).
Fixpoint readable (bs : list queueBuffer) : list queueBuffer :=
  match bs with
  | [] => []
  | b :: bs => if fetched b then b :: readable bs else readable bs
  end.

Definition outside (q : queue) (a n : Z) : Prop :=
  a + n ≤ usedAddr q ∨ usedAddr q + 4 + size q * 8 ≤ a.
(** The ring entry of a consumer index. *)
Definition entry_addr (q : queue) (idx : Z) : Z := availAddr q + 4 + (idx mod size q) * 2.

Section reading.
Context {T : Type} `{GuestMemoryOk T}.
Implicit Types m : T.

Definition agree (q : queue) m m' : Prop :=
  mem_ok m' ∧ (∀ a n, mapped m a n → mapped m' a n) ∧
  ∀ a n, 0 ≤ n → mapped m a n → outside q a n → ReadIPA m' a n = ReadIPA m a n.

Lemma agree_refl q m : mem_ok m → agree q m m.
Proof. split; auto. Qed.
Lemma agree_trans q m1 m2 m3 : agree q m1 m2 → agree q m2 m3 → agree q m1 m3.
Proof.
  intros (_ & Hm12 & Hr12) (Hok & Hm23 & Hr23). split_and!; auto.
  intros a n Hn Hm Ho. by rewrite Hr23, Hr12 by auto.
Qed.

Definition kept m (q : queue) (a n : Z) : Prop := mapped m a n ∧ outside q a n.

Lemma kept_read q m m' a n : agree q m m' → 0 ≤ n → kept m q a n → ReadIPA m' a n = ReadIPA m a n.
Proof. intros (_ & _ & Hr) Hn [Hm Ho]. by apply Hr. Qed.
Lemma kept_agree q m m' a n : agree q m m' → kept m q a n → kept m' q a n.
Proof. intros (_ & Hm & _) [? ?]. split; auto. Qed.

Lemma outside_used q a n : 0 < size q → outside q a n → 
  ∀ i, a + n ≤ used_slot q i ∨ used_slot q i + 8 ≤ a.
Proof. intros Hs Ho i. pose proof (used_slot_range q i Hs). unfold outside in Ho. lia. Qed.

(** The descriptor table is mapped, apart from the used ring and below the
    end of the address space. *)
Definition table_kept m (q : queue) : Prop :=
  0 ≤ descAddr q ∧ descAddr q + size q * 16 < 2^64 ∧
  ∀ i, 0 ≤ i < size q → kept m q (descAddr q + i * 16) 16.

Lemma table_kept_agree q m m' : agree q m m' → table_kept m q → table_kept m' q.
Proof. intros Ha (? & ? & Hk). split_and!; auto. intros. eapply kept_agree; eauto. Qed.

(** A chain depends only on the table entries. *)
Lemma chain_same_table q m m' i bs :
  mem_ok m →
  (∀ j, 0 ≤ j → readQueueDescriptor m' (Some q) j = readQueueDescriptor m (Some q) j) →
  0 ≤ i → chain m q i bs → chain m' q i bs.
Proof.
  intros Hm Hd Hi. induction 1 as [i d Hr Hf|i d bs Hr Hf Hc IH].
  - apply chain_last; [by rewrite Hd|done].
  - eapply chain_next; [by rewrite Hd|done|].
    apply IH. exact (next_nonneg _ _ _ _ (reads_bytes m Hm) Hr).
Qed.

Lemma readDescriptor_agree q m m' i :
  agree q m m' → table_kept m q → 0 ≤ i →
  readQueueDescriptor m' (Some q) i = readQueueDescriptor m (Some q) i.
Proof.
  intros Ha (H0' & Hend & Hk) Hi. unfold readQueueDescriptor.
  destruct (Z.eqb_spec (size q) 0); [done|]. cbn. destruct (Z.geb_spec i (size q)); [done|].
  rewrite u64_small by (unfold is_u; lia). by rewrite (kept_read q m m') by (auto; lia).
Qed.

Lemma chain_agree q m m' i bs :
  mem_ok m → agree q m m' → table_kept m q → 0 ≤ i → chain m q i bs → chain m' q i bs.
Proof.
  intros Hm Ha Ht. apply chain_same_table; [done|]. intros j Hj.
  by apply readDescriptor_agree.
Qed.

(** The chain from [head] has the readable contents [parts]. *)
Definition chain_parts m (q : queue) (head : Z) (parts : list (list Z)) : Prop :=
  0 ≤ head ∧ ∃ bs, chain m q head bs ∧
    Forall (λ b, 0 ≤ blength b ∧ kept m q (baddr b) (blength b)) (readable bs) ∧
    mapM (λ b, ReadIPA m (baddr b) (blength b)) (readable bs) = Ok parts.

(** Entry [idx] of the available ring holds such a chain. *)
Definition entry_parts m (q : queue) (idx head : Z) (parts : list (list Z)) : Prop :=
  entry_addr q idx < 2^64 ∧ kept m q (entry_addr q idx) 2 ∧
  (∃ entry, ReadIPA m (entry_addr q idx) 2 = Ok entry ∧ le_val entry = head) ∧
  chain_parts m q head parts.

Lemma mapM_read_agree q m m' bs :
  agree q m m' → Forall (λ b, 0 ≤ blength b ∧ kept m q (baddr b) (blength b)) bs →
  mapM (λ b, ReadIPA m' (baddr b) (blength b)) bs = mapM (λ b, ReadIPA m (baddr b) (blength b)) bs.
Proof.
  intros Ha. induction 1 as [|b bs [Hb Hk] _ IH]; [done|].
  by rewrite !mapM_result_cons, IH, (kept_read q m m').
Qed.

Lemma chain_parts_agree q m m' head parts :
  mem_ok m → agree q m m' → table_kept m q → chain_parts m q head parts →
  chain_parts m' q head parts.
Proof.
  intros Hm Ha Ht (Hh & bs & Hc & Hk & Hp). split; [done|]. exists bs.
  split_and!; [by eapply chain_agree| |by rewrite (mapM_read_agree q m m')].
  eapply Forall_impl; [done|]. intros b [? ?]. split; [done|by eapply kept_agree].
Qed.

Lemma entry_parts_agree q m m' idx head parts :
  mem_ok m → agree q m m' → table_kept m q → entry_parts m q idx head parts →
  entry_parts m' q idx head parts.
Proof.
  intros Hm Ha Ht (Hlt & Hk & (e & He & Hh) & Hc). split_and!; [done|by eapply kept_agree| |].
  - exists e. by rewrite (kept_read q m m').
  - by eapply chain_parts_agree.
Qed.

(** Completing a chain leaves everything outside the used ring in place. *)
Lemma writeQueueUsed_agree m q head usedLen :
  mem_ok m → used_ring_ok m q → is_u16 (usedIdx q) → is_u16 head → is_u32 usedLen →
  ∃ m', writeQueueUsed m q head usedLen = (m', q <| usedIdx := u16 (usedIdx q + 1) |>, Ok tt) ∧
    agree q m m' ∧ used_element m' q (usedIdx q) = Ok (head, usedLen) ∧
    ∀ i, i mod size q ≠ usedIdx q mod size q → used_element m' q i = used_element m q i.
Proof.
  intros Hm Hu Hi Hh Hl.
  destruct (writeQueueUsed_spec m q head usedLen) as (m' & E & Hm' & Hmap & He & _ & Ho & Hr); auto.
  exists m'. split; [done|]. split; [|done]. split; [done|]. split; [done|].
  intros a n Hn Hma Hout. destruct Hu as (Hs & _). apply Hr; auto.
  - by apply outside_used.
  - unfold outside in Hout. lia.
Qed.
End reading.

(** A queue whose device has consumed up to [l] and completed up to [u]; the
    rings themselves do not depend on the indices. *)
Definition at_index (q : queue) (l u : Z) : queue :=
  q <| lastAvailIdx := l |> <| usedIdx := u |>.

Lemma at_index_self q : at_index q (lastAvailIdx q) (usedIdx q) = q.
Proof. by destruct q. Qed.

Lemma chain_at_index {T} `{GuestMemory T} (m : T) q l u i bs :
  chain m q i bs → chain m (at_index q l u) i bs.
Proof. induction 1; [by apply chain_last|by eapply chain_next]. Qed.
Lemma readChain_gathers {T} `{GuestMemoryOk T} e n (m : T) q i bs parts out :
  mem_ok m → chain m q i bs → (length bs ≤ n)%nat →
  mapM (λ b, ReadIPA m (baddr b) (blength b)) (readable bs) = Ok parts →
  readChain_turns e n m q i out = Ok (out ++ concat parts).
Proof.
  intros Hm Hc. pose proof (reads_bytes m Hm) as Hb.
  revert n parts out.
  induction Hc as [i d Hd Hf|i d bs Hd Hf _ IH]; intros [|n] parts out Hn Hp; cbn in Hn; try lia;
    cbn [readChain_turns]; rewrite (readDescriptor_Ok _ _ _ _ Hd);
    pose proof (length_u32 _ _ _ _ Hb Hd) as [Hl _]; cbn [mbind result_bind];
    cbn [readable] in Hp; unfold fetched in Hp; cbn [bwrite blength buffer_of] in Hp;
    (replace (length_ d >? 0) with (negb (length_ d =? 0))
      by (rewrite Z.gtb_ltb; destruct (Z.eqb_spec (length_ d) 0), (Z.ltb_spec 0 (length_ d));
          done || lia));
    destruct (negb (has (flags d) descFWrite) && _);
    rewrite ?mapM_result_cons in Hp; cbn [baddr blength buffer_of] in Hp;
    try (destruct (ReadIPA m (addr d) (length_ d)) as [chunk| |]; [|done..]);
    cbn [mbind result_bind]; rewrite Hf; cbn [negb].
  - cbn in Hp. injection Hp as <-. cbn. by rewrite app_nil_r.
  - cbn in Hp. injection Hp as <-. cbn. by rewrite app_nil_r.
  - destruct (mapM _ _) as [ps| |]; [|done..]. injection Hp as <-.
    rewrite (IH n ps) by (done || lia). cbn [concat]. by rewrite app_assoc.
  - rewrite (IH n parts) by (done || lia). done.
Qed.

Lemma parts_bytes {T} `{GuestMemoryOk T} (m : T) q head parts :
  mem_ok m → chain_parts m q head parts → is_bytes (concat parts).
Proof.
  intros Hm (_ & bs & _ & _ & Hp). revert parts Hp. induction (readable bs) as [|b rs IH]; intros parts.
  { intros [= <-]. apply Forall_nil_2. }
  rewrite mapM_result_cons. destruct (ReadIPA m _ _) as [x| |] eqn:Hx; [|done..].
  destruct (mapM _ rs) as [ps| |]; [|done..]. intros [= <-]. apply Forall_app. split; [by eapply read_bytes|by apply IH].
Qed.
(** The index of the available ring. *)
Lemma header_index {T} `{GuestMemoryOk T} (m : T) a header :
  mem_ok m → ReadIPA m a 4 = Ok header → is_u16 (le_val (sub header 2 2)).
Proof.
  intros Hm Hh. pose proof (le_val_bound (sub header 2 2)) as Hb. rewrite length_sub in Hb.
  - apply Hb, is_bytes_sub. by eapply read_bytes.
  - pose proof (read_length m _ 4 header Hm ltac:(lia) Hh). lia.
Qed.
Lemma readChain_parts {T} `{GuestMemoryOk T} e (m : T) q l u head parts :
  mem_ok m → chain_parts m q head parts →
  readChain_turns e (Z.to_nat (size q)) m (at_index q l u) head [] = Ok (concat parts).
Proof.
  intros Hm (Hh & bs & Hc & _ & Hp). apply (readChain_gathers _ _ m _ head bs parts []); [done| | |done].
  - by apply chain_at_index.
  - by apply (chain_length m q head bs (reads_bytes m Hm)).
Qed.

(** Indices [u], [u+1], ... use different slots while fewer than [size] are
    pending, because the size divides 2^16. *)
Lemma slots_distinct n u j k :
  0 < n → (n | 2^16) → 0 ≤ j < n → 0 ≤ k < n → j ≠ k →
  u16 (u + j) mod n ≠ u16 (u + k) mod n.
Proof.
  intros Hn Hd Hj Hk Hne. unfold u16.
  rewrite !Z.mod_mod_divide by done.
  intros E. apply Hne.
  assert ((j - k) mod n = 0) as Ez.
  { replace (j - k) with ((u + j) - (u + k)) by lia. rewrite Zminus_mod, E, Z.sub_diag.
    apply Z.mod_0_l. lia. }
  destruct (decide (k ≤ j)).
  - rewrite Z.mod_small in Ez; lia.
  - rewrite <-(Z.mod_add _ 1), Z.mod_small in Ez; lia.
Qed.

(** An index one turn of the ring later has the same slot. *)
Lemma used_element_turn {T} `{GuestMemory T} (m : T) q u :
  0 < size q → (size q | 2^16) → used_element m q (u16 (u + size q)) = used_element m q u.
Proof.
  intros Hs Hd. unfold used_element, used_slot, u16. rewrite Z.mod_mod_divide by done.
  replace (u + size q) with (u + 1 * size q) by lia. by rewrite Z.mod_add by lia.
Qed.

(** * Writing along a chain while reading its descriptors *)

Section writing.
Context {T : Type} `{GuestMemoryOk T}.

(** The descriptor table is mapped and no writable buffer of the chain meets
    it. *)
Definition table_clear (m : T) (q : queue) (bs : list queueBuffer) : Prop :=
  0 ≤ descAddr q ∧ descAddr q + size q * 16 < 2^64 ∧
  ∀ i, 0 ≤ i < size q →
    mapped m (descAddr q + i * 16) 16 ∧ clear_of (descAddr q + i * 16) 16 bs.

Lemma readDescriptor_rewritten m m' q bs j :
  table_clear m q bs → rewritten m m' bs → 0 ≤ j →
  readQueueDescriptor m' (Some q) j = readQueueDescriptor m (Some q) j.
Proof.
  intros (? & ? & Ht) (_ & _ & Hr) Hj. unfold readQueueDescriptor.
  destruct (Z.eqb_spec (size q) 0); [done|]. cbn. destruct (Z.geb_spec j (size q)); [done|].
  destruct (Ht j); [lia|]. rewrite u64_small by (unfold is_u; lia). by rewrite Hr by (done || lia).
Qed.

Lemma table_clear_tail m m' q b bs :
  table_clear m q (b :: bs) → (∀ a n, mapped m a n → mapped m' a n) → table_clear m' q bs.
Proof.
  intros (? & ? & Ht) Hm. split_and!; [done..|]. intros i Hi.
  destruct (Ht i Hi) as [? [_ ?]%Forall_cons]. auto.
Qed.

Definition wanted (b : queueBuffer) : Z := if bwrite b then blength b else 0.

Lemma chain_cons (m : T) q i b bs :
  chain m q i (b :: bs) → ∃ d, readQueueDescriptor m (Some q) i = Ok d ∧ b = buffer_of d ∧
    (has (flags d) descFNext = false ∧ bs = [] ∨
     has (flags d) descFNext = true ∧ chain m q (next d) bs).
Proof. inversion 1; subst; eauto 10. Qed.

Lemma gather_cons (m' : T) b bs piece data :
  0 ≤ blength b → len piece = wanted b →
  (0 < wanted b → ReadIPA m' (baddr b) (wanted b) = Ok piece) →
  gather m' bs (length data) = Ok data →
  gather m' (b :: bs) (length (piece ++ data)) = Ok (piece ++ data).
Proof.
  intros Hb Hlen Hr Hg. cbn [gather]. rewrite length_app. unfold wanted in *.
  destruct (bwrite b); cbn [negb orb].
  - destruct (Z.eqb_spec (blength b) 0) as [E|E]; cbn [orb].
    { rewrite E in Hlen. by destruct piece. }
    destruct (Nat.eqb_spec (length piece + length data) 0); [lia|].
    replace (Z.min _ _) with (blength b) by lia. rewrite Hr by lia. cbn [mbind result_bind].
    replace (length piece + length data - Z.to_nat (blength b))%nat with (length data) by lia.
    by rewrite Hg.
  - by destruct piece.
Qed.
End writing.
