(* ===== verification/VirtMmio.v ===== *)
(** The virtio-mmio transport the devices of src/internal/virtio share.

    Every device repeats the same register block, interrupt line handling and
    ring walk (console.go, rng.go, balloon.go).  [mmio] is that common struct
    with the device's own fields in [dev]; the definitions are the parts of
    the methods whose code is the same in each device.  The lemmas: register
    widths, the two halves of a 64-bit register, config-space reads, the
    agreement of the interrupt line with the status register, and the ring
    loop's equation and termination. *)
From S2P Require Import Prelude KvmArm64 GuestMemory VirtQueue.

Definition mmioMagicValue : Z := 0x74726976.
Definition mmioVersion : Z := 2.
Definition mmioVendorID : Z := 0x554d4551.
Definition regMagicValue : Z := 0x000.
Definition regVersion : Z := 0x004.
Definition regDeviceID : Z := 0x008.
Definition regVendorID : Z := 0x00c.
Definition regDeviceFeatures : Z := 0x010.
Definition regDeviceFeatSel : Z := 0x014.
Definition regDriverFeatures : Z := 0x020.
Definition regDriverFeatSel : Z := 0x024.
Definition regGuestPageSize : Z := 0x028.
Definition regQueueSel : Z := 0x030.
Definition regQueueNumMax : Z := 0x034.
Definition regQueueNum : Z := 0x038.
Definition regQueueAlign : Z := 0x03c.
Definition regQueuePFN : Z := 0x040.
Definition regQueueReady : Z := 0x044.
Definition regQueueNotify : Z := 0x050.
Definition regInterruptStatus : Z := 0x060.
Definition regInterruptAck : Z := 0x064.
Definition regStatus : Z := 0x070.
Definition regQueueDescLow : Z := 0x080.
Definition regQueueDescHigh : Z := 0x084.
Definition regQueueAvailLow : Z := 0x090.
Definition regQueueAvailHigh : Z := 0x094.
Definition regQueueUsedLow : Z := 0x0a0.
Definition regQueueUsedHigh : Z := 0x0a4.
Definition regConfigGen : Z := 0x0fc.
Definition regConfig : Z := 0x100.
Definition featureSize : Z := 1.
Definition intVring : Z := 0x1.
Definition intConfig : Z := 0x2.

Definition mmioTransportVersion (legacy : bool) : Z := if legacy then 1 else mmioVersion.

(** The interrupt controller interface, and what a controller that accepts
    every request promises: [level] is the state of a line. *)
Class IRQController (I : Type) := SetIRQ : I → Z → bool → I * result unit.
Class IRQControllerOk (I : Type) `{IRQController I} := {
  level : I → Z → bool;
  set_ok c n b : (SetIRQ c n b).2 = Ok tt;
  set_level c n b : level (SetIRQ c n b).1 n = b;
  set_other c n b m : m ≠ n → level (SetIRQ c n b).1 m = level c m;
}.
#[global] Hint Mode IRQControllerOk ! - : typeclass_instances.

(** A controller that records the requests, newest first. *)
#[export] Instance irq_log : IRQController (list (Z * bool)) := λ l n b, ((n, b) :: l, Ok tt).
Fixpoint logged_level (l : list (Z * bool)) (n : Z) : bool :=
  match l with [] => false | (m, b) :: l => if n =? m then b else logged_level l n end.
#[export] Instance irq_log_ok : IRQControllerOk (list (Z * bool)).
Proof.
  refine {| level := logged_level |}; cbn; intros; [done|by rewrite Z.eqb_refl|].
  by destruct (Z.eqb_spec m n).
Defined.

Definition truncateValue (value size : Z) : Z :=
  if size =? 1 then Z.land value 0xff
  else if size =? 2 then Z.land value 0xffff
  else if size =? 4 then Z.land value 0xffffffff
  else value.

(** Slicing past the end of the buffer panics. *)
Definition readConfigValue (buf : list Z) (size : Z) : result Z :=
  if (size =? 1) || (size =? 2) || (size =? 4) || (size =? 8) then
    if size >? len buf then Panic else Ok (le_val (take (Z.to_nat size) buf))
  else if size >? len buf then Panic
  else Ok (foldr (λ b out, u64 (Z.lor (Z.shiftl out 8) b)) 0 (take (Z.to_nat size) buf)).

Definition alignVirtio (value alignment : Z) : Z :=
  if alignment =? 0 then value
  else Z.land (u64 (value + alignment - 1)) (2^64 - 1 - u64 (alignment - 1)).

(** One half of a 64-bit register. *)
Definition set_half (target value : Z) (low : bool) : Z :=
  if low then Z.lor (target &^ 0xffffffff) value
  else Z.lor (Z.land target 0xffffffff) (Z.shiftl value 32).

(** The struct fields common to the devices; [dev] holds the others.  A nil
    [mem] or [irq] is [None]. *)
Record mmio (T I D : Type) := mkMmio {
  Base : Z; Size : Z; IRQ : Z;
  mem : option T; irq : option I;
  deviceFeatureSel : Z; driverFeatureSel : Z; driverFeatures : Z;
  queueSel : Z; status : Z; interruptStatus : Z; irqHigh : bool; configGeneration : Z;
  queues : list queue;
  dev : D;
}.
Arguments mkMmio {T I D}.
Arguments Base {T I D}.
Arguments Size {T I D}.
Arguments IRQ {T I D}.
Arguments mem {T I D}.
Arguments irq {T I D}.
Arguments deviceFeatureSel {T I D}.
Arguments driverFeatureSel {T I D}.
Arguments driverFeatures {T I D}.
Arguments queueSel {T I D}.
Arguments status {T I D}.
Arguments interruptStatus {T I D}.
Arguments irqHigh {T I D}.
Arguments configGeneration {T I D}.
Arguments queues {T I D}.
Arguments dev {T I D}.
#[export] Instance eta_mmio {T I D} : Eta (mmio T I D) := λ s,
  mkMmio (Base s) (Size s) (IRQ s) (mem s) (irq s) (deviceFeatureSel s) (driverFeatureSel s)
    (driverFeatures s) (queueSel s) (status s) (interruptStatus s) (irqHigh s)
    (configGeneration s) (queues s) (dev s).

Section transport.
Context {T I D : Type} `{!GuestMemory T, !IRQController I}.
Implicit Types s : mmio T I D.

Definition Attach (m : option T) (i : option I) s : mmio T I D := s <| mem := m |> <| irq := i |>.

Definition Contains s (addr size : Z) : bool :=
  (addr >=? Base s) && (u64 (addr + u64 size) <=? u64 (Base s + Size s)).

(** A method call on the nil memory interface panics. *)
Definition read_mem {A} (f : T → result A) : M (mmio T I D) A := λ s,
  match mem s with Some m => (s, f m) | None => (s, Panic) end.
Definition write_mem (f : T → T * result unit) : M (mmio T I D) unit := λ s,
  match mem s with
  | Some m => let '(m', r) := f m in (s <| mem := Some m' |>, r)
  | None => (s, Panic)
  end.

(** [&s.queues[i]] for an index in range. *)
Definition get_queue (i : nat) s : queue := nth i (queues s) queue0.
Definition set_queue (i : nat) (f : queue → queue) s : mmio T I D :=
  s <| queues := alter f i (queues s) |>.

Definition selectedQueueLocked s : option nat :=
  if queueSel s >=? len (queues s) then None else Some (Z.to_nat (queueSel s)).

Definition on_selected (f : queue → queue) : M (mmio T I D) unit := λ s,
  match selectedQueueLocked s with
  | Some i => (set_queue i f s, Ok tt)
  | None => (s, Ok tt)
  end.

Definition write_driverFeatures (value : Z) s : mmio T I D :=
  if driverFeatureSel s =? 0
  then s <| driverFeatures := set_half (driverFeatures s) (u32 value) true |>
  else if driverFeatureSel s =? 1
  then s <| driverFeatures := set_half (driverFeatures s) (u32 value) false |>
  else s.

Definition write_queueReady (value : Z) (q : queue) : queue :=
  let q := q <| ready := negb (value =? 0) |> in
  if value =? 0 then q <| lastAvailIdx := 0 |> <| usedIdx := 0 |> else q.

Definition updateIRQLocked : M (mmio T I D) unit := λ s,
  match irq s with
  | None => (s, Ok tt)
  | Some c =>
    let level := negb (interruptStatus s =? 0) in
    if Bool.eqb (irqHigh s) level then (s, Ok tt)
    else
      let '(c', r) := SetIRQ c (IRQ s) level in
      (s <| irqHigh := level |> <| irq := Some c' |>, r)
  end.

Definition raise (bit : Z) : M (mmio T I D) unit :=
  modify (λ s, s <| interruptStatus := Z.lor (interruptStatus s) bit |>) ;;;
  updateIRQLocked.

(** The registers [resetLocked] clears in every device. *)
Definition reset_registers s : mmio T I D :=
  s <| deviceFeatureSel := 0 |> <| driverFeatureSel := 0 |> <| driverFeatures := 0 |>
    <| queueSel := 0 |> <| status := 0 |> <| interruptStatus := 0 |> <| irqHigh := false |>
    <| configGeneration := u32 (configGeneration s + 1) |>
    <| queues := replicate (length (queues s)) queue0 |>.

Definition writeUsedLocked (i : nat) (head usedLen : Z) : M (mmio T I D) unit := λ s,
  match mem s with
  | None => (s, Panic)
  | Some m =>
    let '(m', q, r) := writeQueueUsed m (get_queue i s) head usedLen in
    (set_queue i (λ _, q) (s <| mem := Some m' |>), r)
  end.

(** One turn of the ring loop: read the entry, process the chain, advance. *)
Definition ring_turn (i : nat) (body : Z → M (mmio T I D) unit) : M (mmio T I D) unit :=
  q ← gets (get_queue i);
  if size q =? 0 then panic
  else
    entry ← read_mem (λ m,
      ReadIPA m (u64 (availAddr q + 4 + (lastAvailIdx q mod size q) * 2)) 2);
    body (le_val entry) ;;;
    modify (set_queue i (λ q, q <| lastAvailIdx := u16 (lastAvailIdx q + 1) |>)).

(** [n] turns. *)
Fixpoint ring_turns (n : nat) (i : nat) (body : Z → M (mmio T I D) unit) : M (mmio T I D) unit :=
  match n with
  | O => mret tt
  | S n => ring_turn i body ;;; ring_turns n i body
  end.

(** The loop [for q.lastAvailIdx != availIdx].  Each turn advances the index
    by one modulo 2^16, so it makes exactly as many turns as entries are
    pending; [ring_loop_unfold] below is the loop's own equation. *)
Definition pending (q : queue) (availIdx : Z) : nat := Z.to_nat (u16 (availIdx - lastAvailIdx q)).
Definition ring_loop (i : nat) (availIdx : Z) (body : Z → M (mmio T I D) unit)
    : M (mmio T I D) unit := λ s, ring_turns (pending (get_queue i s) availIdx) i body s.
End transport.

(** * Device snapshots, state.go *)

Record BalloonPageWord := mkPageWord { Index : Z; Bits : Z }.

Record MMIOState := mkMMIOState {
  DeviceFeatureSel : Z; DriverFeatureSel : Z; DriverFeatures : Z; QueueSel : Z; Status : Z;
  ConfigGeneration : Z; SharedMemorySel : Z; Legacy : bool; Queues : list QueueState;
  BackendPaths : list string; NumPages : Z; ActualPages : Z;
  InflatedPageWords : list BalloonPageWord; InflatedPages : list Z;
}.
#[export] Instance eta_MMIOState : Eta MMIOState := λ s,
  mkMMIOState (DeviceFeatureSel s) (DriverFeatureSel s) (DriverFeatures s) (QueueSel s) (Status s)
    (ConfigGeneration s) (SharedMemorySel s) (Legacy s) (Queues s) (BackendPaths s) (NumPages s)
    (ActualPages s) (InflatedPageWords s) (InflatedPages s).

(** The fields every device records, the others at their zero value. *)
Definition snapshot_transport {T I D} (s : mmio T I D) : MMIOState :=
  mkMMIOState (deviceFeatureSel s) (driverFeatureSel s) (driverFeatures s) (queueSel s) (status s)
    (configGeneration s) 0 false (snapshotQueues (queues s)) [] 0 0 [] [].

(** The assignments every [RestoreState] makes; [restoreQueues] never fails. *)
Definition restore_transport {T I D} (state : MMIOState) (s : mmio T I D) : mmio T I D :=
  let s := s <| deviceFeatureSel := DeviceFeatureSel state |>
             <| driverFeatureSel := DriverFeatureSel state |>
             <| driverFeatures := DriverFeatures state |> <| queueSel := QueueSel state |>
             <| status := Status state |> <| interruptStatus := 0 |> <| irqHigh := false |>
             <| configGeneration := ConfigGeneration state |> in
  s <| queues := restoreQueues (queues s) (Queues state) (non_nil (mem s)) |>.

(** Restoring a snapshot into a device with as many queues gives the state
    recorded, without the interrupt that was pending. *)
Lemma restore_snapshot_transport {T I D} (s f : mmio T I D) :
  length (queues f) = length (queues s) →
  restore_transport (snapshot_transport s) f =
    f <| deviceFeatureSel := deviceFeatureSel s |> <| driverFeatureSel := driverFeatureSel s |>
      <| driverFeatures := driverFeatures s |> <| queueSel := queueSel s |>
      <| status := status s |> <| interruptStatus := 0 |> <| irqHigh := false |>
      <| configGeneration := configGeneration s |>
      <| queues := restored (non_nil (mem f)) <$> queues s |>.
Proof.
  intros Hl. unfold restore_transport. cbn. f_equal. by apply restoreQueues_snapshot.
Qed.

(** * Registers *)

Lemma testbit_ones32 i : 0 ≤ i → Z.testbit 0xffffffff i = (i <? 32).
Proof. intros. change 0xffffffff with (Z.ones 32). by apply Z.testbit_ones_nonneg. Qed.

Lemma alignVirtio_ok value alignment : is_u64 value → is_u64 (alignVirtio value alignment).
Proof.
  intros Hv. unfold alignVirtio. destruct (_ =? 0); [done|]. pose proof (is_u64_u64 (alignment - 1)) as [_ Hb]. apply is_u_land; [lia|apply is_u64_u64|lia].
Qed.
Lemma set_half_ok target value low :
  is_u64 target → is_u32 value → is_u64 (set_half target value low).
Proof.
  intros Ht Hv. unfold set_half. destruct low.
  - apply is_u_lor; [done|by apply is_u_ldiff|]. unfold is_u in *. lia.
  - apply is_u_lor; [done|by apply is_u_land|]. by apply (is_u_shiftl 32 32).
Qed.

(** Writing both halves, in either order, gives the 64-bit value. *)
Lemma set_half_pair target lo hi :
  is_u32 lo →
  set_half (set_half target lo true) hi false = lo + 2^32 * hi ∧
  set_half (set_half target hi false) lo true = lo + 2^32 * hi.
Proof.
  intros Hlo. rewrite <-(lor_shift lo hi 32) by done. unfold set_half. split.
  - f_equal. apply Z.bits_inj'. intros i Hi.
    rewrite Z.land_spec, Z.lor_spec, Z.ldiff_spec, testbit_ones32 by done.
    destruct (Z.ltb_spec i 32); cbn.
    + by rewrite andb_false_r, andb_true_r.
    + by rewrite andb_false_r, (testbit_small 32) by (done || lia).
  - rewrite Z.lor_comm. f_equal. apply Z.bits_inj'. intros i Hi.
    rewrite Z.ldiff_spec, Z.lor_spec, Z.land_spec, testbit_ones32 by done.
    destruct (Z.ltb_spec i 32); cbn.
    + by rewrite Z.shiftl_spec_low, andb_false_r.
    + by rewrite andb_false_r, andb_true_r.
Qed.

(** A config-space read is the little-endian value of the bytes at its
    offset, for every access size. *)
Lemma config_loop l :
  is_bytes l → (length l ≤ 8)%nat →
  foldr (λ b out, u64 (Z.lor (Z.shiftl out 8) b)) 0 l = le_val l.
Proof.
  intros Hl. induction Hl as [|b l Hb Hl IH]; cbn [foldr le_val length]; intros Hn; [done|].
  rewrite IH, Z.lor_comm, lor_shift by (done || lia). apply u64_small.
  pose proof (le_val_bound l Hl). unfold is_u in *.
  assert (256 ^ len l ≤ 256^7) by (apply Z.pow_le_mono_r; lia). lia.
Qed.

Lemma readConfigValue_spec buf n :
  is_bytes buf → 0 ≤ n ≤ 8 → n ≤ len buf →
  readConfigValue buf n = Ok (le_val (take (Z.to_nat n) buf)).
Proof.
  intros Hb Hn Hle. unfold readConfigValue. destruct (Z.gtb_spec n (len buf)); [lia|].
  destruct (_ || _); [done|]. f_equal. apply config_loop; [by apply is_bytes_take|].
  rewrite length_take. lia.
Qed.

Section transport_lemmas.
Context {T I D : Type} `{!GuestMemory T, !IRQController I}.
Implicit Types s : mmio T I D.

Lemma get_set_queue i f s :
  (i < length (queues s))%nat → get_queue i (set_queue i f s) = f (get_queue i s).
Proof.
  intros Hi. unfold get_queue, set_queue. cbn. rewrite !nth_lookup, list_lookup_alter_eq.
  destruct (lookup_lt_is_Some_2 _ _ Hi) as [q ->]. done.
Qed.
Lemma get_set_queue_ne i j f s : i ≠ j → get_queue j (set_queue i f s) = get_queue j s.
Proof.
  intros Hij. unfold get_queue, set_queue. cbn. rewrite !nth_lookup.
  by rewrite list_lookup_alter_ne.
Qed.

(** * Widths *)

Definition queue_ok (q : queue) : Prop :=
  is_u16 (size q) ∧ is_u64 (descAddr q) ∧ is_u64 (availAddr q) ∧ is_u64 (usedAddr q) ∧
  is_u16 (lastAvailIdx q) ∧ is_u16 (usedIdx q).

Record mmio_ok s : Prop := {
  ok_deviceFeatureSel : is_u32 (deviceFeatureSel s);
  ok_driverFeatureSel : is_u32 (driverFeatureSel s);
  ok_driverFeatures : is_u64 (driverFeatures s);
  ok_queueSel : is_u32 (queueSel s);
  ok_status : is_u32 (status s);
  ok_interruptStatus : is_u32 (interruptStatus s);
  ok_configGeneration : is_u32 (configGeneration s);
  ok_queues : Forall queue_ok (queues s);
}.

Lemma queue0_ok : queue_ok queue0.
Proof. split_and!; done. Qed.

Lemma get_queue_ok i s : mmio_ok s → queue_ok (get_queue i s).
Proof.
  intros Hs. unfold get_queue. rewrite nth_lookup.
  destruct (queues s !! i) as [q|] eqn:E; [|apply queue0_ok].
  cbn. eapply Forall_lookup_1; [apply (ok_queues s Hs)|done].
Qed.

Lemma set_queue_ok i f s :
  (∀ q, queue_ok q → queue_ok (f q)) → mmio_ok s → mmio_ok (set_queue i f s).
Proof. intros Hf []. split; cbn; auto. apply Forall_alter; auto. Qed.

Lemma on_selected_ok f : (∀ q, queue_ok q → queue_ok (f q)) → preserves mmio_ok (on_selected f).
Proof.
  intros Hf s Hs. unfold on_selected. destruct (selectedQueueLocked s); [|done].
  by apply set_queue_ok.
Qed.

Lemma read_mem_ok {A} P (f : T → result A) : preserves P (read_mem (I := I) (D := D) f).
Proof. intros s Hs. unfold read_mem. by destruct (mem s). Qed.

Lemma updateIRQ_ok : preserves mmio_ok (updateIRQLocked (T := T) (I := I) (D := D)).
Proof.
  intros s []. unfold updateIRQLocked. destruct (irq s); [|by split].
  destruct (Bool.eqb _ _); [by split|]. destruct (SetIRQ _ _ _). by split.
Qed.

Lemma write_driverFeatures_ok value s : mmio_ok s → mmio_ok (write_driverFeatures value s).
Proof.
  intros []. unfold write_driverFeatures. destruct (_ =? 0); [|destruct (_ =? 1)];
    split; try done; apply set_half_ok; auto with go.
Qed.

Lemma reset_registers_ok s : mmio_ok s → mmio_ok (reset_registers s).
Proof.
  intros []. split; cbn; auto with go. apply Forall_replicate, queue0_ok.
Qed.

Lemma write_queueReady_ok value q : queue_ok q → queue_ok (write_queueReady value q).
Proof.
  intros (? & ? & ? & ? & ? & ?). unfold write_queueReady.
  destruct (value =? 0); split_and!; cbn; auto with go.
Qed.

Lemma writeUsedLocked_ok i head usedLen :
  preserves mmio_ok (writeUsedLocked (T := T) (I := I) (D := D) i head usedLen).
Proof.
  intros s Hs. unfold writeUsedLocked. destruct (mem s) as [m|]; [|done].
  pose proof (get_queue_ok i s Hs) as Hq.
  assert (queue_ok (writeQueueUsed m (get_queue i s) head usedLen).1.2) as Hq'.
  { unfold writeQueueUsed. destruct (_ =? 0); [done|].
    destruct (WriteIPA _ _ _) as [m1 [| |]]; [|done..]. destruct (WriteIPA m1 _ _).
    destruct Hq as (? & ? & ? & ? & ? & ?). split_and!; cbn; auto with go. }
  destruct (writeQueueUsed _ _ _ _) as [[m' q] r]. cbn in *.
  apply set_queue_ok; [done|]. destruct Hs. by split.
Qed.

Definition next_entry (q : queue) : queue := q <| lastAvailIdx := u16 (lastAvailIdx q + 1) |>.
Lemma next_entry_ok i s : mmio_ok s → mmio_ok (set_queue i next_entry s).
Proof. apply set_queue_ok. intros q (? & ? & ? & ? & ? & ?). split_and!; cbn; auto with go. Qed.

(** The ring loop preserves what processing a chain and advancing the index
    preserve. *)
Lemma ring_turn_preserves P i body :
  (∀ s, P s → P (set_queue i next_entry s)) → (∀ head, preserves P (body head)) → preserves P (ring_turn i body).
Proof.
  intros Hn Hb. unfold ring_turn. apply preserves_bind; [apply preserves_gets|]. intros q.
  apply preserves_if; [apply preserves_panic|]. apply preserves_bind; [apply read_mem_ok|].
  intros entry. apply preserves_bind; [done|]. intros _. by apply preserves_modify.
Qed.
Lemma ring_loop_preserves P i availIdx body :
  (∀ s, P s → P (set_queue i next_entry s)) → (∀ head, preserves P (body head)) →
  preserves P (ring_loop i availIdx body).
Proof.
  intros Hn Hb s. unfold ring_loop. generalize (pending (get_queue i s) availIdx). intros n.
  revert s. change (preserves P (ring_turns n i body)).
  induction n as [|n IH]; cbn [ring_turns]; [apply preserves_ret|].
  apply preserves_bind; [by apply ring_turn_preserves|done].
Qed.

(** * The ring loop *)

(** Processing a chain does not touch the consumer index. *)
Definition keeps_index (i : nat) (body : Z → M (mmio T I D) unit) : Prop :=
  ∀ head s, lastAvailIdx (get_queue i (body head s).1) = lastAvailIdx (get_queue i s) ∧
    length (queues (body head s).1) = length (queues s).

Lemma pending_advance q availIdx n :
  is_u16 availIdx → pending q availIdx = n → u16 (lastAvailIdx q + Z.of_nat n) = availIdx.
Proof.
  intros Ha <-. unfold pending. rewrite Z2Nat.id by apply u16_nonneg. unfold u16.
  rewrite Zplus_mod_idemp_r. replace (_ + (_ - _)) with availIdx by lia. by apply Z.mod_small.
Qed.
Lemma pending_more q n :
  0 ≤ Z.of_nat n < 2^16 → pending q (u16 (lastAvailIdx q + Z.of_nat n)) = n.
Proof.
  intros Hn. unfold pending, u16. rewrite Zminus_mod_idemp_l. replace (_ + _ - _) with (Z.of_nat n) by lia.
  rewrite Z.mod_small; lia.
Qed.
Lemma pending_0 q availIdx :
  is_u16 (lastAvailIdx q) → is_u16 availIdx →
  pending q availIdx = O ↔ lastAvailIdx q = availIdx.
Proof.
  unfold pending, u16, is_u. intros Hl Ha. split; [|intros ->; by rewrite Z.sub_diag].
  intros H. destruct (decide (lastAvailIdx q ≤ availIdx)).
  - rewrite Z.mod_small in H; lia.
  - rewrite <-(Z.mod_add _ 1), Z.mod_small in H by lia. lia.
Qed.
Lemma pending_S q q' availIdx :
  is_u16 (lastAvailIdx q) → is_u16 availIdx → lastAvailIdx q ≠ availIdx →
  lastAvailIdx q' = u16 (lastAvailIdx q + 1) → pending q availIdx = S (pending q' availIdx).
Proof.
  unfold pending. intros Hl Ha Hne ->. unfold u16, is_u in *.
  rewrite Zminus_mod_idemp_r. replace (availIdx - (lastAvailIdx q + 1)) with
    (availIdx - lastAvailIdx q - 1) by lia.
  destruct (decide (lastAvailIdx q ≤ availIdx)).
  - rewrite !Z.mod_small by lia. lia.
  - rewrite <-(Z.mod_add (availIdx - lastAvailIdx q) 1),
      <-(Z.mod_add (availIdx - lastAvailIdx q - 1) 1) by lia. rewrite !Z.mod_small by lia. lia.
Qed.

Lemma ring_turn_index i body s s' :
  keeps_index i body → (i < length (queues s))%nat → ring_turn i body s = (s', Ok tt) →
  lastAvailIdx (get_queue i s') = u16 (lastAvailIdx (get_queue i s) + 1) ∧
  length (queues s') = length (queues s).
Proof.
  intros Hk Hi. unfold ring_turn, gets, mbind, M_bind.
  destruct (size (get_queue i s) =? 0); [done|]. unfold read_mem.
  destruct (mem s) as [m|]; [|done]. destruct (ReadIPA _ _ _) as [e| |]; [|done..].
  destruct (Hk (le_val e) s) as [Hl Hlen].
  destruct (body (le_val e) s) as [s1 [[]| |]]; [|done..]. cbn in Hl, Hlen. intros [= <-].
  rewrite get_set_queue by lia. unfold set_queue. cbn. rewrite Hl, length_alter. done.
Qed.

(** The loop's own equation: it stops when the consumer has caught up and
    otherwise makes a turn and goes on. *)
Lemma ring_loop_unfold i availIdx body s :
  keeps_index i body → (i < length (queues s))%nat →
  is_u16 (lastAvailIdx (get_queue i s)) → is_u16 availIdx →
  ring_loop i availIdx body s =
    if lastAvailIdx (get_queue i s) =? availIdx then (s, Ok tt)
    else (ring_turn i body ;;; ring_loop i availIdx body) s.
Proof.
  intros Hk Hi Hl Ha. unfold ring_loop at 1.
  destruct (Z.eqb_spec (lastAvailIdx (get_queue i s)) availIdx) as [E|E].
  - apply pending_0 in E as ->; done.
  - destruct (pending (get_queue i s) availIdx) as [|n] eqn:Hp;
      [by apply pending_0 in Hp|]. cbn [ring_turns]. unfold mbind, M_bind.
    destruct (ring_turn i body s) as [s' [[]| |]] eqn:Ht; [|done..].
    apply ring_turn_index in Ht as [Hn _]; [|done..]. unfold ring_loop.
    erewrite (pending_S _ (get_queue i s')) in Hp by done. by injection Hp as ->.
Qed.
End transport_lemmas.

(** * The interrupt line *)

Section line.
Context {T I D : Type} `{!GuestMemory T, IRQControllerOk I}.
Implicit Types s : mmio T I D.

(** The line has the level the device last set. *)
Definition line_tracked s : Prop := ∀ c, irq s = Some c → level c (IRQ s) = irqHigh s.
(** The line is asserted exactly while the status register is not zero. *)
Definition line_ok s : Prop :=
  ∀ c, irq s = Some c →
    irqHigh s = negb (interruptStatus s =? 0) ∧ level c (IRQ s) = irqHigh s.

Lemma line_ok_tracked s : line_ok s → line_tracked s.
Proof. intros Hs c Hc. by apply Hs. Qed.

Lemma updateIRQ_line s : line_tracked s → line_ok (updateIRQLocked s).1.
Proof.
  intros Hs. unfold updateIRQLocked. destruct (irq s) as [c|] eqn:Hc; [|intros c; cbn; congruence].
  destruct (Bool.eqb_spec (irqHigh s) (negb (interruptStatus s =? 0))) as [E|E].
  - intros c' Hc'. split; [done|by apply Hs].
  - pose proof (set_level c (IRQ s) (negb (interruptStatus s =? 0))) as Hl.
    destruct (SetIRQ _ _ _) as [c1 r]. intros c' [= <-]. done.
Qed.

Lemma raise_line bit : preserves line_ok (raise (T := T) (I := I) (D := D) bit).
Proof. intros s Hs. apply updateIRQ_line. intros c Hc. by apply Hs. Qed.

Lemma raise_frame bit s :
  ∃ s', raise bit s = (s', Ok tt) ∧ mem s' = mem s ∧ dev s' = dev s ∧ queues s' = queues s ∧
    interruptStatus s' = Z.lor (interruptStatus s) bit.
Proof.
  unfold raise, modify, mbind, M_bind, updateIRQLocked. cbn. destruct (irq s) as [c|]; [|by eexists].
  destruct (Bool.eqb _ _); [by eexists|].
  pose proof (set_ok c (IRQ s) (negb (Z.lor (interruptStatus s) bit =? 0))) as Hok.
  destruct (SetIRQ _ _ _) as [c' r]. cbn in Hok. subst r. by eexists.
Qed.

Lemma set_queue_line i f s : line_ok s → line_ok (set_queue i f s).
Proof. done. Qed.
Lemma on_selected_line f : preserves line_ok (on_selected (T := T) (I := I) (D := D) f).
Proof. intros s Hs. unfold on_selected. by destruct (selectedQueueLocked s). Qed.
Lemma write_driverFeatures_line value s : line_ok s → line_ok (write_driverFeatures value s).
Proof. intros Hs. unfold write_driverFeatures. by destruct (_ =? 0); [|destruct (_ =? 1)]. Qed.
Lemma writeUsedLocked_line i head usedLen :
  preserves line_ok (writeUsedLocked (T := T) (I := I) (D := D) i head usedLen).
Proof.
  intros s Hs. unfold writeUsedLocked. destruct (mem s); [|done].
  by destruct (writeQueueUsed _ _ _ _) as [[m' q] r].
Qed.

(** A reset clears the status register without touching the line. *)
Lemma reset_registers_line s :
  line_ok s → interruptStatus s = 0 → line_ok (reset_registers s).
Proof.
  intros Hs Hz c Hc. destruct (Hs c Hc) as [Hh Hl]. split; [done|].
  cbn. change (IRQ (reset_registers s)) with (IRQ s). rewrite Hl, Hh, Hz. done.
Qed.
End line.

(** * Working through the available ring *)

Section ring_spec.
Context {T I D : Type} `{GuestMemoryOk T, !IRQController I}.
Implicit Types s : mmio T I D.

Context (i : nat) (body : Z → M (mmio T I D) unit).
(** What one chain does to the device, and the length reported for it. *)
Context (step : D → list (list Z) → D) (ulen : list (list Z) → Z).
Context (ulen_ok : ∀ parts, is_u32 (ulen parts)).
(** The chains the device accepts in a state of its own fields. *)
Context (good : D → list (list Z) → Prop).
Fixpoint all_good (d : D) (reqs : list (Z * list (list Z))) : Prop :=
  match reqs with [] => True | r :: reqs => good d r.2 ∧ all_good (step d r.2) reqs end.

(** A driver's queue: the rings are mapped and the table and the entries lie
    outside the used ring. *)
Definition ring_ok (m : T) (q : queue) : Prop :=
  mem_ok m ∧ used_ring_ok m q ∧ table_kept m q ∧ 0 ≤ availAddr q.

(** The state after the device has consumed [n] entries. *)
Definition consumed s (q : queue) (l u n : Z) (m : T) (d : D) : mmio T I D :=
  set_queue i (λ _, at_index q (u16 (l + n)) (u16 (u + n))) s <| mem := Some m |> <| dev := d |>.

Context (body_spec : ∀ s m q l u head parts,
  mem s = Some m → mem_ok m → get_queue i s = at_index q l u → chain_parts m q head parts →
  good (dev s) parts →
  body head s = writeUsedLocked i head (ulen parts) (s <| dev := step (dev s) parts |>)).

Lemma ring_ok_agree q m m' : agree q m m' → ring_ok m q → ring_ok m' q.
Proof.
  intros Ha (Hm & (Hs & Hu & He & Hi & Hsl) & Ht & Hav). pose proof Ha as (Hm' & Hmap & _).
  split; [done|]. split; [|split; [by eapply table_kept_agree|done]].
  split_and!; auto.
Qed.

Lemma ring_turn_spec s m q l u head parts :
  mem s = Some m → (i < length (queues s))%nat → get_queue i s = at_index q l u →
  ring_ok m q → is_u16 u → entry_parts m q l head parts → good (dev s) parts →
  ∃ m', ring_turn i body s =
      (consumed s q l u 1 m' (step (dev s) parts), Ok tt) ∧ agree q m m' ∧
    used_element m' q u = Ok (head, ulen parts) ∧
    ∀ j, j mod size q ≠ u mod size q → used_element m' q j = used_element m q j.
Proof.
  intros Hmem Hi Hq (Hm & Hu & Ht & Hav) Hu16 (Hlt & Hk & (e & He & Hh) & Hc) Hg.
  unfold ring_turn, gets, mbind, M_bind. rewrite Hq.
  change (size (at_index q l u)) with (size q). destruct Hu as (Hs & Hu).
  destruct (Z.eqb_spec (size q) 0) as [|_]; [lia|]. unfold read_mem. rewrite Hmem.
  change (availAddr (at_index q l u) + 4 + _ * 2) with (entry_addr q l).
  assert (0 ≤ entry_addr q l) by (unfold entry_addr; pose proof (Z.mod_pos_bound l (size q)); lia).
  rewrite u64_small by (unfold is_u; lia). rewrite He, Hh.
  rewrite (body_spec s m q l u head parts) by done.
  destruct (writeQueueUsed_agree m (at_index q l u) head (ulen parts)) as (m' & Hw & Ha & Hel & Ho);
    auto; [by split| |].
  { subst head. pose proof (le_val_bound e (read_bytes _ _ _ _ Hm He)) as Hb.
    pose proof (read_length m _ 2 e Hm ltac:(lia) He) as Hl. by rewrite Hl in Hb. }
  exists m'. unfold writeUsedLocked.
  replace (get_queue i _) with (at_index q l u) by done.
  change (mem (s <| dev := step (dev s) parts |>)) with (mem s). rewrite Hmem, Hw.
  split_and!; [|done..]. unfold modify, consumed, set_queue. cbn. do 2 f_equal.
  by rewrite list_alter_alter.
Qed.

Lemma consumed_0 s q l u m :
  mem s = Some m → (i < length (queues s))%nat → get_queue i s = at_index q l u →
  is_u16 l → is_u16 u → consumed s q l u 0 m (dev s) = s.
Proof.
  intros Hm Hi Hq Hl Hu. unfold consumed, set_queue, get_queue in *.
  rewrite !Z.add_0_r, !u16_small by done. rewrite nth_lookup in Hq.
  destruct s as [????????????? qs d]. cbn in *. subst. f_equal. apply list_alter_same.
  intros x Hx. by rewrite Hx in Hq.
Qed.
Lemma consumed_S s q l u n m d m' d' :
  consumed (consumed s q l u 1 m d) q (u16 (l + 1)) (u16 (u + 1)) n m' d' =
  consumed s q l u (1 + n) m' d'.
Proof.
  unfold consumed, set_queue. cbn. rewrite list_alter_alter, !u16_add_u16, <-!Z.add_assoc. done.
Qed.

Definition entries (m : T) (q : queue) (l : Z) (reqs : list (Z * list (list Z))) : Prop :=
  ∀ k head parts, reqs !! k = Some (head, parts) →
    entry_parts m q (u16 (l + Z.of_nat k)) head parts.

Lemma entries_cons m q l head parts reqs :
  is_u16 l → entries m q l ((head, parts) :: reqs) →
  entry_parts m q l head parts ∧ entries m q (u16 (l + 1)) reqs.
Proof.
  intros Hl He. split.
  - specialize (He O head parts eq_refl). by rewrite Z.add_0_r, u16_small in He.
  - intros k h p Hk. specialize (He (S k) h p Hk). rewrite u16_add_u16.
    by replace (l + 1 + Z.of_nat k) with (l + Z.of_nat (S k)) by lia.
Qed.
Lemma entries_agree m m' q l reqs :
  ring_ok m q → agree q m m' → entries m q l reqs → entries m' q l reqs.
Proof.
  intros (Hm & _ & Ht & _) Ha He k h p Hk. eapply entry_parts_agree; eauto.
Qed.

(** The device consumes the pending entries in order: each chain's contents
    are handled once, and each chain is completed in the next slot. *)
Lemma ring_turns_spec reqs s m q l u :
  mem s = Some m → (i < length (queues s))%nat → get_queue i s = at_index q l u →
  ring_ok m q → is_u16 l → is_u16 u → entries m q l reqs → all_good (dev s) reqs →
  ∃ m', ring_turns (length reqs) i body s =
      (consumed s q l u (len reqs) m' (foldl step (dev s) reqs.*2), Ok tt) ∧
    agree q m m' ∧
    (len reqs ≤ size q → (size q | 2^16) →
      (∀ k head parts, reqs !! k = Some (head, parts) →
        used_element m' q (u16 (u + Z.of_nat k)) = Ok (head, ulen parts)) ∧
      (∀ k, len reqs ≤ k < size q →
        used_element m' q (u16 (u + k)) = used_element m q (u16 (u + k)))).
Proof.
  revert s m l u. induction reqs as [|[head parts] reqs IH]; intros s m l u Hm Hi Hq Hr Hl Hu He Hg.
  { exists m. cbn [length ring_turns fmap list_fmap foldl]. rewrite consumed_0 by done.
    split; [done|]. split; [apply agree_refl, Hr|done]. }
  apply entries_cons in He as [He Hes]; [|done]. destruct Hg as [Hg Hgs].
  destruct (ring_turn_spec s m q l u head parts) as (m1 & Ht & Ha & Hel & Ho); [done..|].
  destruct (IH (consumed s q l u 1 m1 (step (dev s) parts)) m1 (u16 (l + 1)) (u16 (u + 1)))
    as (m2 & Hts & Ha2 & Hel2);
    [done|unfold consumed, set_queue; cbn; by rewrite length_alter| |by eapply ring_ok_agree|
     apply is_u16_u16|apply is_u16_u16|by eapply entries_agree|done|].
  { unfold consumed. by rewrite get_set_queue. }
  exists m2. cbn [length ring_turns]. unfold mbind, M_bind. rewrite Ht, Hts, consumed_S.
  split; [|split; [by eapply agree_trans|]].
  { do 2 f_equal. lia. }
  intros Hn Hd. rewrite Nat2Z.inj_succ in *. destruct Hel2 as [Hel2 Hoth]; [lia|done|].
  assert (0 < size q) as Hs by apply Hr. split.
  - intros [|k] h p Hk; [injection Hk as <- <-; change (Z.of_nat 0) with 0|].
    + rewrite Z.add_0_r, (u16_small u) by done. specialize (Hoth (size q - 1)).
      rewrite u16_add_u16 in Hoth. replace (u + 1 + (size q - 1)) with (u + size q) in Hoth by lia.
      rewrite !(used_element_turn _ q u) in Hoth by done. by rewrite Hoth by lia.
    + specialize (Hel2 k h p Hk). rewrite u16_add_u16 in Hel2.
      by replace (u + Z.of_nat (S k)) with (u + 1 + Z.of_nat k) by lia.
  - intros k Hk. specialize (Hoth (k - 1)). rewrite u16_add_u16 in Hoth.
    replace (u + 1 + (k - 1)) with (u + k) in Hoth by lia. rewrite Hoth by lia.
    apply Ho. replace (u mod size q) with (u16 (u + 0) mod size q)
      by (by rewrite Z.add_0_r, u16_small). apply slots_distinct; (done || lia).
Qed.
End ring_spec.
(** A device that accepts a chain whatever its state. *)
Lemma all_good_const {D} (step : D → list (list Z) → D) (P : list (list Z) → Prop) d reqs :
  Forall (λ r : Z * list (list Z), P r.2) reqs → all_good step (λ _, P) d reqs.
Proof. intros Hr. revert d. induction Hr as [|r reqs Hr _ IH]; intros d; [done|]. split; [done|apply IH]. Qed.
