(* ===== verification/RxRing.v ===== *)
(** Storing packets in the chains that a driver has posted: the receive side of
    the socket and the network device of internal/virtio.

    Both walk the available ring, fill the writable buffers of a chain with a
    packet that waits, and complete the chain; they differ in what they store
    in front of a packet and in the text of their errors.  The lemmas say what
    the driver finds: each chain holds its packet, chains and packets are used
    in order, and nothing else changes in guest memory but the used ring. *)
From S2P Require Import Prelude GuestMemory VirtQueue VirtMmio.

Section definitions.
Context {T I D : Type} `{!GuestMemory T, !IRQController I}.
(** The texts of the errors. *)
Context (looped small : string).

(** The loop of [fillChainLocked] of vsock.go with [n] turns left. *)
Fixpoint fillChain_turns (n : nat) (q : queue) (index offset : Z) (packet : list Z) : M (mmio T I D) Z :=
  match n with
  | O => fail looped
  | S n =>
    desc ← read_mem (λ m, readDescriptor m q index);
    offset ← (if has (flags desc) descFWrite && (length_ desc >? 0) && (offset <? len packet) then
                let chunk := take (Z.to_nat (length_ desc)) (drop (Z.to_nat offset) packet) in
                write_mem (λ m, WriteIPA m (addr desc) chunk) ;;; mret (offset + len chunk)
              else mret offset);
    if negb (has (flags desc) descFNext) then
      if offset <? len packet then fail small else mret (u32 offset)
    else fillChain_turns n q (next desc) offset packet
  end.
Definition fill_chain (q : queue) (head : Z) (packet : list Z) : M (mmio T I D) Z :=
  fillChain_turns (Z.to_nat (size q)) q head 0 packet.

(** The device's method for one chain, and the removal of the first packet that
    waits. *)
Context (fill : queue → Z → list Z → M (mmio T I D) Z) (pop : D → D).
(** One turn of the loop of [processRXLocked]. *)
Definition rx_turn (packet : list Z) : M (mmio T I D) unit :=
  ring_turn 0 (λ head,
    q ← gets (get_queue 0);
    written ← fill q head packet;
    writeUsedLocked 0 head written ;;;
    modify (λ s, s <| dev := pop (dev s) |>)).
End definitions.

(** At most [n] turns of a loop, fewer when the packets run out; whether there
    was one. *)
Fixpoint rx_turns {S} (pend : S → list (list Z)) (turn : list Z → M S unit) (n : nat) (processed : bool) : M S bool :=
  match n with
  | O => mret processed
  | S n =>
    s ← gets id;
    match pend s with
    | [] => mret processed
    | packet :: _ => turn packet ;;; rx_turns pend turn n true
    end
  end.

Section storing.
Context {T I D : Type} `{GuestMemoryOk T, !IRQController I}.
Implicit Types (s : mmio T I D) (m : T).
Context (looped small : string).

Lemma response_loop_full m bs data : response_loop m bs data (length data) = (m, length data, Ok tt).
Proof.
  induction bs as [|b bs IH]; cbn [response_loop]; [done|]. destruct (_ || _); [done|]. by rewrite Z.sub_diag.
Qed.
Lemma readDescriptor_clear m m' q b bs :
  table_clear m q (b :: bs) → rewritten m m' [b] → ∀ j, 0 ≤ j →
  readQueueDescriptor m' (Some q) j = readQueueDescriptor m (Some q) j.
Proof.
  intros Ht Hr j Hj. apply (readDescriptor_rewritten m m' q [b]); [|done|done].
  destruct Ht as (? & ? & Ht). split_and!; [done..|]. intros i Hi. destruct (Ht i Hi) as [? [? _]%Forall_cons].
  split; [done|]. by apply Forall_singleton.
Qed.

(** The loop that fills a chain while it reads the descriptors writes what the
    loop over the buffers of the chain writes. *)
Lemma fill_response n bs s m q i off packet :
  chain m q i bs → (length bs ≤ n)%nat → 0 ≤ i → mem s = Some m → mem_ok m → is_bytes packet →
  lengths_ok bs → backed m bs → table_clear m q bs → (off ≤ length packet)%nat →
  fillChain_turns looped small n q i (Z.of_nat off) packet s =
    let '(m', off', _) := response_loop m bs packet off in
    (s <| mem := Some m' |>,
     if Z.of_nat off' <? len packet then Err small else Ok (u32 (Z.of_nat off'))).
Proof.
  intros Hc Hn Hi Hm Hok Hb Hl Hbk Ht Hoff. revert n s m i off Hc Hn Hi Hm Hok Hl Hbk Ht Hoff.
  induction bs as [|b bs IH]; intros n s m i off Hc Hn Hi Hm Hok Hl Hbk Ht Hoff; [inversion Hc|].
  destruct n as [|n]; cbn [length] in Hn; [lia|]. destruct (chain_cons _ _ _ _ _ Hc) as (d & Hd & -> & Hrest).
  apply Forall_cons in Hl as [Hld Hl], Hbk as [Hbd Hbk]. cbn in Hld.
  cbn [fillChain_turns]. unfold mbind at 1, M_bind at 1. unfold read_mem. rewrite Hm, (readDescriptor_Ok _ _ _ _ Hd).
  assert (∀ (off' : nat) m1, rewritten m m1 [buffer_of d] → (off' ≤ length packet)%nat →
    response_loop m (buffer_of d :: bs) packet off = response_loop m1 bs packet off' →
    (if negb (has (flags d) descFNext) then
       if Z.of_nat off' <? len packet then fail small else mret (u32 (Z.of_nat off'))
     else fillChain_turns looped small n q (next d) (Z.of_nat off') packet) (s <| mem := Some m1 |>) =
    let '(m', off', _) := response_loop m (buffer_of d :: bs) packet off in
    (s <| mem := Some m' |>,
     if Z.of_nat off' <? len packet then Err small else Ok (u32 (Z.of_nat off')))) as Hgo.
  { intros off' m1 Hrw Hoff' Heq. rewrite Heq. destruct Hrest as [[Hf ->]|[Hf Hc']]; rewrite Hf; cbn [negb].
    - cbn [response_loop]. by destruct (Z.of_nat off' <? len packet).
    - pose proof Hrw as (Hok1 & Hmap1 & _). pose proof (next_nonneg _ _ _ _ (reads_bytes m Hok) Hd) as Hnx.
      assert (chain m1 q (next d) bs) as Hc1.
      { eapply chain_same_table; [exact Hok| |done|exact Hc']. by apply (readDescriptor_clear m m1 q (buffer_of d) bs). }
      assert (backed m1 bs) as Hbk1 by by eapply backed_mono.
      assert (table_clear m1 q bs) as Ht1 by by eapply table_clear_tail.
      rewrite (IH n (s <| mem := Some m1 |>) m1 (next d) off') by (done || lia).
      by destruct (response_loop m1 bs packet off') as [[m' o'] r]. }
  clear IH Hrest. unfold mbind at 1, M_bind at 1.
  destruct (Z.ltb_spec (Z.of_nat off) (len packet)) as [Hlt|Hge]; [rewrite andb_true_r|rewrite andb_false_r; unfold mret, M_ret].
  2:{ replace s with (s <| mem := Some m |>) at 1 by (rewrite <-Hm; by destruct s). apply Hgo; [by apply rewritten_refl|done|].
      assert (off = length packet) as -> by lia. by rewrite !response_loop_full. }
  assert (s = s <| mem := Some m |>) as Hs by (rewrite <-Hm; by destruct s).
  destruct (has (flags d) descFWrite) eqn:Hw; cbn [andb]; swap 1 2.
  { rewrite Hs at 1. apply Hgo; [by apply rewritten_refl|done|]. cbn [response_loop buffer_of bwrite]. by rewrite Hw. }
  destruct (Z.gtb_spec (length_ d) 0) as [Hpos|Hpos]; swap 1 2.
  { assert (length_ d = 0) as Hz by (unfold is_u in Hld; lia).
    rewrite Hs at 1. apply Hgo; [by apply rewritten_refl|done|]. cbn [response_loop buffer_of bwrite blength]. by rewrite Hw, Hz. }
  rewrite Nat2Z.id. set (piece := take (Z.to_nat (length_ d)) (drop off packet)).
  set (k := Z.to_nat (if len packet - Z.of_nat off >? length_ d then length_ d else len packet - Z.of_nat off)).
  assert (off + k ≤ length packet)%nat as Hkl.
  { unfold k. destruct (Z.gtb_spec (len packet - Z.of_nat off) (length_ d)); lia. }
  assert (length piece = k) as Hk.
  { unfold piece, k. rewrite length_take, length_drop. destruct (Z.gtb_spec (len packet - Z.of_nat off) (length_ d)); lia. }
  assert (piece = sub packet off k) as Hp.
  { unfold sub. rewrite <-Hk. unfold piece at 2. rewrite length_take. unfold piece.
    destruct (decide (Z.to_nat (length_ d) ≤ length (drop off packet))%nat).
    - by rewrite Nat.min_l.
    - rewrite Nat.min_r by lia. by rewrite !take_ge by lia. }
  assert (is_bytes piece) as Hpb by (unfold piece; auto with go).
  assert (len piece ≤ length_ d) as Hpl by (unfold piece; rewrite length_take; lia).
  assert (mapped m (addr d) (len piece)) as Hmap.
  { apply (mapped_prefix m (addr d) (length_ d)); [by apply Hbd; cbn; rewrite Hw|lia]. }
  assert (rewritten m (WriteIPA m (addr d) piece).1 [buffer_of d]) as Hrw.
  { apply (rewritten_write m _ (buffer_of d) [] piece); try done. by apply rewritten_refl, write_mem_ok. }
  pose proof (write_mapped m (addr d) piece Hok Hmap) as Hwr.
  unfold write_mem, mbind, M_bind, mret, M_ret. rewrite Hm.
  destruct (WriteIPA m (addr d) piece) as [m1 r] eqn:Ew. cbn [fst snd] in Hrw, Hwr. subst r.
  replace (Z.of_nat off + len piece) with (Z.of_nat (off + k)) by lia. apply Hgo; [done|done|].
  cbn [response_loop buffer_of bwrite blength baddr]. rewrite Hw. cbn [negb orb].
  destruct (Z.eqb_spec (length_ d) 0) as [|_]; [lia|]. destruct (Z.leb_spec (len packet - Z.of_nat off) 0) as [|_]; [lia|].
  fold k. by rewrite <-Hp, Ew.
Qed.

(** ** One chain *)

(** [m'] differs from [m] in the used ring and in the writable buffers [bs]
    only. *)
Definition touched (q : queue) (bs : list queueBuffer) m m' : Prop :=
  mem_ok m' ∧ (∀ a n, mapped m a n → mapped m' a n) ∧
  ∀ a n, 0 ≤ n → mapped m a n → outside q a n → clear_of a n bs → ReadIPA m' a n = ReadIPA m a n.
Lemma touched_app q bs bs' m m1 m2 : touched q bs m m1 → touched q bs' m1 m2 → touched q (bs ++ bs') m m2.
Proof.
  intros (_ & Hm1 & Hr1) (Hok & Hm2 & Hr2). split_and!; [done|by auto|].
  intros a n Hn Hm Ho [Hc1 Hc2]%Forall_app. by rewrite Hr2, Hr1 by auto.
Qed.
Lemma touched_fill q bs m m1 m2 : rewritten m m1 bs → agree q m1 m2 → touched q bs m m2.
Proof.
  intros (_ & Hm1 & Hr1) (Hok & Hm2 & Hr2). split_and!; [done|by auto|].
  intros a n Hn Hm Ho Hc. by rewrite Hr2, Hr1 by auto.
Qed.

(** The writable buffers of [bs] lie outside the used ring. *)
Definition apart (q : queue) (bs : list queueBuffer) : Prop :=
  Forall (λ b, bwrite b → outside q (baddr b) (blength b)) bs.
(** No buffer of [bs] meets one of [bs']. *)
Definition no_overlap (bs bs' : list queueBuffer) : Prop :=
  Forall (λ b, bwrite b → clear_of (baddr b) (blength b) bs') bs.
Lemma clear_prefix a n k bs : clear_of a n bs → k ≤ n → clear_of a k bs.
Proof. intros Hc Hk. eapply Forall_impl; [exact Hc|]. intros b Hb Hw. specialize (Hb Hw). lia. Qed.

Lemma gather_touched q bs bs' m m' n :
  touched q bs' m m' → lengths_ok bs → backed m bs → apart q bs → no_overlap bs bs' → gather m' bs n = gather m bs n.
Proof.
  intros (_ & _ & Hr) Hl. revert n. induction Hl as [|b bs [Hb0 Hb] Hl IH]; intros n Hbk Hap Hno; [done|].
  apply Forall_cons in Hbk as [Hmap Hbk], Hap as [Hout Hap], Hno as [Hcl Hno]. cbn [gather].
  destruct (bwrite b); cbn [negb orb]; [|by apply IH]. destruct (_ || _); [by apply IH|].
  rewrite Hr; [by rewrite IH|lia| | |].
  - eapply mapped_prefix; [by apply Hmap|lia].
  - specialize (Hout Logic.I). unfold outside in *. lia.
  - eapply clear_prefix; [by apply Hcl|lia].
Qed.
Lemma touched_agree q m m' : agree q m m' → touched q [] m m'.
Proof. intros (? & ? & Hr). split_and!; auto. Qed.
Lemma used_apart q bs i : 0 < size q → apart q bs → clear_of (used_slot q i) 8 bs.
Proof.
  intros Hs Ha. eapply Forall_impl; [exact Ha|]. intros b Hb Hw. specialize (Hb Hw).
  pose proof (used_slot_range q i Hs). unfold outside in Hb. lia.
Qed.
Lemma used_rewritten q bs m m1 : 0 < size q → used_ring_ok m q → apart q bs → rewritten m m1 bs →
  used_ring_ok m1 q ∧ ∀ i, used_element m1 q i = used_element m q i.
Proof.
  intros Hs (? & ? & ? & Hi & Hsl) Ha (_ & Hm & Hr). split; [by split_and!; auto|].
  intros i. unfold used_element. by rewrite Hr by (auto using used_apart; lia).
Qed.

(** A chain of the available ring that the device can fill. *)
Record posted m (q : queue) (idx head : Z) (bs : list queueBuffer) : Prop := {
  po_addr : 0 ≤ entry_addr q idx < 2^64;
  po_mapped : mapped m (entry_addr q idx) 2 ∧ outside q (entry_addr q idx) 2;
  po_entry : ∃ e, ReadIPA m (entry_addr q idx) 2 = Ok e ∧ le_val e = head;
  po_chain : chain m q head bs;
  po_lengths : lengths_ok bs;
  po_backed : backed m bs;
  po_separate : separate bs;
  po_apart : apart q bs;
  po_table : table_clear m q bs;
}.

Lemma posted_head m q idx head bs : mem_ok m → posted m q idx head bs → is_u16 head.
Proof.
  intros Hm [_ _ (e & He & <-) _ _ _ _ _ _]. pose proof (le_val_bound e (read_bytes _ _ _ _ Hm He)) as Hb.
  by rewrite (read_length m _ 2 e Hm ltac:(lia) He) in Hb.
Qed.

(** A device that stores [frame packet] for [packet]. *)
Context (fill : queue → Z → list Z → M (mmio T I D) Z) (frame : list Z → list Z) (pop : D → D).
Context (fill_frame : ∀ q head packet, fill q head packet = fill_chain looped small q head (frame packet)).
Abbreviation turn := (rx_turn fill pop).

(** One turn stores the packet in the chain, completes the chain and removes
    the packet. *)
Lemma rx_turn_spec s m q l u head bs packet0 :
  let packet := frame packet0 in
  mem s = Some m → mem_ok m → (0 < length (queues s))%nat → get_queue 0 s = at_index q l u →
  used_ring_ok m q → is_u16 u → posted m q l head bs → is_bytes packet → len packet < 2^32 → len packet ≤ room bs →
  ∃ m', turn packet0 s = (consumed 0 s q l u 1 m' (pop (dev s)), Ok tt) ∧ touched q bs m m' ∧
    gather m' bs (length packet) = Ok packet ∧ used_element m' q u = Ok (head, len packet) ∧
    ∀ j, j mod size q ≠ u mod size q → used_element m' q j = used_element m q j.
Proof.
  intros packet Hm Hok Hq Hgq Hu Hu16 Hpo Hb Hlen Hroom. pose proof (posted_head m q l head bs Hok Hpo) as Hh.
  destruct Hpo as [Hpa [Hpm Hpout] (e & He & Hle) Hc Hl Hbk Hsep Hap Ht].
  destruct (response_loop_spec m bs packet 0 Hok Hb Hl Hbk Hsep ltac:(lia)) as (m1 & Hloop & Hrw & Hg).
  rewrite Nat.sub_0_r, drop_0 in *. rewrite take_ge in Hg by lia. assert (0 < size q) as Hsz by apply Hu.
  destruct (used_rewritten q bs m m1 Hsz Hu Hap Hrw) as [Hu1 Hel1].
  assert (mem_ok m1) as Hok1 by apply Hrw.
  destruct (writeQueueUsed_agree m1 (at_index q l u) head (len packet) Hok1 Hu1 Hu16 Hh ltac:(unfold is_u; lia)) as (m2 & Hw & Ha & Hel & Hoth).
  assert (agree q m1 m2) as Ha' by exact Ha. clear Ha. exists m2. split_and!.
  - unfold rx_turn, ring_turn, gets, mbind, M_bind. rewrite Hgq.
    change (size (at_index q l u)) with (size q). destruct (Z.eqb_spec (size q) 0) as [|_]; [lia|]. unfold read_mem at 1. rewrite Hm.
    change (availAddr (at_index q l u) + 4 + _ * 2) with (entry_addr q l). rewrite u64_small, He, Hle by done. cbv beta iota.
    rewrite fill_frame. fold packet. unfold fill_chain. rewrite Hgq. change (size (at_index q l u)) with (size q).
    pose proof (fill_response (Z.to_nat (size q)) bs s m (at_index q l u) head 0 packet (chain_at_index m q l u head bs Hc)
      (chain_length m q head bs (reads_bytes m Hok) (proj1 Hh) Hc) (proj1 Hh) Hm Hok Hb Hl Hbk Ht ltac:(lia)) as Hf.
    change (Z.of_nat 0) with 0 in Hf. rewrite Hf, Hloop. rewrite Nat.add_0_l, Nat.min_l by lia. destruct (Z.ltb_spec (len packet) (len packet)) as [|_]; [lia|].
    rewrite u32_small by (unfold is_u; lia). unfold writeUsedLocked.
    change (mem (s <| mem := Some m1 |>)) with (Some m1). cbv beta iota.
    replace (get_queue 0 (s <| mem := Some m1 |>)) with (at_index q l u) by done.
    rewrite Hw.
    unfold consumed, set_queue, modify. cbn. do 2 f_equal. by rewrite list_alter_alter.
  - by eapply touched_fill.
  - rewrite (gather_touched q bs [] m1 m2); [done|by apply touched_agree|done| |done|].
    + by eapply backed_mono; [apply Hrw|].
    + apply Forall_forall. intros b _ _. apply Forall_nil_2.
  - exact Hel.
  - intros j Hj. rewrite <-Hel1. by apply Hoth.
Qed.

(** ** The available chains *)

(** The entries of the available ring from [l] on: each is a posted chain, and
    no buffer meets the ring, the descriptor table or another buffer. *)
Record rx_ring m (q : queue) (l : Z) (slots : list (Z * list queueBuffer)) : Prop := {
  rr_table : table_kept m q;
  rr_posted k head bs : slots !! k = Some (head, bs) → posted m q (u16 (l + Z.of_nat k)) head bs;
  rr_apart k k' head bs head' bs' : slots !! k = Some (head, bs) → slots !! k' = Some (head', bs') →
    clear_of (entry_addr q (u16 (l + Z.of_nat k))) 2 bs' ∧ (k ≠ k' → no_overlap bs bs');
}.

Lemma posted_touched m m' q idx head bs bs' :
  mem_ok m → posted m q idx head bs → touched q bs' m m' → table_kept m q → table_clear m q bs' →
  clear_of (entry_addr q idx) 2 bs' → posted m' q idx head bs.
Proof.
  intros Hok [Ha [Hm Ho] (e & He & Hle) Hc Hl Hbk Hsep Hap Ht] (Hok' & Hmap & Hr) (Ht0 & Ht1 & Htk) (_ & _ & Htc) Hcl.
  split; try done.
  - by auto.
  - exists e. by rewrite Hr by (done || lia).
  - pose proof (posted_head m q idx head bs Hok) as Hh.
    eapply chain_same_table; [exact Hok| | |exact Hc].
    + intros j Hj. unfold readQueueDescriptor. destruct (Z.eqb_spec (size q) 0); [done|]. cbn.
      destruct (Z.geb_spec j (size q)); [done|]. rewrite u64_small by (unfold is_u; lia).
      destruct (Htk j) as [? ?]; [lia|]. destruct (Htc j) as [_ ?]; [lia|]. by rewrite Hr by (done || lia).
    + apply Hh. split; eauto.
  - eapply backed_mono; eauto.
  - destruct Ht as (? & ? & Ht). split_and!; [done..|]. intros i Hi. destruct (Ht i Hi). auto.
Qed.
Lemma table_kept_touched m m' q bs : touched q bs m m' → table_kept m q → table_kept m' q.
Proof. intros (_ & Hm & _) (? & ? & Hk). split_and!; [done..|]. intros i Hi. destruct (Hk i Hi). split; auto. Qed.

Lemma rx_ring_tail m m' q l head bs slots :
  mem_ok m → is_u16 l → rx_ring m q l ((head, bs) :: slots) → touched q bs m m' → rx_ring m' q (u16 (l + 1)) slots.
Proof.
  intros Hok Hl [Ht Hp Ha] Htd. pose proof (Hp 0%nat head bs eq_refl) as Hp0.
  assert (∀ k, u16 (u16 (l + 1) + Z.of_nat k) = u16 (l + Z.of_nat (S k))) as Hidx.
  { intros k. rewrite u16_add_u16. f_equal. lia. }
  split.
  - by eapply table_kept_touched.
  - intros k head' bs' Hk. rewrite Hidx. eapply posted_touched; [exact Hok|by apply (Hp (S k))|exact Htd|done|by apply Hp0|].
    by apply (Ha (S k) 0%nat head' bs' head bs).
  - intros k k' h1 b1 h2 b2 H1 H2. rewrite Hidx. destruct (Ha (S k) (S k') h1 b1 h2 b2 H1 H2) as [Hc Hn]. split; [done|].
    intros Hne. apply Hn. lia.
Qed.
Lemma no_overlap_concat bs (bss : list (list queueBuffer)) : Forall (no_overlap bs) bss → no_overlap bs (concat bss).
Proof.
  intros Hf. apply Forall_forall. intros b Hb Hw. induction Hf as [|bs' bss Hn _ IH]; cbn; [apply Forall_nil_2|].
  apply Forall_app. split; [|done]. exact (proj1 (Forall_forall _ _) Hn b Hb Hw).
Qed.

(** What the driver finds after [d] packets were stored. *)
Definition stored m' (q : queue) (u : Z) (slots : list (Z * list queueBuffer)) (ps : list (list Z)) : Prop :=
  ∀ k head bs packet, slots !! k = Some (head, bs) → ps !! k = Some packet →
    gather m' bs (length packet) = Ok packet ∧ used_element m' q (u16 (u + Z.of_nat k)) = Ok (head, len packet).

End storing.

(** * The loop *)

Lemma tail_drop {A} n (l : list A) : tail (drop n l) = drop (S n) l.
Proof. revert n. induction l as [|x l IH]; intros [|n]; cbn; [done..|]. apply IH. Qed.

Section loop.
(** A device with states [X], seen as a transport with the fields [D]. *)
Context {X T I D : Type} `{GuestMemoryOk T, !IRQController I}.
Context (bare : X → mmio T I D) (inv : X → T → Prop).
Context (frame : list Z → list Z) (pend : D → list (list Z)) (pop : D → D) (turn : list Z → M X unit).
Context (pend_pop : ∀ d, pend (pop d) = tail (pend d)).
(** A turn stores its packet in the chain, completes the chain and removes the
    packet. *)
Definition turn_stores : Prop := ∀ s m q l u head bs packet0,
  let packet := frame packet0 in
  inv s m → mem (bare s) = Some m → mem_ok m → (0 < length (queues (bare s)))%nat → get_queue 0 (bare s) = at_index q l u →
  used_ring_ok m q → is_u16 u → posted m q l head bs → is_bytes packet → len packet < 2^32 → len packet ≤ room bs →
  ∃ s' m', turn packet0 s = (s', Ok tt) ∧ inv s' m' ∧ bare s' = consumed 0 (bare s) q l u 1 m' (pop (dev (bare s))) ∧
    touched q bs m m' ∧ gather m' bs (length packet) = Ok packet ∧ used_element m' q u = Ok (head, len packet) ∧
    ∀ j, j mod size q ≠ u mod size q → used_element m' q j = used_element m q j.
Context (turn_spec : turn_stores).
Abbreviation turns := (rx_turns (λ s, pend (dev (bare s))) turn).

Lemma pend_iter d x : pend (Nat.iter d pop x) = drop d (pend x).
Proof.
  induction d as [|d IH]; cbn [Nat.iter nat_rect]; [by rewrite drop_0|]. change (nat_rect _ x _ d) with (Nat.iter d pop x).
  by rewrite pend_pop, IH, tail_drop.
Qed.
Lemma rx_turns_spec slots ps s m q l u b :
  inv s m → mem (bare s) = Some m → mem_ok m → (0 < length (queues (bare s)))%nat → get_queue 0 (bare s) = at_index q l u →
  is_u16 l → is_u16 u → used_ring_ok m q → (size q | 2^16) → len slots ≤ size q → rx_ring m q l slots → pend (dev (bare s)) = ps →
  Forall (λ p, is_bytes (frame p) ∧ len (frame p) < 2^32) ps →
  (∀ k head bs packet, slots !! k = Some (head, bs) → ps !! k = Some packet → len (frame packet) ≤ room bs) →
  let d := Nat.min (length slots) (length ps) in
  ∃ s' m', turns (length slots) b s = (s', Ok (b || (0 <? Z.of_nat d))) ∧ inv s' m' ∧
    bare s' = consumed 0 (bare s) q l u (Z.of_nat d) m' (Nat.iter d pop (dev (bare s))) ∧
    touched q (concat slots.*2) m m' ∧ stored m' q u slots (frame <$> ps) ∧
    ∀ j, Z.of_nat d ≤ j < size q → used_element m' q (u16 (u + j)) = used_element m q (u16 (u + j)).
Proof.
  revert ps s m l u b. induction slots as [|[head bs] slots IH]; intros ps s m l u b Hinv Hm Hok Hq Hgq Hl Hu Hur Hdiv Hle Hring Hps Hpk Hroom d.
  { exists s, m. replace d with 0%nat by done. cbn [length rx_turns Nat.iter nat_rect]. change (Z.of_nat 0) with 0.
    rewrite consumed_0, orb_false_r by done. split_and!; [done|done|done|by split_and!|intros k h' b' p'; by rewrite lookup_nil|done]. }
  destruct ps as [|packet ps].
  { exists s, m. replace d with 0%nat by by destruct slots. cbn [length rx_turns Nat.iter nat_rect]. unfold gets, mbind, M_bind. cbv [id]. rewrite Hps.
    change (Z.of_nat 0) with 0. rewrite consumed_0, orb_false_r by done. split_and!; [done|done|done|by split_and!|intros k h' b' p' _; cbn; by rewrite lookup_nil|done]. }
  apply Forall_cons in Hpk as [[Hpb Hpl] Hpk]. cbn [length] in *.
  pose proof (rr_posted _ _ _ _ Hring 0%nat head bs eq_refl) as Hp0. rewrite Z.add_0_r, u16_small in Hp0 by done.
  destruct (turn_spec s m q l u head bs packet) as (s1 & m1 & Ht & Hinv1 & Hb1 & Htd & Hg & Hel & Hoth); try done.
  { by apply (Hroom 0%nat head). }
  assert (mem_ok m1) as Hok1 by apply Htd.
  assert (get_queue 0 (bare s1) = at_index q (u16 (l + 1)) (u16 (u + 1))) as Hgq1 by (rewrite Hb1; unfold consumed; by rewrite get_set_queue).
  destruct (IH ps s1 m1 (u16 (l + 1)) (u16 (u + 1)) true) as (s2 & m2 & Hts & Hinv2 & Hb2 & Htd2 & Hst & Hoth2); try done.
  { by rewrite Hb1. }
  { rewrite Hb1. unfold consumed, set_queue. cbn. by rewrite length_alter. }
  { apply is_u16_u16. }
  { apply is_u16_u16. }
  { destruct Hur as (? & ? & ? & ? & ?). split_and!; [done..|by apply Htd|intros; by apply Htd]. }
  { lia. }
  { exact (rx_ring_tail m m1 q l head bs slots Hok Hl Hring Htd). }
  { rewrite Hb1. cbn. by rewrite pend_pop, Hps. }
  { intros k h bs' p Hk Hkp. by apply (Hroom (S k) h). }
  set (d1 := Nat.min (length slots) (length ps)) in *. replace d with (S d1) by done.
  assert (0 < size q) as Hsz by apply Hur.
  assert (used_element m2 q u = used_element m1 q u) as Hu2.
  { specialize (Hoth2 (size q - 1) ltac:(unfold d1; lia)). rewrite u16_add_u16 in Hoth2.
    replace (u + 1 + (size q - 1)) with (u + size q) in Hoth2 by lia. by rewrite !used_element_turn in Hoth2. }
  assert (no_overlap bs (concat slots.*2)) as Hno.
  { apply no_overlap_concat, Forall_forall. intros bs' (k & Hk)%list_elem_of_lookup. rewrite list_lookup_fmap in Hk.
    destruct (slots !! k) as [[h' bs'']|] eqn:E; [|done]. injection Hk as <-.
    apply (rr_apart _ _ _ _ Hring 0%nat (S k) head bs h' bs''); done. }
  exists s2, m2. split_and!.
  - cbn [rx_turns]. unfold gets, mbind, M_bind. cbv [id]. rewrite Hps, Ht, Hts. by rewrite orb_true_r.
  - done.
  - rewrite Hb2, Hb1, consumed_S. replace (1 + Z.of_nat d1) with (Z.of_nat (S d1)) by lia. by rewrite Nat.iter_succ_r.
  - cbn [fmap list_fmap concat]. by eapply touched_app.
  - intros [|k] h' bs' p Hk Hkp.
    + injection Hk as <- <-. injection Hkp as <-. rewrite Z.add_0_r, u16_small, Hu2 by done. split; [|done].
      rewrite (gather_touched q bs (concat slots.*2) m1 m2); try done; [apply Hp0| |apply Hp0].
      eapply backed_mono; [apply Htd|apply Hp0].
    + destruct (Hst k h' bs' p Hk Hkp) as [? He]. split; [done|]. rewrite u16_add_u16 in He.
      by replace (u + Z.of_nat (S k)) with (u + 1 + Z.of_nat k) by lia.
  - intros j Hj. specialize (Hoth2 (j - 1) ltac:(lia)). rewrite u16_add_u16 in Hoth2.
    replace (u + 1 + (j - 1)) with (u + j) in Hoth2 by lia. rewrite Hoth2. apply Hoth.
    replace (u mod size q) with (u16 (u + 0) mod size q) by (by rewrite Z.add_0_r, u16_small). apply slots_distinct; (done || lia).
Qed.
End loop.

