(* ===== verification/VirtioConsole.v ===== *)
(** The virtio console: src/internal/virtio/console.go and its snapshot in
    state.go.

    The definitions are the device's methods over the transport of VirtMmio.
    The theorems: the interrupt line follows the status register through any
    sequence of register accesses that does not reset the device while it is
    asserting the line (and stays asserted after such a reset); a transmit
    notification writes to the host exactly the bytes of the pending chains,
    in ring order, and completes each of them; a snapshot restores. *)
From S2P Require Import Prelude KvmArm64 GuestMemory VirtQueue VirtMmio.

(** [io.Writer]: the host side of the console, and a writer that accepts
    everything: [written] is what it has received. *)
Class Writer (W : Type) := WriteBytes : W → list Z → W * result unit.
Class WriterOk (W : Type) `{Writer W} := {
  written : W → list Z;
  write_ok w data : (WriteBytes w data).2 = Ok tt;
  write_appends w data : written (WriteBytes w data).1 = written w ++ data;
}.
#[global] Hint Mode WriterOk ! - : typeclass_instances.
#[export] Instance byte_log : Writer (list Z) := λ w data, (w ++ data, Ok tt).
#[export] Instance byte_log_ok : WriterOk (list Z).
Proof. by refine {| written := id |}. Defined.

Definition mmioDeviceIDConsole : Z := 3.
Definition queueRx : Z := 0.
Definition queueTx : Z := 1.

Section console.
Context {T I W : Type} `{!GuestMemory T, !IRQController I, !Writer W}.

(** [dev] is the field [Out]. *)
Definition Console : Type := mmio T I (option W).
Implicit Types c : Console.

Definition resetLocked c : Console := reset_registers c.

Definition NewConsole (base size irq_ : Z) (out : option W) : Console :=
  resetLocked (mkMmio base size irq_ None None 0 0 0 0 0 0 false 0 [queue0; queue0] out).

Definition configBytesLocked : list Z :=
  le_bytes 2 80 ++ le_bytes 2 25 ++ le_bytes 4 1 ++ le_bytes 4 0.

Definition Read (addr size_ : Z) : M Console Z := λ c,
  let offset := u64 (addr - Base c) in
  (c,
    if offset =? regMagicValue then Ok (truncateValue mmioMagicValue size_)
    else if offset =? regVersion then Ok (truncateValue mmioVersion size_)
    else if offset =? regDeviceID then Ok (truncateValue mmioDeviceIDConsole size_)
    else if offset =? regVendorID then Ok (truncateValue mmioVendorID size_)
    else if offset =? regDeviceFeatures then
      if deviceFeatureSel c =? 0 then Ok (truncateValue featureSize size_)
      else if deviceFeatureSel c =? 1 then Ok (truncateValue 1 size_)
      else Ok 0
    else if offset =? regQueueNumMax then
      Ok (if queueSel c <? len (queues c) then truncateValue 256 size_ else 0)
    else if offset =? regQueueNum then
      Ok (if queueSel c <? len (queues c)
          then truncateValue (size (get_queue (Z.to_nat (queueSel c)) c)) size_ else 0)
    else if offset =? regQueueReady then
      Ok (if (queueSel c <? len (queues c)) && ready (get_queue (Z.to_nat (queueSel c)) c)
          then truncateValue 1 size_ else 0)
    else if offset =? regInterruptStatus then Ok (truncateValue (interruptStatus c) size_)
    else if offset =? regStatus then Ok (truncateValue (status c) size_)
    else if offset =? regConfigGen then Ok (truncateValue (configGeneration c) size_)
    else if (offset >=? regConfig) && (u64 (offset + u64 size_) <=? regConfig + 12) then
      v ← readConfigValue (drop (Z.to_nat (offset - regConfig)) configBytesLocked) size_;
      Ok (truncateValue v size_)
    else Ok 0).

Definition setQueueAddr c (target value : Z) (low : bool) : Z :=
  if queueSel c >=? len (queues c) then target else set_half target value low.

Definition readDescriptorLocked (q : queue) (index : Z) : M Console descriptor :=
  read_mem (λ m, readDescriptor m q index).

Definition readChainLocked (q : queue) (head : Z) : M Console (list Z) :=
  read_mem (λ m, readChain_turns "virtio-console descriptor chain loop" (Z.to_nat (size q)) m q head []).

(** Nothing is written for an empty chain or without a host writer. *)
Definition emit (data : list Z) : M Console unit := λ c,
  match dev c with
  | Some out =>
    if len data >? 0 then
      match WriteBytes out data with
      | (out, Ok _) => (c <| dev := Some out |>, Ok tt)
      | (out, Err _) => (c <| dev := Some out |>, Err "write console output")
      | (out, Panic) => (c <| dev := Some out |>, Panic)
      end
    else (c, Ok tt)
  | None => (c, Ok tt)
  end.

Definition transmit (head : Z) : M Console unit :=
  q ← gets (get_queue (Z.to_nat queueTx));
  data ← readChainLocked q head;
  emit data ;;;
  writeUsedLocked (Z.to_nat queueTx) head (u32 (len data)).

Definition processTXLocked : M Console unit :=
  c ← gets id;
  let q := get_queue (Z.to_nat queueTx) c in
  if negb (ready q) || (size q =? 0) || negb (non_nil (mem c)) then mret tt
  else
    header ← read_mem (λ m, ReadIPA m (availAddr q) 4);
    let availIdx := le_val (sub header 2 2) in
    ring_loop (Z.to_nat queueTx) availIdx transmit ;;;
    raise intVring.

(** A write to a register; [setQueueAddr] is reached only with a queue
    selected. *)
Definition Write (addr size_ value : Z) : M Console unit :=
  c ← gets id;
  let offset := u64 (addr - Base c) in
  if offset =? regDeviceFeatSel then modify (λ c, c <| deviceFeatureSel := u32 value |>)
  else if offset =? regDriverFeatSel then modify (λ c, c <| driverFeatureSel := u32 value |>)
  else if offset =? regDriverFeatures then modify (write_driverFeatures value)
  else if offset =? regQueueSel then modify (λ c, c <| queueSel := u32 value |>)
  else if offset =? regQueueNum then on_selected (λ q, q <| size := u16 value |>)
  else if offset =? regQueueReady then on_selected (write_queueReady value)
  else if offset =? regQueueDescLow then
    on_selected (λ q, q <| descAddr := setQueueAddr c (descAddr q) (u32 value) true |>)
  else if offset =? regQueueDescHigh then
    on_selected (λ q, q <| descAddr := setQueueAddr c (descAddr q) (u32 value) false |>)
  else if offset =? regQueueAvailLow then
    on_selected (λ q, q <| availAddr := setQueueAddr c (availAddr q) (u32 value) true |>)
  else if offset =? regQueueAvailHigh then
    on_selected (λ q, q <| availAddr := setQueueAddr c (availAddr q) (u32 value) false |>)
  else if offset =? regQueueUsedLow then
    on_selected (λ q, q <| usedAddr := setQueueAddr c (usedAddr q) (u32 value) true |>)
  else if offset =? regQueueUsedHigh then
    on_selected (λ q, q <| usedAddr := setQueueAddr c (usedAddr q) (u32 value) false |>)
  else if offset =? regInterruptAck then
    modify (λ c, c <| interruptStatus := interruptStatus c &^ u32 value |>) ;;;
    updateIRQLocked
  else if offset =? regStatus then
    modify (λ c, let c := c <| status := u32 value |> in
                 if status c =? 0 then resetLocked c else c)
  else if offset =? regQueueNotify then
    if i64 value =? queueTx then processTXLocked else mret tt
  else mret tt.

Definition SnapshotState c : MMIOState := snapshot_transport c.
Definition RestoreState (state : MMIOState) c : Console := restore_transport state c.

(** One access by the guest. *)
Inductive access := ARead (addr size_ : Z) | AWrite (addr size_ value : Z).
Definition exec (a : access) c : Console :=
  match a with
  | ARead addr size_ => (Read addr size_ c).1
  | AWrite addr size_ value => (Write addr size_ value c).1
  end.
End console.

(** * Register accesses *)

Section accesses.
Context {T I W : Type} `{!GuestMemory T, IRQControllerOk I, !Writer W}.
Implicit Types c : Console (T := T) (I := I) (W := W).

(** What a handler step has to preserve for the invariant below. *)
Definition console_inv c : Prop := mmio_ok c ∧ line_ok c ∧ length (queues c) = 2%nat.

Lemma inv_on_selected f :
  (∀ q, queue_ok q → queue_ok (f q)) → preserves console_inv (on_selected f).
Proof.
  intros Hf c (Hok & Hline & Hlen). split_and!;
    [by apply on_selected_ok|by apply on_selected_line|].
  unfold on_selected. destruct (selectedQueueLocked c); [|done]. cbn. by rewrite length_alter.
Qed.

Lemma inv_updateIRQ c :
  mmio_ok c → line_tracked c → length (queues c) = 2%nat → console_inv (updateIRQLocked c).1.
Proof.
  intros Hok Hl Hlen. split_and!; [by apply updateIRQ_ok|by apply updateIRQ_line|].
  unfold updateIRQLocked. destruct (irq c); [|done]. destruct (Bool.eqb _ _); [done|].
  by destruct (SetIRQ _ _ _).
Qed.

Lemma inv_transmit head : preserves console_inv (transmit head).
Proof.
  unfold transmit. apply preserves_bind; [apply preserves_gets|]. intros q.
  apply preserves_bind; [apply read_mem_ok|]. intros data.
  apply preserves_bind.
  - intros c ([] & Hl & Hn). unfold emit. destruct (dev c) as [w|]; [|done].
    destruct (_ >? _); [|done]. by destruct (WriteBytes w data) as [w' [| |]].
  - intros _ c (Hok & Hline & Hlen).
    split_and!; [by apply writeUsedLocked_ok|by apply writeUsedLocked_line|].
    unfold writeUsedLocked. destruct (mem c); [|done].
    destruct (writeQueueUsed _ _ _ _) as [[m' q'] r]. cbn. by rewrite length_alter.
Qed.

Lemma inv_processTX : preserves console_inv processTXLocked.
Proof.
  unfold processTXLocked. apply preserves_bind; [apply preserves_gets|]. intros c.
  apply preserves_if; [apply preserves_ret|].
  apply preserves_bind; [apply read_mem_ok|]. intros header.
  apply preserves_bind.
  - apply ring_loop_preserves; [|apply inv_transmit]. intros s (Hok & Hline & Hlen).
    split_and!; [by apply next_entry_ok|done|]. cbn. by rewrite length_alter.
  - intros _ s (Hok & Hline & Hlen). apply inv_updateIRQ; [|intros ctl Hc; by apply Hline|done].
    destruct Hok. split; auto. cbn. auto with go.
Qed.

(** A write either resets the device or preserves the invariant. *)
Lemma inv_Write addr size_ value c :
  (u64 (addr - Base c) = regStatus → u32 value = 0 → interruptStatus c = 0) →
  console_inv c → console_inv (Write addr size_ value c).1.
Proof.
  intros Hreset Hc. unfold Write, gets, mbind at 1, M_bind at 1. cbv beta iota zeta delta [id].
  set (offset := u64 (addr - Base c)) in *.
  assert (∀ tgt low, is_u64 tgt → is_u64 (setQueueAddr c tgt (u32 value) low)) as Hset.
  { intros tgt low Ht. unfold setQueueAddr. destruct (_ >=? _); auto using set_half_ok with go. }
  destruct (offset =? regDeviceFeatSel).
  { destruct Hc as ([] & ? & ?). split_and!; auto. split; auto. cbn. auto with go. }
  destruct (offset =? regDriverFeatSel).
  { destruct Hc as ([] & ? & ?). split_and!; auto. split; auto. cbn. auto with go. }
  destruct (offset =? regDriverFeatures).
  { destruct Hc as (? & ? & ?). split_and!;
      [by apply write_driverFeatures_ok|by apply write_driverFeatures_line|].
    cbn. unfold write_driverFeatures. by destruct (_ =? 0); [|destruct (_ =? 1)]. }
  destruct (offset =? regQueueSel).
  { destruct Hc as ([] & ? & ?). split_and!; auto. split; auto. cbn. auto with go. }
  do 8 (destruct (offset =? _);
    [apply inv_on_selected; [|done]; intros q Hq;
     first [by apply write_queueReady_ok
           |destruct Hq as (? & ? & ? & ? & ? & ?); split_and!; cbn; auto with go]|]).
  destruct (offset =? regInterruptAck).
  { destruct Hc as ([] & Hl & ?). apply inv_updateIRQ; [|intros ctl Hc; by apply Hl|done].
    split; auto. cbn. apply is_u_ldiff; auto with go. }
  destruct (Z.eqb_spec offset regStatus) as [Hoff|_].
  { cbn. destruct (Z.eqb_spec (u32 value) 0) as [Hv|Hv].
    - destruct Hc as (Hok & Hl & Hn). split_and!;
        [apply reset_registers_ok; destruct Hok; split; cbn; auto with go
        |apply reset_registers_line; [done|by apply Hreset]|by cbn; rewrite Hn].
    - destruct Hc as ([] & ? & ?). split_and!; auto. split; auto. cbn. auto with go. }
  destruct (offset =? regQueueNotify); [|done].
  destruct (_ =? queueTx); [|done]. by apply inv_processTX.
Qed.
End accesses.

(** * Transmission *)

Section transmission.
Context {T I W : Type} `{GuestMemoryOk T, IRQControllerOk I, WriterOk W}.
Implicit Types c : Console (T := T) (I := I) (W := W).

(** The host side after one chain. *)
Definition tx_step (out : option W) (parts : list (list Z)) : option W :=
  match out with
  | Some w => if len (concat parts) >? 0 then Some (WriteBytes w (concat parts)).1 else Some w
  | None => None
  end.
Definition tx_len (parts : list (list Z)) : Z := u32 (len (concat parts)).

Lemma transmit_chain c m q l u head parts :
  mem c = Some m → mem_ok m → get_queue 1 c = at_index q l u → chain_parts m q head parts → True →
  transmit head c = writeUsedLocked 1 head (tx_len parts) (c <| dev := tx_step (dev c) parts |>).
Proof.
  intros Hmem Hm Hq Hp _. unfold transmit, gets, mbind, M_bind.
  change (Z.to_nat queueTx) with 1%nat. rewrite Hq. unfold readChainLocked, read_mem. rewrite Hmem.
  change (size (at_index q l u)) with (size q).
  rewrite (readChain_parts _ m q l u head parts) by done. unfold emit, tx_step, tx_len. destruct (dev c) as [w|] eqn:Hw; swap 1 2.
  { f_equal. rewrite <-Hw. by destruct c. }
  destruct (len (concat parts) >? 0); swap 1 2.
  { f_equal. rewrite <-Hw. by destruct c. }
  pose proof (write_ok w (concat parts)) as Hok.
  destruct (WriteBytes w (concat parts)) as [w' r]. cbn in Hok. by subst r.
Qed.

Lemma tx_written w reqs :
  ∃ w', foldl tx_step (Some w) reqs = Some w' ∧
    written w' = written w ++ concat (concat reqs).
Proof.
  revert w. induction reqs as [|parts reqs IH]; intros w; cbn [foldl].
  { exists w. split; [done|]. cbn. by rewrite app_nil_r. }
  cbn [concat]. rewrite concat_app. unfold tx_step at 2. destruct (Z.gtb_spec (len (concat parts)) 0).
  - destruct (IH (WriteBytes w (concat parts)).1) as (w' & -> & Hw). exists w'. split; [done|].
    by rewrite Hw, write_appends, <-app_assoc.
  - destruct (IH w) as (w' & -> & Hw). exists w'. split; [done|]. rewrite Hw.
    by destruct (concat parts).
Qed.
End transmission.

(** C21: a transmit notification hands the host exactly the bytes of the
    pending chains, in ring order, each once; every chain is completed in the
    used ring with its length, the consumer index catches up with the driver's
    index, the interrupt is raised, and nothing outside the used ring changes
    in guest memory. *)
Theorem console_transmits {T I W} `{GuestMemoryOk T, IRQControllerOk I, WriterOk W}
    (c : Console (T := T) (I := I) (W := W)) (m : T) (w : W) (header : list Z)
    (reqs : list (Z * list (list Z))) :
  let q := get_queue 1 c in
  let availIdx := le_val (sub header 2 2) in
  mmio_ok c → (1 < length (queues c))%nat → mem c = Some m → dev c = Some w →
  ready q = true → ring_ok m q → ReadIPA m (availAddr q) 4 = Ok header →
  pending q availIdx = length reqs → entries m q (lastAvailIdx q) reqs →
  ∃ c' m' w', processTXLocked c = (c', Ok tt) ∧
    mem c' = Some m' ∧ agree q m m' ∧
    dev c' = Some w' ∧ written w' = written w ++ concat (concat reqs.*2) ∧
    get_queue 1 c' = at_index q availIdx (u16 (usedIdx q + len reqs)) ∧
    interruptStatus c' = Z.lor (interruptStatus c) intVring ∧
    (len reqs ≤ size q → (size q | 2^16) → ∀ k head parts, reqs !! k = Some (head, parts) →
      used_element m' q (u16 (usedIdx q + Z.of_nat k)) = Ok (head, u32 (len (concat parts)))).
Proof.
  intros q availIdx Hok Hlen Hm Hw Hr Hring Hh Hp He.
  pose proof (get_queue_ok 1 c Hok) as (Hqs & _ & _ & _ & Hql & Hqu). fold q in Hqs, Hql, Hqu.
  destruct (ring_turns_spec 1 transmit tx_step tx_len (λ _, is_u32_u32 _) (λ _ _, True) transmit_chain
    reqs c m q (lastAvailIdx q) (usedIdx q)) as (m' & Ht & Ha & Hel);
    [done|done|by rewrite at_index_self|done..|by apply (all_good_const _ (λ _, True)), Forall_true|].
  assert (is_u16 availIdx) as Hav by (eapply header_index; [apply Hring|done]).
  rewrite Hw in Ht. destruct (tx_written w reqs.*2) as (w' & Hf & Hw'). rewrite Hf in Ht.
  unfold processTXLocked, gets, mbind, M_bind. change (Z.to_nat queueTx) with 1%nat.
  cbn [id]. fold q. rewrite Hr, Hm. cbn [negb non_nil orb].
  destruct Hring as (Hmem & (Hs & _) & _).
  destruct (Z.eqb_spec (size q) 0) as [|_]; [lia|]. cbn [orb]. unfold read_mem. rewrite Hm, Hh.
  fold availIdx. unfold ring_loop. fold q. rewrite Hp, Ht.
  destruct (raise_frame intVring (consumed 1 c q (lastAvailIdx q) (usedIdx q) (len reqs) m' (Some w')))
    as (c' & -> & Hcm & Hcd & Hcq & Hci).
  exists c', m', w'. split_and!; auto.
  - unfold get_queue. rewrite Hcq. fold (get_queue 1 (consumed 1 c q (lastAvailIdx q) (usedIdx q) (len reqs) m' (Some w'))).
    unfold consumed. rewrite get_set_queue by done.
    by rewrite (pending_advance q availIdx (length reqs)).
  - intros. by apply Hel.
Qed.

(** A guest with one pending chain of two buffers: descriptors at 0, the
    available ring at 32, the used ring at 48, data at 96 and 100. *)
Definition tx_guest : option VM :=
  Some (mkVM 0 128 (
    le_bytes 8 96 ++ le_bytes 4 2 ++ le_bytes 2 descFNext ++ le_bytes 2 1 ++
    le_bytes 8 100 ++ le_bytes 4 1 ++ le_bytes 2 0 ++ le_bytes 2 0 ++
    le_bytes 2 0 ++ le_bytes 2 1 ++ le_bytes 2 0 ++ le_bytes 2 0 ++ replicate 8 0 ++
    replicate 48 0 ++ [72; 105; 0; 0; 33] ++ replicate 27 0)).
Definition tx_console : Console (T := option VM) (I := list (Z * bool)) (W := list Z) :=
  Attach (Some tx_guest) (Some []) (NewConsole 0x1000 0x200 5 (Some []))
    <| queues := [queue0; queue0 <| size := 2 |> <| ready := true |> <| availAddr := 32 |>
                                <| usedAddr := 48 |>] |>.

Lemma tx_guest_ok : mem_ok tx_guest.
Proof. split_and!; [done|done|done|]. apply (bool_decide_unpack _). vm_compute. done. Qed.

Lemma console_transmits_witness :
  ∃ c' m' w', processTXLocked tx_console = (c', Ok tt) ∧
    mem c' = Some m' ∧ dev c' = Some w' ∧ w' = [72; 105; 33] ∧
    used_element m' (get_queue 1 tx_console) 0 = Ok (0, 3).
Proof.
  destruct (console_transmits tx_console tx_guest [] [0; 0; 1; 0] [(0, [[72; 105]; [33]])])
    as (c' & m' & w' & E & Hm & _ & Hd & Hw & _ & _ & Hel).
  - constructor; [done..|]. apply Forall_cons; split; [apply queue0_ok|].
    apply Forall_cons; split; [|done]. split_and!; done.
  - cbn. lia.
  - done.
  - done.
  - done.
  - split; [apply tx_guest_ok|]. split; [|split; [|done]].
    + split_and!; [done|done|done|right; cbn; lia|]. intros i.
      pose proof (Z.mod_pos_bound i 2). right. unfold used_slot. cbn. lia.
    + split_and!; [done|done|]. intros i Hi. cbn in Hi. split; [right; cbn; lia|left; cbn; lia].
  - vm_compute. reflexivity.
  - vm_compute. reflexivity.
  - intros [|[|k]] head parts; [|done..]. intros [= <- <-].
    split; [done|]. split; [split; [right|left]; vm_compute; intuition congruence|].
    split; [by eexists; split; [vm_compute; reflexivity|]|]. split; [done|].
    exists [mkBuffer 96 2 false; mkBuffer 100 1 false]. split_and!.
    + apply (chain_next _ _ _ (mkDescriptor 96 2 1 1)); [vm_compute; reflexivity..|].
      apply (chain_last _ _ _ (mkDescriptor 100 1 0 0)); vm_compute; reflexivity.
    + repeat constructor; try (cbn; lia); right; cbn; lia.
    + vm_compute. reflexivity.
  - exists c', m', w'. split_and!; auto. exact (Hel ltac:(cbn; lia) ltac:(by exists 32768) O 0 [[72; 105]; [33]] eq_refl).
Defined.

(** * The interrupt line *)

Section reachable.
Context {T I W : Type} `{GuestMemoryOk T, IRQControllerOk I, Writer W}.
Implicit Types c : Console (T := T) (I := I) (W := W).

(** The guest does not reset the device while it asserts its line. *)
Definition allowed c (a : access) : Prop :=
  match a with
  | ARead _ _ => True
  | AWrite addr _ value =>
    u64 (addr - Base c) = regStatus → u32 value = 0 → interruptStatus c = 0
  end.

Inductive reachable c0 : Console (T := T) (I := I) (W := W) → Prop :=
  | reachable_init : reachable c0 c0
  | reachable_step c a : reachable c0 c → allowed c a → reachable c0 (exec a c).
End reachable.

(** from a new console attached to an idle interrupt line, whatever the
    guest reads and writes, every register stays in its width and the line is
    asserted exactly while the interrupt status register is not zero, as long
    as the device is not reset while it asserts the line. *)
Theorem console_line_follows_status {T I W} `{GuestMemoryOk T, IRQControllerOk I, Writer W}
    (base size_ irq_ : Z) (out : option W) (m : option T) (ctl0 : I)
    (c : Console (T := T) (I := I) (W := W)) :
  level ctl0 irq_ = false →
  reachable (Attach m (Some ctl0) (NewConsole base size_ irq_ out)) c →
  mmio_ok c ∧ ∀ ctl, irq c = Some ctl → level ctl (IRQ c) = negb (interruptStatus c =? 0).
Proof.
  intros Hl Hr. assert (console_inv c) as (Hok & Hline & _).
  { induction Hr as [|c [addr sz|addr sz value] _ IH Ha]; [|done|by apply inv_Write].
    split_and!; [|intros ctl [= <-]; done|done].
    constructor; [done..|]. repeat (apply Forall_cons; split; [apply queue0_ok|]). done. }
  split; [done|]. intros ctl Hc. by destruct (Hline ctl Hc) as [<- ->].
Qed.

(** A driver sets up the transmit queue of [tx_guest] and notifies. *)
Definition tx_setup : list access :=
  [AWrite 0x1070 4 7; AWrite 0x1030 4 1; AWrite 0x1038 4 2; AWrite 0x1090 4 32;
   AWrite 0x10a0 4 48; AWrite 0x1044 4 1; AWrite 0x1050 4 1; ARead 0x1060 4].
Definition tx_start : Console (T := option VM) (I := list (Z * bool)) (W := list Z) :=
  Attach (Some tx_guest) (Some []) (NewConsole 0x1000 0x200 5 (Some [])).

Lemma console_line_follows_status_witness :
  let c := foldl (λ c a, exec a c) tx_start tx_setup in
  interruptStatus c = 1 ∧ mmio_ok c ∧ ∀ ctl, irq c = Some ctl → level ctl (IRQ c) = true.
Proof.
  intros c. assert (interruptStatus c = 1) as Hs by (vm_compute; reflexivity).
  destruct (console_line_follows_status 0x1000 0x200 5 (Some []) (Some tx_guest) [] c)
    as [Hok Hl]; [done| |].
  - unfold c. cbn [foldl tx_setup].
    repeat (apply reachable_step; [|done || (intros _ Hv; vm_compute in Hv; discriminate) ||
      (intros Ho; vm_compute in Ho; discriminate)]).
    apply reachable_init.
  - split; [done|]. split; [done|]. intros ctl Hc. by rewrite (Hl ctl Hc), Hs.
Defined.

(** A state whose device has forgotten that it asserts the line. *)
Definition forgotten {T I W} (b n : Z) (ctl : I) (c : Console (T := T) (I := I) (W := W)) : Prop :=
  Base c = b ∧ IRQ c = n ∧ irq c = Some ctl ∧ interruptStatus c = 0 ∧ irqHigh c = false.

Section forgotten.
Context {T I W : Type} `{!GuestMemory T, !IRQController I, !Writer W}.
Implicit Types c : Console (T := T) (I := I) (W := W).

Lemma forgotten_Write b n ctl addr size_ value :
  u64 (addr - b) ≠ regQueueNotify →
  preserves (forgotten (T := T) (W := W) b n ctl) (Write addr size_ value).
Proof.
  intros Hn c Hc. unfold Write, gets, mbind at 1, M_bind at 1. cbv beta iota zeta delta [id].
  assert (∀ f, forgotten b n ctl (on_selected f c).1) as Hsel
    by (intros f; unfold on_selected; by destruct (selectedQueueLocked c)).
  pose proof Hc as (Hb & Hirq & Hi & Hs & Hh). rewrite Hb.
  destruct (_ =? regDeviceFeatSel); [done|]. destruct (_ =? regDriverFeatSel); [done|].
  destruct (_ =? regDriverFeatures).
  { cbn. unfold write_driverFeatures. by destruct (_ =? 0); [|destruct (_ =? 1)]. }
  destruct (_ =? regQueueSel); [done|].
  do 8 (destruct (u64 (addr - b) =? _); [apply Hsel|]).
  destruct (_ =? regInterruptAck).
  { unfold mbind, M_bind, modify, updateIRQLocked. cbn. by rewrite Hi, Hs, Z.ldiff_0_l, Hh. }
  destruct (_ =? regStatus).
  { cbn. by destruct (u32 value =? 0). }
  by destruct (Z.eqb_spec (u64 (addr - b)) regQueueNotify).
Qed.
End forgotten.

(** a device reset does not lower the interrupt line.  If the guest
    resets the console while its line is asserted, no register access other
    than a queue notification makes the device touch the interrupt controller
    again, so the line stays asserted with nothing in the status register for
    the guest to acknowledge. *)
Theorem console_reset_leaves_line_asserted {T I W} `{GuestMemory T, IRQControllerOk I, Writer W}
    (c : Console (T := T) (I := I) (W := W)) (ctl : I) (addr size_ : Z) (later : list access) :
  irq c = Some ctl → level ctl (IRQ c) = true → u64 (addr - Base c) = regStatus →
  Forall (λ a, match a with
               | ARead _ _ => True
               | AWrite addr _ _ => u64 (addr - Base c) ≠ regQueueNotify
               end) later →
  let c' := foldl (λ c a, exec a c) (exec (AWrite addr size_ 0) c) later in
  ∃ ctl', irq c' = Some ctl' ∧ level ctl' (IRQ c') = true ∧ interruptStatus c' = 0.
Proof.
  intros Hi Hl Ha Hlater c'.
  assert (forgotten (Base c) (IRQ c) ctl c') as (_ & Hn & ? & ? & _);
    [|exists ctl; by rewrite Hn].
  unfold c'. assert (forgotten (Base c) (IRQ c) ctl (exec (AWrite addr size_ 0) c)) as Hc.
  { cbn. unfold Write, gets, mbind at 1, M_bind at 1. cbv beta iota zeta delta [id].
    rewrite Ha. done. }
  revert Hc. generalize (exec (AWrite addr size_ 0) c). induction Hlater as [|a as_ Ha' _ IH];
    intros d Hd; [done|]. cbn [foldl]. apply IH. destruct a as [|addr' sz value]; [done|].
  by apply forgotten_Write.
Qed.

Lemma console_reset_leaves_line_asserted_witness :
  let c := foldl (λ c a, exec a c) tx_start tx_setup in
  let c' := foldl (λ c a, exec a c) (exec (AWrite 0x1070 4 0) c)
              [ARead 0x1060 4; AWrite 0x1064 4 1; ARead 0x1060 4] in
  ∃ ctl, irq c' = Some ctl ∧ level ctl (IRQ c') = true ∧ interruptStatus c' = 0.
Proof.
  intros c c'. unfold c'.
  apply (console_reset_leaves_line_asserted c [(5, true)] 0x1070 4);
    [vm_compute; reflexivity..|].
  repeat constructor. vm_compute. discriminate.
Defined.

(** * Snapshots *)

(** restoring a console's snapshot into any console on the same memory
    gives back its registers and, with their caches dropped, its queues in
    use; the pending interrupt alone is not carried over. *)
Theorem console_snapshot_restores {T I W} (c f : Console (T := T) (I := I) (W := W)) (m : T) :
  length (queues f) = length (queues c) → mem f = Some m →
  let r := RestoreState (SnapshotState c) f in
  SnapshotState r = (SnapshotState c) <| Queues := snapshotQueues (restored true <$> queues c) |> ∧
  queues r = restored true <$> queues c ∧
  (∀ i q, queues c !! i = Some q → ready q = true → size q ≠ 0 →
    queues r !! i = Some (clearCache q)) ∧
  interruptStatus r = 0 ∧ irqHigh r = false ∧ mem r = mem f ∧ irq r = irq f ∧ dev r = dev f.
Proof.
  intros Hl Hm r. unfold r, RestoreState, SnapshotState.
  rewrite restore_snapshot_transport by done. rewrite Hm. cbn. split_and!; try done.
  intros i q Hq Hr Hs. rewrite list_lookup_fmap, Hq. cbn. unfold restored. rewrite Hr.
  by destruct (Z.eqb_spec (size q) 0).
Qed.

Lemma console_snapshot_restores_witness :
  queues (RestoreState (SnapshotState tx_console) tx_start) !! 1%nat =
    Some (clearCache (get_queue 1 tx_console)).
Proof.
  destruct (console_snapshot_restores tx_console tx_start tx_guest) as (_ & _ & Hr & _);
    [vm_compute; reflexivity|reflexivity|].
  exact (Hr 1%nat (get_queue 1 tx_console) eq_refl eq_refl ltac:(done)).
Defined.
