(* ===== verification/VirtioRng.v ===== *)
(** The virtio entropy device: src/internal/virtio/rng.go and its snapshot in
    state.go.

    The theorems: a legacy driver's page frame number places the rings as the
    legacy layout prescribes; a request fills exactly the writable buffers of
    its chain with successive bytes of the entropy source. *)
From S2P Require Import Prelude KvmArm64 GuestMemory VirtQueue VirtMmio.

Definition mmioDeviceIDRNG : Z := 4.
Definition rngQueue : Z := 0.

(** [io.ReadFull] on the entropy source. *)
Class Reader (R : Type) := ReadFull : R → nat → R * result (list Z).
(** A source that never fails is a stream of bytes. *)
Class ReaderOk (R : Type) `{Reader R} := {
  draw : R → nat → R * list Z;
  read_draw src n : ReadFull src n = ((draw src n).1, Ok (draw src n).2);
  draw_length src n : length (draw src n).2 = n;
  draw_bytes src n : is_bytes (draw src n).2;
  draw_0 src : draw src 0 = (src, []);
  draw_add src n k :
    draw src (n + k) = ((draw (draw src n).1 k).1, (draw src n).2 ++ (draw (draw src n).1 k).2);
}.
#[global] Hint Mode ReaderOk ! - : typeclass_instances.

(** A counting source. *)
Definition count (src : Z) (n : nat) : Z * list Z :=
  (src + Z.of_nat n, (λ i, u8 (src + i)) <$> seqZ 0 (Z.of_nat n)).
#[export] Instance counter : Reader Z := λ src n, ((count src n).1, Ok (count src n).2).
#[export] Instance counter_ok : ReaderOk Z.
Proof.
  refine {| draw := count |}; unfold count; cbn.
  - done.
  - intros src n. by rewrite length_fmap, length_seqZ, Nat2Z.id.
  - intros src n. apply Forall_fmap, Forall_forall. intros. apply is_u8_u8.
  - intros src. by rewrite Z.add_0_r.
  - intros src n k. rewrite Nat2Z.inj_add, seqZ_app, fmap_app by lia. f_equal; [lia|]. f_equal.
    replace (seqZ (0 + Z.of_nat n) (Z.of_nat k)) with (Z.add (Z.of_nat n) <$> seqZ 0 (Z.of_nat k))
      by (rewrite fmap_add_seqZ; f_equal; lia).
    rewrite <-list_fmap_compose. apply list_fmap_ext. intros ? x _. cbn. f_equal. lia.
Defined.

Section rng.
Context {T I R : Type} `{!GuestMemory T, !IRQController I, !Reader R}.

(** The device's own fields. *)
Record rng_fields := mkRng { reader : R; LegacyMMIO : bool }.
#[export] Instance eta_rng_fields : Eta rng_fields := λ d, mkRng (reader d) (LegacyMMIO d).
Definition RNG : Type := mmio T I rng_fields.
Implicit Types r : RNG.

Definition resetLocked r : RNG := reset_registers r.
Definition NewRNG (base size irq_ : Z) (src : R) : RNG :=
  resetLocked (mkMmio base size irq_ None None 0 0 0 0 0 0 false 0 [queue0] (mkRng src false)).

Definition Read (addr size_ : Z) : M RNG Z := λ r,
  let offset := u64 (addr - Base r) in
  let legacy := LegacyMMIO (dev r) in
  let q := get_queue 0 r in
  (r, Ok (
    if offset =? regMagicValue then truncateValue mmioMagicValue size_
    else if offset =? regVersion then truncateValue (mmioTransportVersion legacy) size_
    else if offset =? regDeviceID then truncateValue mmioDeviceIDRNG size_
    else if offset =? regVendorID then truncateValue mmioVendorID size_
    else if offset =? regDeviceFeatures then
      if legacy then 0
      else if deviceFeatureSel r =? 1 then truncateValue 1 size_ else 0
    else if offset =? regQueueNumMax then
      if queueSel r =? rngQueue then truncateValue 256 size_ else 0
    else if offset =? regQueueNum then
      if queueSel r =? rngQueue then truncateValue (size q) size_ else 0
    else if offset =? regQueueReady then
      if legacy then 0
      else if (queueSel r =? rngQueue) && ready q then truncateValue 1 size_ else 0
    else if offset =? regQueuePFN then
      if legacy && (queueSel r =? rngQueue) && ready q
      then truncateValue (descAddr q / 4096) size_ else 0
    else if offset =? regInterruptStatus then truncateValue (interruptStatus r) size_
    else if offset =? regStatus then truncateValue (status r) size_
    else if offset =? regConfigGen then truncateValue (configGeneration r) size_
    else 0)).

Definition setQueueAddr r (target value : Z) (low : bool) : Z :=
  if negb (queueSel r =? rngQueue) then target else set_half target value low.

Definition configureLegacyQueue (pfn : Z) (q : queue) : queue :=
  let q := if size q =? 0 then q <| size := 256 |> else q in
  let q := q <| ready := true |> <| descAddr := u64 (pfn * 4096) |> in
  let q := q <| availAddr := u64 (descAddr q + 16 * size q) |> in
  let used := u64 (availAddr q + 4 + 2 * size q) in
  q <| usedAddr := alignVirtio used 4096 |> <| lastAvailIdx := 0 |> <| usedIdx := 0 |>.
Definition configureLegacyQueueLocked (pfn : Z) r : RNG := set_queue 0 (configureLegacyQueue pfn) r.

Definition readDescriptorLocked (q : queue) (index : Z) : M RNG descriptor :=
  read_mem (λ m, readDescriptor m q index).

Definition set_reader (src : R) r : RNG := r <| dev := (dev r) <| reader := src |> |>.
(** Fill one writable buffer from the entropy source. *)
Definition fill_buffer (desc : descriptor) : M RNG unit :=
  buf ← (λ r, match ReadFull (reader (dev r)) (Z.to_nat (length_ desc)) with
              | (src, Err _) => (set_reader src r, Err "read random bytes")
              | (src, b) => (set_reader src r, b)
              end);
  write_mem (λ m, WriteIPA m (addr desc) buf).

Fixpoint fillChain_turns (n : nat) (q : queue) (index written : Z) : M RNG Z :=
  match n with
  | O => fail "virtio-rng descriptor chain loop"
  | S n =>
    desc ← readDescriptorLocked q index;
    written ← (if has (flags desc) descFWrite && (length_ desc >? 0)
               then fill_buffer desc ;;; mret (u32 (written + length_ desc))
               else mret written);
    if negb (has (flags desc) descFNext) then mret written
    else fillChain_turns n q (next desc) written
  end.
Definition fillChainLocked (q : queue) (head : Z) : M RNG Z :=
  fillChain_turns (Z.to_nat (size q)) q head 0.

Definition serve (head : Z) : M RNG unit :=
  q ← gets (get_queue 0);
  written ← fillChainLocked q head;
  writeUsedLocked 0 head written.

Definition processQueueLocked : M RNG unit :=
  r ← gets id;
  let q := get_queue 0 r in
  if negb (ready q) || (size q =? 0) || negb (non_nil (mem r)) then mret tt
  else
    header ← read_mem (λ m, ReadIPA m (availAddr q) 4);
    ring_loop 0 (le_val (sub header 2 2)) serve ;;;
    raise intVring.

Definition on_queue (f : queue → queue) : M RNG unit :=
  modify (λ r, if queueSel r =? rngQueue then set_queue 0 f r else r).

Definition Write (addr size_ value : Z) : M RNG unit :=
  r ← gets id;
  let offset := u64 (addr - Base r) in
  let legacy := LegacyMMIO (dev r) in
  if offset =? regDeviceFeatSel then modify (λ r, r <| deviceFeatureSel := u32 value |>)
  else if offset =? regDriverFeatSel then modify (λ r, r <| driverFeatureSel := u32 value |>)
  else if offset =? regDriverFeatures then modify (write_driverFeatures value)
  else if offset =? regQueueSel then modify (λ r, r <| queueSel := u32 value |>)
  else if offset =? regQueueNum then on_queue (λ q, q <| size := u16 value |>)
  else if offset =? regQueueReady then
    if legacy then mret tt else on_queue (write_queueReady value)
  else if (offset =? regGuestPageSize) || (offset =? regQueueAlign) then mret tt
  else if offset =? regQueuePFN then
    if legacy && (queueSel r =? rngQueue) then
      if value =? 0 then
        modify (set_queue 0 (λ q, q <| ready := false |> <| descAddr := 0 |>
                                    <| availAddr := 0 |> <| usedAddr := 0 |>))
      else modify (configureLegacyQueueLocked (u32 value))
    else mret tt
  else if offset =? regQueueDescLow then
    on_queue (λ q, q <| descAddr := setQueueAddr r (descAddr q) (u32 value) true |>)
  else if offset =? regQueueDescHigh then
    on_queue (λ q, q <| descAddr := setQueueAddr r (descAddr q) (u32 value) false |>)
  else if offset =? regQueueAvailLow then
    on_queue (λ q, q <| availAddr := setQueueAddr r (availAddr q) (u32 value) true |>)
  else if offset =? regQueueAvailHigh then
    on_queue (λ q, q <| availAddr := setQueueAddr r (availAddr q) (u32 value) false |>)
  else if offset =? regQueueUsedLow then
    on_queue (λ q, q <| usedAddr := setQueueAddr r (usedAddr q) (u32 value) true |>)
  else if offset =? regQueueUsedHigh then
    on_queue (λ q, q <| usedAddr := setQueueAddr r (usedAddr q) (u32 value) false |>)
  else if offset =? regInterruptAck then
    modify (λ r, r <| interruptStatus := interruptStatus r &^ u32 value |>) ;;;
    updateIRQLocked
  else if offset =? regStatus then
    modify (λ r, let r := r <| status := u32 value |> in
                 if status r =? 0 then resetLocked r else r)
  else if offset =? regQueueNotify then
    if i64 value =? rngQueue then processQueueLocked else mret tt
  else mret tt.

Definition IRQAsserted (r : option RNG) : bool :=
  match r with None => false | Some r => negb (interruptStatus r =? 0) || irqHigh r end.

Definition SnapshotState r : MMIOState := snapshot_transport r.
(** The queue is restored from a fresh one. *)
Definition RestoreState (state : MMIOState) r : RNG :=
  restore_transport state (r <| queues := [queue0] |>).
End rng.
Arguments rng_fields : clear implicits.
Arguments RNG : clear implicits.

(** * The legacy ring layout *)

Lemma alignVirtio_spec v k :
  0 ≤ k < 64 → 0 ≤ v → v + 2^k ≤ 2^64 → alignVirtio v (2^k) = (v + 2^k - 1) / 2^k * 2^k.
Proof.
  intros Hk Hv Hlt. unfold alignVirtio. assert (0 < 2^k) by (apply Z.pow_pos_nonneg; lia).
  assert (2^k ≤ 2^63) by (apply Z.pow_le_mono_r; lia).
  destruct (Z.eqb_spec (2^k) 0); [lia|]. rewrite !u64_small by (unfold is_u; lia).
  rewrite <-Z.shiftr_div_pow2, <-Z.shiftl_mul_pow2, <-Z.ldiff_ones_r by lia.
  replace (2^k - 1) with (Z.ones k) by (rewrite Z.ones_equiv; lia).
  change (2^64 - 1) with (Z.ones 64). rewrite (Z.sub_nocarry_ldiff (Z.ones 64)).
  2: { apply Z.bits_inj'. intros i Hi. rewrite Z.ldiff_spec, Z.bits_0, !Z.testbit_ones_nonneg by lia.
       destruct (Z.ltb_spec i k), (Z.ltb_spec i 64); done || lia. }
  apply Z.bits_inj'. intros i Hi. rewrite Z.land_spec, !Z.ldiff_spec.
  destruct (decide (i < 64)).
  - by rewrite (Z.ones_spec_low 64) by lia.
  - by rewrite (testbit_small 64 (v + 2^k - 1)) by lia.
Qed.

(** the rings of a legacy driver start at the page frame it wrote, and
    for every power-of-two queue size the used ring is placed where the legacy
    vring layout has it, at the first page boundary after an available ring
    that includes the two bytes of [used_event], although the code leaves
    those bytes out. *)
Theorem rng_legacy_layout (pfn k : Z) (q : queue) :
  is_u32 pfn → 0 ≤ k ≤ 15 → size q = 2^k →
  let q' := configureLegacyQueue pfn q in
  ready q' = true ∧ size q' = size q ∧ descAddr q' = 4096 * pfn ∧
  availAddr q' = descAddr q' + 16 * size q ∧
  usedAddr q' mod 4096 = 0 ∧
  availAddr q' + 6 + 2 * size q ≤ usedAddr q' < availAddr q' + 6 + 2 * size q + 4096.
Proof.
  intros [Hp Hp'] Hk Hs q'. unfold q', configureLegacyQueue.
  assert ((size q =? 0) = false) as -> by (apply Z.eqb_neq; rewrite Hs; apply Z.pow_nonzero; lia).
  cbn -[alignVirtio]. rewrite Hs. assert (2^k ≤ 2^15) by (apply Z.pow_le_mono_r; lia).
  assert (0 < 2^k) by (apply Z.pow_pos_nonneg; lia).
  rewrite !(u64_small (pfn * 4096)) by (unfold is_u; lia).
  rewrite !(u64_small (pfn * 4096 + 16 * 2^k)) by (unfold is_u; lia).
  rewrite u64_small by (unfold is_u; lia).
  set (v := pfn * 4096 + 16 * 2^k + 4 + 2 * 2^k).
  assert (alignVirtio v 4096 = (v + 4095) / 4096 * 4096) as ->.
  { rewrite (Z.add_sub_assoc v 4096 1 : v + 4095 = _). apply (alignVirtio_spec v 12); lia. }
  subst v.
  split_and!; try done; try lia; [by apply Z.mod_mul| |];
    (assert (k = 0 ∨ k = 1 ∨ k = 2 ∨ k = 3 ∨ k = 4 ∨ k = 5 ∨ k = 6 ∨ k = 7 ∨ k = 8 ∨ k = 9 ∨
      k = 10 ∨ k = 11 ∨ k = 12 ∨ k = 13 ∨ k = 14 ∨ k = 15) as Hcases by lia);
    repeat destruct Hcases as [->|Hcases]; subst; Z.to_euclidean_division_equations; lia.
Qed.

Lemma rng_legacy_layout_witness :
  let q' := configureLegacyQueue 0x80000 (queue0 <| size := 256 |>) in
  descAddr q' = 0x80000000 ∧ usedAddr q' mod 4096 = 0.
Proof.
  destruct (rng_legacy_layout 0x80000 8 (queue0 <| size := 256 |>)) as (_ & _ & Hd & _ & Hu & _);
    [done|lia|done|]. split; [by rewrite Hd|done].
Defined.

(** * Filling a chain *)

Section filling.
Context {T I R : Type} `{GuestMemoryOk T, !IRQController I, ReaderOk R}.
Implicit Types r : RNG T I R.

Definition filled r (src : R) (m : T) : RNG T I R := set_reader src r <| mem := Some m |>.

Lemma filled_same r m : mem r = Some m → filled r (reader (dev r)) m = r.
Proof. intros Hm. destruct r as [??? mm ?????????? [rr ll]]. cbn in *. by subst. Qed.

(** One writable buffer: drawn from the source and written to memory. *)
Lemma fill_buffer_spec r m d :
  mem r = Some m → mem_ok m → 0 ≤ length_ d → mapped m (addr d) (length_ d) →
  let '(src, piece) := draw (reader (dev r)) (Z.to_nat (length_ d)) in
  fill_buffer d r = (filled r src (WriteIPA m (addr d) piece).1, Ok tt) ∧
  len piece = length_ d ∧ is_bytes piece.
Proof.
  intros Hmem Hm Hl Hmap. pose proof (draw_length (reader (dev r)) (Z.to_nat (length_ d))) as Hlen.
  pose proof (draw_bytes (reader (dev r)) (Z.to_nat (length_ d))) as Hby.
  pose proof (read_draw (reader (dev r)) (Z.to_nat (length_ d))) as Hrd.
  destruct (draw _ _) as [src piece]. cbn in *. assert (len piece = length_ d) as Hp by lia.
  split_and!; [|done|done]. unfold fill_buffer, mbind, M_bind. rewrite Hrd.
  unfold write_mem. change (mem (set_reader src r)) with (mem r). rewrite Hmem.
  rewrite <-Hp in Hmap. pose proof (write_mapped m (addr d) piece Hm Hmap) as Hok.
  destruct (WriteIPA m (addr d) piece) as [m' rr]. cbn in *. by subst rr.
Qed.

(** The part of a turn that handles one descriptor. *)
Lemma fill_piece r m d w :
  mem r = Some m → mem_ok m → is_u32 (length_ d) →
  (has (flags d) descFWrite → mapped m (addr d) (length_ d)) → is_u32 w →
  let k := wanted (buffer_of d) in
  let '(src, piece) := draw (reader (dev r)) (Z.to_nat k) in
  len piece = k ∧ ∃ m1,
    (if has (flags d) descFWrite && (length_ d >? 0)
     then fill_buffer d ;;; mret (u32 (w + length_ d)) else mret w) r
      = (filled r src m1, Ok (u32 (w + k))) ∧
    rewritten m m1 [buffer_of d] ∧ (0 < k → ReadIPA m1 (addr d) k = Ok piece).
Proof.
  intros Hmem Hm [Hl0 Hl] Hmap Hw k. unfold k, wanted, buffer_of. cbn [bwrite blength].
  destruct (has (flags d) descFWrite) eqn:Hf; cbn [andb].
  - pose proof (fill_buffer_spec r m d Hmem Hm Hl0 (Hmap Logic.I)) as Hfill.
    destruct (Z.gtb_spec (length_ d) 0).
    + destruct (draw _ _) as [src piece]. destruct Hfill as (Hfill & Hlen & Hb).
      split; [done|]. exists (WriteIPA m (addr d) piece).1.
      unfold mbind, M_bind. rewrite Hfill. split; [done|].
      assert (mapped m (addr d) (len piece)) as Hp by (rewrite Hlen; by apply Hmap).
      split.
      * eapply (rewritten_write _ _ _ _ piece); try done; [cbn; lia|].
        by apply rewritten_refl, write_mem_ok.
      * intros _. rewrite <-Hlen. by apply read_write_same.
    + replace (length_ d) with 0 in * by lia. change (Z.to_nat 0) with 0%nat. rewrite draw_0.
      split; [done|]. exists m. rewrite Z.add_0_r, u32_small by done.
      rewrite filled_same by done. split; [done|split; [by apply rewritten_refl|lia]].
  - change (Z.to_nat 0) with 0%nat. rewrite draw_0. split; [done|]. exists m.
    rewrite Z.add_0_r, u32_small by done.
    rewrite filled_same by done. split; [done|split; [by apply rewritten_refl|lia]].
Qed.

Lemma fill_turns_spec n bs r m q i w :
  chain m q i bs → (length bs ≤ n)%nat → 0 ≤ i → mem r = Some m → mem_ok m →
  lengths_ok bs → backed m bs → separate bs → table_clear m q bs → is_u32 w →
  let '(src, data) := draw (reader (dev r)) (Z.to_nat (room bs)) in
  ∃ m', fillChain_turns n q i w r = (filled r src m', Ok (u32 (w + room bs))) ∧
    rewritten m m' bs ∧ gather m' bs (length data) = Ok data.
Proof.
  revert n r m i w. induction bs as [|b bs IH]; intros n r m i w Hc Hn Hi Hmem Hm Hl Hbk Hsep Ht Hw.
  { inversion Hc. }
  destruct n as [|n]; cbn [length] in Hn; [lia|].
  destruct (chain_cons _ _ _ _ _ Hc) as (d & Hd & -> & Hrest).
  apply Forall_cons in Hl as [Hld Hl], Hbk as [Hbd Hbk]. destruct Hsep as [Hsd Hsep].
  pose proof (room_nonneg bs Hl) as Hroom.
  pose proof (fill_piece r m d w Hmem Hm Hld Hbd Hw) as Hp. cbv zeta in Hp.
  set (k := wanted (buffer_of d)) in *.
  assert (0 ≤ k) as Hk by (unfold k, wanted; destruct (bwrite _); [apply Hld|done]).
  change (room (buffer_of d :: bs)) with (k + room bs). rewrite Z2Nat.inj_add, draw_add by done.
  destruct (draw (reader (dev r)) (Z.to_nat k)) as [src piece]. cbn [fst snd].
  destruct Hp as (Hlen & m1 & Hstep & Hrw & Hread).
  cbn [fillChain_turns]. unfold mbind at 1, M_bind at 1. unfold readDescriptorLocked, read_mem.
  rewrite Hmem, (readDescriptor_Ok _ _ _ _ Hd). unfold mbind at 1, M_bind at 1. rewrite Hstep.
  assert (rewritten m m1 (buffer_of d :: bs)) as Hrw'.
  { eapply rewritten_app; [done|]. apply rewritten_refl, Hrw. }
  destruct Hrest as [[Hf ->]|[Hf Hc']]; rewrite Hf; cbn [negb].
  - cbn [room]. change (Z.to_nat 0) with 0%nat. rewrite draw_0, Z.add_0_r. cbn [fst snd].
    exists m1. split_and!; [done|done|]. by apply gather_cons; [apply Hld|..].
  - pose proof Hrw as (Hm1 & Hmap1 & _).
    assert (chain m1 q (next d) bs) as Hc1.
    { eapply chain_same_table; [exact Hm| | |exact Hc'].
      - intros j Hj. by apply (readDescriptor_rewritten m m1 q (buffer_of d :: bs)).
      - exact (next_nonneg _ _ _ _ (reads_bytes m Hm) Hd). }
    specialize (IH n (filled r src m1) m1 (next d) (u32 (w + k))).
    change (reader (dev (filled r src m1))) with src in IH.
    destruct (draw src (Z.to_nat (room bs))) as [src2 data]. cbn [fst snd].
    destruct IH as (m2 & Hrun & Hrw2 & Hg); auto using is_u32_u32.
    { lia. }
    { exact (next_nonneg _ _ _ _ (reads_bytes m Hm) Hd). }
    { by eapply backed_mono. }
    { by eapply table_clear_tail. }
    exists m2. rewrite Hrun. split_and!.
    + f_equal. f_equal. unfold u32. rewrite Zplus_mod_idemp_l. f_equal. lia.
    + by eapply rewritten_app.
    + apply gather_cons; [apply Hld|done| |done]. intros Hpos.
      destruct Hrw2 as (_ & _ & Hr2). unfold k, wanted in *. destruct (bwrite (buffer_of d)); [|lia].
      rewrite Hr2; [by apply Hread|lia|by apply Hmap1, Hbd|by apply Hsd].
Qed.
End filling.

(** serving a request draws exactly as many bytes from the entropy source
    as the chain's writable buffers hold, the driver reads those bytes back
    from the buffers in order, the reported length is their number, and no
    other byte of guest memory changes. *)
Theorem rng_fills_chain {T I R} `{GuestMemoryOk T, IRQController I, ReaderOk R}
    (r : RNG T I R) (m : T) (q : queue) (head : Z) (bs : list queueBuffer) :
  chain m q head bs → 0 ≤ head → mem r = Some m → mem_ok m →
  lengths_ok bs → backed m bs → separate bs → table_clear m q bs → room bs < 2^32 →
  let '(src, data) := draw (reader (dev r)) (Z.to_nat (room bs)) in
  ∃ m', fillChainLocked q head r = (filled r src m', Ok (room bs)) ∧
    gather m' bs (length data) = Ok data ∧
    ∀ a n, 0 ≤ n → mapped m a n → clear_of a n bs → ReadIPA m' a n = ReadIPA m a n.
Proof.
  intros Hc Hh Hmem Hm Hl Hbk Hsep Ht Hroom. pose proof (room_nonneg bs Hl) as Hr0.
  assert (length bs ≤ Z.to_nat (size q))%nat as Hn.
  { by apply (chain_length m q head bs (reads_bytes m Hm)). }
  pose proof (fill_turns_spec _ bs r m q head 0 Hc Hn Hh Hmem Hm Hl Hbk Hsep Ht ltac:(done)) as Hf.
  destruct (draw _ _) as [src data]. destruct Hf as (m' & Hrun & (_ & _ & Hrw) & Hg).
  exists m'. unfold fillChainLocked. rewrite Hrun. split_and!; [|done..].
  by rewrite Z.add_0_l, u32_small.
Qed.

(** Two writable buffers of three and two bytes. *)
Definition rng_guest : option VM :=
  Some (mkVM 0 64 (
    le_bytes 8 40 ++ le_bytes 4 3 ++ le_bytes 2 3 ++ le_bytes 2 1 ++
    le_bytes 8 50 ++ le_bytes 4 2 ++ le_bytes 2 2 ++ le_bytes 2 0 ++ replicate 32 0)).
Definition rng_device : RNG (option VM) (list (Z * bool)) Z :=
  Attach (Some rng_guest) (Some []) (NewRNG 0x1000 0x200 6 7).
Definition rng_bufs : list queueBuffer := [mkBuffer 40 3 true; mkBuffer 50 2 true].

Lemma rng_fills_chain_witness :
  ∃ m', fillChainLocked demo_queue 0 rng_device = (filled rng_device 12 m', Ok 5) ∧
    gather m' rng_bufs 5 = Ok [7; 8; 9; 10; 11].
Proof.
  pose proof (rng_fills_chain rng_device rng_guest demo_queue 0 rng_bufs) as Hf.
  destruct Hf as (m' & E & Hg & _).
  - apply (chain_next _ _ _ (mkDescriptor 40 3 3 1)); [vm_compute; reflexivity..|].
    apply (chain_last _ _ _ (mkDescriptor 50 2 2 0)); vm_compute; reflexivity.
  - done.
  - done.
  - split_and!; [done|done|done|]. apply (bool_decide_unpack _). vm_compute. done.
  - repeat constructor; vm_compute; congruence.
  - repeat constructor; cbn; lia.
  - split_and!; cbn; try done; repeat constructor; cbn; lia.
  - split_and!; [done|done|]. intros i Hi. cbn in Hi. split; [right; cbn; lia|].
    repeat constructor; cbn; lia.
  - vm_compute. reflexivity.
  - exists m'. split; [exact E|exact Hg].
Defined.
