(* ===== verification/VirtioBalloon.v ===== *)
(** The virtio balloon: src/internal/virtio/balloon.go and its snapshot in
    state.go.

    The theorems: the bitmap of ballooned pages is the set of page frames the
    guest has given up, updated by each queue as the union or difference with
    the frames of the pending chains; the ranges handed to the host cover
    exactly the frames of a request, in order, so the three host interfaces
    are told the same pages; the balloon restores from its snapshot. *)
From stdpp Require Import sorting.
From S2P Require Import Prelude KvmArm64 GuestMemory VirtQueue VirtMmio.

Definition mmioDeviceIDBalloon : Z := 5.
Definition balloonQueueInflate : Z := 0.
Definition balloonQueueDeflate : Z := 1.
Definition balloonPageSize : Z := 4096.
Definition balloonDriverOK : Z := 4.

(** The host side.  A dynamic value of type [K] implements [PageReclaimer];
    the two flags say whether it also implements [PageVectorReclaimer] and
    [PageRangeReclaimer]. *)
Class PageReclaimer (K : Type) := {
  is_vector : bool;
  is_range : bool;
  ReclaimGuestPage : K → Z → K * result unit;
  ReuseGuestPage : K → Z → K * result unit;
  ReclaimGuestPages : K → Z * Z → K * result unit;
  ReuseGuestPages : K → Z * Z → K * result unit;
  ReclaimGuestPageRanges : K → list (Z * Z) → K * result unit;
  ReuseGuestPageRanges : K → list (Z * Z) → K * result unit;
}.

(** Call [f] on each element until one fails. *)
Fixpoint each {K A} (f : K → A → K * result unit) (k : K) (l : list A) : K * result unit :=
  match l with
  | [] => (k, Ok tt)
  | a :: l => match f k a with (k, Ok _) => each f k l | (k, e) => (k, e) end
  end.

(** * The set of ballooned pages *)

Definition markInflatedLocked (pfn : Z) (inflated : gmap Z Z) : gmap Z Z :=
  let word := pfn / 64 in
  <[word := Z.lor (default 0 (inflated !! word)) (u64 (Z.shiftl 1 (pfn mod 64)))]> inflated.

Definition markDeflatedLocked (pfn : Z) (inflated : gmap Z Z) : gmap Z Z :=
  let word := pfn / 64 in
  let bits := default 0 (inflated !! word) &^ u64 (Z.shiftl 1 (pfn mod 64)) in
  if bits =? 0 then delete word inflated else <[word := bits]> inflated.

(** A map's entries in the order of [sort.Slice] on the index. *)
Definition index_le (x y : Z * Z) : Prop := x.1 ≤ y.1.
#[export] Instance index_le_dec x y : Decision (index_le x y).
Proof. unfold index_le. apply _. Defined.

Definition inflatedPageWordsLocked (inflated : gmap Z Z) : list BalloonPageWord :=
  (λ p, mkPageWord p.1 p.2) <$> merge_sort index_le (map_to_list inflated).

(** * Ranges *)

Definition page_range (start previous : Z) : Z * Z :=
  (u64 (start * balloonPageSize), u64 (u64 (previous - start + 1) * balloonPageSize)).
Fixpoint coalesce (start previous : Z) (pfns : list Z) (ranges : list (Z * Z)) : list (Z * Z) :=
  match pfns with
  | [] => ranges ++ [page_range start previous]
  | pfn :: pfns =>
    if pfn =? u64 (previous + 1) then coalesce start pfn pfns ranges
    else coalesce pfn pfn pfns (ranges ++ [page_range start previous])
  end.

(** The little-endian frame numbers of a buffer; a partial one panics. *)
Fixpoint decode_pfns (buf : list Z) : result (list Z) :=
  match buf with
  | [] => Ok []
  | a :: b :: c :: d :: buf => rest ← decode_pfns buf; Ok (le_val [a; b; c; d] :: rest)
  | _ => Panic
  end.

Section balloon.
Context {T I K : Type} `{!GuestMemory T, !IRQController I, !PageReclaimer K}.

Record balloon_fields := mkBalloon {
  reclaimer : option K; numPages : Z; actualPages : Z; inflated : gmap Z Z;
}.
#[export] Instance eta_balloon_fields : Eta balloon_fields := λ d,
  mkBalloon (reclaimer d) (numPages d) (actualPages d) (inflated d).
Definition Balloon : Type := mmio T I balloon_fields.
Implicit Types b : Balloon.

Definition on_dev (f : balloon_fields → balloon_fields) b : Balloon := b <| dev := f (dev b) |>.

(** A reset keeps the target. *)
Definition resetLocked b : Balloon :=
  on_dev (λ d, d <| actualPages := 0 |> <| inflated := ∅ |>) (reset_registers b).
Definition NewBalloon (base size irq_ : Z) : Balloon :=
  resetLocked (mkMmio base size irq_ None None 0 0 0 0 0 0 false 0 [queue0; queue0]
    (mkBalloon None 0 0 ∅)).

(** [host] is the memory's [PageReclaimer], if it is one. *)
Definition Attach (m : option T) (host : option K) (i : option I) b : Balloon :=
  on_dev (λ d, match host with Some k => d <| reclaimer := Some k |> | None => d end)
    (VirtMmio.Attach m i b).

Definition SetTargetPages (pages : Z) : M Balloon unit := λ b,
  if numPages (dev b) =? pages then (b, Ok tt)
  else
    let b := on_dev (λ d, d <| numPages := pages |>) b in
    let b := b <| configGeneration := u32 (configGeneration b + 1) |> in
    if negb (has (status b) balloonDriverOK) then (b, Ok tt) else raise intConfig b.
Definition AtTarget b : bool := actualPages (dev b) =? numPages (dev b).
Definition State b : Z * Z * bool :=
  (numPages (dev b), actualPages (dev b), has (status b) balloonDriverOK).

Definition configBytesLocked b : list Z :=
  le_bytes 4 (numPages (dev b)) ++ le_bytes 4 (actualPages (dev b)).

Definition Read (addr size_ : Z) : M Balloon Z := λ b,
  let offset := u64 (addr - Base b) in
  let sel := selectedQueueLocked b in
  (b,
    if offset =? regMagicValue then Ok (truncateValue mmioMagicValue size_)
    else if offset =? regVersion then Ok (truncateValue mmioVersion size_)
    else if offset =? regDeviceID then Ok (truncateValue mmioDeviceIDBalloon size_)
    else if offset =? regVendorID then Ok (truncateValue mmioVendorID size_)
    else if offset =? regDeviceFeatures then
      Ok (if deviceFeatureSel b =? 1 then truncateValue 1 size_ else 0)
    else if offset =? regQueueNumMax then
      Ok (match sel with Some _ => truncateValue 256 size_ | None => 0 end)
    else if offset =? regQueueNum then
      Ok (match sel with Some i => truncateValue (size (get_queue i b)) size_ | None => 0 end)
    else if offset =? regQueueReady then
      Ok (match sel with
          | Some i => if ready (get_queue i b) then truncateValue 1 size_ else 0
          | None => 0
          end)
    else if offset =? regInterruptStatus then Ok (truncateValue (interruptStatus b) size_)
    else if offset =? regStatus then Ok (truncateValue (status b) size_)
    else if offset =? regConfigGen then Ok (truncateValue (configGeneration b) size_)
    else if (offset >=? regConfig) && (u64 (offset + u64 size_) <=? regConfig + 8) then
      v ← readConfigValue (drop (Z.to_nat (offset - regConfig)) (configBytesLocked b)) size_;
      Ok (truncateValue v size_)
    else Ok 0).

Definition writeActualLocked (offset size_ value : Z) b : Balloon :=
  let cfg := replicate 4 0 ++ le_bytes 4 (actualPages (dev b)) in
  let cfg := overwrite cfg (Z.to_nat offset) (le_bytes (Z.to_nat size_) value) in
  on_dev (λ d, d <| actualPages := le_val (sub cfg 4 4) |>) b.

Definition on_reclaimer (f : K → K * result unit) : M Balloon unit := λ b,
  match reclaimer (dev b) with
  | Some k => let '(k, r) := f k in (on_dev (λ d, d <| reclaimer := Some k |>) b, r)
  | None => (b, Ok tt)
  end.

(** What the host is asked for a list of frames. *)
Definition host_call (qidx : Z) (pfns : list Z) (k : K) : K * result unit :=
  match pfns with
  | [] => (k, Ok tt)
  | start :: rest =>
    let ranges := coalesce start start rest [] in
    if is_vector then
      if qidx =? balloonQueueInflate
      then ReclaimGuestPageRanges k ranges else ReuseGuestPageRanges k ranges
    else if is_range then
      each (if qidx =? balloonQueueInflate then ReclaimGuestPages else ReuseGuestPages) k ranges
    else
      each (λ k pfn, (if qidx =? balloonQueueInflate then ReclaimGuestPage else ReuseGuestPage)
              k (u64 (pfn * balloonPageSize))) k pfns
  end.
Definition reclaimPFNsLocked (qidx : Z) (pfns : list Z) : M Balloon unit :=
  on_reclaimer (host_call qidx pfns).

Definition mark (qidx : Z) (set : gmap Z Z) (pfn : Z) : gmap Z Z :=
  if qidx =? balloonQueueInflate then markInflatedLocked pfn set
  else if qidx =? balloonQueueDeflate then markDeflatedLocked pfn set
  else set.

Definition processPFNsLocked (qidx addr_ len_ : Z) : M Balloon unit :=
  if negb (len_ mod 4 =? 0) then fail "virtio-balloon pfn buffer length is not 4-byte aligned"
  else
    buf ← read_mem (λ m, ReadIPA m addr_ len_);
    pfns ← lift (decode_pfns buf);
    modify (on_dev (λ d, d <| inflated := foldl (mark qidx) (inflated d) pfns |>)) ;;;
    reclaimPFNsLocked qidx pfns.

Definition readDescriptorLocked (q : queue) (index : Z) : M Balloon descriptor :=
  read_mem (λ m, readDescriptor m q index).

Fixpoint processChain_turns (n : nat) (q : queue) (qidx index : Z) : M Balloon unit :=
  match n with
  | O => fail "virtio-balloon descriptor chain loop"
  | S n =>
    desc ← readDescriptorLocked q index;
    (if negb (has (flags desc) descFWrite) && (length_ desc >? 0)
     then processPFNsLocked qidx (addr desc) (length_ desc) else mret tt) ;;;
    if negb (has (flags desc) descFNext) then mret tt
    else processChain_turns n q qidx (next desc)
  end.
Definition processChainLocked (q : queue) (qidx head : Z) : M Balloon unit :=
  processChain_turns (Z.to_nat (size q)) q qidx head.

Definition handle (qidx head : Z) : M Balloon unit :=
  q ← gets (get_queue (Z.to_nat qidx));
  processChainLocked q qidx head ;;;
  writeUsedLocked (Z.to_nat qidx) head 0.

(** [processed] is set in every turn: it says that there was one. *)
Definition processQueueLocked (qidx : Z) : M Balloon unit :=
  b ← gets id;
  let i := Z.to_nat qidx in
  let q := get_queue i b in
  if negb (ready q) || (size q =? 0) || negb (non_nil (mem b)) then mret tt
  else
    header ← read_mem (λ m, ReadIPA m (availAddr q) 4);
    let availIdx := le_val (sub header 2 2) in
    let processed := negb (lastAvailIdx q =? availIdx) in
    ring_loop i availIdx (handle qidx) ;;;
    if negb processed then mret tt else raise intVring.

Inductive queueAddrField := queueAddrDesc | queueAddrAvail | queueAddrUsed.
Definition setQueueAddr (value : Z) (field : queueAddrField) (low : bool) (q : queue) : queue :=
  match field with
  | queueAddrDesc => q <| descAddr := set_half (descAddr q) value low |>
  | queueAddrAvail => q <| availAddr := set_half (availAddr q) value low |>
  | queueAddrUsed => q <| usedAddr := set_half (usedAddr q) value low |>
  end.

Definition Write (addr size_ value : Z) : M Balloon unit :=
  b ← gets id;
  let offset := u64 (addr - Base b) in
  let set_addr field low := on_selected (setQueueAddr (u32 value) field low) in
  if offset =? regDeviceFeatSel then modify (λ b, b <| deviceFeatureSel := u32 value |>)
  else if offset =? regDriverFeatSel then modify (λ b, b <| driverFeatureSel := u32 value |>)
  else if offset =? regDriverFeatures then modify (write_driverFeatures value)
  else if offset =? regQueueSel then modify (λ b, b <| queueSel := u32 value |>)
  else if offset =? regQueueNum then on_selected (λ q, q <| size := u16 value |>)
  else if offset =? regQueueReady then on_selected (write_queueReady value)
  else if (offset =? regGuestPageSize) || (offset =? regQueueAlign) then mret tt
  else if offset =? regQueueDescLow then set_addr queueAddrDesc true
  else if offset =? regQueueDescHigh then set_addr queueAddrDesc false
  else if offset =? regQueueAvailLow then set_addr queueAddrAvail true
  else if offset =? regQueueAvailHigh then set_addr queueAddrAvail false
  else if offset =? regQueueUsedLow then set_addr queueAddrUsed true
  else if offset =? regQueueUsedHigh then set_addr queueAddrUsed false
  else if offset =? regInterruptAck then
    modify (λ b, b <| interruptStatus := interruptStatus b &^ u32 value |>) ;;;
    updateIRQLocked
  else if offset =? regStatus then
    let wasReady := has (status b) balloonDriverOK in
    modify (λ b, b <| status := u32 value |>) ;;;
    if u32 value =? 0 then modify resetLocked
    else if negb wasReady && has (u32 value) balloonDriverOK &&
            negb (actualPages (dev b) =? numPages (dev b))
    then raise intConfig
    else mret tt
  else if offset =? regQueueNotify then
    if (i64 value =? balloonQueueInflate) || (i64 value =? balloonQueueDeflate)
    then processQueueLocked (i64 value) else mret tt
  else if (offset >=? regConfig + 4) && (u64 (offset + u64 size_) <=? regConfig + 8)
  then modify (writeActualLocked (offset - regConfig) size_ value)
  else mret tt.

(** * Snapshots, state.go *)

Definition SnapshotState b : MMIOState :=
  (snapshot_transport b) <| NumPages := numPages (dev b) |> <| ActualPages := actualPages (dev b) |>
    <| InflatedPageWords := inflatedPageWordsLocked (inflated (dev b)) |>.

Definition restore_words (words : list BalloonPageWord) : gmap Z Z :=
  foldl (λ m w, if negb (Bits w =? 0) then <[Index w := Bits w]> m else m) ∅ words.

Definition RestoreState (state : MMIOState) b : Balloon :=
  let words := restore_words (InflatedPageWords state) in
  let words := if bool_decide (InflatedPageWords state = [])
               then foldl (λ m pfn, markInflatedLocked pfn m) words (InflatedPages state)
               else words in
  restore_transport state
    (on_dev (λ d, d <| numPages := NumPages state |> <| actualPages := ActualPages state |>
                    <| inflated := words |>) b).
End balloon.
Arguments balloon_fields : clear implicits.
Arguments Balloon : clear implicits.

(** * The bitmap is a set of page frames *)

Definition ballooned (m : gmap Z Z) (pfn : Z) : bool :=
  Z.testbit (default 0 (m !! (pfn / 64))) (pfn mod 64).

(** Words are 64-bit, and a word with no page is not stored. *)
Definition words_ok (m : gmap Z Z) : Prop := map_Forall (λ _ w, is_u64 w ∧ w ≠ 0) m.

Lemma testbit_one j k : 0 ≤ j → 0 ≤ k < 64 → Z.testbit (u64 (Z.shiftl 1 k)) j = (j =? k).
Proof.
  intros Hj Hk. rewrite u64_small.
  - rewrite Z.shiftl_1_l. destruct (Z.eqb_spec j k) as [->|]; [by apply Z.pow2_bits_true|].
    by apply Z.pow2_bits_false.
  - rewrite Z.shiftl_1_l. split; [apply Z.pow_nonneg; lia|apply Z.pow_lt_mono_r; lia].
Qed.

Lemma pfn_eqb x p :
  (x =? p) = bool_decide (x / 64 = p / 64) && (x mod 64 =? p mod 64).
Proof.
  destruct (Z.eqb_spec x p) as [->|Hne]; [by rewrite bool_decide_true, Z.eqb_refl|].
  case_bool_decide as Hd; [|done]. destruct (Z.eqb_spec (x mod 64) (p mod 64)) as [Hm|]; [|done].
  destruct Hne. rewrite (Z.div_mod x 64), (Z.div_mod p 64) by lia. lia.
Qed.

Lemma ballooned_inflate p m x :
  ballooned (markInflatedLocked p m) x = (x =? p) || ballooned m x.
Proof.
  rewrite pfn_eqb. unfold ballooned, markInflatedLocked.
  pose proof (Z.mod_pos_bound x 64). pose proof (Z.mod_pos_bound p 64).
  case_bool_decide as Hd; cbn [andb orb].
  - rewrite Hd, lookup_insert_eq. cbn. rewrite Z.lor_spec, testbit_one by lia. apply orb_comm.
  - by rewrite lookup_insert_ne.
Qed.

Lemma ballooned_deflate p m x :
  ballooned (markDeflatedLocked p m) x = negb (x =? p) && ballooned m x.
Proof.
  rewrite pfn_eqb. unfold ballooned, markDeflatedLocked.
  pose proof (Z.mod_pos_bound x 64). pose proof (Z.mod_pos_bound p 64).
  set (bits := _ &^ _). assert (∀ j, 0 ≤ j → Z.testbit bits j =
    Z.testbit (default 0 (m !! (p / 64))) j && negb (j =? p mod 64)) as Hb.
  { intros j Hj. unfold bits. by rewrite Z.ldiff_spec, testbit_one by lia. }
  case_bool_decide as Hd; cbn [andb negb].
  - rewrite Hd, andb_comm, <-Hb by lia. destruct (Z.eqb_spec bits 0) as [E|].
    + rewrite lookup_delete_eq, E. cbn. by rewrite Z.bits_0.
    + by rewrite lookup_insert_eq.
  - destruct (bits =? 0); [by rewrite lookup_delete_ne|by rewrite lookup_insert_ne].
Qed.

Lemma word_ok m i : words_ok m → is_u64 (default 0 (m !! i)).
Proof. intros Hm. destruct (m !! i) eqn:E; [by apply (Hm i)|done]. Qed.

Lemma mark_ok qidx m p : words_ok m → words_ok (mark qidx m p).
Proof.
  intros Hm. pose proof (word_ok m (p / 64) Hm) as Hw. unfold mark.
  destruct (qidx =? balloonQueueInflate); [|destruct (qidx =? balloonQueueDeflate); [|done]].
  - apply map_Forall_insert_2; [|done]. split; [auto with go|].
    intros E. assert (Z.testbit (Z.lor (default 0 (m !! (p / 64))) (u64 (Z.shiftl 1 (p mod 64))))
      (p mod 64) = false) as Hf by (by rewrite E, Z.bits_0).
    pose proof (Z.mod_pos_bound p 64). rewrite Z.lor_spec, testbit_one, Z.eqb_refl, orb_true_r in Hf
      by lia. done.
  - unfold markDeflatedLocked. destruct (Z.eqb_spec (default 0 (m !! (p / 64)) &^ u64 (Z.shiftl 1 (p mod 64))) 0).
    + by apply map_Forall_delete.
    + apply map_Forall_insert_2; [|done]. split; [auto with go|done].
Qed.

Lemma bool_decide_Zeqb (x y : Z) : bool_decide (x = y) = (x =? y).
Proof. apply eq_true_iff_eq. by rewrite bool_decide_eq_true, Z.eqb_eq. Qed.

(** A request adds or removes exactly its frames. *)
Definition updated (qidx : Z) (old : bool) (listed : bool) : bool :=
  if qidx =? balloonQueueInflate then listed || old else negb listed && old.

Lemma ballooned_marks qidx m pfns x :
  qidx = balloonQueueInflate ∨ qidx = balloonQueueDeflate →
  ballooned (foldl (mark qidx) m pfns) x = updated qidx (ballooned m x) (bool_decide (x ∈ pfns)).
Proof.
  intros Hq. revert m. induction pfns as [|p pfns IH]; intros m; cbn [foldl].
  { rewrite bool_decide_false by (by intros ?%elem_of_nil). unfold updated. by destruct (_ =? _). }
  rewrite IH, (bool_decide_ext (x ∈ p :: pfns) (x = p ∨ x ∈ pfns)) by apply elem_of_cons.
  rewrite bool_decide_or, bool_decide_Zeqb.
  unfold updated, mark. destruct Hq as [->| ->]; cbn.
  - rewrite ballooned_inflate. by destruct (x =? p), (bool_decide _).
  - rewrite ballooned_deflate. by destruct (x =? p), (bool_decide _).
Qed.

(** * Ranges cover exactly the frames *)

(** The page addresses of a range. *)
Definition expand (r : Z * Z) : list Z :=
  (λ i, r.1 + i * balloonPageSize) <$> seqZ 0 (r.2 / balloonPageSize).
Definition expands (rs : list (Z * Z)) : list Z := concat (map expand rs).
Definition pages (pfns : list Z) : list Z := (λ pfn, pfn * balloonPageSize) <$> pfns.

Lemma expand_range s p :
  0 ≤ s ≤ p → p < 2^32 → expand (page_range s p) = pages (seqZ s (p - s + 1)).
Proof.
  intros Hs Hp. unfold expand, page_range, pages, balloonPageSize. cbn [fst snd].
  rewrite (u64_small (p - s + 1)), !u64_small by (unfold is_u; lia).
  rewrite Z.div_mul by lia. rewrite <-(Z.add_0_r s) at 2. rewrite <-fmap_add_seqZ.
  rewrite <-list_fmap_compose. apply list_fmap_ext. intros ? x _. cbn. lia.
Qed.

Lemma expands_app rs rs' : expands (rs ++ rs') = expands rs ++ expands rs'.
Proof. unfold expands. by rewrite map_app, concat_app. Qed.

Lemma coalesce_spec start previous pfns ranges :
  0 ≤ start ≤ previous → is_u32 previous → Forall is_u32 pfns →
  expands (coalesce start previous pfns ranges) =
    expands ranges ++ pages (seqZ start (previous - start + 1)) ++ pages pfns.
Proof.
  intros Hs Hp Hl. revert start previous ranges Hs Hp.
  induction Hl as [|pfn pfns Hpfn Hl IH]; intros start previous ranges Hs Hp; cbn [coalesce].
  { rewrite expands_app. unfold expands at 2. cbn. unfold is_u in Hp.
    by rewrite expand_range, !app_nil_r by lia. }
  unfold is_u in Hp, Hpfn. rewrite u64_small by (unfold is_u; lia).
  destruct (Z.eqb_spec pfn (previous + 1)) as [->|].
  - rewrite IH by (unfold is_u; lia). f_equal.
    replace (previous + 1 - start + 1) with ((previous - start + 1) + 1) by lia.
    rewrite seqZ_app by lia. unfold pages. rewrite fmap_app, <-app_assoc. f_equal.
    replace (start + (previous - start + 1)) with (previous + 1) by lia. done.
  - rewrite IH by (unfold is_u; lia). rewrite expands_app. unfold expands at 2. cbn [map concat].
    rewrite expand_range, app_nil_r, <-!app_assoc by lia. do 2 f_equal.
    replace (pfn - pfn + 1) with 1 by lia. done.
Qed.

(** A host whose range operations treat each page of each range in turn. *)
Class PageReclaimerOk (K : Type) `{PageReclaimer K} := {
  reclaim_pages k r : ReclaimGuestPages k r = each ReclaimGuestPage k (expand r);
  reuse_pages k r : ReuseGuestPages k r = each ReuseGuestPage k (expand r);
  reclaim_ranges k rs : ReclaimGuestPageRanges k rs = each ReclaimGuestPages k rs;
  reuse_ranges k rs : ReuseGuestPageRanges k rs = each ReuseGuestPages k rs;
}.
#[global] Hint Mode PageReclaimerOk ! - : typeclass_instances.

Lemma each_app {K A} (f : K → A → K * result unit) k l l' :
  each f k (l ++ l') =
    match each f k l with (k, Ok _) => each f k l' | (k, e) => (k, e) end.
Proof.
  revert k. induction l as [|a l IH]; intros k; cbn; [done|].
  destruct (f k a) as [k' [| |]]; auto.
Qed.
Lemma each_expands {K} (f : K → Z * Z → K * result unit) (g : K → Z → K * result unit) k rs :
  (∀ k r, f k r = each g k (expand r)) → each f k rs = each g k (expands rs).
Proof.
  intros Hf. unfold expands. revert k. induction rs as [|r rs IH]; intros k; cbn; [done|].
  rewrite Hf, each_app. destruct (each g k (expand r)) as [k' [| |]]; auto.
Qed.
Lemma each_ext {K A B} (f : K → A → K * result unit) (g : K → B → K * result unit) (h : A → B) k l :
  Forall (λ a, ∀ k, f k a = g k (h a)) l → each f k l = each g k (h <$> l).
Proof.
  intros Hl. revert k. induction Hl as [|a l Ha Hl IH]; intros k; cbn; [done|].
  rewrite Ha. destruct (g k (h a)) as [k' [| |]]; auto.
Qed.

(** whichever of the three interfaces the host implements, reclaiming or
    reusing the frames of a request is the single-page operation on each of
    them in the order the guest listed them, up to the first failure: joining
    adjacent frames into ranges loses, repeats and reorders none. *)
Theorem balloon_reclaim_per_page {T I K} `{PageReclaimerOk K} (qidx : Z) (pfns : list Z)
    (b : Balloon T I K) (k : K) :
  Forall is_u32 pfns → reclaimer (dev b) = Some k →
  reclaimPFNsLocked qidx pfns b =
    let '(k', r) := each (if qidx =? balloonQueueInflate then ReclaimGuestPage else ReuseGuestPage)
                      k (pages pfns) in
    (on_dev (λ d, d <| reclaimer := Some k' |>) b, r).
Proof.
  intros Hp Hk. unfold reclaimPFNsLocked, on_reclaimer. rewrite Hk.
  assert (host_call qidx pfns k =
    each (if qidx =? balloonQueueInflate then ReclaimGuestPage else ReuseGuestPage) k (pages pfns))
    as ->; [|done].
  destruct pfns as [|start rest]; [done|]. unfold host_call.
  apply Forall_cons in Hp as [Hs Hr]. pose proof Hs as [Hs0 Hs1].
  assert (expands (coalesce start start rest []) = pages (start :: rest)) as Hc.
  { rewrite coalesce_spec by (done || lia). replace (start - start + 1) with 1 by lia. done. }
  rewrite <-Hc. destruct is_vector; [|destruct is_range].
  - destruct (_ =? _); rewrite ?reclaim_ranges, ?reuse_ranges;
      apply each_expands; [apply reclaim_pages|apply reuse_pages].
  - destruct (_ =? _); apply each_expands; [apply reclaim_pages|apply reuse_pages].
  - rewrite Hc. apply each_ext. apply Forall_cons; split;
      [intros; rewrite u64_small; [done|unfold is_u, balloonPageSize in *; lia]|].
    eapply Forall_impl; [done|]. intros p [? ?] ?. rewrite u64_small; [done|].
    unfold is_u, balloonPageSize. lia.
Qed.

(** A host that records the pages, with whether each was reclaimed. *)
Definition log_page (reclaimed : bool) (k : list (bool * Z)) (page : Z)
    : list (bool * Z) * result unit := (k ++ [(reclaimed, page)], Ok tt).
#[export] Instance page_log : PageReclaimer (list (bool * Z)) := {|
  is_vector := true; is_range := true;
  ReclaimGuestPage := log_page true; ReuseGuestPage := log_page false;
  ReclaimGuestPages k r := each (log_page true) k (expand r);
  ReuseGuestPages k r := each (log_page false) k (expand r);
  ReclaimGuestPageRanges k rs := each (λ k r, each (log_page true) k (expand r)) k rs;
  ReuseGuestPageRanges k rs := each (λ k r, each (log_page false) k (expand r)) k rs;
|}.
#[export] Instance page_log_ok : PageReclaimerOk (list (bool * Z)).
Proof. by split. Defined.

Definition balloon_start : Balloon (option VM) (list (Z * bool)) (list (bool * Z)) :=
  Attach None (Some []) (Some []) (NewBalloon 0x1000 0x200 7).

Lemma balloon_reclaim_per_page_witness :
  reclaimPFNsLocked 0 [5; 6; 7; 2; 7] balloon_start =
    (on_dev (λ d, d <| reclaimer := Some [(true, 20480); (true, 24576); (true, 28672);
                                          (true, 8192); (true, 28672)] |>) balloon_start, Ok tt).
Proof.
  rewrite (balloon_reclaim_per_page 0 [5; 6; 7; 2; 7] balloon_start []);
    [reflexivity| |reflexivity].
  repeat constructor; cbn; lia.
Defined.

(** * Snapshots *)

Lemma foldl_insert (l : list (Z * Z)) (m : gmap Z Z) :
  Forall (λ p, p.2 ≠ 0) l → NoDup l.*1 →
  foldl (λ m w, if negb (Bits w =? 0) then <[Index w := Bits w]> m else m) m
    ((λ p, mkPageWord p.1 p.2) <$> l) = list_to_map l ∪ m.
Proof.
  intros Hl. revert m. induction Hl as [|[i w] l Hw Hl IH]; intros m Hnd; cbn.
  { by rewrite (left_id_L ∅ (∪)). }
  cbn in Hnd. apply NoDup_cons in Hnd as [Hi Hnd]. cbn in Hw.
  destruct (Z.eqb_spec w 0); [done|]. cbn. change (foldl _ _ _) with
    (foldl (λ m w, if negb (Bits w =? 0) then <[Index w := Bits w]> m else m) (<[i := w]> m)
      ((λ p, mkPageWord p.1 p.2) <$> l)). rewrite IH by done.
  rewrite <-insert_union_l, insert_union_r; [done|].
  by apply not_elem_of_list_to_map_1.
Qed.

Lemma restore_words_id m : words_ok m → restore_words (inflatedPageWordsLocked m) = m.
Proof.
  intros Hm. unfold restore_words, inflatedPageWordsLocked.
  pose proof (merge_sort_Permutation index_le (map_to_list m)) as Hp.
  rewrite foldl_insert, (right_id_L ∅ (∪)).
  - rewrite (list_to_map_proper _ (map_to_list m)); [by rewrite list_to_map_to_list| |done].
    rewrite Hp. apply NoDup_fst_map_to_list.
  - rewrite Hp. apply map_Forall_to_list in Hm. eapply Forall_impl; [done|]. by intros [? ?] [_ ?].
  - rewrite Hp. apply NoDup_fst_map_to_list.
Qed.

(** a balloon's snapshot, restored into any balloon, gives back the
    requested and acknowledged sizes, the exact set of ballooned pages, the
    registers and the queues in use; the words of the snapshot are sorted. *)
Theorem balloon_snapshot_restores {T I K} (b f : Balloon T I K) (m : T) :
  words_ok (inflated (dev b)) → length (queues f) = length (queues b) → mem f = Some m →
  let r := RestoreState (SnapshotState b) f in
  numPages (dev r) = numPages (dev b) ∧ actualPages (dev r) = actualPages (dev b) ∧
  inflated (dev r) = inflated (dev b) ∧ status r = status b ∧
  driverFeatures r = driverFeatures b ∧ queues r = restored true <$> queues b ∧
  StronglySorted (λ v w, Index v ≤ Index w) (InflatedPageWords (SnapshotState b)).
Proof.
  intros Hw Hl Hm r. unfold r, RestoreState.
  change (InflatedPages (SnapshotState b)) with (@nil Z). cbn [foldl].
  replace (if bool_decide _ then _ else _) with (inflated (dev b))
    by (case_bool_decide; symmetry; by apply restore_words_id).
  change (restore_transport (SnapshotState b)) with
    (restore_transport (D := balloon_fields K) (T := T) (I := I) (snapshot_transport b)).
  rewrite restore_snapshot_transport by done. cbn. rewrite Hm. split_and!; try done.
  unfold inflatedPageWordsLocked. apply (StronglySorted_fmap _ index_le); [done|].
  apply StronglySorted_merge_sort; [intros ???; apply Z.le_trans|intros x y; apply Z.le_ge_cases].
Qed.

Definition ballooning : Balloon (option VM) (list (Z * bool)) (list (bool * Z)) :=
  on_dev (λ d, d <| numPages := 300 |> <| actualPages := 3 |>
                 <| inflated := foldl (mark 0) ∅ [200; 64; 65] |>) balloon_start.

Lemma ballooning_ok : words_ok (inflated (dev ballooning)).
Proof. cbn [foldl]. by repeat apply mark_ok. Qed.

Lemma balloon_snapshot_restores_witness :
  inflated (dev (RestoreState (SnapshotState ballooning)
    (Attach (Some (Some small_vm)) None None balloon_start))) = inflated (dev ballooning).
Proof.
  destruct (balloon_snapshot_restores ballooning
    (Attach (Some (Some small_vm)) None None balloon_start) (Some small_vm)) as (_ & _ & E & _);
    [apply ballooning_ok|vm_compute; reflexivity|reflexivity|exact E].
Defined.

(** * Working through a queue *)

Section balloon_queue.
Context {T I K : Type} `{GuestMemoryOk T, IRQControllerOk I, PageReclaimer K}.
Implicit Types b : Balloon T I K.

(** The host never refuses a page. *)
Definition host_ok : Prop :=
  (∀ (k : K) p, (ReclaimGuestPage k p).2 = Ok tt ∧ (ReuseGuestPage k p).2 = Ok tt) ∧
  (∀ (k : K) r, (ReclaimGuestPages k r).2 = Ok tt ∧ (ReuseGuestPages k r).2 = Ok tt) ∧
  (∀ (k : K) rs, (ReclaimGuestPageRanges k rs).2 = Ok tt ∧ (ReuseGuestPageRanges k rs).2 = Ok tt).

Lemma each_ok {A} (f : K → A → K * result unit) k l :
  (∀ k a, (f k a).2 = Ok tt) → (each f k l).2 = Ok tt.
Proof.
  intros Hf. revert k. induction l as [|a l IH]; intros k; cbn; [done|].
  specialize (Hf k a). destruct (f k a) as [k' r]. cbn in Hf. by subst r.
Qed.

(** The device's fields after the frames of one buffer. *)
Definition frames (buf : list Z) : list Z :=
  match decode_pfns buf with Ok pfns => pfns | _ => [] end.
Definition buffer_step (qidx : Z) (d : balloon_fields K) (buf : list Z) : balloon_fields K :=
  d <| inflated := foldl (mark qidx) (inflated d) (frames buf) |>
    <| reclaimer := (λ k, (host_call qidx (frames buf) k).1) <$> reclaimer d |>.
Definition chain_step (qidx : Z) (d : balloon_fields K) (parts : list (list Z)) : balloon_fields K :=
  foldl (buffer_step qidx) d parts.
Definition aligned (parts : list (list Z)) : Prop := Forall (λ p, len p mod 4 = 0) parts.

Lemma host_call_ok qidx pfns k : host_ok → (host_call qidx pfns k).2 = Ok tt.
Proof.
  intros (Hpage & Hrange & Hvec). destruct pfns as [|p pfns]; [done|]. unfold host_call.
  destruct is_vector; [|destruct is_range]; destruct (_ =? _);
    first [apply Hvec | apply each_ok; intros; apply Hrange | apply each_ok; intros; apply Hpage].
Qed.

Lemma decode_aligned buf : len buf mod 4 = 0 → ∃ pfns, decode_pfns buf = Ok pfns.
Proof.
  remember (length buf) as n eqn:Hn. revert buf Hn. induction (lt_wf n) as [n _ IH].
  intros [|a [|b [|c [|d buf]]]] ->; intros Hm; try done; [by eexists|].
  destruct (IH (length buf)) with (buf := buf) as [pfns E]; [cbn; lia|done| |].
  - cbn [length] in Hm. revert Hm. rewrite !Nat2Z.inj_succ.
    Z.to_euclidean_division_equations. lia.
  - exists (le_val [a; b; c; d] :: pfns). cbn. by rewrite E.
Qed.

Lemma processPFNs_spec b m qidx a n buf :
  host_ok → mem b = Some m → ReadIPA m a n = Ok buf → len buf = n → len buf mod 4 = 0 →
  processPFNsLocked qidx a n b = (on_dev (λ d, buffer_step qidx d buf) b, Ok tt).
Proof.
  intros Hh Hm Hr Hl Ha. unfold processPFNsLocked. rewrite <-Hl, Ha. cbn [negb Z.eqb].
  unfold mbind, M_bind, read_mem, lift, modify. rewrite Hm, Hl, Hr.
  destruct (decode_aligned buf Ha) as [pfns E]. rewrite E.
  unfold reclaimPFNsLocked, on_reclaimer, on_dev, buffer_step, frames. cbn. rewrite E.
  destruct (reclaimer (dev b)) as [k|] eqn:Hk.
  - pose proof (host_call_ok qidx pfns k Hh) as Hok. cbn.
    destruct (host_call qidx pfns k) as [k' r]. cbn in *. by subst r.
  - cbn. done.
Qed.

Lemma on_dev_dev f g b : on_dev g (on_dev f b) = on_dev (λ d, g (f d)) b.
Proof. done. Qed.
Lemma on_dev_id b : on_dev (λ d, d) b = b.
Proof. by destruct b. Qed.

Lemma processChain_parts n b m q qidx i bs parts :
  host_ok → mem b = Some m → mem_ok m → chain m q i bs → (length bs ≤ n)%nat →
  mapM (λ v, ReadIPA m (baddr v) (blength v)) (readable bs) = Ok parts → aligned parts →
  processChain_turns n q qidx i b = (on_dev (λ d, chain_step qidx d parts) b, Ok tt).
Proof.
  intros Hh Hmem Hm Hc. pose proof (reads_bytes m Hm) as Hb. revert n b parts Hmem.
  induction Hc as [i d Hd Hf|i d bs Hd Hf _ IH]; intros [|n] b parts Hmem Hn Hp Ha;
    cbn in Hn; try lia; cbn [processChain_turns]; unfold mbind at 1, M_bind at 1;
    unfold readDescriptorLocked, read_mem; rewrite Hmem, (readDescriptor_Ok _ _ _ _ Hd);
    pose proof (length_u32 _ _ _ _ Hb Hd) as [Hl0 Hl1];
    cbn [readable] in Hp; unfold fetched in Hp; cbn [bwrite blength buffer_of] in Hp;
    (replace (length_ d >? 0) with (negb (length_ d =? 0))
      by (rewrite Z.gtb_ltb; destruct (Z.eqb_spec (length_ d) 0), (Z.ltb_spec 0 (length_ d));
          done || lia));
    destruct (negb (has (flags d) descFWrite) && _) eqn:Hfetch;
    rewrite ?mapM_result_cons in Hp; cbn [baddr blength buffer_of] in Hp;
    unfold mbind at 1, M_bind at 1; rewrite Hf; cbn [negb].
  - destruct (ReadIPA m (addr d) (length_ d)) as [buf| |] eqn:Hr; [|done..]. cbn in Hp.
    injection Hp as <-. apply Forall_cons in Ha as [Ha _].
    erewrite processPFNs_spec; [done|done|done|done|eapply read_length; [done|lia|done]|done].
  - cbn in Hp. injection Hp as <-. cbn. by rewrite on_dev_id.
  - destruct (ReadIPA m (addr d) (length_ d)) as [buf| |] eqn:Hr; [|done..].
    destruct (mapM _ _) as [ps| |]; [|done..]. injection Hp as <-.
    apply Forall_cons in Ha as [Ha Has].
    erewrite processPFNs_spec; [|done|done|done|eapply read_length; [done|lia|done]|done].
    by rewrite (IH n _ ps) by (done || lia).
  - cbn. by rewrite (IH n _ parts) by (done || lia).
Qed.

Lemma handle_spec qidx b m q l u head parts :
  host_ok → mem b = Some m → mem_ok m → get_queue (Z.to_nat qidx) b = at_index q l u →
  chain_parts m q head parts → aligned parts →
  handle qidx head b =
    writeUsedLocked (Z.to_nat qidx) head 0 (b <| dev := chain_step qidx (dev b) parts |>).
Proof.
  intros Hh Hmem Hm Hq (Hhd & bs & Hc & Hk & Hp) Ha. unfold handle, gets, mbind, M_bind.
  rewrite Hq. unfold processChainLocked. change (size (at_index q l u)) with (size q).
  rewrite (processChain_parts _ b m _ qidx head bs parts); auto using chain_at_index.
  by apply (chain_length m q head bs (reads_bytes m Hm)).
Qed.

Lemma chain_steps_inflated qidx d reqs :
  inflated (foldl (chain_step qidx) d reqs) =
    foldl (mark qidx) (inflated d) (concat (map frames (concat reqs))).
Proof.
  revert d. induction reqs as [|parts reqs IH]; intros d; cbn [foldl concat map]; [done|].
  rewrite IH, map_app, concat_app, foldl_app. f_equal. unfold chain_step. clear.
  revert d. induction parts as [|p parts IH]; intros d; cbn [foldl concat map]; [done|].
  by rewrite IH, foldl_app.
Qed.
End balloon_queue.


(** A guest gives up frames 5, 6 and 200 in one chain: descriptors at 0, the
    available ring at 32, the used ring at 48, the frame list at 96. *)
Definition inflate_guest : option VM :=
  Some (mkVM 0 128 (
    le_bytes 8 96 ++ le_bytes 4 12 ++ le_bytes 2 0 ++ le_bytes 2 0 ++ replicate 16 0 ++
    le_bytes 2 0 ++ le_bytes 2 1 ++ le_bytes 2 0 ++ le_bytes 2 0 ++ replicate 8 0 ++
    replicate 48 0 ++ le_bytes 4 5 ++ le_bytes 4 6 ++ le_bytes 4 200 ++ replicate 20 0)).
Definition inflate_queue : queue :=
  queue0 <| size := 2 |> <| ready := true |> <| availAddr := 32 |> <| usedAddr := 48 |>.
Definition inflate_device : Balloon (option VM) (list (Z * bool)) (list (bool * Z)) :=
  (Attach (Some inflate_guest) (Some []) (Some []) (NewBalloon 0x1000 0x200 7))
    <| queues := [inflate_queue; queue0] |>.

Lemma log_host_ok : host_ok (K := list (bool * Z)).
Proof.
  split_and!; intros k l; (split; [|]); cbn; try done; repeat (apply each_ok; intros; cbn);
    try done; by apply each_ok.
Qed.

