(* ===== verification/Vsock.v ===== *)
(** The virtio socket device: src/internal/virtio/vsock.go and
    vsock_protocol.go.

    [Vsock] is the transport of VirtMmio with the device's own fields, among
    them the table of connections, the packets waiting for the guest and the
    goroutines that read from the host side.  A method that holds the lock is
    one step; a goroutine makes one step per critical section. *)
From S2P Require Import Prelude GuestMemory VirtQueue VirtMmio RxRing.

(** * Headers *)

Definition vsockHeaderSize : Z := 44.
Definition vsockTypeStream : Z := 1.
Definition vsockOpRequest : Z := 1.
Definition vsockOpResponse : Z := 2.
Definition vsockOpRST : Z := 3.
Definition vsockOpShutdown : Z := 4.
Definition vsockOpRW : Z := 5.
Definition vsockOpCreditUpdate : Z := 6.
Definition vsockOpCreditRequest : Z := 7.
Definition vsockShutdownRecv : Z := 1.
Definition vsockShutdownSend : Z := 2.
Definition VSockCIDHost : Z := 2.
Definition mmioDeviceIDVsock : Z := 19.
Definition vsockQueueRX : Z := 0.
Definition vsockQueueTX : Z := 1.
Definition vsockQueueEvent : Z := 2.
Definition vsockQueueSize : Z := 128.
Definition vsockInterruptVring : Z := 0x1.
Definition vsockDefaultBufSize : Z := 64 * 1024.
Definition vsockConnStateIdle : Z := 0.
Definition vsockConnStateConnecting : Z := 1.
Definition vsockConnStateConnected : Z := 2.
Definition vsockConnStateClosing : Z := 3.

Record vsockHeader := mkHeader {
  SrcCID : Z; DstCID : Z; SrcPort : Z; DstPort : Z; Len : Z;
  Type_ : Z; Op : Z; Flags : Z; BufAlloc : Z; FwdCnt : Z;
}.
#[export] Instance eta_vsockHeader : Eta vsockHeader := λ h,
  mkHeader (SrcCID h) (DstCID h) (SrcPort h) (DstPort h) (Len h) (Type_ h) (Op h) (Flags h) (BufAlloc h) (FwdCnt h).

Definition parseVsockHeader (data : list Z) : result vsockHeader :=
  if len data <? vsockHeaderSize then Err "vsock header too short"
  else
    let u o n := le_val (sub data o n) in
    Ok (mkHeader (u 0 8)%nat (u 8 8)%nat (u 16 4)%nat (u 20 4)%nat (u 24 4)%nat
          (u 28 2)%nat (u 30 2)%nat (u 32 4)%nat (u 36 4)%nat (u 40 4)%nat).

Definition encodeVsockHeader (h : vsockHeader) : list Z :=
  le_bytes 8 (SrcCID h) ++ le_bytes 8 (DstCID h) ++ le_bytes 4 (SrcPort h) ++ le_bytes 4 (DstPort h) ++
  le_bytes 4 (Len h) ++ le_bytes 2 (Type_ h) ++ le_bytes 2 (Op h) ++ le_bytes 4 (Flags h) ++
  le_bytes 4 (BufAlloc h) ++ le_bytes 4 (FwdCnt h).

(** * The host side *)

(** [VsockBackend] and the [VsockConn] it returns, named by a handle.  What a
    read returns is an input of the goroutine that made it. *)
Class VsockBackend (B K : Type) := {
  Connect : B → Z → B * result K;
  ConnWrite : B → K → list Z → B * result unit;
  ConnClose : B → K → B;
}.

(** * State *)

Record vsockConnection (K : Type) := mkConnection {
  key : Z * Z; state : Z;
  peerAlloc : Z; peerCnt : Z; txCnt : Z; rxCnt : Z;
  creditRequestPending : bool;
  conn_backend : option K;
}.
Arguments mkConnection {K}.
Arguments key {K}.
Arguments state {K}.
Arguments peerAlloc {K}.
Arguments peerCnt {K}.
Arguments txCnt {K}.
Arguments rxCnt {K}.
Arguments creditRequestPending {K}.
Arguments conn_backend {K}.
#[export] Instance eta_vsockConnection {K} : Eta (vsockConnection K) := λ c,
  mkConnection (key c) (state c) (peerAlloc c) (peerCnt c) (txCnt c) (rxCnt c) (creditRequestPending c) (conn_backend c).

(** Where a goroutine running [readFromBackend] is: at the top of its loop, in
    the read, sending what it read from an offset on, waiting for credit with
    the same variables, or finished. *)
Inductive at_ := AtTop | InRead | Sending (buf : list Z) (offset : Z) | Waiting (buf : list Z) (offset : Z) | Finished.
#[export] Instance at_eq_dec : EqDecision at_.
Proof. solve_decision. Defined.
Record reader (K : Type) := mkReader { rconn : K; rkey : Z * Z; rat : at_ }.
Arguments mkReader {K}.
Arguments rconn {K}.
Arguments rkey {K}.
Arguments rat {K}.
#[export] Instance eta_reader {K} : Eta (reader K) := λ r, mkReader (rconn r) (rkey r) (rat r).

Record counters := mkCounters {
  mmioReads : Z; mmioWrites : Z; txNotifies : Z; rxNotifies : Z;
  connectRequests : Z; queuedRxPackets : Z; irqTransitions : Z;
}.
#[export] Instance eta_counters : Eta counters := λ c,
  mkCounters (mmioReads c) (mmioWrites c) (txNotifies c) (rxNotifies c) (connectRequests c) (queuedRxPackets c) (irqTransitions c).

Record vsock_fields (B K : Type) := mkVsock {
  GuestCID : Z;
  backend : option B;
  connections : gmap (Z * Z) (vsockConnection K);
  pendingRx : list (list Z);
  closed : bool;
  readers : list (reader K);
  stats : counters;
}.
Arguments mkVsock {B K}.
Arguments GuestCID {B K}.
Arguments backend {B K}.
Arguments connections {B K}.
Arguments pendingRx {B K}.
Arguments closed {B K}.
Arguments readers {B K}.
Arguments stats {B K}.
#[export] Instance eta_vsock_fields {B K} : Eta (vsock_fields B K) := λ v,
  mkVsock (GuestCID v) (backend v) (connections v) (pendingRx v) (closed v) (readers v) (stats v).

(** [v.mmioReads++] and the like. *)
Definition bump {B K} (p : counters → Z) `{!Setter p} (v : vsock_fields B K) : vsock_fields B K :=
  v <| stats := update p (λ n, u64 (n + 1)) (stats v) |>.

Section vsock.
Context {T I B K : Type} `{!GuestMemory T, !IRQController I, !VsockBackend B K}.
Abbreviation V := (vsock_fields B K).
Implicit Types v : V.

(** * Packets for the guest *)

Definition queueRxPacketLocked (packet : list Z) : M V unit :=
  modify (λ v, bump queuedRxPackets (v <| pendingRx := pendingRx v ++ [packet] |>)).

(** A header from the host with the fields not named at zero. *)
Definition host_header v (src dst op : Z) : vsockHeader :=
  mkHeader VSockCIDHost (GuestCID v) src dst 0 vsockTypeStream op 0 0 0.
Definition sendResponseLocked (hdr : vsockHeader) : M V unit :=
  v ← gets id;
  queueRxPacketLocked (encodeVsockHeader
    ((host_header v (DstPort hdr) (SrcPort hdr) vsockOpResponse) <| BufAlloc := vsockDefaultBufSize |>)).
Definition sendResetLocked (hdr : vsockHeader) : M V unit :=
  v ← gets id;
  queueRxPacketLocked (encodeVsockHeader (host_header v (DstPort hdr) (SrcPort hdr) vsockOpRST)).
(** A header for a connection, with the space and the count of the host. *)
Definition conn_header v (conn : vsockConnection K) (op : Z) : vsockHeader :=
  (host_header v (key conn).1 (key conn).2 op) <| BufAlloc := vsockDefaultBufSize |> <| FwdCnt := rxCnt conn |>.
Definition sendCreditUpdateLocked (conn : vsockConnection K) : M V unit :=
  v ← gets id;
  queueRxPacketLocked (encodeVsockHeader (conn_header v conn vsockOpCreditUpdate)).

(** An assignment to fields of the connection that the table holds under
    [k]. *)
Definition put (k : Z * Z) (conn : vsockConnection K) : M V unit :=
  modify (λ v, v <| connections := <[k := conn]> (connections v) |>).
Definition drop_conn (k : Z * Z) : M V unit := modify (λ v, v <| connections := delete k (connections v) |>).

Definition sendCreditRequestLocked (k : Z * Z) (conn : vsockConnection K) : M V unit :=
  if creditRequestPending conn then mret tt
  else
    put k (conn <| creditRequestPending := true |>) ;;;
    v ← gets id;
    queueRxPacketLocked (encodeVsockHeader (conn_header v conn vsockOpCreditRequest)).
Definition sendDataLocked (k : Z * Z) (conn : vsockConnection K) (data : list Z) : M V unit :=
  put k (conn <| txCnt := u32 (txCnt conn + u32 (len data)) |>) ;;;
  v ← gets id;
  queueRxPacketLocked
    (encodeVsockHeader ((conn_header v conn vsockOpRW) <| Len := u32 (len data) |>) ++ data).

(** * Packets from the guest *)

(** [conn.backend.Close()] with the check for nil. *)
Definition close_backend (conn : vsockConnection K) : M V unit :=
  modify (λ v,
    match conn_backend conn, backend v with
    | Some h, Some b => v <| backend := Some (ConnClose b h) |>
    | _, _ => v
    end).
(** [conn.backend.Write(payload)]: whether it succeeded. *)
Definition write_backend (conn : vsockConnection K) (payload : list Z) : M V bool := λ v,
  match conn_backend conn, backend v with
  | Some h, Some b =>
    let '(b, r) := ConnWrite b h payload in
    (v <| backend := Some b |>, match r with Ok _ => Ok true | Err _ => Ok false | Panic => Panic end)
  | _, _ => (v, Panic)
  end.

(** [v.creditCond.Broadcast()]. *)
Definition wake (r : reader K) : reader K :=
  match rat r with Waiting buf offset => r <| rat := Sending buf offset |> | _ => r end.
Definition broadcast : M V unit := modify (λ v, v <| readers := wake <$> readers v |>).

Definition packet_key (hdr : vsockHeader) : Z * Z := (DstPort hdr, SrcPort hdr).

Definition handleConnectLocked (hdr : vsockHeader) : M V unit :=
  modify (bump connectRequests) ;;;
  v ← gets id;
  match backend v with
  | None => sendResetLocked hdr
  | Some b =>
    let '(b, r) := Connect b (DstPort hdr) in
    modify (λ v, v <| backend := Some b |>) ;;;
    match r with
    | Ok conn =>
      put (packet_key hdr)
        (mkConnection (packet_key hdr) vsockConnStateConnected (BufAlloc hdr) (FwdCnt hdr) 0 0 false (Some conn)) ;;;
      sendResponseLocked hdr ;;;
      modify (λ v, v <| readers := readers v ++ [mkReader conn (packet_key hdr) AtTop] |>)
    | Err _ => sendResetLocked hdr
    | Panic => panic
    end
  end.

(** The connection of a packet, if there is one. *)
Definition conn_of (hdr : vsockHeader) v : option (vsockConnection K) := connections v !! packet_key hdr.
Definition set_credit (hdr : vsockHeader) (conn : vsockConnection K) : vsockConnection K :=
  conn <| peerAlloc := BufAlloc hdr |> <| peerCnt := FwdCnt hdr |>.

Definition handleResponseLocked (hdr : vsockHeader) : M V unit :=
  c ← gets (conn_of hdr);
  match c with
  | Some conn =>
    if negb (state conn =? vsockConnStateConnecting) then sendResetLocked hdr
    else put (packet_key hdr) (set_credit hdr (conn <| state := vsockConnStateConnected |>))
  | None => sendResetLocked hdr
  end.

Definition handleResetLocked (hdr : vsockHeader) : M V unit :=
  c ← gets (conn_of hdr);
  match c with
  | Some conn => close_backend conn ;;; drop_conn (packet_key hdr)
  | None => mret tt
  end.

Definition handleShutdownLocked (hdr : vsockHeader) : M V unit :=
  c ← gets (conn_of hdr);
  match c with
  | None => mret tt
  | Some conn =>
    put (packet_key hdr) (conn <| state := vsockConnStateClosing |>) ;;;
    close_backend conn ;;;
    sendResetLocked hdr ;;;
    drop_conn (packet_key hdr)
  end.

Definition handleDataLocked (hdr : vsockHeader) (payload : list Z) : M V unit :=
  c ← gets (conn_of hdr);
  match c with
  | None => sendResetLocked hdr
  | Some conn =>
    if negb (state conn =? vsockConnStateConnected) then sendResetLocked hdr
    else
      let conn := set_credit hdr conn in
      if len payload >? 0 then
        let conn := conn <| rxCnt := u32 (rxCnt conn + u32 (len payload)) |> in
        put (packet_key hdr) conn ;;;
        ok ← write_backend conn payload;
        if ok : bool then sendCreditUpdateLocked conn
        else sendResetLocked hdr ;;; close_backend conn ;;; drop_conn (packet_key hdr)
      else put (packet_key hdr) conn ;;; sendCreditUpdateLocked conn
  end.

Definition handleCreditUpdateLocked (hdr : vsockHeader) : M V unit :=
  c ← gets (conn_of hdr);
  match c with
  | None => mret tt
  | Some conn =>
    put (packet_key hdr) ((set_credit hdr conn) <| creditRequestPending := false |>) ;;;
    broadcast
  end.

Definition handleCreditRequestLocked (hdr : vsockHeader) : M V unit :=
  c ← gets (conn_of hdr);
  match c with
  | None => mret tt
  | Some conn => sendCreditUpdateLocked conn
  end.

(** The switch of [handleTXPacketLocked]. *)
Definition dispatch (hdr : vsockHeader) (payload : list Z) : M V unit :=
  if Op hdr =? vsockOpRequest then handleConnectLocked hdr
  else if Op hdr =? vsockOpResponse then handleResponseLocked hdr
  else if Op hdr =? vsockOpRST then handleResetLocked hdr
  else if Op hdr =? vsockOpShutdown then handleShutdownLocked hdr
  else if Op hdr =? vsockOpRW then handleDataLocked hdr payload
  else if Op hdr =? vsockOpCreditUpdate then handleCreditUpdateLocked hdr
  else if Op hdr =? vsockOpCreditRequest then handleCreditRequestLocked hdr
  else mret tt.
(** What [handleTXPacketLocked] does with the bytes of a chain. *)
Definition handle_packet (data : list Z) : M V unit :=
  if len data <? vsockHeaderSize then mret tt
  else
    hdr ← lift (parseVsockHeader data);
    let payload := drop (Z.to_nat vsockHeaderSize) data in
    if u32 (len payload) <? Len hdr then fail "vsock payload truncated"
    else dispatch hdr (take (Z.to_nat (Len hdr)) payload).

(** * Queues *)

Definition Vsock : Type := mmio T I V.
Implicit Types s : Vsock.

(** A call on the device's own fields. *)
Definition on_dev {A} (m : M V A) : M Vsock A := λ s, let '(v, r) := m (dev s) in (s <| dev := v |>, r).
Definition count (p : counters → Z) `{!Setter p} : M Vsock unit := on_dev (modify (bump p)).

(** Unlike the other devices, this one sets a line that is already high. *)
Definition updateIRQLocked : M Vsock unit := λ s,
  match irq s with
  | None => (s, Ok tt)
  | Some c =>
    let level := negb (interruptStatus s =? 0) in
    if Bool.eqb (irqHigh s) level then
      if level then let '(c', r) := SetIRQ c (IRQ s) true in (s <| irq := Some c' |>, r)
      else (s, Ok tt)
    else
      let '(c', r) := SetIRQ c (IRQ s) level in
      (s <| irqHigh := level |> <| dev := bump irqTransitions (dev s) |> <| irq := Some c' |>, r)
  end.
Definition raise_vring : M Vsock unit :=
  modify (λ s, s <| interruptStatus := Z.lor (interruptStatus s) vsockInterruptVring |>) ;;;
  updateIRQLocked.

Definition readChainLocked (q : queue) (head : Z) : M Vsock (list Z) :=
  read_mem (λ m, readChain_turns "virtio-vsock descriptor chain loop" (Z.to_nat (size q)) m q head []).

Definition fillChainLocked (q : queue) (head : Z) (packet : list Z) : M Vsock Z :=
  fill_chain "virtio-vsock RX descriptor chain loop" "virtio-vsock RX chain too small" q head packet.

(** [v.pendingRx = v.pendingRx[1:]]. *)
Definition popped v : V := v <| pendingRx := tail (pendingRx v) |>.
(** The loop of [processRXLocked]. *)
Definition rx_turns (n : nat) (processed : bool) : M Vsock bool :=
  RxRing.rx_turns (λ s, pendingRx (dev s)) (RxRing.rx_turn fillChainLocked popped) n processed.
Definition processRXLocked : M Vsock unit :=
  s ← gets id;
  let q := get_queue (Z.to_nat vsockQueueRX) s in
  if negb (ready q) || (size q =? 0) || negb (non_nil (mem s)) || (len (pendingRx (dev s)) =? 0) then mret tt
  else
    header ← read_mem (λ m, ReadIPA m (availAddr q) 4);
    let availIdx := le_val (sub header 2 2) in
    processed ← rx_turns (pending q availIdx) false;
    if processed : bool then raise_vring else mret tt.

Definition handleTXPacketLocked (q : queue) (head : Z) : M Vsock Z :=
  data ← readChainLocked q head;
  on_dev (handle_packet data) ;;;
  mret (u32 (len data)).
(** The body of the loop of [processTXLocked]. *)
Definition tx_chain (head : Z) : M Vsock unit :=
  q ← gets (get_queue (Z.to_nat vsockQueueTX));
  usedLen ← handleTXPacketLocked q head;
  writeUsedLocked (Z.to_nat vsockQueueTX) head usedLen.
Definition processTXLocked : M Vsock unit :=
  s ← gets id;
  let q := get_queue (Z.to_nat vsockQueueTX) s in
  if negb (ready q) || (size q =? 0) || negb (non_nil (mem s)) then mret tt
  else
    header ← read_mem (λ m, ReadIPA m (availAddr q) 4);
    let availIdx := le_val (sub header 2 2) in
    ring_loop (Z.to_nat vsockQueueTX) availIdx tx_chain ;;;
    processRXLocked ;;;
    raise_vring.

(** * The reading goroutines *)

(** [_ = v.processRXLocked()]: an error is ignored, a panic is not. *)
Definition processRX_ignored : M Vsock unit := λ s,
  match processRXLocked s with
  | (s, Err _) => (s, Ok tt)
  | res => res
  end.

(** The check for [v.closed] before a read. *)
Definition reader_top : M V at_ := gets (λ v, if closed v then Finished else InRead).

Definition shutdown_header v (k : Z * Z) : vsockHeader :=
  (host_header v k.1 k.2 vsockOpShutdown) <| Flags := Z.lor vsockShutdownRecv vsockShutdownSend |>.
(** The read failed: whether the guest was told. *)
Definition reader_failed (k : Z * Z) : M V bool :=
  v ← gets id;
  if closed v then mret false
  else match connections v !! k with
       | Some conn =>
         if state conn =? vsockConnStateConnected then
           queueRxPacketLocked (encodeVsockHeader (shutdown_header v k)) ;;;
           put k (conn <| state := vsockConnStateClosing |>) ;;;
           mret true
         else mret false
       | None => mret false
       end.

Definition vsockPeerCredit (conn : vsockConnection K) : Z :=
  if peerAlloc conn =? 0 then 0
  else
    let used := u32 (txCnt conn - peerCnt conn) in
    if used >=? peerAlloc conn then 0 else u32 (peerAlloc conn - used).

(** One turn of the loop that sends what was read, up to the call of
    [processRXLocked]; where the goroutine is afterwards. *)
Definition send_chunk (k : Z * Z) (buf : list Z) (offset : Z) : M V at_ :=
  v ← gets id;
  match connections v !! k with
  | None => mret Finished
  | Some conn =>
    if negb (state conn =? vsockConnStateConnected) then mret Finished
    else
      let credit := vsockPeerCredit conn in
      if credit =? 0 then sendCreditRequestLocked k conn ;;; mret (Waiting buf offset)
      else
        let chunk := len buf - offset in
        let chunk := if u32 chunk >? credit then credit else chunk in
        sendDataLocked k conn (sub buf (Z.to_nat offset) (Z.to_nat chunk)) ;;;
        mret (if offset + chunk <? len buf then Sending buf (offset + chunk) else AtTop)
  end.

(** The part of a step of a goroutine with key [k] before [processRXLocked]:
    where it is afterwards, and whether [processRXLocked] is called.  [got] is
    what its read returns, if it is in one: bytes and an error, which may come
    together; the bytes that come with an error are dropped. *)
Definition reader_part (k : Z * Z) (a : at_) (got : list Z * result unit) : M V (at_ * bool) :=
  match a with
  | AtTop => a ← reader_top; mret (a, false)
  | InRead =>
    match got.2 with
    | Ok _ => mret (if len got.1 =? 0 then AtTop else Sending got.1 0, false)
    | Err _ => told ← reader_failed k; mret (Finished, told)
    | Panic => panic
    end
  | Sending buf offset => a ← send_chunk k buf offset; mret (a, match a with Finished => false | _ => true end)
  | Waiting _ _ | Finished => mret (a, false)
  end.
Definition set_reader (i : nat) (a : at_) : M V unit :=
  modify (λ v, v <| readers := alter (λ r, r <| rat := a |>) i (readers v) |>).

(** A step of goroutine [i]: one turn of a loop of [readFromBackend]. *)
Definition readFromBackend (i : nat) (got : list Z * result unit) : M Vsock unit :=
  s ← gets id;
  match readers (dev s) !! i with
  | Some r =>
    '(a, process) ← on_dev (reader_part (rkey r) (rat r) got);
    (if process : bool then processRX_ignored else mret tt) ;;;
    on_dev (set_reader i a)
  | None => mret tt
  end.

(** * Registers *)

Definition resetLocked s : Vsock :=
  let s := reset_registers s in
  s <| dev := (dev s) <| connections := ∅ |> <| pendingRx := [] |> <| readers := wake <$> readers (dev s) |> |>.
Definition NewVsock (base size_ irq_ guestCID : Z) (b : option B) : Vsock :=
  resetLocked (mkMmio base size_ irq_ None None 0 0 0 0 0 0 false 0 [queue0; queue0; queue0]
    (mkVsock guestCID b ∅ [] false [] (mkCounters 0 0 0 0 0 0 0))).

Definition configBytesLocked v : list Z := le_bytes 8 (GuestCID v).

Definition Read (addr size_ : Z) : M Vsock Z :=
  count mmioReads ;;;
  s ← gets id;
  let offset := u64 (addr - Base s) in
  let selected := selectedQueueLocked s in
  lift (
    if offset =? regMagicValue then Ok (truncateValue mmioMagicValue size_)
    else if offset =? regVersion then Ok (truncateValue mmioVersion size_)
    else if offset =? regDeviceID then Ok (truncateValue mmioDeviceIDVsock size_)
    else if offset =? regVendorID then Ok (truncateValue mmioVendorID size_)
    else if offset =? regDeviceFeatures then
      if deviceFeatureSel s =? 0 then Ok 0
      else if deviceFeatureSel s =? 1 then Ok (truncateValue 1 size_)
      else Ok 0
    else if offset =? regQueueNumMax then
      Ok (if queueSel s <? len (queues s) then truncateValue vsockQueueSize size_ else 0)
    else if offset =? regQueueNum then
      Ok (match selected with Some i => truncateValue (size (get_queue i s)) size_ | None => 0 end)
    else if offset =? regQueueReady then
      Ok (match selected with
          | Some i => if ready (get_queue i s) then truncateValue 1 size_ else 0
          | None => 0
          end)
    else if offset =? regInterruptStatus then Ok (truncateValue (interruptStatus s) size_)
    else if offset =? regStatus then Ok (truncateValue (status s) size_)
    else if offset =? regConfigGen then Ok (truncateValue (configGeneration s) size_)
    else if (offset >=? regConfig) && (u64 (offset + u64 size_) <=? regConfig + 8) then
      x ← readConfigValue (drop (Z.to_nat (offset - regConfig)) (configBytesLocked (dev s))) size_;
      Ok (truncateValue x size_)
    else Ok 0).

Definition Write (addr size_ value : Z) : M Vsock unit :=
  count mmioWrites ;;;
  s ← gets id;
  let offset := u64 (addr - Base s) in
  if offset =? regDeviceFeatSel then modify (λ s, s <| deviceFeatureSel := u32 value |>)
  else if offset =? regDriverFeatSel then modify (λ s, s <| driverFeatureSel := u32 value |>)
  else if offset =? regDriverFeatures then modify (write_driverFeatures value)
  else if offset =? regQueueSel then modify (λ s, s <| queueSel := u32 value |>)
  else if offset =? regQueueNum then on_selected (λ q, q <| size := u16 value |>)
  else if offset =? regQueueReady then on_selected (write_queueReady value)
  else if offset =? regQueueDescLow then on_selected (λ q, q <| descAddr := set_half (descAddr q) (u32 value) true |>)
  else if offset =? regQueueDescHigh then on_selected (λ q, q <| descAddr := set_half (descAddr q) (u32 value) false |>)
  else if offset =? regQueueAvailLow then on_selected (λ q, q <| availAddr := set_half (availAddr q) (u32 value) true |>)
  else if offset =? regQueueAvailHigh then on_selected (λ q, q <| availAddr := set_half (availAddr q) (u32 value) false |>)
  else if offset =? regQueueUsedLow then on_selected (λ q, q <| usedAddr := set_half (usedAddr q) (u32 value) true |>)
  else if offset =? regQueueUsedHigh then on_selected (λ q, q <| usedAddr := set_half (usedAddr q) (u32 value) false |>)
  else if offset =? regInterruptAck then
    modify (λ s, s <| interruptStatus := interruptStatus s &^ u32 value |>) ;;;
    updateIRQLocked
  else if offset =? regStatus then
    modify (λ s, let s := s <| status := u32 value |> in if status s =? 0 then resetLocked s else s)
  else if offset =? regQueueNotify then
    if value =? vsockQueueTX then count txNotifies ;;; processTXLocked
    else if value =? vsockQueueRX then count rxNotifies ;;; processRXLocked
    else mret tt
  else mret tt.

(** [Close] up to the wait for the goroutines: the channel is closed, by the
    first call only and without the lock; the connections are closed with the
    lock held.  Other steps can come between the two. *)
Definition close_signal : M V bool :=
  v ← gets id;
  if closed v then mret false else modify (λ v, v <| closed := true |>) ;;; mret true.
Definition close_all : M V unit := λ v,
  foldr (λ '(k, conn) m, close_backend conn ;;; drop_conn k ;;; m) (mret tt) (map_to_list (connections v)) v.
Definition close_locked : M V unit := close_all ;;; broadcast.
Definition Close : M Vsock unit :=
  first ← on_dev close_signal;
  if first : bool then on_dev close_locked else mret tt.

Definition Poke : M Vsock unit :=
  processRXLocked ;;;
  s ← gets id;
  match irq s with
  | None => mret tt
  | Some c =>
    modify (λ s, s <| interruptStatus := Z.lor (interruptStatus s) vsockInterruptVring |>) ;;;
    (if irqHigh s then λ s,
       match SetIRQ c (IRQ s) false with
       | (c', Ok _) => (s <| irq := Some c' |> <| irqHigh := false |> <| dev := bump irqTransitions (dev s) |>, Ok tt)
       | (c', r) => (s <| irq := Some c' |>, r)
       end
     else mret tt) ;;;
    updateIRQLocked
  end.
Definition IRQAsserted (s : option Vsock) : bool :=
  match s with None => false | Some s => negb (interruptStatus s =? 0) || irqHigh s end.
Definition Kick : M Vsock unit := raise_vring.
End vsock.
Arguments Vsock : clear implicits.
