(* ===== verification/VsockConn.v ===== *)
(** Connections of the virtio socket device.

    The device's own fields change by events: a packet from the guest, a step
    of a goroutine, a packet taken by the guest, a reset, a close.  [Vsock]'s
    methods are sequences of events (VsockRing).  The theorems are about
    every sequence of events: headers read back; with a guest that keeps to the
    credit protocol the host never sends more than the guest has room for, and
    what it sends is what the goroutine read, in order. *)
From S2P Require Import Prelude GuestMemory VirtQueue VirtMmio Vsock.

(** * Headers *)

Definition header_ok (h : vsockHeader) : Prop :=
  is_u64 (SrcCID h) ∧ is_u64 (DstCID h) ∧ is_u32 (SrcPort h) ∧ is_u32 (DstPort h) ∧ is_u32 (Len h) ∧
  is_u16 (Type_ h) ∧ is_u16 (Op h) ∧ is_u32 (Flags h) ∧ is_u32 (BufAlloc h) ∧ is_u32 (FwdCnt h).
(** The header that is read back: each field in its width. *)
Definition wrap (h : vsockHeader) : vsockHeader :=
  mkHeader (u64 (SrcCID h)) (u64 (DstCID h)) (u32 (SrcPort h)) (u32 (DstPort h)) (u32 (Len h))
    (u16 (Type_ h)) (u16 (Op h)) (u32 (Flags h)) (u32 (BufAlloc h)) (u32 (FwdCnt h)).
Lemma wrap_ok h : header_ok h → wrap h = h.
Proof.
  intros (? & ? & ? & ? & ? & ? & ? & ? & ? & ?). unfold wrap.
  rewrite !u64_small, !u32_small, !u16_small by done. by destruct h.
Qed.
Lemma length_encode h : length (encodeVsockHeader h) = 44%nat.
Proof. done. Qed.
Lemma parse_encode h d : parseVsockHeader (encodeVsockHeader h ++ d) = Ok (wrap h).
Proof.
  unfold parseVsockHeader. rewrite length_app, length_encode.
  destruct (Z.ltb_spec (Z.of_nat (44 + length d)) vsockHeaderSize); [unfold vsockHeaderSize in *; lia|]. f_equal.
  change (mkHeader (le_val (le_bytes 8 (SrcCID h))) (le_val (le_bytes 8 (DstCID h))) (le_val (le_bytes 4 (SrcPort h)))
    (le_val (le_bytes 4 (DstPort h))) (le_val (le_bytes 4 (Len h))) (le_val (le_bytes 2 (Type_ h)))
    (le_val (le_bytes 2 (Op h))) (le_val (le_bytes 4 (Flags h))) (le_val (le_bytes 4 (BufAlloc h)))
    (le_val (le_bytes 4 (FwdCnt h))) = wrap h).
  by rewrite !le_val_bytes.
Qed.
Lemma encode_parse data h :
  is_bytes data → parseVsockHeader data = Ok h → encodeVsockHeader h = take 44 data ∧ header_ok h.
Proof.
  intros Hb. unfold parseVsockHeader. destruct (Z.ltb_spec (len data) vsockHeaderSize) as [|Hl]; [done|].
  unfold vsockHeaderSize in Hl. intros [= <-].
  assert (∀ o n, (o + n ≤ 44)%nat → length (sub data o n) = n) as Hs by (intros; apply length_sub; lia).
  assert (∀ o n, (o + n ≤ 44)%nat → le_bytes n (le_val (sub data o n)) = sub data o n) as He.
  { intros o n Hn. pose proof (le_bytes_val (sub data o n) (is_bytes_sub _ _ _ Hb)) as E. by rewrite Hs in E. }
  assert (∀ o n, (o + n ≤ 44)%nat → 0 ≤ le_val (sub data o n) < 256 ^ Z.of_nat n) as Hr.
  { intros o n Hn. pose proof (le_val_bound (sub data o n) (is_bytes_sub _ _ _ Hb)) as E. by rewrite Hs in E. }
  split; [|unfold header_ok; cbn -[sub le_val]; split_and!; apply Hr; lia].
  unfold encodeVsockHeader. cbn -[sub le_val le_bytes app take].
  rewrite !He by lia. change (take 44 data) with (sub data 0 (8 + (8 + (4 + (4 + (4 + (2 + (2 + (4 + (4 + 4)))))))))).
  by rewrite !sub_split.
Qed.

(** * What packets and steps do *)

(** Unfold a handler into the fields it sets. *)
Ltac run_handler :=
  unfold handleConnectLocked, handleResponseLocked, handleResetLocked, handleShutdownLocked, handleDataLocked,
    handleCreditUpdateLocked, handleCreditRequestLocked, sendResetLocked, sendResponseLocked, sendCreditUpdateLocked,
    queueRxPacketLocked, close_backend, write_backend, broadcast, put, drop_conn, conn_of, bump,
    gets, modify, mbind, M_bind, mret, M_ret, panic;
  repeat (cbn -[encodeVsockHeader packet_key]; case_match; simplify_eq);
  cbn -[encodeVsockHeader packet_key].

Section effects.
Context {B K : Type} `{!VsockBackend B K}.
Abbreviation V := (vsock_fields B K).
Implicit Types (v : V) (conn : vsockConnection K) (k : Z * Z).

(** A packet without payload. *)
Definition control (p : list Z) : Prop := ∃ h, p = encodeVsockHeader h ∧ u16 (Op h) ≠ vsockOpRW.

(** What a call does to one connection: nothing, or new credit, or more. *)
Record same_conn (hdr : vsockHeader) (conn conn' : vsockConnection K) : Prop := {
  sc_key : key conn' = key conn;
  sc_backend : conn_backend conn' = conn_backend conn;
  sc_tx : txCnt conn' = txCnt conn;
  sc_credit : peerAlloc conn' = peerAlloc conn ∧ peerCnt conn' = peerCnt conn ∨
              peerAlloc conn' = BufAlloc hdr ∧ peerCnt conn' = FwdCnt hdr;
  sc_state : state conn' = state conn ∨ state conn = vsockConnStateConnecting;
}.
Record dispatched (hdr : vsockHeader) v v' : Prop := {
  di_emits : ∃ ps, pendingRx v' = pendingRx v ++ ps ∧ Forall control ps;
  di_other k : k ≠ packet_key hdr → connections v' !! k = connections v !! k;
  di_readers : (∃ h, readers v' = readers v ++ [mkReader h (packet_key hdr) AtTop] ∧ Op hdr = vsockOpRequest) ∨
    readers v' = readers v ∨ readers v' = wake <$> readers v ∧ Op hdr = vsockOpCreditUpdate;
  di_fixed : GuestCID v' = GuestCID v ∧ closed v' = closed v;
  di_own conn' : connections v' !! packet_key hdr = Some conn' →
    (Op hdr = vsockOpRequest ∧ ∃ h,
      conn' = mkConnection (packet_key hdr) vsockConnStateConnected (BufAlloc hdr) (FwdCnt hdr) 0 0 false (Some h)) ∨
    ∃ conn, connections v !! packet_key hdr = Some conn ∧ same_conn hdr conn conn';
}.

Lemma dispatched_refl hdr v : dispatched hdr v v.
Proof.
  split; auto.
  - exists []. by rewrite app_nil_r.
  - intros conn Hc. right. exists conn. split; [done|]. split; auto.
Qed.

Ltac handler_done :=
  repeat match goal with H : negb (_ =? _) = false |- _ => apply negb_false_iff, Z.eqb_eq in H end;
  split; cbn -[encodeVsockHeader packet_key];
  [ first [exists []; by rewrite app_nil_r | eexists [_]; split; [done|apply Forall_singleton; by eexists]]
  | intros ? Hne; by rewrite ?lookup_delete_ne, ?lookup_insert_ne by congruence
  | by eauto
  | done
  | intros conn' Hc; rewrite ?lookup_delete_eq, ?lookup_insert_eq in Hc; simplify_eq;
    first [by left; eauto | right; eexists; split; [eassumption|by split; auto]] ].

Lemma dispatch_effect hdr payload v : dispatched hdr v (dispatch hdr payload v).1.
Proof.
  unfold dispatch.
  destruct (Z.eqb_spec (Op hdr) vsockOpRequest) as [E1|E1].
  { run_handler; handler_done. }
  destruct (Z.eqb_spec (Op hdr) vsockOpResponse) as [E2|E2].
  { run_handler; handler_done. }
  destruct (Z.eqb_spec (Op hdr) vsockOpRST) as [E3|E3].
  { run_handler; handler_done. }
  destruct (Z.eqb_spec (Op hdr) vsockOpShutdown) as [E4|E4].
  { run_handler; handler_done. }
  destruct (Z.eqb_spec (Op hdr) vsockOpRW) as [E5|E5].
  { run_handler; handler_done. }
  destruct (Z.eqb_spec (Op hdr) vsockOpCreditUpdate) as [E6|E6].
  { run_handler; handler_done. }
  destruct (Z.eqb_spec (Op hdr) vsockOpCreditRequest) as [E7|E7].
  { run_handler; handler_done. }
  apply dispatched_refl.
Qed.

Lemma handle_packet_effect data v :
  (handle_packet data v).1 = v ∨
  ∃ hdr, parseVsockHeader data = Ok hdr ∧ dispatched hdr v (handle_packet data v).1.
Proof.
  unfold handle_packet. destruct (len data <? vsockHeaderSize); [by left|].
  unfold lift, mbind, M_bind. destruct (parseVsockHeader data) as [hdr| |] eqn:E; [|by left..].
  destruct (_ <? _); [by left|]. right. exists hdr. split; [done|]. apply dispatch_effect.
Qed.

(** The bytes that a guest with the ports [k] takes from a packet. *)
Definition payload_to k (p : list Z) : list Z :=
  match parseVsockHeader p with
  | Ok h => if (Op h =? vsockOpRW) && (SrcPort h =? k.1) && (DstPort h =? k.2) then drop 44 p else []
  | _ => []
  end.
Lemma payload_control k p : control p → payload_to k p = [].
Proof.
  intros (h & -> & Hop). unfold payload_to. rewrite <-(app_nil_r (encodeVsockHeader h)), parse_encode.
  by destruct (Z.eqb_spec (Op (wrap h)) vsockOpRW).
Qed.
Lemma payload_controls k ps : Forall control ps → concat (payload_to k <$> ps) = [].
Proof. induction 1 as [|p ps Hp _ IH]; cbn; [done|]. by rewrite payload_control, IH. Qed.

Definition key_ok k : Prop := is_u32 k.1 ∧ is_u32 k.2.
Definition data_packet v conn (d : list Z) : list Z :=
  encodeVsockHeader ((conn_header v conn vsockOpRW) <| Len := u32 (len d) |>) ++ d.
Lemma payload_data k v conn d :
  key_ok (key conn) → payload_to k (data_packet v conn d) = if decide (key conn = k) then d else [].
Proof.
  intros [H1 H2]. unfold payload_to, data_packet. rewrite parse_encode.
  set (h := (conn_header v conn vsockOpRW) <| Len := u32 (len d) |>).
  replace (Op (wrap h)) with vsockOpRW by done.
  replace (SrcPort (wrap h)) with (key conn).1 by (symmetry; exact (u32_small _ H1)).
  replace (DstPort (wrap h)) with (key conn).2 by (symmetry; exact (u32_small _ H2)).
  rewrite Z.eqb_refl, (drop_app_length' (encodeVsockHeader h) d 44) by done. cbn [andb].
  destruct (decide (key conn = k)) as [<-|Hne]; [by rewrite !Z.eqb_refl|].
  destruct (Z.eqb_spec (key conn).1 k.1) as [E1|], (Z.eqb_spec (key conn).2 k.2) as [E2|]; try done.
  destruct Hne. destruct (key conn), k. by cbn in *; subst.
Qed.

(** ** Goroutines *)

(** What a step of a goroutine with key [k] does: it sends a chunk within the
    credit of its connection, or it sends at most a control packet. *)
Inductive part_effect k (a : at_) v (v' : V) (a' : at_) : Prop :=
  | pe_data conn buf offset n :
      a = Sending buf offset → connections v !! k = Some conn → state conn = vsockConnStateConnected →
      0 < n ≤ vsockPeerCredit conn → n ≤ len buf - offset →
      a' = (if offset + n <? len buf then Sending buf (offset + n) else AtTop) →
      pendingRx v' = pendingRx v ++ [data_packet v conn (sub buf (Z.to_nat offset) (Z.to_nat n))] →
      connections v' = <[k := conn <| txCnt := u32 (txCnt conn + u32 (len (sub buf (Z.to_nat offset) (Z.to_nat n)))) |>]> (connections v) →
      part_effect k a v v' a'
  | pe_control ps :
      pendingRx v' = pendingRx v ++ ps → Forall control ps →
      (∀ k', k' ≠ k → connections v' !! k' = connections v !! k') →
      (∀ conn', connections v' !! k = Some conn' → ∃ conn, connections v !! k = Some conn ∧
        key conn' = key conn ∧ conn_backend conn' = conn_backend conn ∧ txCnt conn' = txCnt conn ∧
        peerAlloc conn' = peerAlloc conn ∧ peerCnt conn' = peerCnt conn ∧
        (state conn' = state conn ∨ state conn' = vsockConnStateClosing)) →
      (∀ buf offset, a = Sending buf offset → a' = Waiting buf offset ∨ a' = Finished) →
      part_effect k a v v' a'.

(** The chunk fits the 32-bit length the code compares with. *)
Definition at_ok (a : at_) : Prop :=
  match a with Sending buf offset | Waiting buf offset => 0 ≤ offset < len buf ∧ len buf < 2^32 ∧ is_bytes buf | _ => True end.

Lemma credit_range conn : 0 ≤ vsockPeerCredit conn < 2^32.
Proof.
  unfold vsockPeerCredit. destruct (_ =? 0); [done|]. destruct (_ >=? _); [done|]. apply is_u32_u32.
Qed.

Lemma control_untouched k a v a' :
  (∀ buf offset, a = Sending buf offset → a' = Waiting buf offset ∨ a' = Finished) → part_effect k a v v a'.
Proof.
  intros Ha. apply (pe_control _ _ _ _ _ []); [by rewrite app_nil_r|done|done| |done].
  intros conn Hc. exists conn. by split_and!; auto.
Qed.

Lemma send_chunk_effect k buf offset v v' a' :
  at_ok (Sending buf offset) → send_chunk k buf offset v = (v', Ok a') →
  part_effect k (Sending buf offset) v v' a' ∧ readers v' = readers v ∧ closed v' = closed v.
Proof.
  intros (Ho & Hl & _). unfold send_chunk, gets, mbind, M_bind. cbv [id].
  destruct (connections v !! k) as [conn|] eqn:Ec.
  2:{ intros [= <- <-]. split; [|done]. apply control_untouched. intros ? ? [= <- <-]. by right. }
  destruct (Z.eqb_spec (state conn) vsockConnStateConnected) as [Es|Es]; cbn [negb].
  2:{ intros [= <- <-]. split; [|done]. apply control_untouched. intros ? ? [= <- <-]. by right. }
  pose proof (credit_range conn) as Hr.
  destruct (Z.eqb_spec (vsockPeerCredit conn) 0) as [Ez|Ez].
  - unfold sendCreditRequestLocked. destruct (creditRequestPending conn).
    { intros [= <- <-]. split; [|done]. apply control_untouched. intros ? ? [= <- <-]. by left. }
    intros [= <- <-]. split; [|done]. eapply (pe_control _ _ _ _ _ [_]); [done|apply Forall_singleton; by eexists| | |].
    + intros k' Hk. cbn. by rewrite lookup_insert_ne.
    + intros conn' Hc. cbn in Hc. rewrite lookup_insert_eq in Hc. injection Hc as <-. exists conn. by split_and!; auto.
    + intros ? ? [= <- <-]. by left.
  - rewrite u32_small by (unfold is_u; lia).
    set (n := if len buf - offset >? vsockPeerCredit conn then vsockPeerCredit conn else len buf - offset).
    assert (0 < n ≤ vsockPeerCredit conn ∧ n ≤ len buf - offset) as [Hn1 Hn2]
      by (unfold n; destruct (Z.gtb_spec (len buf - offset) (vsockPeerCredit conn)); lia).
    intros [= <- <-]. split; [|done]. by apply (pe_data _ _ _ _ _ conn buf offset n).
Qed.

(** What a goroutine has read and not yet sent, and what it reads now. *)
Definition left_of (a : at_) : list Z :=
  match a with Sending buf offset | Waiting buf offset => drop (Z.to_nat offset) buf | _ => [] end.
Definition reads_now (a : at_) (got : list Z * result unit) : list Z :=
  match a, got.2 with InRead, Ok _ => got.1 | _, _ => [] end.
(** A read returns at most as many bytes as the buffer of the goroutine has. *)
Definition got_ok (got : list Z * result unit) : Prop := len got.1 ≤ 3072 ∧ is_bytes got.1.

Lemma reader_part_effect k a got v v' a' p :
  at_ok a → got_ok got → reader_part k a got v = (v', Ok (a', p)) →
  part_effect k a v v' a' ∧ readers v' = readers v ∧ closed v' = closed v ∧ at_ok a' ∧
  (a' = Finished ∧ reads_now a got = [] ∨ (∃ buf offset, a = Sending buf offset) ∨ left_of a' = left_of a ++ reads_now a got).
Proof.
  intros Ha Hg. destruct a as [| |buf offset|buf offset|]; cbn [reader_part].
  - unfold reader_top, gets, mbind, M_bind, mret, M_ret. intros [= <- <- <-].
    split_and!; [by apply control_untouched|done|done|by destruct (closed v)|]. destruct (closed v); auto.
  - destruct got as [data [[]|e|]]; cbn [fst snd]; [| |done].
    + intros [= <- <- <-]. destruct Hg as [Hg1 Hg2]. cbn [fst] in Hg1, Hg2. split_and!; [by apply control_untouched|done|done| |].
      * destruct (Z.eqb_spec (len data) 0); cbn; [done|]. split_and!; (done || lia).
      * right; right. destruct (Z.eqb_spec (len data) 0); cbn; [by destruct data|done].
    + unfold reader_failed, mbind, M_bind, gets, mret, M_ret, queueRxPacketLocked, put, modify. cbv [id].
      assert (part_effect k InRead v v Finished) as Hc by by apply control_untouched.
      destruct (closed v) eqn:Hcl; [intros [= <- <- <-]; by split_and!; auto|].
      destruct (connections v !! k) as [conn|] eqn:Ec; [|intros [= <- <- <-]; by split_and!; auto].
      destruct (_ =? _); [|intros [= <- <- <-]; by split_and!; auto].
      intros [= <- <- <-]. split_and!; [|done|done|done|by left].
      eapply (pe_control _ _ _ _ _ [_]); [done|apply Forall_singleton; by eexists| | |done].
      * intros k' Hk. cbn. by rewrite lookup_insert_ne.
      * intros conn' Hc'. cbn in Hc'. rewrite lookup_insert_eq in Hc'. injection Hc' as <-. exists conn. by split_and!; auto.
  - unfold mbind, M_bind, mret, M_ret. destruct (send_chunk k buf offset v) as [v1 [a1| |]] eqn:E; [|done..].
    intros [= <- <- <-]. apply send_chunk_effect in E as (He & Hr & Hc); [|done].
    split_and!; [done|done|done| |by eauto].
    destruct He as [conn ? ? n [= <- <-] _ _ ? ? -> _ _|? _ _ _ _ Hw].
    + destruct Ha as (? & ? & ?). destruct (Z.ltb_spec (offset + n) (len buf)); cbn; [|done]. split_and!; (done || lia).
    + by destruct (Hw buf offset eq_refl) as [-> | ->].
  - intros [= <- <- <-]. split_and!; [by apply control_untouched|done|done|done|]. right; right. cbn. by rewrite app_nil_r.
  - intros [= <- <- <-]. split_and!; [by apply control_untouched|done|done|done|]. by left.
Qed.

(** * Events *)

(** The part of a goroutine's step that concerns the device's own fields. *)
Definition reader_dev (i : nat) (got : list Z * result unit) : M V unit :=
  v ← gets id;
  match readers v !! i with
  | Some r => '(a, _) ← reader_part (rkey r) (rat r) got; set_reader i a
  | None => mret tt
  end.

(** A packet from the guest, a step of a goroutine, the guest takes a packet,
    a reset, the two steps of a close, a change of the counters. *)
Inductive event :=
  | EPacket (data : list Z) | EReader (i : nat) (got : list Z * result unit)
  | EDeliver | EReset | ESignal | EClose | ECount (c : counters).
Definition exec (v : V) (e : event) : V :=
  match e with
  | EPacket data => (handle_packet data v).1
  | EReader i got => (reader_dev i got v).1
  | EDeliver => v <| pendingRx := tail (pendingRx v) |>
  | EReset => v <| connections := ∅ |> <| pendingRx := [] |> <| readers := wake <$> readers v |>
  | ESignal => (close_signal v).1
  | EClose => (close_locked v).1
  | ECount c => v <| stats := c |>
  end.
Definition run (v : V) (es : list event) : V := foldl exec v es.
(** The packets that an event queues for the guest. *)
Definition emitted (v : V) (e : event) : list (list Z) :=
  match e with
  | EPacket _ | EReader _ _ => drop (length (pendingRx v)) (pendingRx (exec v e))
  | _ => []
  end.
(** What the goroutines with key [k] read. *)
Definition read_by k v (e : event) : list Z :=
  match e with
  | EReader i got =>
    match readers v !! i with
    | Some r => if decide (rkey r = k) then reads_now (rat r) got else []
    | None => []
    end
  | _ => []
  end.
Definition event_ok (e : event) : Prop :=
  match e with EPacket data => is_bytes data | EReader _ got => got_ok got | _ => True end.

(** The table of connections of [v'] is a part of that of [v]. *)
Definition fewer v v' : Prop := ∀ k conn, connections v' !! k = Some conn → connections v !! k = Some conn.
Definition wound_up v v' : Prop :=
  pendingRx v' = pendingRx v ∧ (readers v' = readers v ∨ readers v' = wake <$> readers v) ∧ fewer v v'.
Lemma wake_idem (rs : list (reader K)) : wake <$> (wake <$> rs) = wake <$> rs.
Proof.
  rewrite <-list_fmap_compose. apply list_fmap_ext. intros _ r _. cbn. unfold wake. by destruct (rat r) eqn:E; cbn; rewrite ?E.
Qed.
Lemma close_locked_effect v : wound_up v (close_locked v).1.
Proof.
  assert (∀ l, preserves (wound_up v)
    (foldr (λ '(k, conn) m, close_backend conn ;;; drop_conn k ;;; m) (mret tt) l)) as Hl.
  { induction l as [|[k conn] l IH]; cbn [foldr]; [apply preserves_ret|].
    apply preserves_bind; [|intros _; apply preserves_bind; [|by intros _]].
    - intros v1 Hv. unfold close_backend, modify. cbn. by destruct (conn_backend conn), (backend v1).
    - intros v1 (? & ? & Hf). split_and!; [done..|]. intros k' c'. cbn. rewrite lookup_delete_Some. intros [_ Hc]. by apply Hf. }
  assert (preserves (wound_up v) close_locked) as Hc.
  { unfold close_locked. apply preserves_bind; [intros v2; apply Hl|]. intros _.
    apply preserves_modify. intros v2 (? & [Hr|Hr] & ?); (split_and!; [done| |done]); right; cbn; rewrite Hr; [done|apply wake_idem]. }
  apply Hc. split_and!; [done|by left|]. by intros k conn.
Qed.

Lemma close_signal_effect v : (close_signal v).1 = v <| closed := true |>.
Proof. unfold close_signal, gets, modify, mbind, M_bind, mret, M_ret. cbv [id]. destruct (closed v) eqn:E; [|done]. cbn. destruct v. cbn in E. by subst. Qed.

(** * The well-formed states *)

Definition conn_ok k conn : Prop :=
  key conn = k ∧ key_ok k ∧ (state conn = vsockConnStateConnected ∨ state conn = vsockConnStateClosing) ∧
  is_Some (conn_backend conn).
Record v_ok v : Prop := {
  vo_conns : map_Forall conn_ok (connections v);
  vo_readers : Forall (λ r, at_ok (rat r)) (readers v);
  vo_pending : Forall is_bytes (pendingRx v);
}.

Lemma wake_ok (r : reader K) : at_ok (rat r) → at_ok (rat (wake r)).
Proof. unfold wake. by destruct (rat r) eqn:E; cbn; rewrite ?E. Qed.
Lemma wake_all_ok (rs : list (reader K)) :
  Forall (λ r, at_ok (rat r)) rs → Forall (λ r, at_ok (rat r)) (wake <$> rs).
Proof. intros H. apply Forall_fmap. eapply Forall_impl; [exact H|]. intros r. apply wake_ok. Qed.

Lemma encode_bytes h : is_bytes (encodeVsockHeader h).
Proof. unfold encodeVsockHeader. auto 20 with go. Qed.
Lemma control_bytes ps : Forall control ps → Forall is_bytes ps.
Proof. intros Hp. eapply Forall_impl; [exact Hp|]. intros p (h & -> & _). apply encode_bytes. Qed.
Lemma dispatched_ok hdr v v' : header_ok hdr → dispatched hdr v v' → v_ok v → v_ok v'.
Proof.
  intros Hh [(ps & Hps & Hcs) Ho Hr _ Hown] [Hc Hrs Hpe]. split.
  - intros k conn' Hk. destruct (decide (k = packet_key hdr)) as [->|Hne]; [|rewrite Ho in Hk by done; by apply Hc].
    destruct (Hown conn' Hk) as [(_ & h & ->)|(conn & Hk' & [Hkey Hb _ _ Hst])].
    + split_and!; [done|split; apply Hh|by left|done].
    + destruct (Hc _ _ Hk') as (<- & ? & Hs & ?). split_and!; [done|done| |by rewrite Hb].
      destruct Hst as [->|Hst]; [done|]. rewrite Hst in Hs. by destruct Hs.
  - destruct Hr as [(h & -> & _)|[->|[-> _]]]; [|done|by apply wake_all_ok].
    apply Forall_app. split; [done|]. by apply Forall_singleton.
  - rewrite Hps. apply Forall_app. split; [done|by apply control_bytes].
Qed.
Lemma part_pending k a v v' a' : part_effect k a v v' a' → at_ok a → v_ok v → Forall is_bytes (pendingRx v').
Proof.
  intros [conn buf offset n -> _ _ _ _ _ -> _|ps -> Hp _ _ _] Ha Hv; (apply Forall_app; split; [apply Hv|]); [|by apply control_bytes].
  apply Forall_singleton, is_bytes_app; [apply encode_bytes|]. by apply is_bytes_sub, Ha.
Qed.
Lemma part_ok k a v v' a' : part_effect k a v v' a' → v_ok v → map_Forall conn_ok (connections v').
Proof.
  intros He [Hc _ _]. destruct He as [conn buf offset n _ Hk _ _ _ _ _ ->|ps _ _ Ho Hown _].
  - apply map_Forall_insert_2; [|done]. exact (Hc k conn Hk).
  - intros k' conn' Hk'. destruct (decide (k' = k)) as [->|Hne]; [|rewrite Ho in Hk' by done; by apply Hc].
    destruct (Hown conn' Hk') as (conn & Hk & Hkey & Hb & _ & _ & _ & Hst). destruct (Hc _ _ Hk) as (? & ? & ? & ?).
    split_and!; [congruence|done| |by rewrite Hb]. destruct Hst as [->| ->]; auto.
Qed.

Lemma reader_part_total k a got v :
  (∃ x, (reader_part k a got v).2 = Ok x) ∨ reader_part k a got v = (v, Panic) ∧ reads_now a got = [].
Proof.
  assert (∃ x, (reader_failed k v).2 = Ok x) as [x Hx].
  { unfold reader_failed, gets, mbind, M_bind. cbn. repeat case_match; eexists; reflexivity. }
  destruct a as [| |buf offset|buf offset|]; cbn [reader_part]; [left; eexists; reflexivity| | |left; eexists; reflexivity..].
  - destruct got as [data [[]| |]]; cbn [fst snd]; [left; eexists; reflexivity| |by right].
    left. unfold mbind, M_bind. destruct (reader_failed k v) as [v1 r]. cbn in Hx. subst r. eexists; reflexivity.
  - left. assert (∃ y, (send_chunk k buf offset v).2 = Ok y) as [y Hy].
    { unfold send_chunk, sendCreditRequestLocked, gets, mbind, M_bind, mret, M_ret. cbn.
      repeat (case_match; simplify_eq); eexists; reflexivity. }
    unfold mbind, M_bind. destruct (send_chunk k buf offset v) as [v1 r]. cbn in Hy. subst r. eexists; reflexivity.
Qed.

Lemma reader_part_readers rs k a got : preserves (λ v, readers v = rs) (reader_part k a got).
Proof.
  unfold reader_part, reader_top, reader_failed, send_chunk, sendCreditRequestLocked, sendDataLocked, queueRxPacketLocked, put.
  repeat first [progress preserves_step | by apply preserves_modify].
Qed.

Inductive stepped (i : nat) got v (v' : V) : Prop :=
  | st_none : v' = v → (∀ k, read_by k v (EReader i got) = []) → stepped i got v v'
  | st_part r v1 a' : readers v !! i = Some r → part_effect (rkey r) (rat r) v v1 a' → readers v1 = readers v →
      at_ok a' →
      (a' = Finished ∧ reads_now (rat r) got = [] ∨ (∃ buf offset, rat r = Sending buf offset) ∨ left_of a' = left_of (rat r) ++ reads_now (rat r) got) →
      (rat r = Finished → a' = Finished) →
      v' = v1 <| readers := alter (λ r, r <| rat := a' |>) i (readers v1) |> →
      stepped i got v v'.
Lemma reader_dev_effect i got v : v_ok v → got_ok got → stepped i got v (exec v (EReader i got)).
Proof.
  intros [_ Hrs _] Hg. cbn [exec]. unfold reader_dev, gets, mbind, M_bind. cbv [id].
  destruct (readers v !! i) as [r|] eqn:Hr.
  2:{ apply st_none; [done|]. intros k. cbn. by rewrite Hr. }
  pose proof (Forall_lookup_1 _ _ _ _ Hrs Hr) as Ha. cbn in Ha.
  destruct (reader_part (rkey r) (rat r) got v) as [v1 [[a' p]|e|]] eqn:E.
  - pose proof E as E'. apply reader_part_effect in E' as (He & Hr1 & _ & Ha' & Hl); [|done..].
    apply (st_part _ _ _ _ r v1 a'); try done. intros Ef. rewrite Ef in E. by injection E.
  - destruct (reader_part_total (rkey r) (rat r) got v) as [([??] & Hx)|[Hx _]]; rewrite E in Hx; done.
  - destruct (reader_part_total (rkey r) (rat r) got v) as [([??] & Hx)|[Hx Hn]]; rewrite E in Hx; [done|].
    injection Hx as ->. apply st_none; [done|]. intros k. cbn. rewrite Hr. by destruct (decide _).
Qed.

Lemma exec_ok v e : event_ok e → v_ok v → v_ok (exec v e).
Proof.
  intros He Hv. destruct e as [data|i got| | | | |c].
  - destruct (handle_packet_effect data v) as [E|(hdr & Hp & Hd)]; cbn [exec]; [by rewrite E|].
    eapply dispatched_ok; [|done|done]. by eapply encode_parse.
  - destruct (reader_dev_effect i got v Hv He) as [-> _|r v1 a' Hr Hp Hr1 Ha _ _ ->]; [done|]. split; cbn.
    + by eapply part_ok.
    + rewrite Hr1. apply Forall_alter; [apply Hv|]. done.
    + eapply part_pending; [done| |done]. exact (Forall_lookup_1 _ _ _ _ (vo_readers _ Hv) Hr).
  - destruct Hv as [? ? Hp]. split; [done..|]. cbn. destruct Hp; [by apply Forall_nil_2|done].
  - destruct Hv as [_ Hr _]. split; cbn; [apply map_Forall_empty|by apply wake_all_ok|apply Forall_nil_2].
  - cbn [exec]. rewrite close_signal_effect. by destruct Hv.
  - destruct (close_locked_effect v) as (Hp & Hr & Hf). destruct Hv as [Hc Hrs Hpe]. split.
    + intros k conn Hk. by apply Hc, Hf.
    + cbn [exec]. destruct Hr as [-> | ->]; [done|by apply wake_all_ok].
    + cbn [exec]. by rewrite Hp.
  - by destruct Hv.
Qed.

(** * A guest that keeps to the protocol *)

(** The device, the bytes sent to the guest on one connection, the bytes read
    for it, how many of them the guest has taken from its buffer, and the
    count in the last packet of the guest. *)
Record world := mkWorld { wv : V; sent : list Z; read_ : list Z; taken : Z; announced : Z }.

(** The events with such a guest, and the count announced afterwards: on the
    connection [k] it makes no second request, and each of its packets
    carries the size [A] of its buffer and how much it had taken at some time
    since its last packet. *)
Inductive announces k (A : Z) (w : world) : event → Z → Prop :=
  | an_own data hdr a : is_bytes data → parseVsockHeader data = Ok hdr → packet_key hdr = k →
      Op hdr ≠ vsockOpRequest → BufAlloc hdr = A → FwdCnt hdr = u32 a → announced w ≤ a ≤ taken w →
      announces k A w (EPacket data) a
  | an_foreign data : is_bytes data → (∀ hdr, parseVsockHeader data = Ok hdr → packet_key hdr ≠ k) →
      announces k A w (EPacket data) (announced w)
  | an_other e : event_ok e → (∀ data, e ≠ EPacket data) → announces k A w e (announced w).
Inductive wstep k (A : Z) : world → world → Prop :=
  | ws_event w e a : announces k A w e a →
      wstep k A w (mkWorld (exec (wv w) e) (sent w ++ concat (payload_to k <$> emitted (wv w) e))
        (read_ w ++ read_by k (wv w) e) (taken w) a)
  | ws_take w n : 0 ≤ n → taken w + n ≤ len (sent w) →
      wstep k A w (mkWorld (wv w) (sent w) (read_ w) (taken w + n) (announced w)).

Record credit_inv k (A : Z) (w : world) : Prop := {
  ci_ok : v_ok (wv w);
  ci_order : 0 ≤ announced w ≤ taken w ∧ taken w ≤ len (sent w) ≤ taken w + A;
  ci_conn conn : connections (wv w) !! k = Some conn →
    peerAlloc conn = A ∧ txCnt conn = u32 (len (sent w)) ∧
    ∃ p, peerCnt conn = u32 p ∧ 0 ≤ p ≤ announced w ∧ len (sent w) ≤ p + A;
}.

Lemma announces_ok k A w e a : announces k A w e a → event_ok e.
Proof. by destruct 1. Qed.

(** The credit the code computes with 32-bit counters is the room left. *)
Lemma credit_exact conn A t p :
  is_u32 A → peerAlloc conn = A → txCnt conn = u32 t → peerCnt conn = u32 p → p ≤ t ≤ p + A →
  vsockPeerCredit conn = p + A - t.
Proof.
  intros [HA0 HA] HPA Htx Hpc Ht. unfold vsockPeerCredit. rewrite HPA, Htx, Hpc.
  assert (u32 (u32 t - u32 p) = t - p) as ->.
  { unfold u32. rewrite <-Zminus_mod. apply Z.mod_small. lia. }
  destruct (Z.eqb_spec A 0); [lia|]. destruct (Z.geb_spec (t - p) A); [lia|].
  rewrite u32_small by (unfold is_u; lia). lia.
Qed.

(** Events that send nothing to [k] and leave its counters alone. *)
Lemma credit_quiet k A w v' bs rd a :
  credit_inv k A w → v_ok v' → bs = [] → announced w ≤ a ≤ taken w →
  (∀ conn', connections v' !! k = Some conn' → ∃ conn, connections (wv w) !! k = Some conn ∧ txCnt conn' = txCnt conn ∧
    (peerAlloc conn' = peerAlloc conn ∧ peerCnt conn' = peerCnt conn ∨ peerAlloc conn' = A ∧ peerCnt conn' = u32 a)) →
  credit_inv k A (mkWorld v' (sent w ++ bs) rd (taken w) a).
Proof.
  intros [Hok Hord Hc] Hv -> Ha Hk. split; cbn; rewrite ?app_nil_r; [done|lia|].
  intros conn' Hc'. destruct (Hk conn' Hc') as (conn & Hc0 & Htx & Hcr). destruct (Hc conn Hc0) as (HA & Ht & p & Hp & Hp2 & Hp3).
  destruct Hcr as [[-> ->]|[-> ->]]; split_and!; try done; [by rewrite Htx|exists p; lia|by rewrite Htx|].
  exists a. split_and!; [done|lia|lia|lia].
Qed.

Lemma emitted_app v v' ps : pendingRx v' = pendingRx v ++ ps → drop (length (pendingRx v)) (pendingRx v') = ps.
Proof. intros ->. by rewrite drop_app_length. Qed.
(** What a step of a goroutine sends to [k]. *)
Lemma part_emits k k' a v v1 a' rs :
  v_ok v → part_effect k' a v v1 a' →
  concat (payload_to k <$> drop (length (pendingRx v)) (pendingRx (v1 <| readers := rs |>))) =
    match a, a' with
    | Sending buf offset, Sending _ offset' => if decide (k' = k) then sub buf (Z.to_nat offset) (Z.to_nat (offset' - offset)) else []
    | Sending buf offset, AtTop => if decide (k' = k) then drop (Z.to_nat offset) buf else []
    | _, _ => []
    end.
Proof.
  intros Hv. change (pendingRx (v1 <| readers := rs |>)) with (pendingRx v1).
  intros [conn buf offset n -> Hc _ Hn Hle -> Hp _|ps Hp Hcs _ _ Ha]; rewrite (emitted_app _ _ _ Hp).
  - destruct (vo_conns _ Hv _ _ Hc) as (Hk & Hok & _). rewrite <-Hk in Hok. cbn [fmap list_fmap concat].
    rewrite app_nil_r, payload_data, Hk by done. destruct (Z.ltb_spec (offset + n) (len buf)).
    + by replace (offset + n - offset) with n by lia.
    + destruct (decide (k' = k)); [|done]. unfold sub. apply take_ge. rewrite length_drop. lia.
  - rewrite payload_controls by done. destruct a as [| |buf offset| |]; [done..| |done|done].
    by destruct (Ha buf offset eq_refl) as [-> | ->].
Qed.

Lemma credit_data k A w i r v1 a' got :
  is_u32 A → credit_inv k A w → readers (wv w) !! i = Some r → rkey r = k →
  part_effect (rkey r) (rat r) (wv w) v1 a' → at_ok (rat r) →
  v_ok (v1 <| readers := alter (λ r, r <| rat := a' |>) i (readers v1) |>) →
  let v' := v1 <| readers := alter (λ r, r <| rat := a' |>) i (readers v1) |> in
  credit_inv k A (mkWorld v' (sent w ++ concat (payload_to k <$> drop (length (pendingRx (wv w))) (pendingRx v')))
    (read_ w ++ got) (taken w) (announced w)).
Proof.
  intros HA Hinv Hr Hk He Ha Hv' v'. unfold v'. rewrite (part_emits k (rkey r) (rat r) (wv w) v1 a') by (done || apply Hinv).
  rewrite Hk in *. destruct He as [conn buf offset n Hs Hc Hst Hn Hle Ha' Hp Hcs|ps Hp Hcs Ho Hown Hw].
  - destruct Hinv as [Hok Hord Hconn]. destruct (Hconn conn Hc) as (HPA & Htx & p & Hpc & Hp1 & Hp2).
    pose proof (credit_exact conn A (len (sent w)) p HA HPA Htx Hpc ltac:(lia)) as Hcr.
    rewrite Hs in Ha |- *. cbn in Ha. set (d := sub buf (Z.to_nat offset) (Z.to_nat n)) in *.
    assert (len d = n) as Hd by (unfold d; rewrite length_sub; lia).
    assert (match a' with
            | Sending _ offset' => if decide (k = k) then sub buf (Z.to_nat offset) (Z.to_nat (offset' - offset)) else []
            | AtTop => if decide (k = k) then drop (Z.to_nat offset) buf else []
            | _ => [] end = d) as ->.
    { subst a'. destruct (Z.ltb_spec (offset + n) (len buf)); (destruct (decide (k = k)); [|done]).
      - by replace (offset + n - offset) with n by lia.
      - symmetry. unfold d, sub. apply take_ge. rewrite length_drop. lia. }
    split; cbn; [done|rewrite length_app; lia|]. rewrite Hcs. intros conn'. rewrite lookup_insert_eq. intros [= <-]. cbn.
    split_and!; [done| |].
    + rewrite Hd, length_app, Nat2Z.inj_add, Hd, Htx. unfold u32. by rewrite Zplus_mod_idemp_l, Zplus_mod_idemp_r.
    + exists p. split_and!; [done|lia|lia|rewrite length_app; lia].
  - apply credit_quiet; try done; [|destruct Hinv; lia|].
    + destruct (rat r) as [| |buf offset| |]; [done..| |done|done]. by destruct (Hw buf offset eq_refl) as [-> | ->].
    + intros conn' Hc'. destruct (Hown conn' Hc') as (conn & ? & ? & ? & ? & ? & ? & ?). exists conn. by split_and!; auto.
Qed.

Lemma credit_step k A w w' : is_u32 A → credit_inv k A w → wstep k A w w' → credit_inv k A w'.
Proof.
  intros HA Hinv Hstep. destruct Hstep as [w e a Han|w n Hn Hle].
  2:{ destruct Hinv as [Hok Hord Hconn]. split; cbn; [done|lia|done]. }
  pose proof (exec_ok (wv w) e (announces_ok _ _ _ _ _ Han) (ci_ok _ _ _ Hinv)) as Hv'.
  pose proof (ci_order _ _ _ Hinv) as Hord.
  assert (∀ conn, connections (wv w) !! k = Some conn → ∃ conn0, connections (wv w) !! k = Some conn0 ∧ txCnt conn = txCnt conn0 ∧
    (peerAlloc conn = peerAlloc conn0 ∧ peerCnt conn = peerCnt conn0 ∨ peerAlloc conn = A ∧ peerCnt conn = u32 a)) as Hsame by eauto 6.
  destruct Han as [data hdr a Hb Hp Hk Hop HB HF Ha|data Hb Hf|e He Hne].
  - cbn [emitted exec] in *. destruct (handle_packet_effect data (wv w)) as [E|(hdr' & Hp' & Hd)].
    + rewrite E in *. apply credit_quiet; [done..|by rewrite drop_all|lia|done].
    + rewrite Hp in Hp'. injection Hp' as <-. destruct Hd as [(ps & Hps & Hcs) _ _ _ Hown].
      apply credit_quiet; [done|done|by rewrite (emitted_app _ _ _ Hps), payload_controls|lia|]. rewrite <-Hk. intros conn' Hc'.
      destruct (Hown conn' Hc') as [[? _]|(conn & Hc & [_ _ Htx Hcr _])]; [done|]. exists conn. rewrite <-HB, <-HF. auto.
  - cbn [emitted exec] in *. destruct (handle_packet_effect data (wv w)) as [E|(hdr & Hp & Hd)].
    + rewrite E in *. apply credit_quiet; [done..|by rewrite drop_all|lia|done].
    + destruct Hd as [(ps & Hps & Hcs) Ho _ _ _]. specialize (Hf hdr Hp).
      apply credit_quiet; [done|done|by rewrite (emitted_app _ _ _ Hps), payload_controls|lia|]. intros conn'. rewrite Ho by done. apply Hsame.
  - destruct e as [data|i got| | | | |c]; [by destruct (Hne data)| | | | | |].
    + cbn [emitted] in *. destruct (reader_dev_effect i got (wv w) (ci_ok _ _ _ Hinv) He) as [E _|r v1 a' Hr Hpe Hr1 Ha' _ _ E]; rewrite E in *.
      { apply credit_quiet; [done..|by rewrite drop_all|lia|done]. }
      destruct (decide (rkey r = k)) as [Hk|Hk].
      { eapply credit_data; try done. exact (Forall_lookup_1 _ _ _ _ (vo_readers _ (ci_ok _ _ _ Hinv)) Hr). }
      apply credit_quiet; [done|done| |lia|].
      * rewrite (part_emits k (rkey r) (rat r) (wv w) v1 a') by (done || apply Hinv).
        destruct (rat r), a'; try done; by destruct (decide (rkey r = k)).
      * intros conn' Hc'. assert (connections v1 !! k = connections (wv w) !! k) as E1.
        { destruct Hpe as [???? _ _ _ _ _ _ _ -> |?? _ Ho _ _]; [by rewrite lookup_insert_ne|apply Ho; congruence]. }
        cbn in Hc'. rewrite E1 in Hc'. by apply Hsame.
    + apply credit_quiet; [done..|lia|done].
    + apply credit_quiet; [done..|lia|]. cbn. intros conn'. by rewrite lookup_empty.
    + cbn [exec emitted] in *. rewrite close_signal_effect in *. apply credit_quiet; [done..|lia|done].
    + apply credit_quiet; [done..|lia|]. intros conn' Hc'. apply Hsame. by apply (close_locked_effect (wv w)).
    + apply credit_quiet; [done..|lia|done].
Qed.

(** The states of a device that started from nothing. *)
Definition v0 (cid : Z) (b : option B) : V := mkVsock cid b ∅ [] false [] (mkCounters 0 0 0 0 0 0 0).
Definition reachable v : Prop := ∃ cid b es, Forall event_ok es ∧ v = run (v0 cid b) es.
Lemma run_ok es v : Forall event_ok es → v_ok v → v_ok (run v es).
Proof.
  revert v. induction es as [|e es IH]; intros v Hes Hv; [done|]. apply Forall_cons in Hes as [He Hes].
  apply IH; [done|by apply exec_ok].
Qed.
Lemma reachable_ok v : reachable v → v_ok v.
Proof.
  intros (cid & b & es & Hes & ->). apply run_ok; [done|].
  split; [apply map_Forall_empty|apply Forall_nil_2|apply Forall_nil_2].
Qed.

Lemma reachable_exec v e : event_ok e → reachable v → reachable (exec v e).
Proof.
  intros He (cid & b & es & Hes & ->). exists cid, b, (es ++ [e]). split.
  - apply Forall_app. split; [done|by apply Forall_singleton].
  - unfold run. by rewrite foldl_app.
Qed.

(** A request that opens the connection [k] with an empty buffer of [A]
    bytes. *)
Definition opens k (A : Z) (data : list Z) : Prop :=
  is_bytes data ∧ ∃ hdr, parseVsockHeader data = Ok hdr ∧ Op hdr = vsockOpRequest ∧ packet_key hdr = k ∧
    BufAlloc hdr = A ∧ FwdCnt hdr = 0.
Definition opened k (A : Z) v (data : list Z) : world := mkWorld (exec v (EPacket data)) [] [] 0 0.

(** ** The stream *)

(** At most one goroutine serves [k]; what it has read is what was sent and
    what it still holds. *)
Definition stream_inv k (w : world) : Prop :=
  v_ok (wv w) ∧ ∃ rest i0, read_ w = sent w ++ rest ∧
    ∀ i r, readers (wv w) !! i = Some r → rkey r = k → rat r ≠ Finished → i = i0 ∧ left_of (rat r) = rest.

Lemma left_wake (r : reader K) : left_of (rat (wake r)) = left_of (rat r) ∧ rkey (wake r) = rkey r ∧
  (rat (wake r) = Finished ↔ rat r = Finished).
Proof. unfold wake. by destruct (rat r) eqn:E; cbn; rewrite ?E. Qed.

(** Events that send and read nothing for [k]. *)
Lemma stream_quiet k w v' bs rd t a :
  stream_inv k w → v_ok v' → bs = [] → rd = [] →
  (∀ i r, readers v' !! i = Some r → rkey r = k → rat r ≠ Finished →
    ∃ r0, readers (wv w) !! i = Some r0 ∧ rkey r0 = k ∧ rat r0 ≠ Finished ∧ left_of (rat r0) = left_of (rat r)) →
  stream_inv k (mkWorld v' (sent w ++ bs) (read_ w ++ rd) t a).
Proof.
  intros (Hok & rest & i0 & Hrd & Hr) Hv -> -> Hk. split; [done|]. exists rest, i0. cbn. rewrite !app_nil_r.
  split; [done|]. intros i r Hi Hkey Hf. destruct (Hk i r Hi Hkey Hf) as (r0 & H0 & Hk0 & Hf0 & <-). by apply Hr.
Qed.
Lemma woken_same k v v' :
  (readers v' = readers v ∨ readers v' = wake <$> readers v) → ∀ i r, readers v' !! i = Some r → rkey r = k → rat r ≠ Finished →
  ∃ r0, readers v !! i = Some r0 ∧ rkey r0 = k ∧ rat r0 ≠ Finished ∧ left_of (rat r0) = left_of (rat r).
Proof.
  intros [-> | ->] i r Hi Hk Hf; [by eauto|]. rewrite list_lookup_fmap in Hi.
  destruct (readers v !! i) as [r0|]; [|done]. injection Hi as <-. destruct (left_wake r0) as (Hl & Hk0 & Hf0).
  exists r0. split_and!; [done|congruence|by rewrite <-Hf0|done].
Qed.
(** So do the packets of other connections, and those of [k] that are not
    requests. *)
Lemma dispatched_same k hdr v v' :
  dispatched hdr v v' → (packet_key hdr = k → Op hdr ≠ vsockOpRequest) → ∀ i r, readers v' !! i = Some r → rkey r = k → rat r ≠ Finished →
  ∃ r0, readers v !! i = Some r0 ∧ rkey r0 = k ∧ rat r0 ≠ Finished ∧ left_of (rat r0) = left_of (rat r).
Proof.
  intros [_ _ Hr _ _] Hop. destruct Hr as [(h & Hrs & Hreq)|Hr].
  2:{ apply woken_same. destruct Hr as [->|[-> _]]; auto. }
  intros i r Hi Hk Hf. rewrite Hrs in Hi. apply lookup_app_Some in Hi as [Hi|[_ Hi]]; [by eauto|].
  apply list_lookup_singleton_Some in Hi as [_ <-]. cbn in Hk. by destruct (Hop Hk).
Qed.

(** What was held and is read now is sent or held afterwards, unless the
    goroutine ends. *)
Lemma part_flow k a v v1 a' got rs :
  v_ok v → part_effect k a v v1 a' → at_ok a →
  (a' = Finished ∧ reads_now a got = [] ∨ (∃ buf offset, a = Sending buf offset) ∨ left_of a' = left_of a ++ reads_now a got) →
  ∃ rest', left_of a ++ reads_now a got =
      concat (payload_to k <$> drop (length (pendingRx v)) (pendingRx (v1 <| readers := rs |>))) ++ rest' ∧
    (a' ≠ Finished → left_of a' = rest').
Proof.
  intros Hv He Hat Hl. rewrite (part_emits k k a v v1 a') by done.
  assert (reads_now a got = [] ∧ a' = Finished ∨ (∃ buf offset, a = Sending buf offset) ∨
    (∀ buf offset, a ≠ Sending buf offset) ∧ left_of a' = left_of a ++ reads_now a got) as Hcase.
  { destruct Hl as [[-> ?]|[?|?]]; [by left|by right; left|].
    destruct a; try (right; right; by split); right; left; by eauto. }
  destruct Hcase as [[Hn ->]|[(buf & offset & ->)|[Hns Hl']]].
  - exists (left_of a). rewrite Hn, app_nil_r. by destruct a.
  - cbn [left_of reads_now]. rewrite app_nil_r. destruct (decide (k = k)); [|done]. cbn in Hat.
    destruct He as [conn buf' offset' n [= <- <-] _ _ Hn Hle -> _ _|ps _ _ _ _ Hw].
    + destruct (Z.ltb_spec (offset + n) (len buf)); eexists; (split; [|by intros _]); cbn.
      * replace (offset + n - offset) with n by lia. unfold sub. rewrite Z2Nat.inj_add, <-drop_drop by lia. by rewrite take_drop.
      * by rewrite app_nil_r.
    + destruct (Hw buf offset eq_refl) as [-> | ->]; by eexists.
  - exists (left_of a'). rewrite Hl'. split; [|done]. destruct a as [| |buf offset| |]; try done. by destruct (Hns buf offset).
Qed.

Lemma stream_reader k w i r v1 a' got t a :
  stream_inv k w → readers (wv w) !! i = Some r → rkey r = k → part_effect (rkey r) (rat r) (wv w) v1 a' →
  readers v1 = readers (wv w) →
  (a' = Finished ∧ reads_now (rat r) got = [] ∨ (∃ buf offset, rat r = Sending buf offset) ∨
    left_of a' = left_of (rat r) ++ reads_now (rat r) got) →
  let v' := v1 <| readers := alter (λ r, r <| rat := a' |>) i (readers v1) |> in
  v_ok v' → at_ok (rat r) → (rat r = Finished → a' = Finished) →
  stream_inv k (mkWorld v' (sent w ++ concat (payload_to k <$> drop (length (pendingRx (wv w))) (pendingRx v')))
    (read_ w ++ reads_now (rat r) got) t a).
Proof.
  intros (Hok & rest & i0 & Hrd & Hrs) Hr Hk He Hr1 Hl v' Hv' Hat Hfin. rewrite Hk in He.
  destruct (part_flow k (rat r) (wv w) v1 a' got (alter (λ r, r <| rat := a' |>) i (readers v1)) Hok He Hat Hl) as (rest' & Hfl & Hl').
  fold v' in Hfl. set (out := concat _) in *. split; [done|].
  assert (∀ rest2, (a' ≠ Finished → i = i0 ∧ left_of a' = rest2) → (∀ j, j ≠ i → ∀ r', readers (wv w) !! j = Some r' →
      rkey r' = k → rat r' ≠ Finished → j = i0 ∧ left_of (rat r') = rest2) → ∀ j r', readers v' !! j = Some r' → rkey r' = k →
      rat r' ≠ Finished → j = i0 ∧ left_of (rat r') = rest2) as Hnew.
  { intros rest2 Hi Hj j r' Hj'. cbn in Hj'. rewrite Hr1 in Hj'. destruct (decide (j = i)) as [->|Hne].
    - rewrite list_lookup_alter_eq, Hr in Hj'. injection Hj' as <-. by intros _.
    - rewrite list_lookup_alter_ne in Hj' by done. by apply Hj. }
  destruct (decide (rat r = Finished)) as [Ef|Ef].
  - assert (out = [] ∧ reads_now (rat r) got = []) as [-> ->].
    { rewrite Ef in *. cbn in Hfl. by destruct out. }
    exists rest, i0. cbn. rewrite !app_nil_r. split; [done|]. apply Hnew; [|by intros j _ r'; apply Hrs]. rewrite (Hfin Ef). done.
  - destruct (Hrs i r Hr Hk Ef) as [-> Hrest]. exists rest', i0. cbn -[reads_now]. split; [by rewrite Hrd, <-!app_assoc, <-Hrest, Hfl|].
    apply Hnew; [by auto|]. intros j Hj r' Hr' Hk' Hf'. by destruct (Hrs j r' Hr' Hk' Hf').
Qed.

Lemma stream_step k A w w' : stream_inv k w → wstep k A w w' → stream_inv k w'.
Proof.
  intros Hinv Hstep. destruct Hstep as [w e a Han|w n Hn Hle].
  2:{ destruct Hinv as (Hok & rest & i0 & Hrd & Hrs). split; [done|]. by exists rest, i0. }
  pose proof (exec_ok (wv w) e (announces_ok _ _ _ _ _ Han) (proj1 Hinv)) as Hv'.
  pose proof (woken_same k (wv w) (wv w) (or_introl eq_refl)) as Hsame.
  assert (∀ data, e = EPacket data → ∀ hdr, parseVsockHeader data = Ok hdr → packet_key hdr = k → Op hdr ≠ vsockOpRequest) as Hreq.
  { intros data ->. inversion Han as [? hdr' ? ? Hp|? ? Hf|? ? Hne]; subst.
    - intros hdr. rewrite Hp. by intros [= <-].
    - intros hdr Hp Hk. by destruct (Hf hdr Hp).
    - by destruct (Hne data). }
  pose proof (announces_ok _ _ _ _ _ Han) as He. clear Han.
  destruct e as [data|i got| | | | |c].
  - cbn [emitted exec] in *. destruct (handle_packet_effect data (wv w)) as [E|(hdr & Hp & Hd)].
    + rewrite E in *. apply stream_quiet; [done..|by rewrite drop_all|done|done].
    + destruct (di_emits _ _ _ Hd) as (ps & Hps & Hcs). apply stream_quiet; [done|done| |done|].
      * by rewrite (emitted_app _ _ _ Hps), payload_controls.
      * apply (dispatched_same k hdr); [done|]. by apply (Hreq data).
  - cbn [emitted] in *. destruct (reader_dev_effect i got (wv w) (proj1 Hinv) He) as [E Hrd|r v1 a' Hr Hpe Hr1 Ha' Hl Hfin E]; rewrite E in *.
    { apply stream_quiet; [done..|by rewrite drop_all|apply Hrd|done]. }
    pose proof (Forall_lookup_1 _ _ _ _ (vo_readers _ (proj1 Hinv)) Hr) as Hat.
    cbn [read_by]. rewrite Hr. destruct (decide (rkey r = k)) as [Hk|Hk].
    { by apply stream_reader. }
    apply stream_quiet; [done|done| |done|].
    + rewrite (part_emits k (rkey r) (rat r) (wv w) v1 a') by (done || apply Hinv).
      destruct (rat r), a'; try done; by destruct (decide (rkey r = k)).
    + intros j r' Hj Hk' Hf. cbn in Hj. rewrite Hr1 in Hj. destruct (decide (j = i)) as [->|Hne].
      * rewrite list_lookup_alter_eq, Hr in Hj. by injection Hj as <-.
      * rewrite list_lookup_alter_ne in Hj by done. by eauto.
  - by apply stream_quiet.
  - apply stream_quiet; [done..|]. apply woken_same. by right.
  - cbn [exec emitted] in *. rewrite close_signal_effect in *. apply stream_quiet; [done..|exact Hsame].
  - apply stream_quiet; [done..|]. apply woken_same, close_locked_effect.
  - by apply stream_quiet.
Qed.

Lemma opened_credit k A v data :
  is_u32 A → v_ok v → connections v !! k = None → opens k A data → credit_inv k A (opened k A v data).
Proof.
  intros HA Hv Hk (Hb & hdr & Hp & Hop & Hkey & HB & HF).
  assert (v_ok (exec v (EPacket data))) as Hv' by by apply exec_ok. split; cbn [wv sent taken announced opened]; [done|cbn; unfold is_u in HA; lia|].
  intros conn Hc. cbn [exec] in Hc. destruct (handle_packet_effect data v) as [E|(hdr' & Hp' & Hd)]; [rewrite E in Hc; congruence|].
  rewrite Hp in Hp'. injection Hp' as <-. rewrite <-Hkey in Hc, Hk. destruct (di_own _ _ _ Hd conn Hc) as [(_ & h & ->)|(? & ? & _)]; [|congruence].
  cbn. split_and!; [done|done|]. exists 0. rewrite HF. unfold is_u in HA. split_and!; (done || lia).
Qed.
Lemma opened_stream k A v data :
  v_ok v → Forall (λ r, rkey r = k → rat r = Finished) (readers v) → opens k A data → stream_inv k (opened k A v data).
Proof.
  intros Hv Hrs (Hb & hdr & Hp & Hop & Hkey & _). split; [by apply exec_ok|].
  exists [], (length (readers v)). split; [done|]. cbn [opened wv exec]. intros i r Hi Hk Hf.
  destruct (handle_packet_effect data v) as [E|(hdr' & Hp' & Hd)].
  { rewrite E in Hi. destruct Hf. exact (Forall_lookup_1 _ _ _ _ Hrs Hi Hk). }
  destruct (di_readers _ _ _ Hd) as [(h & Hr & _)|[Hr|[_ Hcu]]].
  - rewrite Hr in Hi. apply lookup_app_Some in Hi as [Hi|[Hlen Hi]].
    + destruct Hf. exact (Forall_lookup_1 _ _ _ _ Hrs Hi Hk).
    + apply list_lookup_singleton_Some in Hi as [? <-]. split; [lia|done].
  - rewrite Hr in Hi. destruct Hf. exact (Forall_lookup_1 _ _ _ _ Hrs Hi Hk).
  - rewrite Hp in Hp'. injection Hp' as <-. rewrite Hop in Hcu. discriminate Hcu.
Qed.
End effects.

(** ** Samples *)

(** A backend that keeps what each connection is given. *)
Definition log_backend : VsockBackend (list (list Z)) nat := {|
  Connect b _ := (b ++ [[]], Ok (length b));
  ConnWrite b h data := (alter (λ d, d ++ data) h b, if b !! h is Some _ then Ok tt else Err "no such connection");
  ConnClose b _ := b;
|}.
(** A guest that connects from port 50 with a buffer of four bytes and sends
    two. *)
Definition guest_header (op n fwd : Z) : vsockHeader := mkHeader 3 2 50 1000 n 1 op 0 4 fwd.
Definition guest_request : list Z := encodeVsockHeader (guest_header vsockOpRequest 0 0).
Definition guest_data : list Z := encodeVsockHeader (guest_header vsockOpRW 2 0) ++ [104; 105].

#[local] Existing Instance log_backend.
Definition guest_port : Z * Z := (1000, 50).
Definition sample_vsock : vsock_fields (list (list Z)) nat := v0 3 (Some []).
(** The host sends six bytes: four of them fill the buffer. *)
Definition six_bytes : list event :=
  [EReader 0 ([], Err "not in a read"); EReader 0 ([1; 2; 3; 4; 5; 6], Ok tt); EReader 0 ([], Err "not in a read"); EReader 0 ([], Err "not in a read")].
Definition weffect (w : world (B := list (list Z)) (K := nat)) (e : event) : world :=
  mkWorld (exec (wv w) e) (sent w ++ concat (payload_to guest_port <$> emitted (wv w) e))
    (read_ w ++ read_by guest_port (wv w) e) (taken w) (announced w).
Definition sample_world : world := foldl weffect (opened guest_port 4 sample_vsock guest_request) six_bytes.
Lemma sample_steps : rtc (wstep guest_port 4) (opened guest_port 4 sample_vsock guest_request) sample_world.
Proof.
  unfold sample_world. generalize (opened guest_port 4 sample_vsock guest_request).
  assert (Forall (λ e, event_ok e ∧ ∀ data, e ≠ EPacket data) six_bytes) as Hes.
  { unfold six_bytes. repeat (apply Forall_cons; split; [split; [|done]|]); [..|apply Forall_nil_2].
    all: split; [cbn; lia|repeat constructor; lia]. }
  induction Hes as [|e es [He Hn] _ IH]; intros w; [apply rtc_refl|]. cbn [foldl]. eapply rtc_l; [|apply IH].
  by apply ws_event, an_other.
Qed.
Lemma sample_opens : opens guest_port 4 guest_request.
Proof. split; [apply encode_bytes|]. eexists. split_and!; [vm_compute; reflexivity|done..]. Qed.
Lemma sample_reachable es : Forall event_ok es → reachable (run sample_vsock es).
Proof. by exists 3, (Some []), es. Qed.

(** * Theorems *)

(** A header that the device writes reads back as it was, whatever payload
    follows it, and writing a header that was read gives its bytes. *)
Theorem vsock_header_roundtrip h d :
  header_ok h → is_bytes d →
  parseVsockHeader (encodeVsockHeader h ++ d) = Ok h ∧
  ∀ data h', is_bytes data → parseVsockHeader data = Ok h' → encodeVsockHeader h' ++ drop 44 data = data.
Proof.
  intros Hh _. split; [by rewrite parse_encode, wrap_ok|]. intros data h' Hb Hp.
  destruct (encode_parse data h' Hb Hp) as [-> _]. apply take_drop.
Qed.
Lemma vsock_header_roundtrip_witness :
  parseVsockHeader (encodeVsockHeader (guest_header vsockOpRW 2 0) ++ [104; 105]) = Ok (guest_header vsockOpRW 2 0).
Proof. apply (vsock_header_roundtrip (guest_header vsockOpRW 2 0) [104; 105]); [by split_and!|repeat constructor; lia]. Defined.

Section theorems.
Context {B K : Type} `{!VsockBackend B K}.
Abbreviation V := (vsock_fields B K).
Implicit Types (v : V) (k : Z * Z).

(** C5: A guest that opens a connection with a buffer of [A] bytes and
    announces what it has taken from it never gets more bytes than the buffer
    has room for, whatever other connections do, however many goroutines
    send, and whenever its announcements arrive; the counters of both sides
    may wrap around. *)
Theorem vsock_credit_safe k A v data w :
  is_u32 A → reachable v → connections v !! k = None → opens k A data →
  rtc (wstep k A) (opened k A v data) w → taken w ≤ len (sent w) ≤ taken w + A.
Proof.
  intros HA Hv Hk Ho Hw. assert (credit_inv k A w) as Hinv; [|apply Hinv].
  pose proof (opened_credit k A v data HA (reachable_ok v Hv) Hk Ho) as H0.
  induction Hw as [w|w w1 w2 Hs _ IH]; [done|]. apply IH. by eapply credit_step.
Qed.

(** C19: On a connection that a request opens while no goroutine of an earlier
    connection with the same ports is left, and as long as the guest sends no
    second request for these ports and announces only what it has taken: the
    bytes sent to the guest are those read from the host side, in order, none
    lost or repeated; what has been read is what was sent followed by what the
    goroutine still holds.  The bytes of a read that also returned an error do
    not count as read: the goroutine drops them. *)
Theorem vsock_stream_in_order k A v data w :
  reachable v → Forall (λ r, rkey r = k → rat r = Finished) (readers v) → opens k A data →
  rtc (wstep k A) (opened k A v data) w →
  ∃ rest, read_ w = sent w ++ rest ∧
    ∀ r, r ∈ readers (wv w) → rkey r = k → rat r ≠ Finished → left_of (rat r) = rest.
Proof.
  intros Hv Hrs Ho Hw. assert (stream_inv k w) as (_ & rest & i0 & Hrd & Hr).
  { pose proof (opened_stream k A v data (reachable_ok v Hv) Hrs Ho) as H0.
    induction Hw as [w|w w1 w2 Hs _ IH]; [done|]. apply IH. by eapply stream_step. }
  exists rest. split; [done|]. intros r (i & Hi)%list_elem_of_lookup Hk Hf. by destruct (Hr i r Hi Hk Hf).
Qed.

(** An event that cannot wake a goroutine. *)
Definition no_update (e : event) : Prop :=
  match e with
  | EPacket data => ∀ hdr, parseVsockHeader data = Ok hdr → Op hdr ≠ vsockOpCreditUpdate
  | EReset | EClose => False
  | _ => True
  end.
Lemma no_update_keeps v e i r buf offset :
  no_update e → readers v !! i = Some r → rat r = Waiting buf offset → readers (exec v e) !! i = Some r.
Proof.
  intros He Hr Hw. destruct e as [data|j got| | | | |c]; try done.
  - cbn [exec]. destruct (handle_packet_effect data v) as [-> |(hdr & Hp & Hd)]; [done|].
    destruct (di_readers _ _ _ Hd) as [(h & -> & _)|[-> |[_ Hcu]]]; [by apply lookup_app_l_Some|done|]. by destruct (He hdr Hp).
  - cbn [exec]. unfold reader_dev, gets, mbind, M_bind. cbv [id].
    destruct (readers v !! j) as [r'|] eqn:Hj; [|done].
    pose proof (reader_part_readers (readers v) (rkey r') (rat r') got v eq_refl) as Hrs.
    destruct (reader_part (rkey r') (rat r') got v) as [v1 [[a p]| |]] eqn:E; cbn in Hrs |- *; rewrite ?Hrs; [|done..].
    destruct (decide (j = i)) as [->|Hne]; [|by rewrite list_lookup_alter_ne].
    rewrite Hr in Hj. injection Hj as <-. rewrite Hw in E. injection E as _ <- _.
    rewrite list_lookup_alter_eq, Hr. cbn. rewrite <-Hw. by destruct r.
  - cbn [exec]. by rewrite close_signal_effect.
Qed.

(** C38: A goroutine that waits for room in the guest's buffer is woken by a
    credit update, a reset or a close and by nothing else: however many data
    packets announce that there is room again, it goes on waiting, and what it
    holds is not sent. *)
Theorem vsock_waits_for_update v es i r buf offset :
  readers v !! i = Some r → rat r = Waiting buf offset → Forall no_update es → readers (run v es) !! i = Some r.
Proof.
  intros Hr Hw Hes. revert v Hr. induction Hes as [|e es He _ IH]; intros v Hr; [done|].
  apply (IH (exec v e)). by eapply no_update_keeps.
Qed.

(** A packet that reaches its handler. *)
Definition carries (data : list Z) (hdr : vsockHeader) : Prop :=
  parseVsockHeader data = Ok hdr ∧ Len hdr = 0 ∧ len data < 2^32.
Lemma handle_carries data hdr v : carries data hdr → handle_packet data v = dispatch hdr [] v.
Proof.
  intros (Hp & Hl & Hs). unfold handle_packet, lift, mbind, M_bind. rewrite Hp, Hl.
  unfold parseVsockHeader in Hp. destruct (len data <? vsockHeaderSize); [done|].
  destruct (Z.ltb_spec (u32 (len (drop (Z.to_nat vsockHeaderSize) data))) 0) as [Hlt|_]; [|done].
  pose proof (u32_nonneg (len (drop (Z.to_nat vsockHeaderSize) data))). lia.
Qed.

(** A guest that resets a connection and opens a new one with the same
    ports can lose the new one: the goroutine of the old connection finds its
    read failed, takes the new connection for its own, marks it as closing and
    tells the guest that the host has shut it down. *)
Theorem vsock_reconnect_shut_down v k conn h b b' h' i r rst req hr hq data e :
  connections v !! k = Some conn → conn_backend conn = Some h → backend v = Some b → closed v = false →
  readers v !! i = Some r → rkey r = k → rat r = InRead →
  carries rst hr → Op hr = vsockOpRST → packet_key hr = k →
  carries req hq → Op hq = vsockOpRequest → packet_key hq = k → Connect (ConnClose b h) k.1 = (b', Ok h') →
  let v2 := run v [EPacket rst; EPacket req] in
  let v3 := exec v2 (EReader i (data, Err e)) in
  ∃ conn2, connections v2 !! k = Some conn2 ∧ state conn2 = vsockConnStateConnected ∧ conn_backend conn2 = Some h' ∧
    connections v3 !! k = Some (conn2 <| state := vsockConnStateClosing |>) ∧
    pendingRx v3 = pendingRx v2 ++ [encodeVsockHeader (shutdown_header v2 k)].
Proof.
  intros Hc Hh Hb Hcl Hr Hrk Hra H1 Hop1 Hk1 H2 Hop2 Hk2 Hcon v2 v3.
  set (v1 := v <| backend := Some (ConnClose b h) |> <| connections := delete k (connections v) |>).
  assert (exec v (EPacket rst) = v1) as E1.
  { cbn [exec]. rewrite (handle_carries rst hr) by done.
    replace (dispatch hr []) with (handleResetLocked hr) by (unfold dispatch; by rewrite Hop1).
    unfold handleResetLocked, gets, mbind, M_bind, conn_of, close_backend, drop_conn, modify. rewrite Hk1, Hc, Hh, Hb. done. }
  set (conn2 := mkConnection k vsockConnStateConnected (BufAlloc hq) (FwdCnt hq) 0 0 false (Some h')).
  assert (connections v2 !! k = Some conn2 ∧ readers v2 !! i = Some r ∧ closed v2 = false) as (Hc2 & Hr2 & Hcl2).
  { unfold v2. cbn [run foldl]. rewrite E1. cbn [exec]. rewrite (handle_carries req hq) by done.
    replace (dispatch hq []) with (handleConnectLocked hq) by (unfold dispatch; by rewrite Hop2).
    unfold handleConnectLocked, sendResponseLocked, queueRxPacketLocked, put, modify, gets, mbind, M_bind.
    replace (DstPort hq) with k.1 by by rewrite <-Hk2. rewrite Hk2. cbn -[encodeVsockHeader]. rewrite Hcon. cbn -[encodeVsockHeader].
    split_and!; [by rewrite lookup_insert_eq|by apply lookup_app_l_Some|done]. }
  exists conn2. split_and!; [done..| |]; unfold v3; cbn [exec]; unfold reader_dev, gets, mbind, M_bind; cbv [id]; rewrite Hr2, Hra;
    cbn [reader_part fst snd]; unfold reader_failed, queueRxPacketLocked, put, modify, gets, mbind, M_bind, mret, M_ret; cbv [id]; rewrite Hcl2, Hrk, Hc2; cbn -[encodeVsockHeader].
  - by rewrite lookup_insert_eq.
  - done.
Qed.
End theorems.

#[local] Existing Instance log_backend.
Lemma vsock_credit_safe_witness :
  sent sample_world = [1; 2; 3; 4] ∧ taken sample_world ≤ len (sent sample_world) ≤ taken sample_world + 4.
Proof.
  split; [vm_compute; reflexivity|].
  apply (vsock_credit_safe guest_port 4 sample_vsock guest_request sample_world); [done| |vm_compute; reflexivity|apply sample_opens|apply sample_steps].
  apply (sample_reachable []), Forall_nil_2.
Defined.
Lemma vsock_stream_in_order_witness : ∃ rest, [1; 2; 3; 4; 5; 6] = [1; 2; 3; 4] ++ rest.
Proof.
  destruct (vsock_stream_in_order guest_port 4 sample_vsock guest_request sample_world) as (rest & Hr & _).
  - apply (sample_reachable []), Forall_nil_2.
  - apply Forall_nil_2.
  - apply sample_opens.
  - apply sample_steps.
  - exists rest. vm_compute in Hr. exact Hr.
Defined.

(** The goroutine waits with the last two bytes; the guest announces in a data
    packet that its buffer is empty. *)
Definition waiting_vsock : vsock_fields (list (list Z)) nat := exec (wv sample_world) (EReader 0 ([], Err "not in a read")).
Definition guest_taken : list Z := encodeVsockHeader (guest_header vsockOpRW 2 4) ++ [104; 105].
Lemma vsock_waits_for_update_witness :
  rat <$> readers (run waiting_vsock [EPacket guest_taken]) !! 0%nat = Some (Waiting [1; 2; 3; 4; 5; 6] 4).
Proof.
  rewrite (vsock_waits_for_update waiting_vsock [EPacket guest_taken] 0
    (mkReader 0%nat guest_port (Waiting [1; 2; 3; 4; 5; 6] 4)) [1; 2; 3; 4; 5; 6] 4); [done|vm_compute; reflexivity|done|].
  apply Forall_cons. split; [|apply Forall_nil_2]. vm_compute. by intros hdr [= <-].
Defined.

Definition open_vsock : vsock_fields (list (list Z)) nat :=
  run sample_vsock [EPacket guest_request; EReader 0 ([], Err "not in a read")].
Lemma vsock_reconnect_shut_down_witness :
  let v2 := run open_vsock [EPacket (encodeVsockHeader (guest_header vsockOpRST 0 0)); EPacket guest_request] in
  let v3 := exec v2 (EReader 0 ([], Err "closed")) in
  ∃ conn2, connections v2 !! guest_port = Some conn2 ∧ state conn2 = vsockConnStateConnected ∧
    connections v3 !! guest_port = Some (conn2 <| state := vsockConnStateClosing |>).
Proof.
  destruct (vsock_reconnect_shut_down open_vsock guest_port
    (mkConnection guest_port vsockConnStateConnected 4 0 0 0 false (Some 0%nat)) 0%nat [[]] [[]; []] 1%nat 0
    (mkReader 0%nat guest_port InRead) (encodeVsockHeader (guest_header vsockOpRST 0 0)) guest_request
    (guest_header vsockOpRST 0 0) (guest_header vsockOpRequest 0 0) [] "closed") as (conn2 & H1 & H2 & _ & H3 & _);
    [vm_compute; reflexivity|done|vm_compute; reflexivity..|done|done|by split_and!|done|done|by split_and!|done|done|vm_compute; reflexivity|].
  by exists conn2.
Defined.
