(* ===== verification/VsockHost.v ===== *)
(** The host side of the virtio socket device.

    What a guest sends on a connection is what the host side is given, over
    every sequence of events and whatever other connections do.  The
    theorem is for any backend that keeps to its interface; SimpleVsock has the
    one the program uses. *)
From S2P Require Import Prelude GuestMemory VirtQueue VirtMmio Vsock VsockConn.

(** What the device relies on: handles are new, and a write reaches its own
    connection only.  [received] is what a connection was given, [issued] the
    handles returned so far. *)
Class VsockBackendOk (B K : Type) `{!VsockBackend B K} := {
  received : B → K → list Z;
  issued : B → K → Prop;
  connect_new b port b' h : Connect b port = (b', Ok h) → ¬ issued b h ∧ issued b' h ∧ received b' h = [];
  connect_keeps b port b' r h : Connect b port = (b', r) → issued b h → issued b' h ∧ received b' h = received b h;
  connect_returns b port : (Connect b port).2 ≠ Panic;
  write_returns b h d : (ConnWrite b h d).2 ≠ Panic;
  write_issued b h d h' : issued b h' → issued (ConnWrite b h d).1 h';
  write_gives b h d : (ConnWrite b h d).2 = Ok tt → received (ConnWrite b h d).1 h = received b h ++ d;
  write_partly b h d : ∃ n, received (ConnWrite b h d).1 h = received b h ++ take n d;
  write_other b h d h' : h' ≠ h → issued b h' → received (ConnWrite b h d).1 h' = received b h';
  close_keeps b h h' : issued b h' → issued (ConnClose b h) h' ∧ received (ConnClose b h) h' = received b h';
}.
#[global] Hint Mode VsockBackendOk ! ! - : typeclass_instances.

Section host.
Context {B K : Type} `{VsockBackendOk B K}.
Abbreviation V := (vsock_fields B K).
Implicit Types (v : V) (conn : vsockConnection K) (k : Z * Z).

(** The bytes of a data packet on the connection [k]. *)
Definition said k (data : list Z) : list Z :=
  match parseVsockHeader data with
  | Ok hdr =>
    let payload := drop (Z.to_nat vsockHeaderSize) data in
    if (u32 (len payload) <? Len hdr) || negb (Op hdr =? vsockOpRW) || negb (bool_decide (packet_key hdr = k)) then []
    else take (Z.to_nat (Len hdr)) payload
  | _ => []
  end.
Definition says k (e : event) : list Z := match e with EPacket data => said k data | _ => [] end.

(** The handle [h] belongs to [k]; its connection was given what the guest
    said, all of it while it is connected, and the device counts it. *)
Record host_inv k (h : K) (from : list Z) v : Prop := {
  hi_host : ∃ b, backend v = Some b ∧ issued b h ∧ received b h `prefix_of` from ∧
    ∀ conn, connections v !! k = Some conn → conn_backend conn = Some h ∧
      (state conn = vsockConnStateConnected → received b h = from ∧ rxCnt conn = u32 (len from));
  hi_others k' conn : connections v !! k' = Some conn → k' ≠ k → conn_backend conn ≠ Some h;
}.

(** A call that leaves the host alone and connects nothing. *)
Definition mild v v' : Prop :=
  backend v' = backend v ∧ ∀ k conn', connections v' !! k = Some conn' → ∃ conn, connections v !! k = Some conn ∧
    conn_backend conn' = conn_backend conn ∧ rxCnt conn' = rxCnt conn ∧
    (state conn' = vsockConnStateConnected → state conn = vsockConnStateConnected).
Lemma mild_same v v' : backend v' = backend v → connections v' = connections v → mild v v'.
Proof. intros Hb Hc. split; [done|]. intros k conn. rewrite Hc. by eauto. Qed.
Lemma mild_put v v' k conn conn' :
  backend v' = backend v → connections v !! k = Some conn → connections v' = <[k := conn']> (connections v) →
  conn_backend conn' = conn_backend conn → rxCnt conn' = rxCnt conn →
  (state conn' = vsockConnStateConnected → state conn = vsockConnStateConnected) → mild v v'.
Proof.
  intros Hb Hc Hp ? ? ?. split; [done|]. rewrite Hp. intros k' c'. destruct (decide (k' = k)) as [->|Hne].
  - rewrite lookup_insert_eq. intros [= <-]. by eauto.
  - rewrite lookup_insert_ne by done. by eauto.
Qed.
Lemma mild_delete v v' k : backend v' = backend v → connections v' = delete k (connections v) → mild v v'.
Proof. intros Hb Hc. split; [done|]. intros k' conn. rewrite Hc, lookup_delete_Some. intros [_ ?]. by eauto. Qed.

Lemma host_mild k h from v v' : mild v v' → host_inv k h from v → host_inv k h from v'.
Proof.
  intros [Hb Hc] [(b & Hb0 & Hi & Hp & Hk) Ho]. split.
  - exists b. split_and!; [congruence|done|done|]. intros conn' Hk'. destruct (Hc _ _ Hk') as (conn & Hk0 & -> & -> & Hst).
    destruct (Hk conn Hk0) as [? Hr]. by split; auto.
  - intros k' conn' Hk' Hne. destruct (Hc _ _ Hk') as (conn & Hk0 & -> & _). by apply (Ho k').
Qed.
(** The backend changes without touching [h]. *)
Lemma host_backend k h from v b b' :
  backend v = Some b → (issued b h → issued b' h ∧ received b' h = received b h) →
  host_inv k h from v → host_inv k h from (v <| backend := Some b' |>).
Proof.
  intros Hb Hkeep [(b0 & Hb0 & Hi & Hp & Hk) Ho]. rewrite Hb in Hb0. injection Hb0 as <-. destruct (Hkeep Hi) as [Hi' Hr].
  split; [|done]. exists b'. rewrite Hr. done.
Qed.
Lemma host_close k h from v conn : host_inv k h from v → host_inv k h from (close_backend conn v).1.
Proof.
  intros Hv. unfold close_backend, modify. cbn. destruct (conn_backend conn) as [h'|]; [|done].
  destruct (backend v) as [b|] eqn:Hb; [|done]. apply (host_backend k h from v b); [done|apply close_keeps|done].
Qed.

Lemma mild_send v m : mild v (queueRxPacketLocked m v).1.
Proof. by apply mild_same. Qed.
Lemma mild_part k a got v : mild v (reader_part k a got v).1.
Proof.
  assert (mild v v) as Hrefl by by apply mild_same.
  unfold reader_part, reader_top, reader_failed, send_chunk, sendCreditRequestLocked, sendDataLocked, queueRxPacketLocked,
    put, modify, gets, mbind, M_bind, mret, M_ret, panic. cbv [id].
  destruct a as [| |buf offset| |]; cbn -[encodeVsockHeader].
  - done.
  - destruct got as [data [[]| |]]; cbn [fst snd]; [done| |done]. destruct (closed v); [done|]. destruct (connections v !! k) as [conn|] eqn:Hc; [|done].
    destruct (_ =? _); [|done]. by apply (mild_put v _ k conn (conn <| state := vsockConnStateClosing |>)).
  - destruct (connections v !! k) as [conn|] eqn:Hc; [|done]. destruct (_ =? _) eqn:Es; [|done]. cbn [negb].
    destruct (_ =? 0).
    + destruct (creditRequestPending conn); [done|]. by apply (mild_put v _ k conn (conn <| creditRequestPending := true |>)).
    + eapply (mild_put v _ k conn); done.
  - done.
  - done.
Qed.

Lemma host_more k h from d v :
  host_inv k h from v → (∀ conn, connections v !! k = Some conn → state conn ≠ vsockConnStateConnected) →
  host_inv k h (from ++ d) v.
Proof.
  intros [(b & Hb & Hi & Hp & Hk) Ho] Hn. split; [|done]. exists b. split_and!; [done|done|by apply prefix_app_r|].
  intros conn Hc. destruct (Hk conn Hc) as [? _]. split; [done|]. intros Hst. by destruct (Hn conn Hc).
Qed.

Lemma host_connect k h from v hdr :
  packet_key hdr ≠ k → host_inv k h from v → host_inv k h from (handleConnectLocked hdr v).1.
Proof.
  intros Hne Hv. destruct (hi_host _ _ _ _ Hv) as (b & Hb & Hi & _).
  unfold handleConnectLocked, sendResetLocked, sendResponseLocked, put, queueRxPacketLocked, gets, modify, mbind, M_bind, panic.
  cbn -[encodeVsockHeader]. rewrite Hb. destruct (Connect b (DstPort hdr)) as [b' r] eqn:Ec. cbn -[encodeVsockHeader].
  assert (host_inv k h from (v <| backend := Some b' |>)) as Hv'.
  { apply (host_backend k h from v b); [done|by eapply connect_keeps|done]. }
  destruct r as [h'| |]; [|apply (host_mild _ _ _ (v <| backend := Some b' |>)); [by apply mild_same|exact Hv']..].
  destruct (connect_new b _ b' h' Ec) as (Hnew & _ & _). destruct Hv' as [(b1 & Hb1 & Hi1 & Hp1 & Hk1) Ho1]. split.
  - exists b1. cbn -[encodeVsockHeader]. split_and!; [done..|]. intros conn. rewrite lookup_insert_ne by done. apply Hk1.
  - intros k' conn Hc Hk'. cbn in Hc. destruct (decide (k' = packet_key hdr)) as [->|Hd].
    + rewrite lookup_insert_eq in Hc. injection Hc as <-. cbn. intros [= ->]. done.
    + rewrite lookup_insert_ne in Hc by done. by apply (Ho1 k').
Qed.
Lemma host_drop k h from v conn k' :
  host_inv k h from v → host_inv k h from (drop_conn k' (close_backend conn v).1).1.
Proof.
  intros Hv. apply (host_mild _ _ _ (close_backend conn v).1); [by eapply mild_delete|]. by apply host_close.
Qed.

Lemma rx_count from (d : list Z) : u32 (u32 (len from) + u32 (len d)) = u32 (len (from ++ d)).
Proof. rewrite length_app, Nat2Z.inj_add. unfold u32. by rewrite <-Zplus_mod. Qed.

(** What a write to the connection [k'] does. *)
Lemma host_write k h from v k' conn conn' payload :
  host_inv k h from v → connections v !! k' = Some conn → state conn = vsockConnStateConnected →
  conn_backend conn' = conn_backend conn → rxCnt conn' = u32 (rxCnt conn + u32 (len payload)) →
  let v1 := v <| connections := <[k' := conn']> (connections v) |> in
  let d := if decide (k' = k) then payload else [] in
  let '(v2, r) := write_backend conn' payload v1 in
  match r with
  | Ok ok => (if ok : bool then host_inv k h (from ++ d) v2 else ∀ v3, v3 = (drop_conn k' v2).1 → host_inv k h (from ++ d) v3)
  | _ => conn_backend conn = None
  end.
Proof.
  intros Hv Hc Hst Hcb Hrx v1 d. destruct Hv as [(b & Hb & Hi & Hp & Hk) Ho]. unfold write_backend. rewrite Hcb.
  destruct (conn_backend conn) as [h'|] eqn:Eh; [|done]. change (backend v1) with (backend v). rewrite Hb.
  pose proof (write_returns b h' payload) as Hnp. pose proof (write_issued b h' payload h Hi) as Hiss.
  pose proof (write_gives b h' payload) as Hgive. destruct (write_partly b h' payload) as [n Hpart].
  pose proof (write_other b h' payload h) as Hother.
  destruct (ConnWrite b h' payload) as [b' r]. cbn [fst snd] in *. unfold d.
  destruct (decide (k' = k)) as [->|Hne].
  - destruct (Hk conn Hc) as [Hh [Hrec Hcnt]%(λ f, f Hst)]. rewrite Hh in Eh. injection Eh as <-.
    destruct r as [[]|e|]; [| |done].
    + specialize (Hgive eq_refl). split; cbn.
      * exists b'. split_and!; [done|done|by rewrite Hgive, Hrec|]. intros conn2. rewrite lookup_insert_eq. intros [= <-].
        rewrite Hcb, Hgive, Hrec, Hrx, Hcnt, rx_count. done.
      * intros k2 conn2 Hc2 Hne2. rewrite lookup_insert_ne in Hc2 by done. by apply (Ho k2).
    + intros v3 ->. split; cbn.
      * exists b'. split_and!; [done|done| |]; [|intros conn2; by rewrite lookup_delete_eq].
        rewrite Hpart, Hrec. apply prefix_app. exists (drop n payload). by rewrite take_drop.
      * intros k2 conn2 [Hd Hc2]%lookup_delete_Some Hne2. rewrite lookup_insert_ne in Hc2 by done. by apply (Ho k2).
  - assert (h ≠ h') as Hh by (intros <-; by apply (Ho k' conn Hc Hne)). specialize (Hother Hh Hi).
    assert (∀ v2, backend v2 = Some b' → (∀ k2 conn2, connections v2 !! k2 = Some conn2 → k2 ≠ k' → connections v !! k2 = Some conn2) →
      (∀ conn2, connections v2 !! k' = Some conn2 → conn_backend conn2 = Some h') → host_inv k h (from ++ []) v2) as Hfin.
    { intros v2 Hb2 Hc2 Hck. rewrite app_nil_r. split.
      - exists b'. rewrite Hother. split_and!; [done..|]. intros conn2 Hk2. apply Hk. apply Hc2; [done|congruence].
      - intros k2 conn2 Hk2 Hn2. destruct (decide (k2 = k')) as [->|]; [rewrite (Hck conn2 Hk2); congruence|]. by apply (Ho k2 conn2); [apply Hc2|]. }
    destruct r as [[]|e|]; [| |done].
    + apply Hfin; [done|..]; cbn.
      * intros k2 conn2 Hk2 Hn2. by rewrite lookup_insert_ne in Hk2.
      * intros conn2. rewrite lookup_insert_eq. intros [= <-]. congruence.
    + intros v3 ->. apply Hfin; [done|..]; cbn.
      * intros k2 conn2 [_ Hk2]%lookup_delete_Some Hn2. by rewrite lookup_insert_ne in Hk2.
      * intros conn2. by rewrite lookup_delete_eq.
Qed.

Definition spoken k (hdr : vsockHeader) (payload : list Z) : list Z :=
  if negb (Op hdr =? vsockOpRW) || negb (bool_decide (packet_key hdr = k)) then [] else payload.

Lemma host_data k h from v hdr payload :
  Op hdr = vsockOpRW → v_ok v → host_inv k h from v →
  host_inv k h (from ++ spoken k hdr payload) (handleDataLocked hdr payload v).1.
Proof.
  intros Hop Hok Hv. assert (spoken k hdr payload = if decide (packet_key hdr = k) then payload else []) as ->.
  { unfold spoken. rewrite Hop. cbn. destruct (decide _); [by rewrite bool_decide_eq_true_2|by rewrite bool_decide_eq_false_2]. }
  assert ((∀ conn, connections v !! packet_key hdr = Some conn → state conn ≠ vsockConnStateConnected) →
    host_inv k h (from ++ (if decide (packet_key hdr = k) then payload else [])) v) as Hquiet.
  { intros Hn. destruct (decide _) as [<-|]; [by apply host_more|by rewrite app_nil_r]. }
  unfold handleDataLocked, gets, conn_of, mbind at 1, M_bind at 1.
  destruct (connections v !! packet_key hdr) as [conn|] eqn:Hc; [|apply (host_mild _ _ _ v); [by apply mild_send|by apply Hquiet]].
  destruct (Z.eqb_spec (state conn) vsockConnStateConnected) as [Es|Es]; cbn [negb].
  2:{ apply (host_mild _ _ _ v); [by apply mild_send|]. apply Hquiet. by intros ? [= <-]. }
  clear Hquiet. destruct (Z.gtb_spec (len payload) 0) as [Hl|Hl].
  2:{ destruct payload; [|cbn in Hl; lia]. replace (from ++ _) with from by (destruct (decide _); by rewrite app_nil_r).
      apply (host_mild _ _ _ v); [|done]. by eapply mild_put. }
  set (conn' := (set_credit hdr conn) <| rxCnt := u32 (rxCnt (set_credit hdr conn) + u32 (len payload)) |>).
  pose proof (host_write k h from v (packet_key hdr) conn conn' payload Hv Hc Es eq_refl eq_refl) as Hw. cbv zeta in Hw.
  unfold put, modify, mbind, M_bind.
  destruct (vo_conns _ Hok _ _ Hc) as (_ & _ & _ & [h' Hh]).
  destruct (write_backend conn' payload _) as [v2 [ok|e|]]; [|congruence..]. destruct ok.
  - apply (host_mild _ _ _ v2); [by apply mild_send|done].
  - specialize (Hw _ eq_refl). apply (host_close _ _ _ _ conn') in Hw. eapply host_mild; [|exact Hw].
    unfold sendResetLocked, queueRxPacketLocked, close_backend, drop_conn, modify, gets, mbind, M_bind.
    cbn -[encodeVsockHeader conn']. destruct (conn_backend conn'), (backend v2); by apply mild_same.
Qed.

(** Handling a packet. *)
Lemma host_dispatch k h from v hdr payload :
  v_ok v → host_inv k h from v → (packet_key hdr = k → Op hdr ≠ vsockOpRequest) →
  host_inv k h (from ++ spoken k hdr payload) (dispatch hdr payload v).1.
Proof.
  intros Hok Hv Hreq. destruct (decide (Op hdr = vsockOpRW)) as [Eop|Eop].
  { replace (dispatch hdr payload) with (handleDataLocked hdr payload) by (unfold dispatch; by rewrite Eop). by apply host_data. }
  replace (spoken k hdr payload) with (@nil Z) by (unfold spoken; by destruct (Z.eqb_spec (Op hdr) vsockOpRW)). rewrite app_nil_r.
  unfold dispatch. destruct (Z.eqb_spec (Op hdr) vsockOpRequest) as [E1|E1].
  { apply host_connect; [|done]. intros Hk. by apply (Hreq Hk). }
  destruct (Z.eqb_spec (Op hdr) vsockOpResponse) as [E2|E2].
  { unfold handleResponseLocked, gets, conn_of, mbind at 1, M_bind at 1.
    destruct (connections v !! packet_key hdr) as [conn|] eqn:Hc; [|apply (host_mild _ _ _ v); [by apply mild_send|done]].
    destruct (vo_conns _ Hok _ _ Hc) as (_ & _ & Hs & _).
    destruct (Z.eqb_spec (state conn) vsockConnStateConnecting) as [Es|Es]; [rewrite Es in Hs; by destruct Hs|].
    apply (host_mild _ _ _ v); [by apply mild_send|done]. }
  destruct (Z.eqb_spec (Op hdr) vsockOpRST) as [E3|E3].
  { unfold handleResetLocked, gets, conn_of, mbind at 1, M_bind at 1.
    destruct (connections v !! packet_key hdr) as [conn|]; [|done]. by apply (host_drop _ _ _ _ conn). }
  destruct (Z.eqb_spec (Op hdr) vsockOpShutdown) as [E4|E4].
  { unfold handleShutdownLocked, gets, conn_of, mbind at 1, M_bind at 1.
    destruct (connections v !! packet_key hdr) as [conn|] eqn:Hc; [|done].
    eapply host_mild; [|apply (host_drop _ _ _ _ conn (packet_key hdr) Hv)].
    unfold sendResetLocked, queueRxPacketLocked, close_backend, drop_conn, put, modify, gets, mbind, M_bind. cbn -[encodeVsockHeader].
    destruct (conn_backend conn), (backend v) eqn:Hb; (apply mild_same; [by cbn; rewrite ?Hb|]); cbn; by rewrite delete_insert_eq. }
  destruct (Z.eqb_spec (Op hdr) vsockOpRW) as [E5|E5]; [done|].
  destruct (Z.eqb_spec (Op hdr) vsockOpCreditUpdate) as [E6|E6].
  { unfold handleCreditUpdateLocked, gets, conn_of, mbind at 1, M_bind at 1.
    destruct (connections v !! packet_key hdr) as [conn|] eqn:Hc; [|done].
    apply (host_mild _ _ _ v); [|done]. by eapply mild_put. }
  destruct (Z.eqb_spec (Op hdr) vsockOpCreditRequest) as [E7|E7]; [|done].
  unfold handleCreditRequestLocked, gets, conn_of, mbind at 1, M_bind at 1.
  destruct (connections v !! packet_key hdr) as [conn|]; [|done]. apply (host_mild _ _ _ v); [by apply mild_send|done].
Qed.

(** * Events *)

(** A call that keeps the handles it was given. *)
Definition keeps_handles v v' : Prop :=
  (∀ b h, backend v = Some b → issued b h → ∃ b', backend v' = Some b' ∧ issued b' h) ∧
  ∀ k conn', connections v' !! k = Some conn' →
    (∃ conn, connections v !! k = Some conn ∧ conn_backend conn' = conn_backend conn) ∨
    (∃ b' h, backend v' = Some b' ∧ conn_backend conn' = Some h ∧ issued b' h).
Definition all_issued v : Prop :=
  map_Forall (λ _ conn, ∃ b h, backend v = Some b ∧ conn_backend conn = Some h ∧ issued b h) (connections v).
Lemma keeps_all v v' : keeps_handles v v' → all_issued v → all_issued v'.
Proof.
  intros [Hg Hc] Hv k conn' Hk. destruct (Hc k conn' Hk) as [(conn & Hk0 & ->)|Hn]; [|done].
  destruct (Hv k conn Hk0) as (b & h & Hb & Hh & Hi). destruct (Hg b h Hb Hi) as (b' & Hb' & Hi'). by exists b', h.
Qed.
Lemma mild_handles v v' : mild v v' → keeps_handles v v'.
Proof.
  intros [Hb Hc]. split; [intros b h; rewrite Hb; by eauto|]. intros k conn' Hk.
  destruct (Hc k conn' Hk) as (conn & ? & ? & _). left. by eauto.
Qed.
(** The backend after a call on it. *)
Lemma connect_backend b port b' r : Connect b port = (b', r) → ∀ h, issued b h → issued b' h.
Proof. intros Hc h Hi. by eapply connect_keeps. Qed.
Lemma write_backend_keeps b h' d b' r : ConnWrite b h' d = (b', r) → ∀ h, issued b h → issued b' h.
Proof. intros Hc h Hi. pose proof (write_issued b h' d h Hi) as Hw. by rewrite Hc in Hw. Qed.
Lemma close_backend_keeps b h' h : issued b h → issued (ConnClose b h') h.
Proof. intros Hi. by apply close_keeps. Qed.

Ltac handles_done :=
  split; cbn -[encodeVsockHeader packet_key];
  [ intros; simplify_eq; eauto 8 using connect_backend, write_backend_keeps, close_backend_keeps
  | let Hk' := fresh in intros ? ? Hk'; rewrite ?lookup_delete_Some in Hk'; rewrite ?lookup_insert_Some in Hk'; destruct_and?; destruct_or?; destruct_and?; simplify_eq;
    first [ by left; eauto
          | right; match goal with Hx : Connect _ _ = (_, Ok _) |- _ => apply connect_new in Hx as (? & ? & ?) end; by eauto 6 ] ].
Lemma dispatch_handles hdr payload v : keeps_handles v (dispatch hdr payload v).1.
Proof.
  unfold dispatch.
  do 7 (destruct (_ =? _); [run_handler; handles_done|]). by apply mild_handles, mild_same.
Qed.

Lemma close_locked_preserves (P : V → Prop) :
  (∀ v rs, P v → P (v <| readers := rs |>)) →
  (∀ conn, preserves P (close_backend conn)) → (∀ k, preserves P (drop_conn k)) → preserves P close_locked.
Proof.
  intros Hrs Hb Hd. unfold close_locked.
  apply preserves_bind; [|intros _; apply preserves_modify; auto]. intros v1. unfold close_all.
  generalize (map_to_list (connections v1)). intros l. revert v1. induction l as [|[k conn] l IH]; cbn [foldr]; [apply preserves_ret|].
  apply preserves_bind; [done|]. intros _. apply preserves_bind; [done|]. by intros _.
Qed.

Lemma exec_handles v e : keeps_handles v (exec v e).
Proof.
  destruct e as [data|i got| | | | |c]; try (by apply mild_handles, mild_same).
  - cbn [exec]. unfold handle_packet. destruct (_ <? _); [by apply mild_handles, mild_same|].
    unfold lift, mbind, M_bind. destruct (parseVsockHeader data) as [hdr| |]; [|by apply mild_handles, mild_same..].
    destruct (_ <? _); [by apply mild_handles, mild_same|]. apply dispatch_handles.
  - cbn [exec]. unfold reader_dev, gets, mbind, M_bind. cbv [id].
    destruct (readers v !! i) as [r|]; [|by apply mild_handles, mild_same].
    pose proof (mild_part (rkey r) (rat r) got v) as Hm.
    destruct (reader_part (rkey r) (rat r) got v) as [v1 [[a p]| |]]; by apply mild_handles.
  - apply mild_handles. split; [done|]. cbn. intros k conn'. by rewrite lookup_empty.
  - cbn [exec]. rewrite close_signal_effect. by apply mild_handles, mild_same.
  - apply (close_locked_preserves (keeps_handles v)); [done..| | |by apply mild_handles, mild_same].
    + intros conn v1 [Hg Hc]. unfold close_backend, modify. cbn. destruct (conn_backend conn) as [h'|], (backend v1) as [b1|] eqn:Hb1;
        [|by split; rewrite ?Hb1..]. split; cbn.
      * intros b h Hb Hi. destruct (Hg b h Hb Hi) as (b' & [= <-] & Hi'). by eauto using close_backend_keeps.
      * intros k conn' Hk. destruct (Hc k conn' Hk) as [?|(b' & h & [= <-] & ? & ?)]; [by left|right]. by eauto 6 using close_backend_keeps.
    + intros k v1 [Hg Hc]. split; [done|]. intros k' conn'. cbn. rewrite lookup_delete_Some. intros [_ Hk]. by apply Hc.
Qed.

Lemma said_spoken k data hdr :
  parseVsockHeader data = Ok hdr → (u32 (len (drop (Z.to_nat vsockHeaderSize) data)) <? Len hdr) = false →
  said k data = spoken k hdr (take (Z.to_nat (Len hdr)) (drop (Z.to_nat vsockHeaderSize) data)).
Proof. intros Hp Hl. unfold said, spoken. by rewrite Hp, Hl. Qed.

Lemma host_exec k h from v e :
  v_ok v → host_inv k h from v →
  (∀ data hdr, e = EPacket data → parseVsockHeader data = Ok hdr → packet_key hdr = k → Op hdr ≠ vsockOpRequest) →
  host_inv k h (from ++ says k e) (exec v e).
Proof.
  intros Hok Hv Hreq. destruct e as [data|i got| | | | |c]; cbn [says exec]; rewrite ?app_nil_r.
  - unfold handle_packet. destruct (len data <? vsockHeaderSize) eqn:El.
    { replace (said k data) with (@nil Z); [by rewrite app_nil_r|]. unfold said, parseVsockHeader. by rewrite El. }
    unfold lift, mbind, M_bind. destruct (parseVsockHeader data) as [hdr| |] eqn:Ep.
    2,3: unfold said; by rewrite Ep, app_nil_r.
    destruct (u32 (len (drop (Z.to_nat vsockHeaderSize) data)) <? Len hdr) eqn:Et.
    { unfold said. by rewrite Ep, Et, app_nil_r. }
    rewrite (said_spoken k data hdr Ep Et). apply host_dispatch; [done|done|]. by eapply Hreq.
  - unfold reader_dev, gets, mbind, M_bind. cbv [id]. destruct (readers v !! i) as [r|]; [|done].
    pose proof (host_mild k h from _ _ (mild_part (rkey r) (rat r) got v) Hv) as Hm.
    destruct (reader_part (rkey r) (rat r) got v) as [v1 [[a p]| |]]; [|done..]. apply (host_mild _ _ _ v1); [by apply mild_same|done].
  - apply (host_mild _ _ _ v); [by apply mild_same|done].
  - apply (host_mild _ _ _ v); [|done]. split; [done|]. cbn. intros k' conn'. by rewrite lookup_empty.
  - rewrite close_signal_effect. apply (host_mild _ _ _ v); [by apply mild_same|done].
  - apply (close_locked_preserves (host_inv k h from)); [..|done].
    + intros v1 rs H1. apply (host_mild _ _ _ v1); [by apply mild_same|done].
    + intros conn v1. apply host_close.
    + intros k' v1 H1. apply (host_mild _ _ _ v1); [by eapply mild_delete|done].
  - apply (host_mild _ _ _ v); [by apply mild_same|done].
Qed.

Lemma reachable_issued v : reachable v → all_issued v.
Proof.
  intros (cid & b & es & _ & ->). assert (∀ v, all_issued v → all_issued (run v es)) as Hr.
  { induction es as [|e es IH]; intros v Hv; [done|]. apply (IH (exec v e)). by apply (keeps_all v), Hv; apply exec_handles. }
  apply Hr. apply map_Forall_empty.
Qed.

(** A request that was accepted. *)
Lemma accepted k v hdr conn :
  connections v !! k = None → packet_key hdr = k → connections (handleConnectLocked hdr v).1 !! k = Some conn →
  ∃ b b' h, backend v = Some b ∧ Connect b (DstPort hdr) = (b', Ok h) ∧ backend (handleConnectLocked hdr v).1 = Some b' ∧
    conn = mkConnection k vsockConnStateConnected (BufAlloc hdr) (FwdCnt hdr) 0 0 false (Some h) ∧
    connections (handleConnectLocked hdr v).1 = <[k := conn]> (connections v).
Proof.
  intros Hn Hk. unfold handleConnectLocked, sendResetLocked, sendResponseLocked, put, queueRxPacketLocked, gets, modify, mbind, M_bind, panic.
  rewrite Hk. cbn -[encodeVsockHeader]. destruct (backend v) as [b|]; cbn -[encodeVsockHeader]; [|congruence].
  destruct (Connect b (DstPort hdr)) as [b' [h| |]] eqn:Ec; cbn -[encodeVsockHeader]; [|congruence..].
  rewrite lookup_insert_eq. intros [= <-]. by exists b, b', h.
Qed.

Lemma opened_host k A v data conn :
  reachable v → connections v !! k = None → opens k A data → connections (exec v (EPacket data)) !! k = Some conn →
  ∃ h, conn_backend conn = Some h ∧ host_inv k h [] (exec v (EPacket data)).
Proof.
  intros Hv Hn (Hb & hdr & Hp & Hop & Hk & _ & _). cbn [exec]. unfold handle_packet. destruct (_ <? _); [cbn; congruence|].
  unfold lift, mbind, M_bind. rewrite Hp. destruct (_ <? _); [cbn; congruence|].
  replace (dispatch hdr _) with (handleConnectLocked (VsockBackend0 := _) hdr) by (unfold dispatch; by rewrite Hop). intros Hc.
  destruct (accepted k v hdr conn Hn Hk Hc) as (b & b' & h & Hb0 & Hcon & Hb' & -> & Hcs).
  destruct (connect_new b _ b' h Hcon) as (Hnew & Hi & Hrec). exists h. split; [done|]. split.
  - exists b'. split_and!; [done|done|by rewrite Hrec|]. rewrite Hcs. intros conn. rewrite lookup_insert_eq. intros [= <-]. by rewrite Hrec.
  - rewrite Hcs. intros k' conn Hk' Hne. rewrite lookup_insert_ne in Hk' by done.
    destruct (reachable_issued v Hv k' conn Hk') as (b0 & h0 & E0 & Hh0 & Hi0). rewrite Hb0 in E0. injection E0 as <-. congruence.
Qed.

(** A backend that does not panic and that the device knows. *)
Ltac returns Hv :=
  first [ done
        | match goal with Hc : Connect ?b ?p = (_, Panic) |- _ => destruct (connect_returns b p); by rewrite Hc end
        | match goal with Hc : ConnWrite ?b ?h ?d = (_, Panic) |- _ => destruct (write_returns b h d); by rewrite Hc end
        | match goal with Hk : connections _ !! _ = Some _ |- _ =>
            destruct (Hv _ _ Hk) as (? & ? & ? & ? & ?); cbn in *; congruence end ].
(** A packet with all of the payload that its header announces. *)
Definition whole (data : list Z) : Prop :=
  ∀ hdr, parseVsockHeader data = Ok hdr → Len hdr ≤ u32 (len (drop (Z.to_nat vsockHeaderSize) data)).
(** Such a packet is handled without an error. *)
Lemma whole_handled data v : all_issued v → whole data → (handle_packet data v).2 = Ok tt.
Proof.
  intros Hv Hw. unfold handle_packet, lift, mbind, M_bind. destruct (_ <? vsockHeaderSize) eqn:Hs; [done|].
  destruct (parseVsockHeader data) as [hdr|e|] eqn:Hp; [|unfold parseVsockHeader in Hp; by rewrite Hs in Hp..].
  specialize (Hw hdr Hp). destruct (Z.ltb_spec (u32 (len (drop (Z.to_nat vsockHeaderSize) data))) (Len hdr)); [lia|].
  generalize (take (Z.to_nat (Len hdr)) (drop (Z.to_nat vsockHeaderSize) data)). intros payload. unfold dispatch.
  do 7 (destruct (_ =? _); [run_handler; returns Hv|]). done.
Qed.

Lemma host_run k h es from v :
  Forall event_ok es → (∀ data hdr, EPacket data ∈ es → parseVsockHeader data = Ok hdr → packet_key hdr = k → Op hdr ≠ vsockOpRequest) →
  v_ok v → host_inv k h from v → host_inv k h (from ++ concat (says k <$> es)) (run v es).
Proof.
  revert from v. induction es as [|e es IH]; intros from v Hes Hreq Hok Hv; [by rewrite app_nil_r|].
  apply Forall_cons in Hes as [He Hes]. cbn [fmap list_fmap concat run foldl]. rewrite app_assoc.
  apply IH; [done| |by apply exec_ok|].
  - intros data hdr Hin. by apply Hreq, list_elem_of_further.
  - apply host_exec; [done..|]. intros data hdr ->. by apply Hreq, list_elem_of_here.
Qed.
End host.

(** What a guest says on a connection is what the host side is given.
    Over every sequence of events in which the guest makes no second request
    with the same ports, the connection has been given a prefix of the
    payloads of the guest's data packets, in order; all of them as long as it
    is connected, and then the count reported to the guest is their number
    modulo 2^32. *)
Lemma vsock_guest_stream {B K} `{VsockBackendOk B K} k A (v : vsock_fields B K) data conn es :
  reachable v → connections v !! k = None → opens k A data → connections (exec v (EPacket data)) !! k = Some conn →
  Forall event_ok es →
  (∀ data hdr, EPacket data ∈ es → parseVsockHeader data = Ok hdr → packet_key hdr = k → Op hdr ≠ vsockOpRequest) →
  let v' := run (exec v (EPacket data)) es in
  let said := concat (says k <$> es) in
  ∃ h b, conn_backend conn = Some h ∧ backend v' = Some b ∧ issued b h ∧ received b h `prefix_of` said ∧
    ∀ conn', connections v' !! k = Some conn' → state conn' = vsockConnStateConnected →
      received b h = said ∧ rxCnt conn' = u32 (len said).
Proof.
  intros Hv Hn Ho Hc Hes Hreq v' sd. destruct (opened_host k A v data conn Hv Hn Ho Hc) as (h & Hh & Hinv).
  assert (v_ok (exec v (EPacket data))) as Hok by (apply exec_ok; [apply Ho|by apply reachable_ok]).
  destruct (host_run k h es [] _ Hes Hreq Hok Hinv) as [(b & Hb & Hi & Hp & Hk) _]. exists h, b. split_and!; [done..|].
  intros conn' Hc' Hst. by apply (Hk conn' Hc').
Qed.

#[local] Existing Instance log_backend.
#[export] Instance log_backend_ok : VsockBackendOk (list (list Z)) nat.
Proof.
  refine {| received b h := default [] (b !! h); issued b h := (h < length b)%nat |}; cbn.
  - intros b _ b' h [= <- <-]. rewrite length_app, lookup_app_r, Nat.sub_diag by lia. cbn. split_and!; [lia|lia|done].
  - intros b _ b' r h [= <- <-] Hi. rewrite length_app, lookup_app_l by done. split; [cbn; lia|done].
  - done.
  - intros b h d. by destruct (b !! h).
  - intros b h d h'. by rewrite length_alter.
  - intros b h d. rewrite list_lookup_alter_eq. by destruct (b !! h).
  - intros b h d. rewrite list_lookup_alter_eq. destruct (b !! h) as [x|]; cbn; [exists (length d); by rewrite firstn_all|exists 0%nat; done].
  - intros b h d h' Hne _. by rewrite list_lookup_alter_ne by congruence.
  - done.
Defined.
