(* ===== verification/VsockRing.v ===== *)
(** The queues of the virtio socket device.

    The methods of the device are sequences of the events of VsockConn: what
    is shown there holds of every state the device reaches.  A packet for the
    guest is stored in the chain that the driver has posted. *)
From S2P Require Import Prelude KvmArm64 GuestMemory VirtQueue VirtMmio RxRing Vsock VsockConn VsockHost.

Section refinement.
Context {T I B K : Type} `{GuestMemoryOk T, !IRQController I, !VsockBackend B K}.
Abbreviation V := (vsock_fields B K).
Implicit Types (v : V) (s : Vsock T I B K).

Definition mem_fine s : Prop := ∀ m, mem s = Some m → mem_ok m.
(** [s] has well-formed memory and its fields come from [v] by events. *)
Definition follows v s : Prop := mem_fine s ∧ ∃ es, Forall event_ok es ∧ dev s = run v es.
(** [s] has fields from which some packets were taken. *)
Definition settle (n : nat) (c : counters) v : V := v <| pendingRx := drop n (pendingRx v) |> <| stats := c |>.
Definition settled v s : Prop := mem_fine s ∧ ∃ n c, dev s = settle n c v.

Lemma run_app v es es' : run v (es ++ es') = run (run v es) es'.
Proof. apply foldl_app. Qed.
Lemma settle_events n c v : ∃ es, Forall event_ok es ∧ settle n c v = run v es.
Proof.
  exists (replicate n EDeliver ++ [ECount c]). split.
  { apply Forall_app. split; [by apply Forall_replicate|by apply Forall_singleton]. }
  assert (run v (replicate n EDeliver) = v <| pendingRx := drop n (pendingRx v) |>) as E; [|by rewrite run_app, E].
  revert v. induction n as [|n IH]; intros v; [by destruct v|]. cbn [replicate run foldl exec].
  change (foldl exec ?x ?l) with (run x l). rewrite IH. cbn. by destruct (pendingRx v); cbn; rewrite ?drop_nil.
Qed.
Lemma settled_follows v s s' : follows v s → settled (dev s) s' → follows v s'.
Proof.
  intros [_ (es & Hes & Hd)] [Hm (n & c & E)]. split; [done|].
  destruct (settle_events n c (dev s)) as (es' & Hes' & E'). exists (es ++ es').
  split; [by apply Forall_app|]. by rewrite run_app, <-Hd, <-E', E.
Qed.

(** ** Calls that leave the device's own fields alone *)

Lemma writeQueueUsed_mem (m : T) q head usedLen : mem_ok m → mem_ok (writeQueueUsed m q head usedLen).1.1.
Proof.
  intros Hm. unfold writeQueueUsed. destruct (_ =? 0); [done|]. cbv zeta.
  set (a1 := u64 (usedAddr q + 4 + usedIdx q mod size q * 8)). set (raw := le_bytes 4 (u32 head) ++ le_bytes 4 usedLen).
  pose proof (write_mem_ok m a1 raw Hm ltac:(unfold raw; auto with go)) as H1.
  destruct (WriteIPA m a1 raw) as [m1 [| |]]; [|done..]. cbn in H1. set (q' := q <| usedIdx := _ |>).
  pose proof (write_mem_ok m1 (u64 (usedAddr q' + 2)) (le_bytes 2 (usedIdx q')) H1 (le_bytes_is_bytes _ _)) as H2.
  by destruct (WriteIPA m1 _ _) as [m2 r].
Qed.

Section quiet.
(** A property of memory and the device's own fields. *)
Context (P : Vsock T I B K → Prop).
Context (P_fine : ∀ s, P s → mem_fine s).
Context (P_frame : ∀ s s', mem s' = mem s → dev s' = dev s → P s → P s').
Context (P_mem : ∀ s m, P s → mem_ok m → P (s <| mem := Some m |>)).

Lemma quiet_queue i f s : P s → P (set_queue i f s).
Proof. by apply P_frame. Qed.
Lemma quiet_writeUsed i head usedLen : preserves P (writeUsedLocked i head usedLen).
Proof.
  intros s Hs. unfold writeUsedLocked. destruct (mem s) as [m|] eqn:Hm; [|done].
  pose proof (writeQueueUsed_mem m (get_queue i s) head usedLen (P_fine s Hs m Hm)) as Hok.
  destruct (writeQueueUsed m _ _ _) as [[m' q] r]. cbn in *. by apply quiet_queue, P_mem.
Qed.
Lemma quiet_write_mem a bs : is_bytes bs → preserves P (write_mem (λ m, WriteIPA m a bs)).
Proof.
  intros Hb s Hs. unfold write_mem. destruct (mem s) as [m|] eqn:Hm; [|done].
  pose proof (write_mem_ok m a bs (P_fine s Hs m Hm) Hb) as Hok. destruct (WriteIPA m a bs) as [m' r]. by apply P_mem.
Qed.
Lemma quiet_fill looped small n q index offset packet : is_bytes packet → preserves P (fillChain_turns looped small n q index offset packet).
Proof.
  intros Hb. revert index offset. induction n as [|n IH]; intros index offset; cbn [fillChain_turns]; [apply preserves_fail|].
  apply preserves_bind; [apply read_mem_ok|]. intros desc. apply preserves_bind.
  - apply preserves_if; [|apply preserves_ret]. apply preserves_bind; [|intros _; apply preserves_ret].
    apply quiet_write_mem; auto with go.
  - intros o. apply preserves_if; [|apply IH]. apply preserves_if; [apply preserves_fail|apply preserves_ret].
Qed.
End quiet.

(** ** Packets for the guest *)

Lemma settled_fine v s : settled v s → mem_fine s.
Proof. by intros [? _]. Qed.
Lemma settled_frame v s s' : mem s' = mem s → dev s' = dev s → settled v s → settled v s'.
Proof. intros Hm Hd [Hf Hs]. split; [intros m; rewrite Hm; apply Hf|by rewrite Hd]. Qed.
Lemma settled_mem v s m : settled v s → mem_ok m → settled v (s <| mem := Some m |>).
Proof. intros [_ Hs] Hm. split; [by intros ? [= <-]|done]. Qed.
Lemma settled_refl s : mem_fine s → settled (dev s) s.
Proof. intros Hf. split; [done|]. exists 0%nat, (stats (dev s)). by destruct (dev s). Qed.
Lemma settled_stats v s s' c : mem s' = mem s → dev s' = (dev s) <| stats := c |> → settled v s → settled v s'.
Proof.
  intros Hm Hd [Hf (n & c0 & Hs)]. split; [intros m; rewrite Hm; apply Hf|]. exists n, c. by rewrite Hd, Hs.
Qed.

Lemma settled_rx_turn v packet : is_bytes packet → preserves (settled v) (rx_turn Vsock.fillChainLocked popped packet).
Proof.
  intros Hb. apply ring_turn_preserves; [intros s; by apply settled_frame|]. intros head.
  apply preserves_bind; [apply preserves_gets|]. intros q.
  apply preserves_bind; [apply quiet_fill; eauto using settled_fine, settled_mem|]. intros w.
  apply preserves_bind; [apply quiet_writeUsed; eauto using settled_fine, settled_frame, settled_mem|]. intros _.
  intros s [Hf (n & c & Hs)]. split; [done|]. exists (S n), c. unfold popped. cbn. rewrite Hs. cbn.
  by rewrite tail_drop.
Qed.
Lemma settled_rx_turns v n b : Forall is_bytes (pendingRx v) → preserves (settled v) (Vsock.rx_turns n b).
Proof.
  intros Hb. revert b. induction n as [|n IH]; intros b s Hs; unfold Vsock.rx_turns; cbn [RxRing.rx_turns]; [done|].
  unfold gets, mbind at 1, M_bind at 1. cbv [id]. destruct (pendingRx (dev s)) as [|packet rest] eqn:Hp; [done|].
  assert (is_bytes packet) as Hpk.
  { destruct Hs as [_ (k & c & Hd)]. rewrite Hd in Hp. cbn in Hp. apply (Forall_drop _ k) in Hb. rewrite Hp in Hb. by apply Forall_cons in Hb as [? _]. }
  apply (preserves_bind (settled v) (rx_turn Vsock.fillChainLocked popped packet) (λ _, Vsock.rx_turns n true)); [by apply settled_rx_turn|done|done].
Qed.
Lemma settled_updateIRQ v : preserves (settled v) Vsock.updateIRQLocked.
Proof.
  intros s Hs. unfold Vsock.updateIRQLocked. destruct (irq s) as [c|]; [|done]. destruct (Bool.eqb _ _).
  - destruct (negb _); [|done]. destruct (SetIRQ _ _ _). by apply (settled_frame _ s).
  - destruct (SetIRQ _ _ _). eapply (settled_stats _ s); [done|reflexivity|done].
Qed.
Lemma settled_raise v : preserves (settled v) raise_vring.
Proof. apply preserves_bind; [|intros _; apply settled_updateIRQ]. apply preserves_modify. intros s. by apply settled_frame. Qed.
Lemma settled_processRX v : Forall is_bytes (pendingRx v) → preserves (settled v) processRXLocked.
Proof.
  intros Hb. unfold processRXLocked. apply preserves_bind; [apply preserves_gets|]. intros s.
  apply preserves_if; [apply preserves_ret|]. apply preserves_bind; [apply read_mem_ok|]. intros header.
  apply preserves_bind; [by apply settled_rx_turns|]. intros p. apply preserves_if; [apply settled_raise|apply preserves_ret].
Qed.

(** ** Packets from the guest *)

Lemma follows_fine v s : follows v s → mem_fine s.
Proof. by intros [? _]. Qed.
Lemma follows_frame v s s' : mem s' = mem s → dev s' = dev s → follows v s → follows v s'.
Proof. intros Hm Hd [Hf Hs]. split; [intros m; rewrite Hm; apply Hf|by rewrite Hd]. Qed.
Lemma follows_mem v s m : follows v s → mem_ok m → follows v (s <| mem := Some m |>).
Proof. intros [_ Hs] Hm. split; [by intros ? [= <-]|done]. Qed.
Lemma follows_event v s s' e : event_ok e → mem s' = mem s → dev s' = exec (dev s) e → follows v s → follows v s'.
Proof.
  intros He Hm Hd [Hf (es & Hes & Hs)]. split; [intros m; rewrite Hm; apply Hf|]. exists (es ++ [e]).
  split; [by apply Forall_app; split; [|apply Forall_singleton]|]. by rewrite run_app, <-Hs, Hd.
Qed.
(** What [settled] calls do. *)
Lemma follows_settled v s s' : v_ok v → follows v s → (Forall is_bytes (pendingRx (dev s)) → settled (dev s) s → settled (dev s) s') → follows v s'.
Proof.
  intros Hv Hs Hset. eapply settled_follows; [exact Hs|]. apply Hset; [|by apply settled_refl, Hs].
  destruct Hs as [_ (es & Hes & ->)]. by apply (run_ok es v Hes Hv).
Qed.
Lemma follows_processRX v : v_ok v → preserves (follows v) processRXLocked.
Proof. intros Hv s Hs. eapply follows_settled; [done|exact Hs|]. intros Hb. by apply settled_processRX. Qed.
Lemma follows_raise v : v_ok v → preserves (follows v) raise_vring.
Proof. intros Hv s Hs. eapply follows_settled; [done|exact Hs|]. intros Hb. by apply settled_raise. Qed.
Lemma follows_updateIRQ v : v_ok v → preserves (follows v) Vsock.updateIRQLocked.
Proof. intros Hv s Hs. eapply follows_settled; [done|exact Hs|]. intros Hb. by apply settled_updateIRQ. Qed.
Lemma follows_count v p `{!Setter p} : v_ok v → preserves (follows v) (count p).
Proof.
  intros Hv s Hs. eapply (follows_event _ s _ (ECount _)); [done|done| |done]. done.
Qed.

Lemma readChain_bytes e n m q index out data :
  mem_ok m → is_bytes out → readChain_turns e n m q index out = Ok data → is_bytes data.
Proof.
  intros Hm. revert index out. induction n as [|n IH]; intros index out Hb; cbn [readChain_turns]; [done|].
  destruct (readDescriptor m q index) as [d| |]; [|done..]. cbn [mbind result_bind].
  destruct (_ && _).
  - destruct (ReadIPA m _ _) as [chunk| |] eqn:Er; [|done..]. cbn [mbind result_bind].
    apply read_bytes in Er; [|done]. destruct (negb _); [intros [= <-]; auto with go|apply IH; auto with go].
  - cbn [mbind result_bind]. destruct (negb _); [by intros [= <-]|by apply IH].
Qed.

Lemma follows_handleTX v q head : preserves (follows v) (handleTXPacketLocked q head).
Proof.
  intros s Hs. unfold handleTXPacketLocked, Vsock.readChainLocked, read_mem, mbind at 1, M_bind at 1.
  destruct (mem s) as [m|] eqn:Hm; [|done].
  destruct (readChain_turns _ _ m q head []) as [data| |] eqn:Er; [|done..].
  assert (is_bytes data) as Hb.
  { eapply readChain_bytes; [by apply (follows_fine v s)| |exact Er]. apply Forall_nil_2. }
  apply (preserves_bind (follows v) (on_dev (handle_packet data)) (λ _, mret (u32 (len data)))); [|intros; apply preserves_ret|done].
  clear -Hb. intros s Hs. unfold on_dev. destruct (handle_packet data (dev s)) as [v' r] eqn:E.
  eapply (follows_event _ s _ (EPacket data)); [done|done| |done]. cbn. by rewrite E.
Qed.
Lemma follows_processTX v : v_ok v → preserves (follows v) Vsock.processTXLocked.
Proof.
  intros Hv. unfold Vsock.processTXLocked. apply preserves_bind; [apply preserves_gets|]. intros s.
  apply preserves_if; [apply preserves_ret|]. apply preserves_bind; [apply read_mem_ok|]. intros header.
  apply preserves_bind; [|intros _; apply preserves_bind; [by apply follows_processRX|intros _; by apply follows_raise]].
  apply ring_loop_preserves; [intros s'; by apply follows_frame|]. intros head.
  apply preserves_bind; [apply preserves_gets|]. intros q. apply preserves_bind; [apply follows_handleTX|]. intros l.
  apply quiet_writeUsed; eauto using follows_fine, follows_frame, follows_mem.
Qed.

(** ** Methods *)

Lemma follows_Read v addr size_ : v_ok v → preserves (follows v) (Read addr size_).
Proof.
  intros Hv. unfold Read. apply preserves_bind; [by apply follows_count|]. intros _.
  apply preserves_bind; [apply preserves_gets|]. intros s. apply preserves_lift.
Qed.
Lemma follows_selected v f : preserves (follows v) (on_selected f).
Proof. intros s Hs. unfold on_selected. destruct (selectedQueueLocked s); [|done]. by apply (follows_frame _ s). Qed.
Lemma follows_reset v s : follows v s → follows v (resetLocked s).
Proof. intros Hs. by apply (follows_event _ s _ EReset). Qed.
Lemma follows_features v value s : follows v s → follows v (write_driverFeatures value s).
Proof.
  unfold write_driverFeatures. destruct (_ =? 0); [|destruct (_ =? 1); [|done]]; by apply follows_frame.
Qed.
Lemma follows_Write v addr size_ value : v_ok v → preserves (follows v) (Write addr size_ value).
Proof.
  intros Hv. unfold Write. apply preserves_bind; [by apply follows_count|]. intros _.
  apply preserves_bind; [apply preserves_gets|]. intros s0. set (offset := u64 (addr - Base s0)).
  destruct (offset =? regDeviceFeatSel); [apply preserves_modify; intros s; by apply follows_frame|].
  destruct (offset =? regDriverFeatSel); [apply preserves_modify; intros s; by apply follows_frame|].
  destruct (offset =? regDriverFeatures); [apply preserves_modify; intros s; apply follows_features|].
  destruct (offset =? regQueueSel); [apply preserves_modify; intros s; by apply follows_frame|].
  do 8 (destruct (offset =? _); [apply follows_selected|]).
  destruct (offset =? regInterruptAck).
  { apply preserves_bind; [apply preserves_modify; intros s; by apply follows_frame|intros _; by apply follows_updateIRQ]. }
  destruct (offset =? regStatus).
  { apply preserves_modify. intros s Hs. assert (follows v (s <| status := u32 value |>)) as Hs' by by apply (follows_frame _ s).
    cbv zeta. destruct (_ =? 0); [by apply follows_reset|done]. }
  destruct (offset =? regQueueNotify); [|apply preserves_ret].
  destruct (value =? vsockQueueTX).
  { apply preserves_bind; [by apply follows_count|intros _; by apply follows_processTX]. }
  destruct (value =? vsockQueueRX); [|apply preserves_ret].
  apply preserves_bind; [by apply follows_count|intros _; by apply follows_processRX].
Qed.
Lemma follows_signal v : preserves (follows v) (on_dev close_signal).
Proof.
  intros s Hs. unfold on_dev. destruct (close_signal (dev s)) as [v' r] eqn:E.
  apply (follows_event _ s _ ESignal); [done|done| |done]. cbn. by rewrite E.
Qed.
Lemma follows_close v : preserves (follows v) (on_dev close_locked).
Proof.
  intros s Hs. unfold on_dev. destruct (close_locked (dev s)) as [v' r] eqn:E.
  apply (follows_event _ s _ EClose); [done|done| |done]. cbn. by rewrite E.
Qed.
Lemma follows_Poke v : v_ok v → preserves (follows v) Poke.
Proof.
  intros Hv. unfold Poke. apply preserves_bind; [by apply follows_processRX|]. intros _.
  apply preserves_bind; [apply preserves_gets|]. intros s0. destruct (irq s0) as [c|]; [|apply preserves_ret].
  apply preserves_bind; [apply preserves_modify; intros s; by apply follows_frame|]. intros _.
  apply preserves_bind; [|intros _; by apply follows_updateIRQ]. apply preserves_if; [|apply preserves_ret].
  intros s Hs. destruct (SetIRQ c (IRQ s) false) as [c' [| |]]; [|by apply (follows_frame _ s)..].
  eapply (follows_event _ s _ (ECount _)); [done|done|reflexivity|done].
Qed.

Lemma follows_reader v i got s s' r :
  v_ok v → got_ok got → follows v s → readFromBackend i got s = (s', r) → r ≠ Panic → follows v s'.
Proof.
  intros Hv Hg Hs. assert (v_ok (dev s)) as Hok.
  { destruct Hs as [_ (es & Hes & ->)]. by apply run_ok. }
  pose proof (exec_ok (dev s) (EReader i got) Hg Hok) as Hok'.
  assert (follows v (s <| dev := exec (dev s) (EReader i got) |>)) as Hx by by apply (follows_event _ s _ (EReader i got)).
  revert Hok' Hx. cbn [exec]. unfold reader_dev, readFromBackend, gets, on_dev. unfold mbind, M_bind. cbv [id].
  destruct (readers (dev s) !! i) as [rd|]; [|by intros _ _ [= <- <-]].
  destruct (reader_part (rkey rd) (rat rd) got (dev s)) as [v1 [[a process]| |]]; cbn [fst]; [|by intros _ ? [= <- <-]..].
  intros Hok' Hx. set (s1 := s <| dev := v1 |>).
  assert (settled (dev s1) ((if process then processRX_ignored else mret tt) s1).1) as Hset.
  { assert (settled (dev s1) s1) as H1 by (apply settled_refl; by apply (follows_fine v s)).
    destruct process; [|done]. unfold processRX_ignored. pose proof (settled_processRX (dev s1) (vo_pending _ Hok') s1 H1) as H2.
    by destruct (processRXLocked s1) as [s2 [| |]]. }
  destruct ((if process then processRX_ignored else mret tt) s1) as [s2 [[]|e|]] eqn:E2; cbn [fst] in Hset.
  - intros [= <- <-] _. destruct Hset as [Hf (n & c & Hd)]. eapply settled_follows; [exact Hx|]. split; [done|]. exists n, c.
    cbn. by rewrite Hd.
  - destruct process; [|done]. unfold processRX_ignored in E2. by destruct (processRXLocked s1) as [? [| |]].
  - by intros [= <- <-].
Qed.

(** Accesses by the guest, steps of the goroutines, calls by the host, of which
    [Close] takes two steps, and changes of guest memory by the guest. *)
Inductive vsock_step : Vsock T I B K → Vsock T I B K → Prop :=
  | VRead addr size_ s : vsock_step s (Read addr size_ s).1
  | VWrite addr size_ value s : vsock_step s (Write addr size_ value s).1
  | VReader i got s s' r : got_ok got → readFromBackend i got s = (s', r) → r ≠ Panic → vsock_step s s'
  | VSignal s : vsock_step s (on_dev close_signal s).1
  | VClose s : closed (dev s) = true → vsock_step s (on_dev close_locked s).1
  | VPoke s : vsock_step s (Poke s).1
  | VKick s : vsock_step s (Kick s).1
  | VAttach m i s : mem_ok m → vsock_step s (Attach (Some m) i s)
  | VGuest m s : mem_ok m → vsock_step s (s <| mem := Some m |>).
Lemma follows_step v s s' : v_ok v → vsock_step s s' → follows v s → follows v s'.
Proof.
  intros Hv [addr size_ s1|addr size_ value s1|i got s1 s2 r Hg Hr Hn|s1|s1 _|s1|s1|m i s1 Hm|m s1 Hm] Hs.
  - by apply follows_Read.
  - by apply follows_Write.
  - by eapply follows_reader.
  - by apply follows_signal.
  - by apply follows_close.
  - by apply follows_Poke.
  - by apply follows_raise.
  - apply (follows_frame _ (s1 <| mem := Some m |>)); [done..|]. by apply follows_mem.
  - by apply follows_mem.
Qed.
End refinement.

(** Every state of the device, from its creation on and whatever the
    guest, the goroutines and the host do, has fields that the events of
    VsockConn reach from nothing, and every step of the device is a sequence
    of events. *)
Theorem vsock_refines_events {T I B K} `{GuestMemoryOk T, !IRQController I, !VsockBackend B K}
    base size_ irq_ cid (b : option B) (s s' : Vsock T I B K) :
  rtc vsock_step (NewVsock base size_ irq_ cid b) s → vsock_step s s' →
  reachable (dev s) ∧ ∃ es, Forall event_ok es ∧ dev s' = run (dev s) es.
Proof.
  intros Hr Hs. assert (∀ v s0, v_ok v → follows v s0 → rtc vsock_step s0 s → follows v s) as Hall.
  { clear. intros v s0 Hv Hf. induction 1 as [|s0 s1 s2 Hst _ IH]; [done|]. apply IH. by eapply follows_step. }
  assert (v_ok (v0 (K := K) cid b)) as Hv0.
  { apply reachable_ok. by exists cid, b, []. }
  assert (follows (v0 cid b) s) as Hf.
  { apply (Hall _ (NewVsock base size_ irq_ cid b)); [done| |done]. split; [by intros m|]. by exists []. }
  destruct Hf as [Hm (es & Hes & Hd)]. split; [by exists cid, b, es|].
  assert (v_ok (dev s)) as Hv by (rewrite Hd; by apply run_ok).
  destruct (follows_step (dev s) s s' Hv Hs) as [_ Hes']; [|done]. split; [done|]. by exists [].
Qed.

(** * Storing packets *)

Lemma raise_vring_frame {T I B K} `{!GuestMemory T, IRQControllerOk I, !VsockBackend B K} (s : Vsock T I B K) :
  ∃ s' c, raise_vring s = (s', Ok tt) ∧ mem s' = mem s ∧ queues s' = queues s ∧ dev s' = (dev s) <| stats := c |> ∧
    interruptStatus s' = Z.lor (interruptStatus s) vsockInterruptVring.
Proof.
  unfold raise_vring, modify, mbind, M_bind, Vsock.updateIRQLocked. set (s1 := s <| interruptStatus := _ |>).
  assert (dev s1 = (dev s1) <| stats := stats (dev s) |>) as Hd by (cbn; by destruct (dev s)).
  destruct (irq s1) as [c|] eqn:Hi; [|by exists s1, (stats (dev s))].
  destruct (Bool.eqb (irqHigh s1) (negb (interruptStatus s1 =? 0))).
  - destruct (negb _); [|by exists s1, (stats (dev s))]. pose proof (set_ok c (IRQ s1) true) as Hok.
    destruct (SetIRQ c (IRQ s1) true) as [c' r]. cbn in Hok. subst r. eexists _, (stats (dev s)). by split_and!.
  - pose proof (set_ok c (IRQ s1) (negb (interruptStatus s1 =? 0))) as Hok.
    destruct (SetIRQ c (IRQ s1) _) as [c' r]. cbn in Hok. subst r. eexists _, _. by split_and!.
Qed.

Lemma vsock_turn_stores {T I B K} `{GuestMemoryOk T, !IRQController I, !VsockBackend B K} :
  turn_stores (λ s : Vsock T I B K, s) (λ _ _, True) (λ p, p) popped (rx_turn Vsock.fillChainLocked popped).
Proof.
  intros s m q l u head bs packet0 packet _ Hm Hok Hq Hgq Hur Hu Hpo Hb Hl Hr.
  destruct (rx_turn_spec _ _ Vsock.fillChainLocked (λ p, p) popped (λ _ _ _, eq_refl) s m q l u head bs packet0) as (m' & E & ? & ? & ? & ?); try done.
  eexists _, m'. split_and!; [exact E|done..].
Qed.

(** C17: The packets waiting for the guest are stored in the chains that the
    driver has posted, in order, one packet per chain, until packets or chains
    run out: each chain then holds its packet and is completed with the
    packet's length, the other packets wait on, and guest memory outside the
    used ring and the buffers of the chains is as before. *)
Theorem vsock_delivers_packets {T I B K} `{GuestMemoryOk T, IRQControllerOk I, !VsockBackend B K}
    (s : Vsock T I B K) (m : T) slots header :
  let q := get_queue 0 s in
  let ps := pendingRx (dev s) in
  let d := Nat.min (length slots) (length ps) in
  mem s = Some m → mem_ok m → (0 < length (queues s))%nat → ready q = true → queue_ok q → (size q | 2^16) →
  used_ring_ok m q → len slots ≤ size q → rx_ring m q (lastAvailIdx q) slots →
  ReadIPA m (availAddr q) 4 = Ok header → le_val (sub header 2 2) = u16 (lastAvailIdx q + len slots) →
  Forall (λ p, is_bytes p ∧ len p < 2^32) ps →
  (∀ k head bs packet, slots !! k = Some (head, bs) → ps !! k = Some packet → len packet ≤ room bs) →
  ∃ s' m', processRXLocked s = (s', Ok tt) ∧ mem s' = Some m' ∧ stored m' q (usedIdx q) slots ps ∧
    touched q (concat slots.*2) m m' ∧ pendingRx (dev s') = drop d ps ∧
    get_queue 0 s' = at_index q (u16 (lastAvailIdx q + Z.of_nat d)) (u16 (usedIdx q + Z.of_nat d)) ∧
    ((0 < d)%nat → has (interruptStatus s') vsockInterruptVring).
Proof.
  intros q ps d Hm Hok Hq Hrdy (Hsz & _ & _ & _ & Hl & Hu) Hdiv Hur Hle Hring Hhdr Hav Hpk Hroom.
  assert (0 < size q) as Hpos by apply Hur.
  unfold processRXLocked, gets, mbind, M_bind. cbv [id]. change (Z.to_nat vsockQueueRX) with 0%nat. fold q. rewrite Hrdy. cbn [negb orb].
  destruct (Z.eqb_spec (size q) 0) as [|_]; [lia|]. rewrite Hm. cbn [non_nil negb orb]. fold ps.
  destruct (Z.eqb_spec (len ps) 0) as [Hz|Hnz].
  { assert (ps = []) as Hps by by destruct ps. exists s, m. assert (d = 0%nat) as Hd by (unfold d; rewrite Hps; cbn; lia).
    split_and!; [done|done| |by split_and!|by rewrite Hd, drop_0| |by rewrite Hd; lia].
    - rewrite Hps. intros k h b p _. by rewrite lookup_nil.
    - rewrite Hd, !Z.add_0_r, !u16_small by done. symmetry. apply at_index_self. }
  unfold read_mem. rewrite Hm, Hhdr, Hav. cbv beta iota.
  assert (pending q (u16 (lastAvailIdx q + len slots)) = length slots) as ->.
  { unfold pending, u16. rewrite Zminus_mod_idemp_l. replace (lastAvailIdx q + len slots - lastAvailIdx q) with (len slots) by lia.
    rewrite Z.mod_small; [lia|]. unfold is_u in Hsz. lia. }
  destruct (rx_turns_spec (λ s, s) (λ _ _, True) (λ p, p) pendingRx popped _ (λ _, eq_refl) vsock_turn_stores
    slots ps s m q (lastAvailIdx q) (usedIdx q) false) as (s1 & m' & Ht & _ & Hs1 & Htd & Hst & _); try done.
  { symmetry. apply at_index_self. }
  rewrite list_fmap_id in Hst. change (Vsock.rx_turns (length slots) false s = (s1, Ok (false || (0 <? Z.of_nat d)))) in Ht.
  rewrite Ht. fold d in Hs1 |- *. cbn [orb].
  assert (get_queue 0 s1 = at_index q (u16 (lastAvailIdx q + Z.of_nat d)) (u16 (usedIdx q + Z.of_nat d))) as Hgq.
  { rewrite Hs1. unfold consumed. by rewrite get_set_queue. }
  assert (pendingRx (dev s1) = drop d ps) as Hdr by (rewrite Hs1; apply (pend_iter pendingRx popped (λ _, eq_refl))).
  assert (mem s1 = Some m') as Hm1 by by rewrite Hs1.
  destruct (Z.ltb_spec 0 (Z.of_nat d)) as [Hd|Hd].
  - destruct (raise_vring_frame s1) as (s2 & c & Hr & Hm2 & Hq2 & Hd2 & Hi2). exists s2, m'.
    split_and!; [done|by rewrite Hm2|done|done|by rewrite Hd2|unfold get_queue in *; by rewrite Hq2|].
    intros _. rewrite Hi2. apply Is_true_true, has_lor_self. done.
  - exists s1, m'. split_and!; [done..|lia].
Qed.

(** * Packets from the guest *)

Section transmitting.
Context {T I B K : Type} `{GuestMemoryOk T, !IRQController I, VsockBackendOk B K}.
Implicit Types (s : Vsock T I B K) (v : vsock_fields B K).

Definition tx_event (parts : list (list Z)) : event := EPacket (concat parts).
Definition accepts v (parts : list (list Z)) : Prop := reachable v ∧ is_bytes (concat parts) ∧ whole (concat parts).

Lemma accepts_all v reqs :
  reachable v → Forall (λ r : Z * list (list Z), is_bytes (concat r.2) ∧ whole (concat r.2)) reqs →
  all_good (λ v parts, exec v (tx_event parts)) accepts v reqs.
Proof.
  intros Hv Hr. revert v Hv. induction Hr as [|[head parts] reqs [Hb Hw] _ IH]; intros v Hv; [done|].
  split; [done|]. by apply IH, reachable_exec.
Qed.

Lemma tx_chain_spec s m q l u head parts :
  mem s = Some m → mem_ok m → get_queue 1 s = at_index q l u → chain_parts m q head parts → accepts (dev s) parts →
  tx_chain head s =
  writeUsedLocked 1 head (u32 (len (concat parts))) (s <| dev := exec (dev s) (tx_event parts) |>).
Proof.
  intros Hmem Hm Hq Hp (Hv & Hb & Hw). unfold tx_chain, handleTXPacketLocked, gets, mbind, M_bind. change (Z.to_nat vsockQueueTX) with 1%nat.
  rewrite Hq. unfold Vsock.readChainLocked, read_mem. rewrite Hmem. change (size (at_index q l u)) with (size q).
  rewrite (readChain_parts _ m q l u head parts) by done. unfold on_dev, tx_event. cbn [exec].
  pose proof (whole_handled (concat parts) (dev s) (reachable_issued _ Hv) Hw) as Hok.
  destruct (handle_packet (concat parts) (dev s)) as [v' r]. cbn in Hok. by subst r.
Qed.
End transmitting.

(** C18: A notification of the transmit queue handles the packets that the
    driver has put there, in order, each once: the device is then as after
    their events, every chain is completed with its length, nothing outside
    the used ring has changed in guest memory, and the device goes on with the
    packets for the guest. *)
Theorem vsock_handles_packets {T I B K} `{GuestMemoryOk T, !IRQController I, VsockBackendOk B K}
    (s : Vsock T I B K) (m : T) header (reqs : list (Z * list (list Z))) :
  let q := get_queue 1 s in
  let availIdx := le_val (sub header 2 2) in
  mmio_ok s → (1 < length (queues s))%nat → mem s = Some m → ready q = true → ring_ok m q →
  ReadIPA m (availAddr q) 4 = Ok header → pending q availIdx = length reqs → entries m q (lastAvailIdx q) reqs →
  reachable (dev s) → Forall (λ r, whole (concat r.2)) reqs →
  ∃ s' m', Vsock.processTXLocked s = (processRXLocked ;;; raise_vring) s' ∧ mem s' = Some m' ∧ agree q m m' ∧
    dev s' = run (dev s) ((λ r, EPacket (concat r.2)) <$> reqs) ∧
    get_queue 1 s' = at_index q availIdx (u16 (usedIdx q + len reqs)) ∧
    (len reqs ≤ size q → (size q | 2^16) → ∀ i head parts, reqs !! i = Some (head, parts) →
      used_element m' q (u16 (usedIdx q + Z.of_nat i)) = Ok (head, u32 (len (concat parts)))).
Proof.
  intros q availIdx Hok Hlen Hm Hr Hring Hh Hp He Hv Hw.
  pose proof (get_queue_ok 1 s Hok) as (Hqs & _ & _ & _ & Hql & Hqu). fold q in Hqs, Hql, Hqu.
  assert (Forall (λ r : Z * list (list Z), is_bytes (concat r.2) ∧ whole (concat r.2)) reqs) as Hbw.
  { apply Forall_forall. intros [head parts] Hin. split; [|by eapply (Forall_forall (λ r : Z * list (list Z), whole (concat r.2)))].
    apply list_elem_of_lookup in Hin as (i & Hi). apply (parts_bytes m q head); [apply Hring|apply (He i head parts Hi)]. }
  destruct (ring_turns_spec 1 tx_chain (λ v parts, exec v (tx_event parts)) _ (λ _, is_u32_u32 _) accepts tx_chain_spec
    reqs s m q (lastAvailIdx q) (usedIdx q)) as (m' & Ht & Ha & Hel);
    [done|done|by rewrite at_index_self|done..|by apply accepts_all|].
  assert (is_u16 availIdx) as Hav by (eapply header_index; [apply Hring|done]).
  exists (consumed 1 s q (lastAvailIdx q) (usedIdx q) (len reqs) m' (foldl (λ v parts, exec v (tx_event parts)) (dev s) reqs.*2)), m'.
  split_and!; [|done|done| | |intros; by apply Hel].
  - unfold Vsock.processTXLocked, gets, mbind, M_bind. change (Z.to_nat vsockQueueTX) with 1%nat.
    cbn [id]. fold q. rewrite Hr, Hm. cbn [negb non_nil orb].
    destruct Hring as (Hmem & (Hs & _) & _).
    destruct (Z.eqb_spec (size q) 0) as [|_]; [lia|]. cbn [orb]. unfold read_mem. rewrite Hm, Hh.
    fold availIdx. unfold ring_loop. fold q. by rewrite Hp, Ht.
  - unfold consumed, run. cbn [dev]. by rewrite !foldl_fmap.
  - unfold consumed. rewrite get_set_queue by done. by rewrite (pending_advance q availIdx (length reqs)).
Qed.

(** * Samples *)

#[local] Existing Instance log_backend.
Abbreviation vm := (option VM).
Abbreviation sample_vsock_dev := (Vsock vm (list (Z * bool)) (list (list Z)) nat).
(** A queue of two: descriptors at 0, the available ring at 32 with one entry,
    the used ring at 48, data from 96 on. *)
Definition sample_queue : queue := queue0 <| size := 2 |> <| ready := true |> <| availAddr := 32 |> <| usedAddr := 48 |>.
Definition sample_memory (table data : list Z) : vm :=
  Some (mkVM 0 160 (table ++ le_bytes 2 0 ++ le_bytes 2 1 ++ replicate 60 0 ++ data)).
(** A request in a chain of one buffer. *)
Definition tx_memory : vm :=
  sample_memory (le_bytes 8 96 ++ le_bytes 4 44 ++ le_bytes 4 0 ++ replicate 16 0) (guest_request ++ replicate 20 0).
Definition sample_dev (m : vm) (qs : list queue) : sample_vsock_dev :=
  (Attach (Some m) (Some []) (NewVsock 0x1000 0x200 5 3 (Some []))) <| queues := qs |>.
Definition tx_vsock : sample_vsock_dev := sample_dev tx_memory [queue0; sample_queue; queue0].
Lemma tx_memory_ok : mem_ok tx_memory.
Proof. split_and!; [done|done|done|]. apply (bool_decide_unpack _). vm_compute. done. Qed.

Lemma vsock_refines_events_witness :
  reachable (dev (NewVsock 0x1000 0x200 5 3 (Some []) : sample_vsock_dev)) ∧
  ∃ es, Forall event_ok es ∧ dev (Attach (Some tx_memory) (Some []) (NewVsock 0x1000 0x200 5 3 (Some [])) : sample_vsock_dev) =
    run (dev (NewVsock 0x1000 0x200 5 3 (Some []) : sample_vsock_dev)) es.
Proof.
  apply (vsock_refines_events 0x1000 0x200 5 3 (Some [])); [apply rtc_refl|]. apply VAttach, tx_memory_ok.
Defined.

Lemma vsock_handles_packets_witness :
  ∃ s' m', Vsock.processTXLocked tx_vsock = (processRXLocked ;;; raise_vring) s' ∧ mem s' = Some m' ∧
    dev s' = run (dev tx_vsock) [EPacket guest_request] ∧ used_element m' sample_queue 0 = Ok (0, 44).
Proof.
  destruct (vsock_handles_packets tx_vsock tx_memory [0; 0; 1; 0] [(0, [guest_request])])
    as (s' & m' & E & Hm & _ & Hd & _ & Hel).
  - constructor; [done..|]. repeat (apply Forall_cons; split; [by split_and!|]). apply Forall_nil_2.
  - cbn. lia.
  - done.
  - done.
  - split; [apply tx_memory_ok|]. split; [|split; [|done]].
    + split_and!; [done|done|done|right; cbn; lia|]. intros i.
      pose proof (Z.mod_pos_bound i 2). right. unfold used_slot. cbn. lia.
    + split_and!; [done|done|]. intros i Hi. cbn in Hi. split; [right; cbn; lia|left; cbn; lia].
  - vm_compute. reflexivity.
  - vm_compute. reflexivity.
  - intros [|[|k]] head parts; [|done..]. intros [= <- <-].
    split; [done|]. split; [split; [right|left]; vm_compute; intuition congruence|].
    split; [by eexists; split; [vm_compute; reflexivity|]|]. split; [done|].
    exists [mkBuffer 96 44 false]. split_and!.
    + apply (chain_last _ _ _ (mkDescriptor 96 44 0 0)); vm_compute; reflexivity.
    + repeat constructor; try (cbn; lia); right; cbn; lia.
    + vm_compute. reflexivity.
  - by exists 3, (Some []), [].
  - apply Forall_cons. split; [|apply Forall_nil_2]. vm_compute. by intros hdr [= <-].
  - exists s', m'. split_and!; [exact E|exact Hm|exact Hd|].
    exact (Hel ltac:(cbn; lia) ltac:(by exists 32768) O 0 [guest_request] eq_refl).
Defined.

Ltac per_buffer := repeat (apply Forall_cons; split); try apply Forall_nil_2.
(** A chain of two writable buffers for a packet of three bytes. *)
Definition rx_memory : vm :=
  sample_memory (le_bytes 8 96 ++ le_bytes 4 2 ++ le_bytes 2 3 ++ le_bytes 2 1 ++
    le_bytes 8 100 ++ le_bytes 4 2 ++ le_bytes 2 2 ++ le_bytes 2 0) (replicate 64 0).
Definition rx_vsock : sample_vsock_dev :=
  let s := sample_dev rx_memory [sample_queue; queue0; queue0] in s <| dev := (dev s) <| pendingRx := [[7; 8; 9]] |> |>.
Definition rx_buffers : list queueBuffer := [mkBuffer 96 2 true; mkBuffer 100 2 true].
Lemma rx_memory_ok : mem_ok rx_memory.
Proof. split_and!; [done|done|done|]. apply (bool_decide_unpack _). vm_compute. done. Qed.
Lemma rx_posted : posted rx_memory sample_queue 0 0 rx_buffers.
Proof.
  split; [done|split; [right; vm_compute; intuition congruence|left; done]|eexists; split; [vm_compute; reflexivity|done]| |
          per_buffer; done| | | |].
  - apply (chain_next _ _ _ (mkDescriptor 96 2 3 1)); [vm_compute; reflexivity..|].
    apply (chain_last _ _ _ (mkDescriptor 100 2 2 0)); vm_compute; reflexivity.
  - per_buffer; intros _; right; cbn; lia.
  - split; [|split; [intros _; apply Forall_nil_2|done]]. intros _. per_buffer. intros _. cbn. lia.
  - per_buffer; intros _; right; cbn; lia.
  - split_and!; [done|done|]. intros i Hi. cbn in Hi. split; [right; cbn; lia|]. per_buffer; intros _; cbn; lia.
Qed.

Lemma vsock_delivers_packets_witness :
  ∃ s' m', processRXLocked rx_vsock = (s', Ok tt) ∧ mem s' = Some m' ∧
    gather m' rx_buffers 3 = Ok [7; 8; 9] ∧ used_element m' sample_queue 0 = Ok (0, 3) ∧ pendingRx (dev s') = [].
Proof.
  destruct (vsock_delivers_packets rx_vsock rx_memory [(0, rx_buffers)] [0; 0; 1; 0])
    as (s' & m' & E & Hm & Hst & _ & Hp & _).
  - done.
  - apply rx_memory_ok.
  - cbn. lia.
  - done.
  - by split_and!.
  - by exists 32768.
  - split_and!; [done|done|done|right; cbn; lia|]. intros i.
    pose proof (Z.mod_pos_bound i 2). right. unfold used_slot. cbn. lia.
  - cbn. lia.
  - split.
    + split_and!; [done|done|]. intros i Hi. cbn in Hi. split; [right; cbn; lia|left; cbn; lia].
    + intros [|[|k]] head bs; [|done..]. intros [= <- <-]. apply rx_posted.
    + intros [|[|k]] [|[|k']] head bs head' bs'; try done. intros [= <- <-] [= <- <-]. split; [|done].
      per_buffer; intros _; left; done.
  - vm_compute. reflexivity.
  - vm_compute. reflexivity.
  - per_buffer. split; [|done]. repeat constructor; lia.
  - intros [|[|k]] head bs packet; try done. intros [= <- <-] [= <-]. cbn. lia.
  - destruct (Hst 0%nat 0 rx_buffers [7; 8; 9] eq_refl eq_refl) as [Hg Hu]. exists s', m'. split_and!; done.
Defined.
