(* ===== verification/SimpleVsock.v ===== *)
(** The host side of the virtio sockets, [SimpleVsockBackend] of
    internal/virtio/vsock.go: listeners, and pairs of connections joined by
    channels.

    An operation has the list of its possible outcomes: several when a
    [select] can take more than one case, none when it blocks.  Processes of
    the host and the device use the backend at the same time; a run is a
    sequence of operations with the outcomes they had. *)
From S2P Require Import Prelude GuestMemory VirtQueue VirtMmio Vsock VsockConn VsockHost.

(** A connection: the pair it belongs to, and whether it is the listener's
    side. *)
Definition handle : Type := nat * bool.
Definition other (h : handle) : handle := (h.1, negb h.2).

Record simpleVsockConn := mkSimpleConn {
  localPort : Z;
  remotePort : Z;
  peer : option handle;
  readCh : list (list Z);
  conn_closed : bool;
  readBuf : list Z;
}.
#[export] Instance eta_simpleVsockConn : Eta simpleVsockConn := λ c,
  mkSimpleConn (localPort c) (remotePort c) (peer c) (readCh c) (conn_closed c) (readBuf c).
Record simpleVsockListener := mkListener { lport : Z; conns : list handle; listener_closed : bool }.
#[export] Instance eta_simpleVsockListener : Eta simpleVsockListener := λ l,
  mkListener (lport l) (conns l) (listener_closed l).

(** The backend with the objects it has made: a pointer to a listener is its
    place in [made], and [pairs] is the number of pairs. *)
Record SimpleVsockBackend := mkBackend {
  listeners : gmap Z nat;
  made : list simpleVsockListener;
  sides : gmap handle simpleVsockConn;
  pairs : nat;
}.
#[export] Instance eta_SimpleVsockBackend : Eta SimpleVsockBackend := λ b,
  mkBackend (listeners b) (made b) (sides b) (pairs b).
Implicit Types (b : SimpleVsockBackend) (h : handle) (c : simpleVsockConn).

(** What a call returns. *)
Inductive reply := Done | Bytes (data : list Z) | Listener (l : nat) | Conn (h : handle) | Failed (e : string).

(** [select]: any case that is ready. *)
Definition select {A} (cases : list (bool * A)) : list A := (filter (λ x, Is_true x.1) cases).*2.
(** Room in a channel with a buffer of [n]. *)
Definition room_in {A} (n : nat) (ch : list A) : bool := bool_decide (length ch < n)%nat.
Definition put_side h c b : SimpleVsockBackend := b <| sides := <[h := c]> (sides b) |>.
Definition put_listener (l : nat) (x : simpleVsockListener) b : SimpleVsockBackend :=
  b <| made := <[l := x]> (made b) |>.

Definition NewSimpleVsockBackend : SimpleVsockBackend := mkBackend ∅ [] ∅ 0.

Definition Listen (port : Z) b : SimpleVsockBackend * reply :=
  match listeners b !! port with
  | Some _ => (b, Failed "port already in use")
  | None =>
    (b <| listeners := <[port := length (made b)]> (listeners b) |> <| made := made b ++ [mkListener port [] false] |>,
     Listener (length (made b)))
  end.

Definition clientSide (port : Z) b : simpleVsockConn := mkSimpleConn 0 port (Some (pairs b, true)) [] false [].
Definition serverSide (port : Z) b : simpleVsockConn := mkSimpleConn port 0 (Some (pairs b, false)) [] false [].
Definition simple_connect (port : Z) b : list (SimpleVsockBackend * reply) :=
  match listeners b !! port with
  | None => [(b, Failed "no listener")]
  | Some l =>
    match made b !! l with
    | None => []
    | Some x =>
      let b' := put_side (pairs b, true) (serverSide port b) (put_side (pairs b, false) (clientSide port b) b)
                  <| pairs := S (pairs b) |> in
      select [(room_in 16 (conns x), (put_listener l (x <| conns := conns x ++ [(pairs b, true)] |>) b', Conn (pairs b, false)));
              (listener_closed x, (b', Failed "listener closed"))]
    end
  end.

Definition Accept (l : nat) b : list (SimpleVsockBackend * reply) :=
  match made b !! l with
  | None => []
  | Some x =>
    match conns x with
    | conn :: rest =>
      [(b <| sides := alter (λ c, c <| readBuf := [] |>) conn (sides b) |> <| made := <[l := x <| conns := rest |>]> (made b) |>, Conn conn)]
    | [] => []
    end ++ (if listener_closed x then [(b, Failed "listener closed")] else [])
  end.
Definition listener_Close (l : nat) b : list (SimpleVsockBackend * reply) :=
  match made b !! l with
  | None => []
  | Some x => [(put_listener l (x <| listener_closed := true |>) b, Done)]
  end.

(** [Read] into a buffer of [n] bytes. *)
Definition simple_read h (n : nat) b : list (SimpleVsockBackend * reply) :=
  match sides b !! h with
  | None => []
  | Some c =>
    if negb (length (readBuf c) =? 0)%nat then
      [(put_side h (c <| readBuf := drop n (readBuf c) |>) b, Bytes (take n (readBuf c)))]
    else
      match readCh c with
      | data :: rest =>
        let c' := c <| readCh := rest |> in
        [(put_side h (if (length (take n data) <? length data)%nat then c' <| readBuf := drop n data |> else c') b,
          Bytes (take n data))]
      | [] => []
      end ++ (if conn_closed c then [(b, Failed "EOF")] else [])
  end.

Definition simple_write h (data : list Z) b : list (SimpleVsockBackend * reply) :=
  match sides b !! h with
  | None => []
  | Some c =>
    match peer c with
    | None => [(b, Failed "no peer")]
    | Some p =>
      match sides b !! p with
      | None => []
      | Some d =>
        select [(room_in 64 (readCh d), (put_side p (d <| readCh := readCh d ++ [data] |>) b, Done));
                (conn_closed d, (b, Failed "peer closed"));
                (conn_closed c, (b, Failed "connection closed"))]
      end
    end
  end.

Definition simple_close h b : list (SimpleVsockBackend * reply) :=
  match sides b !! h with
  | None => []
  | Some c => [(put_side h (c <| conn_closed := true |>) b, Done)]
  end.

(** * Runs *)

Inductive op :=
  | OListen (port : Z) | OConnect (port : Z) | OAccept (l : nat) | OLClose (l : nat)
  | ORead (h : handle) (n : nat) | OWrite (h : handle) (data : list Z) | OClose (h : handle).
Definition outcomes (o : op) b : list (SimpleVsockBackend * reply) :=
  match o with
  | OListen port => [Listen port b]
  | OConnect port => simple_connect port b
  | OAccept l => Accept l b
  | OLClose l => listener_Close l b
  | ORead h n => simple_read h n b
  | OWrite h data => simple_write h data b
  | OClose h => simple_close h b
  end.
(** A connection that no one has accepted is not read: no one has it. *)
Definition queued b h : Prop := ∃ x, x ∈ made b ∧ h ∈ conns x.
Definition held b (o : op) : Prop := match o with ORead h _ => ¬ queued b h | _ => True end.

Definition trace : Type := list (op * reply).
Inductive runs b : trace → SimpleVsockBackend → Prop :=
  | runs_nil : runs b [] b
  | runs_snoc tr b1 o r b2 : runs b tr b1 → held b1 o → (b2, r) ∈ outcomes o b1 → runs b (tr ++ [(o, r)]) b2.

(** What was written on [h], by the calls that returned without an error, and
    what was read on it. *)
Definition wrote1 h (x : op * reply) : list Z :=
  match x with (OWrite h' data, Done) => if decide (h' = h) then data else [] | _ => [] end.
Definition read1 h (x : op * reply) : list Z :=
  match x with (ORead h' _, Bytes data) => if decide (h' = h) then data else [] | _ => [] end.
Definition wrote h (tr : trace) : list Z := concat (wrote1 h <$> tr).
Definition read_on h (tr : trace) : list Z := concat (read1 h <$> tr).

(** * The invariant of a run *)

Definition on_way c : list Z := readBuf c ++ concat (readCh c).
Record run_inv b (tr : trace) : Prop := {
  ri_pairs h : is_Some (sides b !! h) ↔ (h.1 < pairs b)%nat;
  ri_peer h c : sides b !! h = Some c → peer c = Some (other h);
  ri_queued h c : queued b h → sides b !! h = Some c → readBuf c = [];
  ri_stream h c : sides b !! other h = Some c → wrote h tr = read_on (other h) tr ++ on_way c;
  ri_fresh h : sides b !! h = None → wrote h tr = [] ∧ read_on h tr = [];
  ri_room c h : sides b !! h = Some c → (length (readCh c) ≤ 64)%nat;
  ri_backlog x : x ∈ made b → (length (conns x) ≤ 16)%nat;
}.

Lemma other_other h : other (other h) = h.
Proof. destruct h as [i s]. unfold other. cbn. by rewrite negb_involutive. Qed.
Lemma other_ne h : other h ≠ h.
Proof. destruct h as [i []]; by intros [= ]. Qed.
Lemma wrote_snoc h tr x : wrote h (tr ++ [x]) = wrote h tr ++ wrote1 h x.
Proof. unfold wrote. rewrite fmap_app, concat_app. cbn. by rewrite app_nil_r. Qed.
Lemma read_snoc h tr x : read_on h (tr ++ [x]) = read_on h tr ++ read1 h x.
Proof. unfold read_on. rewrite fmap_app, concat_app. cbn. by rewrite app_nil_r. Qed.
Lemma elem_select {A} (x : A) cases : x ∈ select cases ↔ (true, x) ∈ cases.
Proof.
  unfold select. rewrite list_elem_of_fmap. split.
  - intros ([[] y] & -> & Hy); apply list_elem_of_filter in Hy as [Ht Hy]; done.
  - intros Hx. exists (true, x). split; [done|]. by apply list_elem_of_filter.
Qed.

(** A step that changes neither what was exchanged nor the channels. *)
Lemma inv_quiet b b' tr x :
  (∀ h, wrote1 h x = []) → (∀ h, read1 h x = []) → pairs b' = pairs b →
  (∀ h c, sides b' !! h = Some c → ∃ c0, sides b !! h = Some c0 ∧ peer c = peer c0 ∧ on_way c = on_way c0 ∧
     readBuf c = readBuf c0 ∧ readCh c = readCh c0) →
  (∀ h, is_Some (sides b !! h) → is_Some (sides b' !! h)) →
  (∀ h, queued b' h → queued b h) → (∀ y, y ∈ made b' → (length (conns y) ≤ 16)%nat) →
  run_inv b tr → run_inv b' (tr ++ [x]).
Proof.
  intros Hw Hr Hp Hs Hsome Hq Hm [H1 H2 H3 H4 H5 H6 H7]. split.
  - intros h. rewrite Hp, <-H1. split; [|by apply Hsome]. intros [c Hc]. destruct (Hs h c Hc) as (c0 & -> & _). by eauto.
  - intros h c Hc. destruct (Hs h c Hc) as (c0 & Hc0 & -> & _). by apply H2.
  - intros h c Hqh Hc. destruct (Hs h c Hc) as (c0 & Hc0 & _ & _ & -> & _). by apply (H3 h); [apply Hq|].
  - intros h c Hc. destruct (Hs _ c Hc) as (c0 & Hc0 & _ & -> & _). rewrite wrote_snoc, read_snoc, Hw, Hr, !app_nil_r. by apply H4.
  - intros h Hh. rewrite wrote_snoc, read_snoc, Hw, Hr, !app_nil_r. apply H5. destruct (sides b !! h) eqn:E; [|done].
    destruct (Hsome h) as [? E']; [by rewrite E|]. congruence.
  - intros c h Hc. destruct (Hs h c Hc) as (c0 & Hc0 & _ & _ & _ & ->). by apply (H6 c0 h).
  - done.
Qed.

(** A step that replaces one side, by bytes read from it or put on their way
    to it. *)
Lemma inv_put b tr x h c c' :
  sides b !! h = Some c → peer c' = peer c →
  (∀ h', h' ≠ other h → wrote1 h' x = []) → (∀ h', h' ≠ h → read1 h' x = []) →
  on_way c ++ wrote1 (other h) x = read1 h x ++ on_way c' →
  (queued b h → readBuf c' = []) → (length (readCh c') ≤ 64)%nat →
  run_inv b tr → run_inv (put_side h c' b) (tr ++ [x]).
Proof.
  intros Hc Hp Hw Hr Ho Hq Hl [H1 H2 H3 H4 H5 H6 H7]. split; cbn.
  - intros h'. rewrite <-H1. destruct (decide (h = h')) as [<-|Hne]; [rewrite lookup_insert_eq, Hc; by split; eauto|by rewrite lookup_insert_ne].
  - intros h' c0 [[<- <-]|[_ Hc0]]%lookup_insert_Some; [rewrite Hp; by apply H2|by apply H2].
  - intros h' c0 Hqh [[<- <-]|[_ Hc0]]%lookup_insert_Some; [by apply Hq|by eapply H3].
  - intros h' c0. rewrite wrote_snoc, read_snoc. intros [[-> <-]|[Hne Hc0]]%lookup_insert_Some.
    + rewrite other_other in *. rewrite (H4 h' c Hc), <-!app_assoc. by rewrite Ho.
    + rewrite Hw, Hr, !app_nil_r by (try done; intros ->; by rewrite other_other in Hne). by apply H4.
  - intros h' [Hn Hne]%lookup_insert_None. rewrite wrote_snoc, read_snoc. destruct (H5 h' Hn) as [-> ->].
    rewrite Hr by done. rewrite Hw; [done|]. intros ->. destruct (H1 (other h)) as [_ E]. rewrite Hn in E.
    destruct E as [? E]; [apply (H1 h); by rewrite Hc|done].
  - intros c0 h' [[<- <-]|[_ Hc0]]%lookup_insert_Some; [done|by eapply H6].
  - done.
Qed.
(** The two sides of a new connection. *)
Lemma inv_new b b' port tr x :
  (∀ h, wrote1 h x = []) → (∀ h, read1 h x = []) → pairs b' = S (pairs b) →
  sides b' = <[(pairs b, true) := serverSide port b]> (<[(pairs b, false) := clientSide port b]> (sides b)) →
  (∀ h, queued b' h → queued b h ∨ h = (pairs b, true)) → (∀ y, y ∈ made b' → (length (conns y) ≤ 16)%nat) →
  run_inv b tr → run_inv b' (tr ++ [x]).
Proof.
  intros Hw Hr Hp Hs Hq Hm [H1 H2 H3 H4 H5 H6 H7].
  assert (∀ s, sides b !! (pairs b, s) = None) as Hnone.
  { intros s. apply eq_None_not_Some. rewrite H1. cbn. lia. }
  assert (∀ h c, sides b' !! h = Some c → sides b !! h = Some c ∨
    (h.1 = pairs b ∧ peer c = Some (other h) ∧ readBuf c = [] ∧ readCh c = [])) as Hcase.
  { intros h c. rewrite Hs. intros [[<- <-]|[_ [[<- <-]|[_ Hc]]%lookup_insert_Some]]%lookup_insert_Some; auto. }
  split; try done.
  - intros [i s]. rewrite Hs, Hp. cbn. destruct (decide (i = pairs b)) as [->|Hne].
    + destruct s; rewrite ?lookup_insert_eq, ?lookup_insert_ne, ?lookup_insert_eq by done; split; [lia|by eauto|lia|by eauto].
    + rewrite !lookup_insert_ne, H1 by congruence. cbn. lia.
  - intros h c Hc. by destruct (Hcase h c Hc) as [?%H2|(_ & ? & _)].
  - intros h c [Hqh| ->]%Hq Hc; (destruct (Hcase _ c Hc) as [?|(_ & _ & ? & _)]; [|done]); [by eapply H3|by rewrite Hnone in *].
  - intros h c Hc. rewrite wrote_snoc, read_snoc, Hw, Hr, !app_nil_r. destruct (Hcase _ c Hc) as [?|(Hi & _ & Hb & Hch)]; [by apply H4|].
    unfold on_way. rewrite Hb, Hch. destruct h as [i s]. cbn in Hi. subst i.
    destruct (H5 (pairs b, s) (Hnone s)) as [-> _]. by destruct (H5 (other (pairs b, s)) (Hnone (negb s))) as [_ ->].
  - intros h Hh. rewrite wrote_snoc, read_snoc, Hw, Hr, !app_nil_r. apply H5. rewrite Hs in Hh.
    by apply lookup_insert_None in Hh as [[? _]%lookup_insert_None _].
  - intros c h Hc. destruct (Hcase _ c Hc) as [?|(_ & _ & _ & ->)]; [by eapply H6|cbn; lia].
Qed.

Lemma queued_insert b l x x' h :
  made b !! l = Some x → (∀ h, h ∈ conns x' → h ∈ conns x) → queued (put_listener l x' b) h → queued b h.
Proof.
  intros Hl Hx (y & Hy & Hh). cbn in Hy. apply list_elem_of_lookup in Hy as (i & Hi).
  apply list_lookup_insert_Some in Hi as [(<- & <- & _)|[_ Hi]].
  - exists x. split; [by eapply list_elem_of_lookup_2|by apply Hx].
  - exists y. split; [by eapply list_elem_of_lookup_2|done].
Qed.
Lemma made_insert b l x' (P : simpleVsockListener → Prop) :
  (∀ y, y ∈ made b → P y) → P x' → ∀ y, y ∈ <[l := x']> (made b) → P y.
Proof.
  intros Hb Hx y Hy. apply list_elem_of_lookup in Hy as (i & Hi).
  apply list_lookup_insert_Some in Hi as [(_ & <- & _)|[_ Hi]]; [done|]. by eapply Hb, list_elem_of_lookup_2.
Qed.
(** A step that leaves the sides alone and queues no connection. *)
Lemma inv_listeners b b' tr x :
  (∀ h, wrote1 h x = []) → (∀ h, read1 h x = []) → pairs b' = pairs b → sides b' = sides b →
  (∀ h, queued b' h → queued b h) → (∀ y, y ∈ made b' → (length (conns y) ≤ 16)%nat) →
  run_inv b tr → run_inv b' (tr ++ [x]).
Proof. intros Hw Hr Hp Hs Hq Hm. apply inv_quiet; try done; rewrite Hs; [|done]. intros h c Hc. by exists c. Qed.

Lemma inv_connect b tr port b' r :
  run_inv b tr → (b', r) ∈ simple_connect port b → run_inv b' (tr ++ [(OConnect port, r)]).
Proof.
  intros Hi. unfold simple_connect. destruct (listeners b !! port) as [l|].
  2: { intros [= -> ->]%list_elem_of_singleton. apply (inv_listeners b); try done. apply Hi. }
  destruct (made b !! l) as [x|] eqn:Hl; [|by intros ?%not_elem_of_nil].
  rewrite elem_select. intros [[= Hr -> ->]|[[= Hr -> ->]|[]%not_elem_of_nil]%elem_of_cons]%elem_of_cons.
  - unfold room_in in Hr. symmetry in Hr. apply bool_decide_eq_true in Hr.
    apply (inv_new b _ port); try done; cbn.
    + intros h (y & Hy & Hh). cbn in Hy. apply list_elem_of_lookup in Hy as (i & Hy).
      apply list_lookup_insert_Some in Hy as [(<- & <- & _)|[_ Hy]].
      * cbn in Hh. apply elem_of_app in Hh as [Hh|Hh%list_elem_of_singleton]; [|by right].
        left. exists x. split; [by eapply list_elem_of_lookup_2|done].
      * left. exists y. split; [by eapply list_elem_of_lookup_2|done].
    + apply made_insert; [apply Hi|]. cbn. rewrite length_app. cbn. lia.
  - apply (inv_new b _ port); try done; [by left|apply Hi].
Qed.
Lemma inv_accept b tr l b' r : run_inv b tr → (b', r) ∈ Accept l b → run_inv b' (tr ++ [(OAccept l, r)]).
Proof.
  intros Hi. unfold Accept. destruct (made b !! l) as [x|] eqn:Hl; [|by intros ?%not_elem_of_nil].
  intros [Ha|Ha]%elem_of_app.
  2: { destruct (listener_closed x); [|by apply not_elem_of_nil in Ha]. apply list_elem_of_singleton in Ha as [= -> ->].
       apply (inv_listeners b); try done. apply Hi. }
  destruct (conns x) as [|conn rest] eqn:Hx; [by apply not_elem_of_nil in Ha|]. apply list_elem_of_singleton in Ha as [= -> ->].
  apply (inv_listeners b); try done; cbn.
  - apply alter_id. intros c Hc. assert (readBuf c = []) as Hb.
    { apply (ri_queued b tr Hi conn); [|done]. exists x. split; [by eapply list_elem_of_lookup_2|]. rewrite Hx. apply list_elem_of_here. }
    destruct c. cbn in *. by subst.
  - intros h Hq. apply (queued_insert b l x (x <| conns := rest |>)); [done| |done]. cbn. rewrite Hx. intros. by apply list_elem_of_further.
  - apply made_insert; [apply Hi|]. cbn. pose proof (ri_backlog b tr Hi x ltac:(by eapply list_elem_of_lookup_2)) as Hb.
    rewrite Hx in Hb. cbn in Hb. lia.
Qed.
Lemma inv_read b tr h n b' r :
  run_inv b tr → ¬ queued b h → (b', r) ∈ simple_read h n b → run_inv b' (tr ++ [(ORead h n, r)]).
Proof.
  intros Hi Hq. unfold simple_read. destruct (sides b !! h) as [c|] eqn:Hc; [|by intros ?%not_elem_of_nil].
  assert (∀ data h', h' ≠ h → read1 h' (ORead h n, Bytes data) = []) as Hr.
  { intros data h' Hne. cbn. by rewrite decide_False by congruence. }
  assert (∀ data, read1 h (ORead h n, Bytes data) = data) as Hr0 by (intros data; cbn; by rewrite decide_True).
  pose proof (ri_room b tr Hi c h Hc) as Hroom.
  destruct (Nat.eqb_spec (length (readBuf c)) 0) as [Hb|Hb]; cbn [negb].
  - apply nil_length_inv in Hb. intros [Ha|Ha]%elem_of_app.
    + destruct (readCh c) as [|data rest] eqn:Hch; [by apply not_elem_of_nil in Ha|]. apply list_elem_of_singleton in Ha as [= -> ->].
      cbn in Hroom. apply (inv_put b tr _ h c); try done; [by destruct (_ <? _)%nat|by apply Hr| |by destruct (_ <? _)%nat; cbn; lia].
      rewrite Hr0. unfold on_way. rewrite Hb, Hch. cbn [wrote1]. rewrite app_nil_r. cbn [app concat].
      destruct (Nat.ltb_spec (length (take n data)) (length data)) as [Hlt|Hge]; cbn.
      * by rewrite app_assoc, take_drop.
      * rewrite length_take in Hge. by rewrite take_ge by lia.
    + destruct (conn_closed c); [|by apply not_elem_of_nil in Ha]. apply list_elem_of_singleton in Ha as [= -> ->].
      apply (inv_listeners b); try done. apply Hi.
  - intros [= -> ->]%list_elem_of_singleton. apply (inv_put b tr _ h c); try done; [by apply Hr|].
    rewrite Hr0. unfold on_way. cbn. by rewrite app_nil_r, app_assoc, take_drop.
Qed.
Lemma inv_write b tr h data b' r :
  run_inv b tr → (b', r) ∈ simple_write h data b → run_inv b' (tr ++ [(OWrite h data, r)]).
Proof.
  intros Hi. unfold simple_write. destruct (sides b !! h) as [c|] eqn:Hc; [|by intros ?%not_elem_of_nil].
  rewrite (ri_peer b tr Hi h c Hc). destruct (sides b !! other h) as [d|] eqn:Hd; [|by intros ?%not_elem_of_nil].
  rewrite elem_select. intros [[= Hr -> ->]|[[= Hr -> ->]|[[= Hr -> ->]|[]%not_elem_of_nil]%elem_of_cons]%elem_of_cons]%elem_of_cons;
    [|apply (inv_listeners b); try done; apply Hi..].
  unfold room_in in Hr. symmetry in Hr. apply bool_decide_eq_true in Hr.
  apply (inv_put b tr _ (other h) d); try done; rewrite ?other_other.
  - intros h' Hne. cbn. by rewrite decide_False by congruence.
  - cbn. rewrite decide_True by done. unfold on_way. cbn. by rewrite concat_app, <-app_assoc; cbn; rewrite app_nil_r.
  - intros Hq. by apply (ri_queued b tr Hi (other h) d).
  - cbn. rewrite length_app. cbn. lia.
Qed.
Lemma inv_close b tr h b' r : run_inv b tr → (b', r) ∈ simple_close h b → run_inv b' (tr ++ [(OClose h, r)]).
Proof.
  intros Hi. unfold simple_close. destruct (sides b !! h) as [c|] eqn:Hc; [|by intros ?%not_elem_of_nil].
  intros [= -> ->]%list_elem_of_singleton. apply (inv_put b tr _ h c); try done.
  - cbn. by rewrite app_nil_r.
  - intros Hq. by apply (ri_queued b tr Hi h c).
  - by apply (ri_room b tr Hi c h).
Qed.

Lemma runs_inv tr b : runs NewSimpleVsockBackend tr b → run_inv b tr.
Proof.
  induction 1 as [|tr b1 o r b2 _ IH Hh Ho].
  { split; cbn; [|by intros; simplify_map_eq..|by intros ? ?%not_elem_of_nil].
    intros h. rewrite lookup_empty. split; [by intros [? ?]|lia]. }
  destruct o as [port|port|l|l|h n|h data|h]; cbn [outcomes] in Ho.
  - apply list_elem_of_singleton in Ho. unfold Listen in Ho. destruct (listeners b1 !! port); injection Ho as -> ->;
      apply (inv_listeners b1); try done; try apply IH; cbn.
    + intros h (y & [Hy|Hy%list_elem_of_singleton]%elem_of_app & Hh'); [by exists y|]. subst y. by apply not_elem_of_nil in Hh'.
    + intros y [Hy|Hy%list_elem_of_singleton]%elem_of_app; [by eapply ri_backlog|]. subst y. cbn. lia.
  - by eapply inv_connect.
  - by eapply inv_accept.
  - unfold listener_Close in Ho. destruct (made b1 !! l) as [x|] eqn:Hl; [|by apply not_elem_of_nil in Ho].
    apply list_elem_of_singleton in Ho as [= -> ->]. apply (inv_listeners b1); try done; cbn.
    + intros h. by apply (queued_insert b1 l x).
    + apply made_insert; [apply IH|]. cbn. eapply ri_backlog; [done|]. by eapply list_elem_of_lookup_2.
  - by eapply inv_read.
  - by eapply inv_write.
  - by eapply inv_close.
Qed.

(** * A peer that closes *)

(** An operation that cannot end a wait for data on [h]. *)
Definition leaves h (o : op) : Prop :=
  match o with OWrite h' _ => h' ≠ other h | OClose h' => h' ≠ h | _ => True end.
Definition drained c : Prop := readBuf c = [] ∧ readCh c = [] ∧ conn_closed c = false.
Definition dry b h : Prop := ∃ c, sides b !! h = Some c ∧ drained c.

Lemma dry_blocks b h n : dry b h → simple_read h n b = [].
Proof. intros (c & Hc & Hb & Hr & Hcl). unfold simple_read. by rewrite Hc, Hb, Hr, Hcl. Qed.
Lemma dry_put b h h' c : h' ≠ h → dry b h → dry (put_side h' c b) h.
Proof. intros Hne (d & Hd & Hdr). exists d. split; [|done]. cbn. by rewrite lookup_insert_ne. Qed.
Lemma dry_same b b' h : sides b' !! h = sides b !! h → dry b h → dry b' h.
Proof. intros Hs (d & Hd & Hdr). exists d. by rewrite Hs. Qed.
Lemma dry_step b tr o r b' h : run_inv b tr → leaves h o → (b', r) ∈ outcomes o b → dry b h → dry b' h.
Proof.
  intros Hi Hl Ho Hd. destruct o as [port|port|l|l|h' n|h' data|h']; cbn [outcomes] in Ho; cbn in Hl.
  - apply list_elem_of_singleton in Ho. unfold Listen in Ho. by destruct (listeners b !! port); injection Ho as -> ->.
  - unfold simple_connect in Ho. destruct (listeners b !! port) as [l|]; [|by apply list_elem_of_singleton in Ho as [= -> ->]].
    destruct (made b !! l); [|by apply not_elem_of_nil in Ho].
    assert (∀ s, (pairs b, s) ≠ h) as Hne.
    { intros sd Hsd. subst h. destruct Hd as (c & Hc & _). assert (pairs b < pairs b)%nat; [|lia]. apply (ri_pairs b tr Hi (pairs b, sd)). by rewrite Hc. }
    rewrite elem_select in Ho. apply elem_of_cons in Ho as [[= _ -> ->]|[[= _ -> ->]|[]%not_elem_of_nil]%elem_of_cons];
      (eapply dry_same; [|exact Hd]); cbn; by rewrite !lookup_insert_ne by apply Hne.
  - unfold Accept in Ho. destruct (made b !! l) as [x|]; [|by apply not_elem_of_nil in Ho].
    apply elem_of_app in Ho as [Ho|Ho].
    + destruct (conns x) as [|h' rest]; [by apply not_elem_of_nil in Ho|]. apply list_elem_of_singleton in Ho as [= -> ->].
      destruct Hd as (c & Hc & Hb & Hr). cbn. destruct (decide (h' = h)) as [->|Hne].
      * exists (c <| readBuf := [] |>). split; [cbn; by rewrite lookup_alter_eq, Hc|done].
      * exists c. split; [cbn; by rewrite lookup_alter_ne|done].
    + destruct (listener_closed x); [|by apply not_elem_of_nil in Ho]. by apply list_elem_of_singleton in Ho as [= -> ->].
  - unfold listener_Close in Ho. destruct (made b !! l) as [x|]; [|by apply not_elem_of_nil in Ho].
    by apply list_elem_of_singleton in Ho as [= -> ->].
  - destruct (decide (h' = h)) as [->|Hne]; [rewrite dry_blocks in Ho by done; by apply not_elem_of_nil in Ho|].
    unfold simple_read in Ho. destruct (sides b !! h') as [c|]; [|by apply not_elem_of_nil in Ho].
    destruct (negb _); [apply list_elem_of_singleton in Ho as [= -> ->]; by apply dry_put|].
    apply elem_of_app in Ho as [Ho|Ho].
    + destruct (readCh c); [by apply not_elem_of_nil in Ho|]. apply list_elem_of_singleton in Ho as [= -> ->]. by apply dry_put.
    + destruct (conn_closed c); [|by apply not_elem_of_nil in Ho]. by apply list_elem_of_singleton in Ho as [= -> ->].
  - unfold simple_write in Ho. destruct (sides b !! h') as [c|] eqn:Hc; [|by apply not_elem_of_nil in Ho].
    rewrite (ri_peer b tr Hi h' c Hc) in Ho. destruct (sides b !! other h') as [d|]; [|by apply not_elem_of_nil in Ho].
    rewrite elem_select in Ho. apply elem_of_cons in Ho as [[= _ -> ->]|[[= _ -> ->]|[[= _ -> ->]|[]%not_elem_of_nil]%elem_of_cons]%elem_of_cons]; [|done..].
    apply dry_put; [|done]. intros <-. by rewrite other_other in Hl.
  - unfold simple_close in Ho. destruct (sides b !! h') as [c|]; [|by apply not_elem_of_nil in Ho].
    apply list_elem_of_singleton in Ho as [= -> ->]. by apply dry_put.
Qed.
Lemma runs_app b tr b1 tr' b2 : runs b tr b1 → runs b1 tr' b2 → runs b (tr ++ tr') b2.
Proof.
  intros H1 H2. induction H2 as [|tr' b3 o r b4 _ IH Hh Ho]; [by rewrite app_nil_r|]. rewrite app_assoc. by eapply runs_snoc.
Qed.

(** What is read on a connection is what was written on the other side:
    the bytes of the calls to [Write] that returned without an error, in order,
    are those read, then those kept from the last read, then those in the
    channel, which holds 64 writes at most; whichever case a [select] takes,
    and however the calls of the two sides follow each other. *)
Theorem simple_vsock_stream tr b h c :
  runs NewSimpleVsockBackend tr b → sides b !! other h = Some c →
  wrote h tr = read_on (other h) tr ++ readBuf c ++ concat (readCh c) ∧ (length (readCh c) ≤ 64)%nat.
Proof.
  intros Hr Hc. pose proof (runs_inv tr b Hr) as Hi. split; [by apply (ri_stream b tr Hi)|by apply (ri_room b tr Hi c (other h))].
Qed.

(** A reader does not see that its peer has closed.  Once it has read
    everything, [Read] blocks, after anything but a write of the peer or a
    close of its own side; that the peer is closed makes no difference. *)
Theorem simple_read_misses_close tr b h c d tr' b' n :
  runs NewSimpleVsockBackend tr b → sides b !! h = Some c → readBuf c = [] → readCh c = [] → conn_closed c = false →
  sides b !! other h = Some d → conn_closed d = true →
  runs b tr' b' → Forall (λ x, leaves h x.1) tr' → outcomes (ORead h n) b' = [].
Proof.
  intros Hr Hc Hb Hch Hcl _ _ Hr' Hl. apply dry_blocks.
  assert (dry b h) as Hd by by exists c.
  induction Hr' as [|tr' b1 o r b2 Hr1 IH Hh Ho]; [done|]. apply Forall_app in Hl as [Hl Hlo]. apply Forall_cons in Hlo as [Hlo _].
  apply (dry_step b1 (tr ++ tr') o r b2 h); [|done|done|by apply IH]. by eapply runs_inv, runs_app.
Qed.

(** * The backend of a device *)

(** What processes do: the listener's side of the connections is theirs, and
    the goroutines of the device read on the other. *)
Definition process_op (o : op) : Prop :=
  match o with OConnect _ => False | OWrite h _ | OClose h => h.2 = true | _ => True end.

Lemma pairs_step o b b' r : (b', r) ∈ outcomes o b → (pairs b ≤ pairs b')%nat.
Proof.
  intros Ho. destruct o; cbn [outcomes] in Ho;
    unfold Listen, simple_connect, Accept, listener_Close, simple_read, simple_write, simple_close in Ho;
    repeat (case_match; simplify_eq/=); rewrite ?elem_select in Ho; set_unfold; naive_solver lia.
Qed.
Lemma runs_pairs b tr b' : runs b tr b' → (pairs b ≤ pairs b')%nat.
Proof. induction 1 as [|tr b1 o r b2 _ IH _ Ho%pairs_step]; [done|lia]. Qed.
Lemma wrote_app h tr tr' : wrote h (tr ++ tr') = wrote h tr ++ wrote h tr'.
Proof. unfold wrote. by rewrite fmap_app, concat_app. Qed.
Lemma wrote_processes h tr : h.2 = false → Forall (λ x, process_op x.1) tr → wrote h tr = [].
Proof.
  intros Hh. induction 1 as [|[o r] tr Ho _ IH]; [done|]. unfold wrote. cbn [fmap list_fmap concat]. fold (wrote h tr). rewrite IH, app_nil_r.
  destruct o; try done. destruct r; try done. cbn in Ho |- *. rewrite decide_False; [done|]. intros <-. congruence.
Qed.

Section scheduled.
(** The state of the processes, of which nothing is known. *)
Context {E : Type}.
Record host := mkHost { hb : SimpleVsockBackend; past : trace; processes : E; past_ok : runs NewSimpleVsockBackend past hb }.
Implicit Types x : host.
(** A call of the device, after what the processes do before it and while it
    waits. *)
Definition during x x' (o : op) (r : reply) : Prop :=
  ∃ tr b, runs (hb x) tr b ∧ Forall (λ y, process_op y.1) tr ∧ (hb x', r) ∈ outcomes o b ∧ past x' = past x ++ tr ++ [(o, r)].
Definition client x (h : handle) : bool := negb h.2 && bool_decide (h.1 < pairs (hb x))%nat.

(** How the calls of the device go: which case a [select] takes, and what the
    processes do in the meantime. *)
Context (connect : host → Z → host * result handle) (write : host → handle → list Z → host * result unit)
  (close : host → handle → host).
Definition connect_during : Prop := ∀ x port, ∃ r, during x (connect x port).1 (OConnect port) r ∧
  match r, (connect x port).2 with Conn h, Ok h' => h = h' | Failed _, Err _ => True | _, _ => False end.
Definition write_during : Prop := ∀ x h data, client x h → ∃ r, during x (write x h data).1 (OWrite h data) r ∧
  match r, (write x h data).2 with Done, Ok _ | Failed _, Err _ => True | _, _ => False end.
Definition close_during : Prop := ∀ x h, client x h → during x (close x h) (OClose h) Done.

(** The device calls the connections that it was given. *)
#[local] Instance simple_backend : VsockBackend host handle := {|
  Connect := connect;
  ConnWrite x h data := if client x h then write x h data else (x, Err "no such connection");
  ConnClose x h := if client x h then close x h else x;
|}.

Context (Hconnect : connect_during) (Hwrite : write_during) (Hclose : close_during).

Lemma during_run x x' o r : during x x' o r → ∃ tr b,
  runs NewSimpleVsockBackend (past x ++ tr) b ∧ (pairs (hb x) ≤ pairs b ≤ pairs (hb x'))%nat ∧ (hb x', r) ∈ outcomes o b ∧
  ∀ h, h.2 = false → wrote h (past x ++ tr) = wrote h (past x) ∧ wrote h (past x') = wrote h (past x) ++ wrote1 h (o, r).
Proof.
  intros (tr & b & Hr & Hp & Ho & Hpast). exists tr, b. split_and!; [by eapply runs_app, Hr; apply past_ok|by eapply runs_pairs|by eapply pairs_step|done|].
  intros h Hh. assert (wrote h (past x ++ tr) = wrote h (past x)) as Hw by by rewrite wrote_app, (wrote_processes h tr), app_nil_r.
  by rewrite Hpast, app_assoc, wrote_snoc, Hw.
Qed.
Lemma during_client x x' o r h : during x x' o r → client x h → client x' h.
Proof.
  intros (tr & b & _ & Hp & _)%during_run [Hs Hl%bool_decide_unpack]%andb_True. apply andb_True. split; [done|]. apply bool_decide_pack. lia.
Qed.
(** A call that writes nothing on [h]. *)
Lemma during_keeps x x' o r h : during x x' o r → (∀ data, o ≠ OWrite h data) → client x h →
  client x' h ∧ wrote h (past x') = wrote h (past x).
Proof.
  intros Hd Ho Hc. split; [by eapply during_client|]. apply during_run in Hd as (tr & b & _ & _ & _ & Hw).
  assert (h.2 = false) as Hs by (apply andb_True in Hc as [Hc _]; by destruct h.2). destruct (Hw h Hs) as [_ ->].
  destruct o as [| | | | |h' data|]; cbn; rewrite ?app_nil_r; try done. destruct r; rewrite ?app_nil_r; try done.
  destruct (decide (h' = h)) as [->|_]; [by destruct (Ho data)|by rewrite app_nil_r].
Qed.
Lemma write_case x h data : client x h → ∃ r, during x (ConnWrite x h data).1 (OWrite h data) r ∧
  match r, (ConnWrite x h data).2 with Done, Ok _ | Failed _, Err _ => True | _, _ => False end ∧
  wrote h (past (ConnWrite x h data).1) = wrote h (past x) ++ match r with Done => data | _ => [] end.
Proof.
  intros Hc. cbn. destruct (client x h) eqn:Ecl; [|done]. destruct (Hwrite x h data) as (r & Hd & Hr); [by rewrite Ecl|].
  exists r. split_and!; [done|done|]. apply during_run in Hd as (tr & b & _ & _ & _ & Hw).
  assert (h.2 = false) as Hs by (apply andb_prop in Ecl as [Ecl _]; by destruct h.2). destruct (Hw h Hs) as [_ ->].
  cbn. destruct r; try done. by rewrite decide_True.
Qed.
Lemma connect_case x port x' h : connect x port = (x', Ok h) → h.2 = false ∧ (pairs (hb x) ≤ h.1 < pairs (hb x'))%nat ∧ wrote h (past x') = [].
Proof.
  intros Ec. destruct (Hconnect x port) as (r & Hd & Hr). rewrite Ec in *. cbn in Hd, Hr. destruct r as [| | |h'|]; try done. subst h'.
  apply during_run in Hd as (tr & b & Hb & Hp & Ho & Hw). cbn [outcomes] in Ho. unfold simple_connect in Ho.
  destruct (listeners b !! port) as [l|]; [|by apply list_elem_of_singleton in Ho].
  destruct (made b !! l) as [y|]; [|by apply not_elem_of_nil in Ho]. rewrite elem_select in Ho.
  apply elem_of_cons in Ho as [[= _ Hx ->]|[?|[]%not_elem_of_nil]%elem_of_cons]; [|congruence].
  assert (sides b !! (pairs b, false) = None) as Hn.
  { apply eq_None_not_Some. rewrite (ri_pairs b _ (runs_inv _ _ Hb)). cbn. lia. }
  destruct (Hw (pairs b, false) eq_refl) as [Hw1 ->]. rewrite <-Hw1, Hx.
  destruct (ri_fresh b _ (runs_inv _ _ Hb) _ Hn) as [-> _]. cbn. split_and!; [done|lia|lia|done].
Qed.
#[local] Instance simple_backend_ok : VsockBackendOk host handle.
Proof.
  refine {| received x h := wrote h (past x); issued x h := Is_true (client x h) |}.
  - intros x port x' h (Hs & Hl & Hw)%connect_case. split_and!; [|apply andb_True; rewrite Hs; split; [done|apply bool_decide_pack; lia]|done].
    intros [_ Hlt%bool_decide_unpack]%andb_True. lia.
  - intros x port x' r h Ec Hc. cbn in Ec. destruct (Hconnect x port) as (r' & Hd & _). rewrite Ec in Hd. by eapply during_keeps.
  - intros x port. destruct (Hconnect x port) as (r' & _ & Hr). cbn. intros Ecl. rewrite Ecl in Hr. by destruct r'.
  - intros x h data. destruct (client x h) eqn:Ecl.
    + destruct (write_case x h data) as (r & _ & Hr & _); [by rewrite Ecl|]. intros Hp. rewrite Hp in Hr. by destruct r.
    + cbn. by rewrite Ecl.
  - intros x h data h' Hc. destruct (client x h) eqn:Ecl; [|by cbn; rewrite Ecl].
    destruct (write_case x h data) as (r & Hd & _); [by rewrite Ecl|]. by eapply during_client.
  - intros x h data Hok. destruct (client x h) eqn:Ecl; [|by cbn in Hok; rewrite Ecl in Hok].
    destruct (write_case x h data) as (r & _ & Hr & ->); [by rewrite Ecl|]. rewrite Hok in Hr. by destruct r.
  - intros x h data. destruct (client x h) eqn:Ecl; [|exists 0%nat; cbn; by rewrite Ecl, app_nil_r].
    destruct (write_case x h data) as (r & _ & _ & ->); [by rewrite Ecl|].
    destruct r; [exists (length data); by rewrite firstn_all|by exists 0%nat..].
  - intros x h data h' Hne Hc. destruct (client x h) eqn:Ecl; [|by cbn; rewrite Ecl].
    destruct (write_case x h data) as (r & Hd & _); [by rewrite Ecl|]. eapply during_keeps; [done|congruence|done].
  - intros x h h' Hc. cbn. destruct (client x h) eqn:Ecl; [|done]. eapply during_keeps; [apply Hclose; by rewrite Ecl|done|done].
Defined.

(** C9: What a guest sends on a connection is what the process on the other
    side reads.  Whatever the processes do and in whatever order, the bytes
    that were read there are the first of those the guest has sent, in order;
    while the connection lasts the others are on their way, in its channel. *)
Theorem vsock_guest_to_process k A (v : vsock_fields host handle) data conn es :
  reachable v → connections v !! k = None → opens k A data → connections (exec v (EPacket data)) !! k = Some conn →
  Forall event_ok es →
  (∀ data hdr, EPacket data ∈ es → parseVsockHeader data = Ok hdr → packet_key hdr = k → Op hdr ≠ vsockOpRequest) →
  let v' := run (exec v (EPacket data)) es in
  let said := concat (says k <$> es) in
  ∃ h x c, conn_backend conn = Some h ∧ backend v' = Some x ∧ sides (hb x) !! other h = Some c ∧
    read_on (other h) (past x) `prefix_of` said ∧
    ∀ conn', connections v' !! k = Some conn' → state conn' = vsockConnStateConnected →
      said = read_on (other h) (past x) ++ readBuf c ++ concat (readCh c) ∧ rxCnt conn' = u32 (len said).
Proof.
  intros Hv Hn Ho Hc Hes Hreq v' sd.
  destruct (vsock_guest_stream k A v data conn es Hv Hn Ho Hc Hes Hreq) as (h & x & Hh & Hx & Hi & Hp & Hk).
  pose proof (runs_inv _ _ (past_ok x)) as Hinv. cbn in Hi. apply andb_True in Hi as [_ Hi%bool_decide_unpack].
  destruct (proj2 (ri_pairs _ _ Hinv (other h)) Hi) as [c Hoc]. pose proof (ri_stream _ _ Hinv h c Hoc) as Hst.
  exists h, x, c. split_and!; [done..| |].
  - etrans; [|exact Hp]. cbn. rewrite Hst. by eexists.
  - intros conn' Hc' Hst'. destruct (Hk conn' Hc' Hst') as [Hrec Hcnt]. split; [|done]. transitivity (wrote h (past x)); [done|exact Hst].
Qed.
End scheduled.

(** ** A host whose processes only make room *)

Lemma connect_reply port b b' r : (b', r) ∈ simple_connect port b → (∃ h, r = Conn h) ∨ ∃ e, r = Failed e.
Proof. unfold simple_connect. repeat case_match; rewrite ?elem_select; set_unfold; naive_solver. Qed.
Lemma write_reply h data b b' r : (b', r) ∈ simple_write h data b → r = Done ∨ ∃ e, r = Failed e.
Proof. unfold simple_write. repeat case_match; rewrite ?elem_select; set_unfold; naive_solver. Qed.
Ltac each_outcome :=
  repeat case_match; rewrite ?elem_select; set_unfold; intros; destruct_or?; simplify_eq/=; rewrite ?length_insert.
Lemma runs_listeners tr b port l : runs NewSimpleVsockBackend tr b → listeners b !! port = Some l → is_Some (made b !! l).
Proof.
  intros Hr. revert port l. induction Hr as [|tr b1 o r b2 _ IH _ Ho]; intros port l; [done|].
  rewrite lookup_lt_is_Some. setoid_rewrite lookup_lt_is_Some in IH. revert Ho. destruct o; cbn [outcomes].
  - intros Ho%list_elem_of_singleton. unfold Listen in Ho. case_match; injection Ho as -> ->; [apply IH|]. cbn. rewrite length_app. cbn.
    intros [[_ <-]|[_ Hl%IH]]%lookup_insert_Some; lia.
  - unfold simple_connect. each_outcome; by eapply IH.
  - unfold Accept. each_outcome; by eapply IH.
  - unfold listener_Close. each_outcome; by eapply IH.
  - unfold simple_read. each_outcome; by eapply IH.
  - unfold simple_write. each_outcome; by eapply IH.
  - unfold simple_close. each_outcome; by eapply IH.
Qed.

(** A call after what the processes did. *)
Definition after (x : host (E := unit)) tr b o r b' (Hr : runs (hb x) tr b) (Hh : held b o) (Ho : (b', r) ∈ outcomes o b) : host :=
  mkHost b' (past x ++ tr ++ [(o, r)]) tt (runs_app _ _ _ _ _ (past_ok x) (runs_snoc _ _ _ _ _ _ Hr Hh Ho)).
Lemma head_outcome {A} (l : list A) a k : l = a :: k → a ∈ l.
Proof. intros ->. apply list_elem_of_here. Qed.
Definition now (x : host (E := unit)) o r b' l (Hh : held (hb x) o) (Ho : outcomes o (hb x) = (b', r) :: l) : host :=
  after x [] (hb x) o r b' (runs_nil _) Hh (head_outcome _ _ _ Ho).
Lemma during_now x o r b' l Hh Ho : during x (now x o r b' l Hh Ho) o r.
Proof. exists [], (hb x). split_and!; [apply runs_nil|done|by eapply head_outcome|done]. Qed.
Lemma during_after x tr b o r b' Hr Hh Ho : Forall (λ y, process_op y.1) tr → during x (after x tr b o r b' Hr Hh Ho) o r.
Proof. intros Hp. by exists tr, b. Qed.
Lemma runs_one b o r b' : held b o → (b', r) ∈ outcomes o b → runs b [(o, r)] b'.
Proof. intros Hh Ho. apply (runs_snoc b [] b o r b'); [apply runs_nil|done|done]. Qed.

(** A full backlog: the listener is closed. *)
Lemma connect_blocked x port : simple_connect port (hb (E := unit) x) = [] →
  ∃ l y, listeners (hb x) !! port = Some l ∧ made (hb x) !! l = Some y ∧
    simple_connect port (put_listener l (y <| listener_closed := true |>) (hb x)) ≠ [].
Proof.
  intros Hc. unfold simple_connect in Hc. destruct (listeners (hb x) !! port) as [l|] eqn:Hl; [|done].
  destruct (runs_listeners _ _ _ _ (past_ok x) Hl) as [y Hy]. exists l, y. split_and!; [done..|]. unfold simple_connect. cbn.
  rewrite Hl. rewrite list_lookup_insert_eq by (by eapply lookup_lt_Some). cbn. by destruct (room_in 16 (conns y)).
Qed.
(** A full channel: the process closes its side. *)
Lemma write_blocked x h data : client (E := unit) x h → simple_write h data (hb x) = [] →
  ∃ c, sides (hb x) !! other h = Some c ∧ simple_write h data (put_side (other h) (c <| conn_closed := true |>) (hb x)) ≠ [].
Proof.
  intros [_ Hlt%bool_decide_unpack]%andb_True Hw. pose proof (runs_inv _ _ (past_ok x)) as Hi.
  destruct (proj2 (ri_pairs _ _ Hi h) Hlt) as [d Hd]. destruct (proj2 (ri_pairs _ _ Hi (other h)) Hlt) as [c Hc]. exists c. split; [done|].
  unfold simple_write. cbn. rewrite lookup_insert_ne, Hd by apply other_ne. rewrite (ri_peer _ _ Hi h d Hd), lookup_insert_eq. cbn.
  by destruct (room_in 64 (readCh c)), (conn_closed d).
Qed.

Definition connect_sig (x : host (E := unit)) port : {p : host * result handle | ∃ r, during x p.1 (OConnect port) r ∧
  match r, p.2 with Conn h, Ok h' => h = h' | Failed _, Err _ => True | _, _ => False end}.
Proof.
  destruct (outcomes (OConnect port) (hb x)) as [|[b' r] k] eqn:Ho.
  - destruct (listeners (hb x) !! port) as [l|] eqn:Hl; [|exfalso; destruct (connect_blocked x port Ho) as (? & ? & ? & _); congruence].
    destruct (made (hb x) !! l) as [y|] eqn:Hy; [|exfalso; destruct (connect_blocked x port Ho) as (? & ? & ? & ? & _); congruence].
    set (b1 := put_listener l (y <| listener_closed := true |>) (hb x)).
    assert (runs (hb x) [(OLClose l, Done)] b1) as Hr.
    { apply runs_one; [done|]. cbn. unfold listener_Close. rewrite Hy. apply list_elem_of_here. }
    destruct (outcomes (OConnect port) b1) as [|[b' r] k] eqn:Ho1.
    { exfalso. destruct (connect_blocked x port Ho) as (l' & y' & E1 & E2 & Hne). by simplify_eq. }
    exists (after x _ _ (OConnect port) r b' Hr I (head_outcome _ _ _ Ho1), match r with Conn h => Ok h | _ => Err "listener closed" end).
    exists r. split; [apply during_after; by apply Forall_singleton|].
    by destruct (connect_reply port b1 b' r (head_outcome _ _ _ Ho1)) as [[h ->]|[e ->]].
  - exists (now x (OConnect port) r b' k I Ho, match r with Conn h => Ok h | _ => Err "refused" end). exists r.
    split; [apply during_now|]. by destruct (connect_reply port (hb x) b' r (head_outcome _ _ _ Ho)) as [[h ->]|[e ->]].
Defined.
Definition write_sig (x : host (E := unit)) h data : client x h → {p : host * result unit | ∃ r, during x p.1 (OWrite h data) r ∧
  match r, p.2 with Done, Ok _ | Failed _, Err _ => True | _, _ => False end}.
Proof.
  intros Hx. destruct (outcomes (OWrite h data) (hb x)) as [|[b' r] k] eqn:Ho.
  - destruct (sides (hb x) !! other h) as [c|] eqn:Hc; [|exfalso; destruct (write_blocked x h data Hx Ho) as (? & ? & _); congruence].
    set (b1 := put_side (other h) (c <| conn_closed := true |>) (hb x)).
    assert (runs (hb x) [(OClose (other h), Done)] b1) as Hr.
    { apply runs_one; [done|]. cbn. unfold simple_close. rewrite Hc. apply list_elem_of_here. }
    destruct (outcomes (OWrite h data) b1) as [|[b' r] k] eqn:Ho1.
    { exfalso. destruct (write_blocked x h data Hx Ho) as (c' & E1 & Hne). by simplify_eq. }
    exists (after x _ _ (OWrite h data) r b' Hr I (head_outcome _ _ _ Ho1), match r with Done => Ok tt | _ => Err "peer closed" end).
    exists r. split.
    + apply during_after. apply Forall_singleton. cbn. apply andb_True in Hx as [Hx _]. by destruct h as [? []].
    + by destruct (write_reply h data b1 b' r (head_outcome _ _ _ Ho1)) as [->|[e ->]].
  - exists (now x (OWrite h data) r b' k I Ho, match r with Done => Ok tt | _ => Err "write failed" end). exists r.
    split; [apply during_now|]. by destruct (write_reply h data (hb x) b' r (head_outcome _ _ _ Ho)) as [->|[e ->]].
Defined.
Definition close_sig (x : host (E := unit)) h : client x h → {x' : host | during x x' (OClose h) Done}.
Proof.
  intros Hx. destruct (outcomes (OClose h) (hb x)) as [|[b' r] k] eqn:Ho.
  - exfalso. apply andb_True in Hx as [_ Hlt%bool_decide_unpack]. cbn in Ho. unfold simple_close in Ho.
    destruct (proj2 (ri_pairs _ _ (runs_inv _ _ (past_ok x)) h) Hlt) as [c Hc]. by rewrite Hc in Ho.
  - exists (now x (OClose h) r b' k I Ho). assert (r = Done) as ->; [|apply during_now].
    cbn in Ho. unfold simple_close in Ho. by destruct (sides (hb x) !! h); simplify_eq.
Defined.
Definition idle_connect x port : host * result handle := proj1_sig (connect_sig x port).
Definition idle_write x h data : host * result unit :=
  match decide (Is_true (client x h)) with left Hx => proj1_sig (write_sig x h data Hx) | right _ => (x, Ok tt) end.
Definition idle_close x h : host := match decide (Is_true (client x h)) with left Hx => proj1_sig (close_sig x h Hx) | right _ => x end.
Lemma idle_connect_during : connect_during idle_connect.
Proof. intros x port. apply (proj2_sig (connect_sig x port)). Qed.
Lemma idle_write_during : write_during idle_write.
Proof. intros x h data Hx. unfold idle_write. destruct (decide _); [apply (proj2_sig (write_sig x h data _))|done]. Qed.
Lemma idle_close_during : close_during idle_close.
Proof. intros x h Hx. unfold idle_close. destruct (decide _); [apply (proj2_sig (close_sig x h _))|done]. Qed.

Lemma listening_ok : runs NewSimpleVsockBackend [(OListen 1000, Listener 0)] (Listen 1000 NewSimpleVsockBackend).1.
Proof. apply runs_one; [done|]. apply list_elem_of_here. Qed.
Definition listening : host := mkHost (Listen 1000 NewSimpleVsockBackend).1 [(OListen 1000, Listener 0)] tt listening_ok.
#[local] Instance idle : VsockBackend (host (E := unit)) handle := simple_backend idle_connect idle_write idle_close.
Definition device0 : vsock_fields (host (E := unit)) handle := v0 3 (Some listening).
Lemma vsock_guest_to_process_witness :
  let v' := run device0 [EPacket guest_request; EPacket guest_data] in
  ∃ h x c, backend v' = Some x ∧ sides (hb x) !! other h = Some c ∧
    [104; 105] = read_on (other h) (past x) ++ readBuf c ++ concat (readCh c).
Proof.
  destruct (vsock_guest_to_process idle_connect idle_write idle_close idle_connect_during idle_write_during idle_close_during
    (1000, 50) 4 device0 guest_request
    (mkConnection (1000, 50) vsockConnStateConnected 4 0 0 0 false (Some (0%nat, false))) [EPacket guest_data])
    as (h & x & c & _ & Hx & Hc & _ & Hall).
  - exists 3, (Some listening), []. by split.
  - vm_compute. reflexivity.
  - split; [apply encode_bytes|]. eexists. split_and!; [vm_compute; reflexivity|done..].
  - vm_compute. reflexivity.
  - apply Forall_singleton. apply Forall_app. split; [apply encode_bytes|repeat constructor; lia].
  - intros data hdr [= ->]%list_elem_of_singleton. vm_compute. by intros [= <-].
  - exists h, x, c. split_and!; [exact Hx|exact Hc|].
    apply (Hall (mkConnection (1000, 50) vsockConnStateConnected 4 0 0 2 false (Some (0%nat, false)))); vm_compute; reflexivity.
Defined.

(** A run in which the processes accept, write and read. *)
Definition sample_run : trace :=
  [(OListen 1000, Listener 0); (OConnect 1000, Conn (0%nat, false)); (OAccept 0, Conn (0%nat, true));
   (OWrite (0%nat, false) [1; 2; 3], Done); (ORead (0%nat, true) 2, Bytes [1; 2]); (OClose (0%nat, true), Done)].
Lemma runs_cons i b o r b1 tr b2 : held b o → outcomes o b !! i = Some (b1, r) → runs b1 tr b2 → runs b ((o, r) :: tr) b2.
Proof. intros Hh Ho Hr. eapply (runs_app _ [_]); [apply runs_one; [done|by eapply list_elem_of_lookup_2]|done]. Qed.
Lemma sample_runs : ∃ b, runs NewSimpleVsockBackend sample_run b ∧
  sides b !! (0%nat, true) = Some (mkSimpleConn 1000 0 (Some (0%nat, false)) [] true [3]) ∧
  sides b !! (0%nat, false) = Some (mkSimpleConn 0 1000 (Some (0%nat, true)) [] false []).
Proof.
  eexists. split.
  - do 4 (eapply (runs_cons 0); [done|vm_compute; reflexivity|]).
    eapply (runs_cons 0); [|vm_compute; reflexivity|].
    { intros (x & Hx%list_elem_of_singleton & Hh). subst x. by apply not_elem_of_nil in Hh. }
    eapply (runs_cons 0); [done|vm_compute; reflexivity|]. apply runs_nil.
  - split; vm_compute; reflexivity.
Qed.
Lemma simple_vsock_stream_witness :
  wrote (0%nat, false) sample_run = read_on (0%nat, true) sample_run ++ [3] ++ concat [].
Proof. destruct sample_runs as (b & Hr & Hc & _). apply (simple_vsock_stream sample_run b (0%nat, false) _ Hr Hc). Defined.
Lemma simple_read_misses_close_witness : ∃ b, outcomes (ORead (0%nat, false) 10) b = [].
Proof.
  destruct sample_runs as (b & Hr & Hc & Hd). exists b.
  apply (simple_read_misses_close sample_run b (0%nat, false) _ _ [] b 10 Hr Hd eq_refl eq_refl eq_refl Hc eq_refl).
  - apply runs_nil.
  - apply Forall_nil_2.
Defined.
