(* ===== verification/Tcp.v ===== *)
(** TCP building blocks: src/internal/netstack/tcp.go.

    Options, the retransmission queue, the out-of-order receive buffer, the
    retransmission timer estimate, congestion control and sequence-number
    comparison.  Times are nanoseconds; returning a payload to the buffer pool
    has no effect on these structures and is left out.

    The theorems relate 32-bit sequence numbers to positions in the unbounded
    byte stream: comparisons agree with the order of positions in any window
    shorter than 2^31; the receive buffer stays sorted and disjoint and hands
    out exactly the next contiguous bytes of the stream; the send buffer counts
    its bytes and releases exactly what is acknowledged; the timeout stays in
    its bounds.  Option parsing inverts option building, and does not terminate
    on a zero-length MSS or window-scale option. *)
From Stdlib Require Import Sorted.
From S2P Require Import Prelude.

(** * Options *)

Definition tcpOptEnd : Z := 0.
Definition tcpOptNOP : Z := 1.
Definition tcpOptMSS : Z := 2.
Definition tcpOptWndScale : Z := 3.

Record tcpOptions := mkOptions {
  mss : Z; wndScale : Z; hasMSS : bool; hasWndScale : bool;
}.
#[export] Instance eta_tcpOptions : Eta tcpOptions := λ o,
  mkOptions (mss o) (wndScale o) (hasMSS o) (hasWndScale o).
Definition noOptions : tcpOptions := mkOptions 0 0 false false.

(** [options[i]] for an index in range. *)
Definition at_ (options : list Z) (i : Z) : Z := nth (Z.to_nat i) options 0.

(** The outcome of one turn: leave the loop, or go on at the index. *)
Definition option_turn (options : list Z) (i : Z) (opts : tcpOptions) : tcpOptions * option Z :=
  let kind := at_ options i in
  if kind =? tcpOptEnd then (opts, None)
  else if kind =? tcpOptNOP then (opts, Some (i + 1))
  else if kind =? tcpOptMSS then
    let opts := if (i + 4 <=? len options) && (at_ options (i + 1) =? 4)
                then opts <| mss := be_val (sub options (Z.to_nat (i + 2)) 2) |> <| hasMSS := true |>
                else opts in
    if i + 1 <? len options then (opts, Some (i + at_ options (i + 1))) else (opts, None)
  else if kind =? tcpOptWndScale then
    let opts := if (i + 3 <=? len options) && (at_ options (i + 1) =? 3)
                then opts <| wndScale := at_ options (i + 2) |> <| hasWndScale := true |>
                else opts in
    if i + 1 <? len options then (opts, Some (i + at_ options (i + 1))) else (opts, None)
  else if i + 1 >=? len options then (opts, None)
  else if at_ options (i + 1) <? 2 then (opts, None)
  else (opts, Some (i + at_ options (i + 1))).

(** The loop; [None] when [fuel] turns are not enough. *)
Fixpoint options_loop (fuel : nat) (options : list Z) (i : Z) (opts : tcpOptions)
    : option tcpOptions :=
  if i <? len options then
    match fuel with
    | O => None
    | S fuel =>
      match option_turn options i opts with
      | (opts, None) => Some opts
      | (opts, Some i) => options_loop fuel options i opts
      end
    end
  else Some opts.
Definition parseTCPOptions (fuel : nat) (options : list Z) : option tcpOptions :=
  options_loop fuel options 0 noOptions.

Definition buildSynAckOptions (mss_ wndScale_ : Z) (peerHasWndScale : bool) : list Z :=
  if peerHasWndScale
  then [tcpOptMSS; 4] ++ be_bytes 2 mss_ ++ [tcpOptNOP; tcpOptWndScale; 3; wndScale_]
  else [tcpOptMSS; 4] ++ be_bytes 2 mss_.

(** * Sequence numbers *)

Definition seqLT (a b : Z) : bool := i32 (a - b) <? 0.
Definition seqLTE (a b : Z) : bool := i32 (a - b) <=? 0.
Definition seqGT (a b : Z) : bool := i32 (a - b) >? 0.
Definition seqOverlap (aStart aEnd bStart bEnd : Z) : bool :=
  seqLT aStart bEnd && seqLT bStart aEnd.

(** * Send buffer *)

Record tcpSendSegment := mkSend {
  seqStart : Z; seqEnd : Z; payload : list Z; sentAt : Z; retxCount : Z;
}.
#[export] Instance eta_tcpSendSegment : Eta tcpSendSegment := λ s,
  mkSend (seqStart s) (seqEnd s) (payload s) (sentAt s) (retxCount s).

Record tcpSendBuffer := mkSendBuffer {
  segments : list tcpSendSegment; capacity : Z; used : Z;
}.
#[export] Instance eta_tcpSendBuffer : Eta tcpSendBuffer := λ b,
  mkSendBuffer (segments b) (capacity b) (used b).

Definition newTCPSendBuffer (capacity_ : Z) : tcpSendBuffer := mkSendBuffer [] capacity_ 0.

Definition append (sb : tcpSendBuffer) (seg : tcpSendSegment) : tcpSendBuffer * bool :=
  if used sb + len (payload seg) >? capacity sb then (sb, false)
  else (sb <| segments := segments sb ++ [seg] |> <| used := used sb + len (payload seg) |>, true).

(** The loop of [ack]: kept segments, [used], bytes acknowledged, sample. *)
Fixpoint ack_loop (now ackNum : Z) (segs newSegs : list tcpSendSegment) (used_ bytesAcked : Z)
    (rtt : option Z) : list tcpSendSegment * Z * Z * option Z :=
  match segs with
  | [] => (newSegs, used_, bytesAcked, rtt)
  | seg :: segs =>
    if seqLTE (seqEnd seg) ackNum then
      ack_loop now ackNum segs newSegs (used_ - len (payload seg)) (bytesAcked + len (payload seg))
        (if (retxCount seg =? 0) && negb (non_nil rtt) then Some (now - sentAt seg) else rtt)
    else ack_loop now ackNum segs (newSegs ++ [seg]) used_ bytesAcked rtt
  end.
Definition ack (sb : tcpSendBuffer) (now ackNum : Z) : tcpSendBuffer * Z * option Z :=
  let '(segs, used_, bytesAcked, rtt) := ack_loop now ackNum (segments sb) [] (used sb) 0 None in
  (sb <| segments := segs |> <| used := used_ |>, bytesAcked, rtt).

Definition oldest (sb : tcpSendBuffer) : option tcpSendSegment := head (segments sb).

Fixpoint mark_first (now : Z) (n : nat) (segs : list tcpSendSegment) : list tcpSendSegment :=
  match n, segs with
  | S n, s :: segs =>
    s <| retxCount := retxCount s + 1 |> <| sentAt := now |> :: mark_first now n segs
  | _, _ => segs
  end.
Definition markRetransmittedN (sb : tcpSendBuffer) (now n : Z) : tcpSendBuffer :=
  sb <| segments := mark_first now (Z.to_nat n) (segments sb) |>.

(** Whatever the size, only the first segment is returned. *)
Definition oldestCoalesced (sb : tcpSendBuffer) (maxSize : Z) : option (tcpSendSegment * Z) :=
  match segments sb with [] => None | s :: _ => Some (s, 1) end.

Definition sb_len (sb : tcpSendBuffer) : Z := len (segments sb).
Definition inFlight (sb : tcpSendBuffer) : Z := used sb.
Definition sb_clear (sb : tcpSendBuffer) : tcpSendBuffer := sb <| segments := [] |> <| used := 0 |>.

(** * Receive buffer *)

Record tcpOOOSegment := mkOOO { oooStart : Z; oooEnd : Z; oooPayload : list Z }.
Record tcpRecvBuffer := mkRecvBuffer { rsegments : list tcpOOOSegment; maxGaps : Z }.
#[export] Instance eta_tcpRecvBuffer : Eta tcpRecvBuffer := λ b,
  mkRecvBuffer (rsegments b) (maxGaps b).

Definition newTCPRecvBuffer (maxGaps_ : Z) : tcpRecvBuffer := mkRecvBuffer [] maxGaps_.

(** The scan of [insert]: [None] on an overlap, else the insertion index,
    which is [total] until a later segment is found. *)
Fixpoint insert_scan (seg : tcpOOOSegment) (segs : list tcpOOOSegment) (i insertIdx total : nat)
    : option nat :=
  match segs with
  | [] => Some insertIdx
  | e :: segs =>
    if seqOverlap (oooStart seg) (oooEnd seg) (oooStart e) (oooEnd e) then None
    else insert_scan seg segs (S i)
      (if seqLT (oooStart seg) (oooStart e) && (insertIdx =? total)%nat then i else insertIdx) total
  end.
Definition insert (rb : tcpRecvBuffer) (seg : tcpOOOSegment) : tcpRecvBuffer * bool :=
  let segs := rsegments rb in
  match insert_scan seg segs 0 (length segs) (length segs) with
  | None => (rb, false)
  | Some insertIdx =>
    if len segs >=? maxGaps rb then (rb, false)
    else (rb <| rsegments := take insertIdx segs ++ [seg] ++ drop insertIdx segs |>, true)
  end.

(** One pass over the segments: kept ones, the new sequence number, payloads
    collected, and whether any was. *)
Fixpoint collect_pass (segs newSegs : list tcpOOOSegment) (nextSeq : Z) (collected : list (list Z))
    (found : bool) : list tcpOOOSegment * Z * list (list Z) * bool :=
  match segs with
  | [] => (newSegs, nextSeq, collected, found)
  | seg :: segs =>
    if oooStart seg =? nextSeq
    then collect_pass segs newSegs (oooEnd seg) (collected ++ [oooPayload seg]) true
    else collect_pass segs (newSegs ++ [seg]) nextSeq collected found
  end.
(** Passes are repeated until one finds nothing; each earlier pass removes a
    segment, so one more turn than there are segments is enough. *)
Fixpoint collect_loop (fuel : nat) (segs : list tcpOOOSegment) (nextSeq : Z)
    (collected : list (list Z)) : option (list tcpOOOSegment * Z * list (list Z)) :=
  match fuel with
  | O => None
  | S fuel =>
    let '(segs, nextSeq, collected, found) := collect_pass segs [] nextSeq collected false in
    if found then collect_loop fuel segs nextSeq collected else Some (segs, nextSeq, collected)
  end.
Definition collectContiguous (rb : tcpRecvBuffer) (nextSeq : Z)
    : option (tcpRecvBuffer * Z * list (list Z)) :=
  '(segs, n, c) ← collect_loop (S (length (rsegments rb))) (rsegments rb) nextSeq [];
  Some (rb <| rsegments := segs |>, n, c).

Definition rb_len (rb : tcpRecvBuffer) : Z := len (rsegments rb).
Definition rb_clear (rb : tcpRecvBuffer) : tcpRecvBuffer := rb <| rsegments := [] |>.

(** * Retransmission timeout: 64-bit durations *)

Definition ms : Z := 1000000.
Definition minRTO : Z := 50 * ms.
Definition maxRTO : Z := 60000 * ms.
Definition initialRTO : Z := 500 * ms.
Definition maxBackoffCount : Z := 5.

Record tcpRTTEstimator := mkRTT {
  srtt : Z; rttVar : Z; rto : Z; hasInitial : bool; backoffCount : Z;
}.
#[export] Instance eta_tcpRTTEstimator : Eta tcpRTTEstimator := λ r,
  mkRTT (srtt r) (rttVar r) (rto r) (hasInitial r) (backoffCount r).
Definition newTCPRTTEstimator : tcpRTTEstimator := mkRTT 0 0 initialRTO false 0.

Definition rtt_update (r : tcpRTTEstimator) (rtt : Z) : tcpRTTEstimator :=
  let r :=
    if negb (hasInitial r)
    then r <| srtt := rtt |> <| rttVar := Z.quot rtt 2 |> <| hasInitial := true |>
    else
      let delta := i64 (srtt r - rtt) in
      let delta := if delta <? 0 then i64 (- delta) else delta in
      r <| rttVar := Z.quot (i64 (3 * rttVar r + delta)) 4 |>
        <| srtt := Z.quot (i64 (7 * srtt r + rtt)) 8 |> in
  let r := r <| rto := i64 (srtt r + 4 * rttVar r) |> in
  let r := if rto r <? minRTO then r <| rto := minRTO |> else r in
  if rto r >? maxRTO then r <| rto := maxRTO |> else r.

Definition backoff (r : tcpRTTEstimator) : tcpRTTEstimator :=
  let r := if backoffCount r <? maxBackoffCount
           then r <| rto := Z.quot (i64 (rto r * 3)) 2 |> <| backoffCount := backoffCount r + 1 |>
           else r in
  if rto r >? maxRTO then r <| rto := maxRTO |> else r.
Definition resetBackoff (r : tcpRTTEstimator) : tcpRTTEstimator := r <| backoffCount := 0 |>.
Definition getRTO (r : tcpRTTEstimator) : Z := rto r.

(** * Congestion control *)

Definition initialCwndSegments : Z := 10.
Definition fastRetransmitThreshold : Z := 3.

Record tcpCongestionControl := mkCC { cwnd : Z; ssthresh : Z; ccMss : Z; dupAcks : Z }.
#[export] Instance eta_tcpCongestionControl : Eta tcpCongestionControl := λ c,
  mkCC (cwnd c) (ssthresh c) (ccMss c) (dupAcks c).
Definition newTCPCongestionControl (mss_ : Z) : tcpCongestionControl :=
  mkCC (u32 (initialCwndSegments * mss_)) (2^32 - 1) mss_ 0.

(** Division by a zero window panics. *)
Definition onAck (cc : tcpCongestionControl) (bytesAcked : Z) : result tcpCongestionControl :=
  let cc := cc <| dupAcks := 0 |> in
  if cwnd cc <? ssthresh cc then Ok (cc <| cwnd := u32 (cwnd cc + u32 bytesAcked) |>)
  else if cwnd cc =? 0 then Panic
  else
    let increment := u32 (ccMss cc * ccMss cc) / cwnd cc in
    let increment := if increment <? 1 then 1 else increment in
    Ok (cc <| cwnd := u32 (cwnd cc + increment) |>).

Definition halve (cc : tcpCongestionControl) : tcpCongestionControl :=
  let cc := cc <| ssthresh := cwnd cc / 2 |> in
  if ssthresh cc <? u32 (2 * ccMss cc) then cc <| ssthresh := u32 (2 * ccMss cc) |> else cc.

Definition onDupAck (cc : tcpCongestionControl) : tcpCongestionControl * bool :=
  let cc := cc <| dupAcks := dupAcks cc + 1 |> in
  if dupAcks cc =? fastRetransmitThreshold then
    let cc := halve cc in
    (cc <| cwnd := u32 (ssthresh cc + u32 (fastRetransmitThreshold * ccMss cc)) |>, true)
  else if dupAcks cc >? fastRetransmitThreshold
  then (cc <| cwnd := u32 (cwnd cc + ccMss cc) |>, false)
  else (cc, false).

Definition onTimeout (cc : tcpCongestionControl) : tcpCongestionControl :=
  let cc := halve cc in cc <| cwnd := ccMss cc |> <| dupAcks := 0 |>.
Definition getCwnd (cc : tcpCongestionControl) : Z := cwnd cc.

(** * Options: round trip and termination *)

(** parsing the options the stack puts in a SYN-ACK gives back the MSS
    and, when present, the window scale. *)
Theorem options_roundtrip (mss_ ws : Z) (scale : bool) (fuel : nat) :
  is_u16 mss_ → (3 ≤ fuel)%nat →
  parseTCPOptions fuel (buildSynAckOptions mss_ ws scale) =
    Some (mkOptions mss_ (if scale then ws else 0) true scale).
Proof.
  intros Hm Hf. do 3 (destruct fuel as [|fuel]; [lia|]). clear Hf.
  assert (be_val [(mss_ / 256) mod 256; mss_ mod 256] = mss_) as Hv.
  { change [(mss_ / 256) mod 256; mss_ mod 256] with (be_bytes 2 mss_). rewrite be_val_bytes.
    by apply Z.mod_small. }
  unfold parseTCPOptions, buildSynAckOptions, be_bytes. destruct scale; cbv -[be_val Z.div Z.modulo]; rewrite Hv; by destruct fuel.
Qed.

Lemma options_roundtrip_witness :
  parseTCPOptions 3 (buildSynAckOptions 1460 7 true) = Some (mkOptions 1460 7 true true).
Proof. apply (options_roundtrip 1460 7 true 3); [done|lia]. Defined.

(** A zero-length option whose length is not checked. *)
Definition unchecked (kind : Z) : bool := (kind =? tcpOptMSS) || (kind =? tcpOptWndScale).

Lemma stuck_turn options i opts :
  0 ≤ i → i + 1 < len options → unchecked (at_ options i) → at_ options (i + 1) = 0 →
  ∃ opts', option_turn options i opts = (opts', Some i).
Proof.
  intros Hi Hl Hu Hz. unfold option_turn, unchecked in *. rewrite Hz.
  apply orb_True in Hu. rewrite !Is_true_true, !Z.eqb_eq in Hu.
  rewrite (proj2 (Z.ltb_lt _ _) Hl), Z.add_0_r.
  destruct Hu as [-> | ->]; cbn; rewrite ?andb_false_r; by eexists.
Qed.

Lemma stuck_loop options i opts fuel :
  0 ≤ i → i + 1 < len options → unchecked (at_ options i) → at_ options (i + 1) = 0 →
  options_loop fuel options i opts = None.
Proof.
  intros Hi Hl Hu Hz. revert opts. induction fuel as [|fuel IH]; intros opts; cbn [options_loop];
    (destruct (Z.ltb_spec i (len options)); [|lia]); [done|].
  destruct (stuck_turn options i opts) as [opts' ->]; auto.
Qed.

Lemma turn_advances options i opts opts' i' :
  is_bytes options → 0 ≤ i → option_turn options i opts = (opts', Some i') →
  (unchecked (at_ options i) → i + 1 < len options → at_ options (i + 1) ≠ 0) → i < i'.
Proof.
  intros Hb Hi Ht Hz. assert (0 ≤ at_ options (i + 1)) as Hn.
  { unfold at_. destruct (nth_in_or_default (Z.to_nat (i + 1)) options 0) as [Hin|Hd]; [|lia].
    apply list_elem_of_In in Hin. eapply Forall_forall in Hb; [|done]. unfold is_u in Hb. lia. }
  unfold option_turn, unchecked in *. destruct (_ =? tcpOptEnd); [done|].
  destruct (_ =? tcpOptNOP); [injection Ht as _ <-; lia|].
  destruct (at_ options i =? tcpOptMSS).
  { destruct (Z.ltb_spec (i + 1) (len options)); [|done]. injection Ht as _ <-.
    specialize (Hz Logic.I). lia. }
  destruct (at_ options i =? tcpOptWndScale).
  { destruct (Z.ltb_spec (i + 1) (len options)); [|done]. injection Ht as _ <-.
    specialize (Hz Logic.I). lia. }
  destruct (_ >=? _); [done|]. destruct (Z.ltb_spec (at_ options (i + 1)) 2); [done|].
  injection Ht as _ <-. lia.
Qed.

(** The positions the loop visits from [i], and those it does not leave: an MSS
    or window-scale option with length zero. *)
Inductive visits (options : list Z) : Z → Z → Prop :=
  | visits_here i : visits options i i
  | visits_next i i' j opts opts' :
      i < len options → option_turn options i opts = (opts', Some i') → visits options i' j → visits options i j.
Definition stuck_at (options : list Z) (i : Z) : Prop :=
  i + 1 < len options ∧ unchecked (at_ options i) ∧ at_ options (i + 1) = 0.
#[export] Instance stuck_at_dec options i : Decision (stuck_at options i).
Proof. unfold stuck_at. apply _. Defined.

Lemma turn_next options i opts opts2 : (option_turn options i opts).2 = (option_turn options i opts2).2.
Proof.
  unfold option_turn. destruct (_ =? tcpOptEnd); [done|]. destruct (_ =? tcpOptNOP); [done|].
  destruct (_ =? tcpOptMSS); [by destruct (_ <? _)|]. destruct (_ =? tcpOptWndScale); [by destruct (_ <? _)|].
  destruct (_ >=? _); [done|]. by destruct (_ <? _).
Qed.
Lemma visits_stuck options i j fuel opts :
  is_bytes options → 0 ≤ i → visits options i j → stuck_at options j → options_loop fuel options i opts = None.
Proof.
  intros Hb Hi Hv (Hl & Hu & Hz). revert fuel opts Hi. induction Hv as [i|i i' j o o' Hlt Ht _ IH]; intros fuel opts Hi.
  - by apply stuck_loop.
  - destruct (decide (stuck_at options i)) as [(? & ? & ?)|Hns]; [by apply stuck_loop|].
    pose proof (turn_advances _ _ _ _ _ Hb Hi Ht ltac:(intros ? ? ?; by apply Hns)) as Hadv.
    destruct fuel as [|fuel]; cbn [options_loop]; (destruct (Z.ltb_spec i (len options)); [|lia]); [done|].
    pose proof (turn_next options i opts o) as Hn. rewrite Ht in Hn. destruct (option_turn options i opts) as [o2 n2].
    cbn [snd] in Hn. subst n2. apply IH; [done..|lia].
Qed.
Lemma loop_terminates options fuel i opts :
  is_bytes options → 0 ≤ i → len options - i ≤ Z.of_nat fuel →
  (∃ r, options_loop fuel options i opts = Some r) ∨ ∃ j, visits options i j ∧ stuck_at options j.
Proof.
  intros Hb. revert i opts. induction fuel as [|fuel IH]; intros i opts Hi Hf;
    cbn [options_loop]; (destruct (Z.ltb_spec i (len options)); [|left; by eexists]); [lia|].
  destruct (decide (stuck_at options i)) as [Hs|Hns]; [right; exists i; split; [apply visits_here|done]|].
  destruct (option_turn options i opts) as [opts' [i'|]] eqn:Ht; [|left; by eexists].
  pose proof (turn_advances _ _ _ _ _ Hb Hi Ht ltac:(intros ? ? ?; by apply Hns)) as Hadv.
  destruct (IH i' opts' ltac:(lia) ltac:(lia)) as [?|(j & Hv & Hs)]; [by left|right].
  exists j. split; [|done]. by eapply visits_next.
Qed.

(** C39: option parsing terminates exactly when the positions it visits include
    no MSS or window-scale option of length zero; it then takes at most one
    turn per byte, and otherwise it stays at that option for ever. *)
Theorem options_termination (options : list Z) :
  is_bytes options →
  ((∃ opts, parseTCPOptions (length options) options = Some opts) ↔ ¬ ∃ j, visits options 0 j ∧ stuck_at options j) ∧
  ((∀ fuel, parseTCPOptions fuel options = None) ↔ ∃ j, visits options 0 j ∧ stuck_at options j).
Proof.
  intros Hb. assert (∀ fuel, (∃ j, visits options 0 j ∧ stuck_at options j) → parseTCPOptions fuel options = None) as Hstuck.
  { intros fuel (j & Hv & Hs). by apply (visits_stuck options 0 j). }
  destruct (loop_terminates options (length options) 0 noOptions Hb ltac:(lia) ltac:(lia)) as [[r E]|Hv];
    change (options_loop (length options) options 0 noOptions) with (parseTCPOptions (length options) options) in *.
  - split; split.
    + intros _ Hs. by rewrite (Hstuck _ Hs) in E.
    + intros _. by exists r.
    + intros Hn. by rewrite Hn in E.
    + intros Hs fuel. by apply Hstuck.
  - split; split.
    + intros [o E]. by rewrite (Hstuck _ Hv) in E.
    + intros Hn. by destruct Hn.
    + by intros _.
    + intros Hs fuel. by apply Hstuck.
Qed.

(** No-operation, then a window-scale option of length zero; and a zero byte
    inside an option, which the loop steps over. *)
Lemma options_termination_witness :
  (∀ fuel, parseTCPOptions fuel [1; 3; 0; 0] = None) ∧ (¬ ∃ j, visits [4; 4; 2; 0] 0 j ∧ stuck_at [4; 4; 2; 0] j).
Proof.
  split.
  - apply (options_termination [1; 3; 0; 0]); [repeat constructor; vm_compute; congruence|].
    exists 1. split; [|by vm_compute]. by eapply (visits_next _ 0 1 1 noOptions); [|vm_compute; reflexivity|apply visits_here].
  - apply (options_termination [4; 4; 2; 0]); [repeat constructor; vm_compute; congruence|].
    eexists. vm_compute. reflexivity.
Defined.

(** * Sequence numbers are positions modulo 2^32 *)

Lemma seq_diff x y : - 2^31 ≤ x - y < 2^31 → i32 (u32 x - u32 y) = x - y.
Proof.
  intros Hd. unfold i32, signed, u32. rewrite Zminus_mod_idemp_l, Zminus_mod_idemp_r.
  change (2 ^ (32 - 1)) with (2^31). destruct (decide (0 ≤ x - y)).
  - rewrite Z.mod_small by lia. destruct (Z.ltb_spec (x - y) (2^31)); lia.
  - rewrite <-(Z.mod_add _ 1), Z.mod_small by lia.
    destruct (Z.ltb_spec (x - y + 1 * 2^32) (2^31)); lia.
Qed.

Lemma seqLT_pos x y : - 2^31 < x - y < 2^31 → seqLT (u32 x) (u32 y) = (x <? y).
Proof.
  intros. unfold seqLT. rewrite seq_diff by lia.
  destruct (Z.ltb_spec (x - y) 0), (Z.ltb_spec x y); lia.
Qed.
Lemma seqLTE_pos x y : - 2^31 < x - y < 2^31 → seqLTE (u32 x) (u32 y) = (x <=? y).
Proof.
  intros. unfold seqLTE. rewrite seq_diff by lia.
  destruct (Z.leb_spec (x - y) 0), (Z.leb_spec x y); lia.
Qed.
Lemma seqOverlap_pos x n y k :
  - 2^31 < x - (y + k) < 2^31 → - 2^31 < y - (x + n) < 2^31 →
  seqOverlap (u32 x) (u32 (x + n)) (u32 y) (u32 (y + k)) = (x <? y + k) && (y <? x + n).
Proof. intros. unfold seqOverlap. by rewrite !seqLT_pos. Qed.

(** as long as two stream positions are less than 2^31 bytes apart, the
    comparisons of their sequence numbers are the comparisons of the positions,
    across any number of wrap-arounds, and the overlap test on ranges inside
    such a window is exact. *)
Theorem seq_order (x y : Z) :
  - 2^31 < x - y < 2^31 →
  seqLT (u32 x) (u32 y) = (x <? y) ∧ seqLTE (u32 x) (u32 y) = (x <=? y) ∧
  seqGT (u32 x) (u32 y) = (x >? y) ∧
  ∀ n k, 0 < n → 0 < k → - 2^31 < x - (y + k) < 2^31 → - 2^31 < y - (x + n) < 2^31 →
    seqOverlap (u32 x) (u32 (x + n)) (u32 y) (u32 (y + k)) = true ↔
      ∃ p, x ≤ p < x + n ∧ y ≤ p < y + k.
Proof.
  intros Hd. split_and!; [by apply seqLT_pos|by apply seqLTE_pos| |].
  - unfold seqGT. rewrite seq_diff, !Z.gtb_ltb by lia.
    destruct (Z.ltb_spec 0 (x - y)), (Z.ltb_spec y x); lia.
  - intros n k Hn Hk H1 H2. rewrite seqOverlap_pos, andb_true_iff, !Z.ltb_lt by lia. split.
    + intros [? ?]. exists (Z.max x y). lia.
    + intros (p & ? & ?). lia.
Qed.

Lemma seq_order_witness :
  seqLT (u32 (2^32 - 5)) (u32 (2^32 + 5)) = true ∧ seqLT (u32 (2^32 + 5)) (u32 (2^32 - 5)) = false.
Proof.
  destruct (seq_order (2^32 - 5) (2^32 + 5)) as [H1 _]; [lia|].
  destruct (seq_order (2^32 + 5) (2^32 - 5)) as [H2 _]; [lia|]. by rewrite H1, H2.
Defined.

(** * The receive buffer reassembles the stream *)

Section receive.
Context (stream : Z → Z).

(** The [n] stream bytes from position [x]. *)
Definition slice (x n : Z) : list Z := stream <$> seqZ x n.

Lemma slice_app x n k : 0 ≤ n → 0 ≤ k → slice x n ++ slice (x + n) k = slice x (n + k).
Proof. intros. unfold slice. by rewrite seqZ_app, fmap_app. Qed.

(** A segment that holds the [l] bytes at position [x], inside [lo, hi]. *)
Definition seg_at (seg : tcpOOOSegment) (x l : Z) : Prop :=
  oooStart seg = u32 x ∧ oooEnd seg = u32 (x + l) ∧ oooPayload seg = slice x l.
Definition held (lo hi : Z) (seg : tcpOOOSegment) : Prop :=
  ∃ x l, lo ≤ x ∧ 0 ≤ l ∧ x + l ≤ hi ∧ seg_at seg x l.

Lemma u32_inj lo hi x y : hi - lo < 2^32 → lo ≤ x ≤ hi → lo ≤ y ≤ hi → u32 x = u32 y → x = y.
Proof.
  intros Hw Hx Hy Heq. unfold u32 in Heq.
  assert ((x - y) mod 2^32 = 0) as Hm by (rewrite Zminus_mod, Heq, Z.sub_diag; done).
  destruct (decide (y ≤ x)).
  - rewrite Z.mod_small in Hm; lia.
  - rewrite <-(Z.mod_add _ 1), Z.mod_small in Hm; lia.
Qed.

(** What a pass or several passes produce from position [n]. *)
Record collected_to (hi n : Z) (segs segs' : list tcpOOOSegment) (n' : Z)
    (chunks : list (list Z)) : Prop := {
  ct_range : n ≤ n' ≤ hi;
  ct_bytes : concat chunks = slice n (n' - n);
  ct_rest : sublist segs' segs;
  ct_count : (length segs' + length chunks = length segs)%nat;
}.

Lemma collect_pass_spec lo hi segs newSegs n chunks found :
  hi - lo < 2^32 → Forall (held lo hi) segs → lo ≤ n ≤ hi →
  ∃ segs' n' more, collect_pass segs newSegs (u32 n) chunks found =
      (newSegs ++ segs', u32 n', chunks ++ more, found || negb (bool_decide (more = []))) ∧
    collected_to hi n segs segs' n' more ∧
    (more = [] → n' = n ∧ segs' = segs ∧ Forall (λ s, oooStart s ≠ u32 n) segs).
Proof.
  intros Hw Hs. revert newSegs n chunks found.
  induction Hs as [|seg segs (x & l & Hx & Hl & Hxl & Hst & Hen & Hpl) Hs IH];
    intros newSegs n chunks found Hn; cbn [collect_pass].
  { exists [], n, []. rewrite !app_nil_r, orb_false_r.
    split; [done|]. split; [|done]. split; [lia|by rewrite Z.sub_diag|done|done]. }
  destruct (Z.eqb_spec (oooStart seg) (u32 n)) as [E|E].
  - assert (x = n) as -> by (apply (u32_inj lo hi); [done|lia|lia|congruence]). rewrite Hen.
    destruct (IH newSegs (n + l) (chunks ++ [oooPayload seg]) true)
      as (segs' & n' & more & -> & [? Hb ? ?] & _); [lia|].
    exists segs', n', (oooPayload seg :: more). rewrite <-app_assoc, orb_true_r.
    split; [done|]. split; [|done]. split; [lia| |by apply sublist_cons|cbn; lia].
    cbn [concat]. rewrite Hb, Hpl, slice_app by lia. f_equal. lia.
  - destruct (IH (newSegs ++ [seg]) n chunks found) as (segs' & n' & more & -> & [? Hb ? ?] & Hm);
      [done|].
    exists (seg :: segs'), n', more. rewrite <-app_assoc. split; [done|]. split.
    + split; [done|done|by apply sublist_skip|cbn; lia].
    + intros Hmore. destruct (Hm Hmore) as (-> & -> & ?). split_and!; [done..|by constructor].
Qed.

Lemma Forall_sub {A} (P : A → Prop) l l' : sublist l' l → Forall P l → Forall P l'.
Proof.
  induction 1 as [|x l1 l2 _ IH|x l1 l2 _ IH]; [done|..]; intros [? ?]%Forall_cons; auto.
Qed.

Lemma collect_loop_spec lo hi fuel segs n chunks :
  hi - lo < 2^32 → Forall (held lo hi) segs → lo ≤ n ≤ hi → (length segs < fuel)%nat →
  ∃ segs' n' more, collect_loop fuel segs (u32 n) chunks = Some (segs', u32 n', chunks ++ more) ∧
    collected_to hi n segs segs' n' more ∧ Forall (λ s, oooStart s ≠ u32 n') segs'.
Proof.
  intros Hw. revert segs n chunks. induction fuel as [|fuel IH]; intros segs n chunks Hs Hn Hf; [lia|].
  cbn [collect_loop]. destruct (collect_pass_spec lo hi segs [] n chunks false)
    as (segs1 & n1 & more1 & -> & [Hr1 Hb1 Hsub1 Hc1] & Hm); [done..|]. cbn [app orb].
  case_bool_decide as Hempty; cbn [negb].
  - destruct (Hm Hempty) as (-> & -> & Hno). exists segs, n, more1. split; [done|]. by split; [split|].
  - destruct more1 as [|m1 more1]; [done|]. cbn [length] in Hc1.
    destruct (IH segs1 n1 (chunks ++ m1 :: more1)) as (segs2 & n2 & more2 & -> & [Hr2 Hb2 Hsub2 Hc2] & Hno);
      [by eapply Forall_sub|lia|lia|].
    exists segs2, n2, ((m1 :: more1) ++ more2). rewrite app_assoc. split; [done|]. split; [|done].
    split; [lia| |by etrans|rewrite length_app; cbn [length]; lia].
    rewrite concat_app, Hb1, Hb2. replace n1 with (n + (n1 - n)) at 2 by lia.
    rewrite slice_app by lia. f_equal. lia.
Qed.
End receive.

(** C22: collecting always returns; from position [n] it hands out, in order,
    exactly the stream bytes up to some position [n'] at which no buffered
    segment starts, moves the expected sequence number there, and keeps every
    segment it did not hand out.  The buffered segments only have to be pieces
    of the stream within a window of 2^32 bytes: they may be unsorted, overlap
    or be out of date. *)
Theorem recv_reassembles (stream : Z → Z) (rb : tcpRecvBuffer) (lo hi n : Z) :
  hi - lo < 2^32 → Forall (held stream lo hi) (rsegments rb) → lo ≤ n ≤ hi →
  ∃ segs' n' chunks,
    collectContiguous rb (u32 n) = Some (rb <| rsegments := segs' |>, u32 n', chunks) ∧
    n ≤ n' ≤ hi ∧ concat chunks = slice stream n (n' - n) ∧
    sublist segs' (rsegments rb) ∧ (length segs' + length chunks = length (rsegments rb))%nat ∧
    Forall (λ s, oooStart s ≠ u32 n') segs'.
Proof.
  intros Hw Hs Hn. unfold collectContiguous.
  destruct (collect_loop_spec stream lo hi (S (length (rsegments rb))) (rsegments rb) n [])
    as (segs' & n' & chunks & -> & [] & Hno); [done..|lia|].
  exists segs', n', chunks. split_and!; done || lia.
Qed.

(** Two segments around the wrap-around, stored out of order. *)
Definition demo_recv : tcpRecvBuffer :=
  mkRecvBuffer [mkOOO (u32 (2^32 + 1)) (u32 (2^32 + 3)) [3; 4];
                mkOOO (u32 (2^32 - 1)) (u32 (2^32 + 1)) [1; 2]] 16.

Lemma recv_reassembles_witness :
  ∃ segs' n' chunks, collectContiguous demo_recv (u32 (2^32 - 1)) =
      Some (demo_recv <| rsegments := segs' |>, u32 n', chunks) ∧
    concat chunks = slice (λ p, p - 2^32 + 2) (2^32 - 1) (n' - (2^32 - 1)).
Proof.
  destruct (recv_reassembles (λ p, p - 2^32 + 2) demo_recv (2^32 - 1) (2^32 + 3) (2^32 - 1))
    as (segs' & n' & chunks & E & _ & Hc & _); [lia| |lia|].
  - apply Forall_cons; split; [exists (2^32 + 1), 2|apply Forall_cons; split; [exists (2^32 - 1), 2|done]];
      (split; [lia|]; split; [lia|]; split; [lia|]; unfold seg_at; split_and!; vm_compute; reflexivity).
  - by exists segs', n', chunks.
Defined.

(** * Insertion keeps the receive buffer sorted and disjoint *)

Section inserting.
Context (lo hi : Z) (window : hi - lo < 2^31).

(** The range of a segment and the order of disjoint ranges. *)
Definition range_of (seg : tcpOOOSegment) (r : Z * Z) : Prop :=
  lo ≤ r.1 ∧ 0 < r.2 ∧ r.1 + r.2 ≤ hi ∧ oooStart seg = u32 r.1 ∧ oooEnd seg = u32 (r.1 + r.2).
Definition before (r r' : Z * Z) : Prop := r.1 + r.2 ≤ r'.1.
Definition apart (r r' : Z * Z) : bool := (r.1 + r.2 <=? r'.1) || (r'.1 + r'.2 <=? r.1).

Lemma scan_overlap seg r e r' :
  range_of seg r → range_of e r' →
  seqOverlap (oooStart seg) (oooEnd seg) (oooStart e) (oooEnd e) = negb (apart r r').
Proof.
  intros (? & ? & ? & -> & ->) (? & ? & ? & -> & ->). rewrite seqOverlap_pos by lia.
  unfold apart. rewrite negb_orb, <-!Z.ltb_antisym. apply andb_comm.
Qed.
Lemma scan_before seg r e r' :
  range_of seg r → range_of e r' → apart r r' → seqLT (oooStart seg) (oooStart e) = (r.1 <? r'.1).
Proof. intros (? & ? & ? & -> & _) (? & ? & ? & -> & _) _. by rewrite seqLT_pos by lia. Qed.

(** After the position is found the scan only looks for an overlap. *)
Lemma insert_scan_found seg r segs rs i idx total :
  range_of seg r → Forall2 range_of segs rs → idx ≠ total →
  insert_scan seg segs i idx total = if forallb (apart r) rs then Some idx else None.
Proof.
  intros Hr Hs Hne. revert i. induction Hs as [|e r' segs rs He Hs IH]; intros i; cbn; [done|].
  rewrite (scan_overlap seg r e r') by done. destruct (apart r r'); cbn; [|done].
  destruct (Nat.eqb_spec idx total); [done|]. by rewrite andb_false_r, IH.
Qed.

(** The scan finds the number of segments that lie before the new one. *)
Lemma insert_scan_spec seg r segs rs i :
  range_of seg r → Forall2 range_of segs rs → StronglySorted before rs →
  ∃ k, (k ≤ length rs)%nat ∧
    insert_scan seg segs i (i + length segs) (i + length segs) =
      (if forallb (apart r) rs then Some (i + k)%nat else None) ∧
    (forallb (apart r) rs →
      Forall (λ r', before r' r) (take k rs) ∧ Forall (λ r', before r r') (drop k rs)).
Proof.
  intros Hr Hs Hsort. revert i. induction Hs as [|e r' segs rs He Hs IH]; intros i.
  { exists 0%nat. cbn. by rewrite Nat.add_0_r. }
  apply StronglySorted_inv in Hsort as [Hsort Hall]. cbn [insert_scan forallb length].
  rewrite (scan_overlap seg r e r') by done. destruct (apart r r') eqn:Ha; cbn [negb andb].
  2: { exists 0%nat. split; [lia|done]. }
  rewrite (scan_before seg r e r') by (done || by rewrite Ha). rewrite Nat.eqb_refl, andb_true_r.
  destruct (Z.ltb_spec r.1 r'.1) as [Hlt|Hge].
  - rewrite (insert_scan_found seg r segs rs) by (done || lia). exists 0%nat.
    rewrite Nat.add_0_r. split; [lia|]. split; [done|]. intros _. split; [done|]. cbn.
    assert (before r r') as Hb.
    { unfold apart in Ha. destruct Hr as (_ & ? & _). unfold before.
      destruct He as (_ & ? & _). lia. }
    constructor; [done|]. eapply Forall_impl; [exact Hall|]. intros r'' Hr''. unfold before in *.
    destruct He as (_ & ? & _). lia.
  - destruct (IH Hsort (S i)) as (k & Hk & Hscan & Hkeep). exists (S k). split; [cbn; lia|].
    replace (i + S (length segs))%nat with (S i + length segs)%nat by lia. rewrite Hscan.
    split; [destruct (forallb _ _); [f_equal; lia|done]|].
    intros Hf. destruct (Hkeep Hf) as [Ht Hd]. cbn. split; [|done]. constructor; [|done].
    unfold apart in Ha. destruct Hr as (_ & ? & _). unfold before. destruct He as (_ & ? & _). lia.
Qed.

Lemma sorted_insert r rs k :
  StronglySorted before rs → Forall (λ r', before r' r) (take k rs) →
  Forall (λ r', before r r') (drop k rs) → StronglySorted before (take k rs ++ r :: drop k rs).
Proof.
  revert k. induction rs as [|r' rs IH]; intros [|k] Hs Ht Hd; cbn in *;
    [by repeat constructor|by repeat constructor|by constructor|].
  - apply StronglySorted_inv in Hs as [Hs Hall]. apply Forall_cons in Ht as [Hr Ht].
    constructor; [by apply IH|]. apply Forall_app. split; [by apply Forall_take|].
    constructor; [done|by apply Forall_drop].
Qed.
End inserting.

(** in a window of less than 2^31 bytes, a segment is stored exactly when
    it meets no stored segment and there is room for another gap; it then
    takes its place in the order of stream positions, the stored segments stay
    sorted and disjoint, and otherwise the buffer is unchanged. *)
Theorem recv_insert_sorted (lo hi : Z) (rb : tcpRecvBuffer) (rs : list (Z * Z))
    (seg : tcpOOOSegment) (r : Z * Z) :
  hi - lo < 2^31 → Forall2 (range_of lo hi) (rsegments rb) rs → StronglySorted before rs →
  range_of lo hi seg r →
  if forallb (apart r) rs && (len rs <? maxGaps rb)
  then ∃ k, insert rb seg =
      (rb <| rsegments := take k (rsegments rb) ++ [seg] ++ drop k (rsegments rb) |>, true) ∧
    Forall2 (range_of lo hi) (take k (rsegments rb) ++ [seg] ++ drop k (rsegments rb))
      (take k rs ++ [r] ++ drop k rs) ∧
    StronglySorted before (take k rs ++ [r] ++ drop k rs)
  else insert rb seg = (rb, false).
Proof.
  intros Hw Hs Hsort Hr. unfold insert. pose proof (Forall2_length _ _ _ Hs) as Hlen.
  destruct (insert_scan_spec lo hi Hw seg r (rsegments rb) rs 0 Hr Hs Hsort)
    as (k & Hk & Hscan & Hkeep). cbn [Nat.add] in Hscan. rewrite Hscan, Hlen.
  destruct (forallb (apart r) rs); cbn [andb]; [|done].
  destruct (Hkeep Logic.I) as [Ht Hd].
  destruct (Z.ltb_spec (len rs) (maxGaps rb)), (Z.geb_spec (len rs) (maxGaps rb)); try lia; [|done].
  exists k. split; [done|]. split; [|by apply sorted_insert].
  apply Forall2_app; [by apply Forall2_take|]. constructor; [done|by apply Forall2_drop].
Qed.

Lemma recv_insert_sorted_witness :
  ∃ k, insert (mkRecvBuffer [mkOOO (u32 (2^32 + 4)) (u32 (2^32 + 6)) [7; 8]] 16)
      (mkOOO (u32 (2^32 - 1)) (u32 (2^32 + 1)) [1; 2]) =
    (mkRecvBuffer (take k [mkOOO (u32 (2^32 + 4)) (u32 (2^32 + 6)) [7; 8]] ++
      [mkOOO (u32 (2^32 - 1)) (u32 (2^32 + 1)) [1; 2]] ++
      drop k [mkOOO (u32 (2^32 + 4)) (u32 (2^32 + 6)) [7; 8]]) 16, true).
Proof.
  pose proof (recv_insert_sorted (2^32 - 1) (2^32 + 6)
    (mkRecvBuffer [mkOOO (u32 (2^32 + 4)) (u32 (2^32 + 6)) [7; 8]] 16) [(2^32 + 4, 2)]
    (mkOOO (u32 (2^32 - 1)) (u32 (2^32 + 1)) [1; 2]) (2^32 - 1, 2)) as Hi.
  destruct Hi as (k & E & _).
  - lia.
  - constructor; [|constructor]. split_and!; cbn; done || lia.
  - repeat constructor.
  - split_and!; cbn; done || lia.
  - by exists k.
Defined.

(** * The send buffer releases what is acknowledged *)

(** The segments hold the stream positions from [x] to [y] in order. *)
Fixpoint covers (segs : list tcpSendSegment) (x y : Z) : Prop :=
  match segs with
  | [] => x = y
  | s :: segs =>
    0 < len (payload s) ∧ seqStart s = u32 x ∧ seqEnd s = u32 (x + len (payload s)) ∧
    covers segs (x + len (payload s)) y
  end.
Definition bytes_of (segs : list tcpSendSegment) : list Z := concat (map payload segs).

Lemma covers_length segs x y : covers segs x y → y = x + len (bytes_of segs).
Proof.
  revert x. induction segs as [|s segs IH]; intros x; cbn; [lia|].
  intros (_ & _ & _ & Hc). rewrite length_app. apply IH in Hc. unfold bytes_of in Hc. lia.
Qed.

Lemma covers_app segs s x y :
  covers segs x y → 0 < len (payload s) → seqStart s = u32 y →
  seqEnd s = u32 (y + len (payload s)) → covers (segs ++ [s]) x (y + len (payload s)).
Proof.
  intros Hc Hl Hs He. revert x Hc. induction segs as [|s' segs IH]; intros x; cbn.
  - by intros ->.
  - intros (? & ? & ? & Hc). split_and!; auto.
Qed.

(** Nothing is released below the acknowledged position. *)
Lemma ack_keep now p segs x y kept u b rtt :
  covers segs x y → p ≤ x → y - p < 2^31 →
  ack_loop now (u32 p) segs kept u b rtt = (kept ++ segs, u, b, rtt).
Proof.
  revert x kept. induction segs as [|s segs IH]; intros x kept; cbn.
  { intros _ _ _. by rewrite app_nil_r. }
  intros (Hl & _ & -> & Hc) Hp Hy. pose proof (covers_length _ _ _ Hc).
  rewrite seqLTE_pos by lia. destruct (Z.leb_spec (x + len (payload s)) p); [lia|].
  rewrite (IH (x + len (payload s))) by (done || lia). by rewrite <-app_assoc.
Qed.

(** A round-trip sample comes from a segment sent once (Karn's rule). *)
Definition sample_ok (now : Z) (segs : list tcpSendSegment) (rtt : option Z) : Prop :=
  match rtt with
  | None => True
  | Some d => ∃ s, s ∈ segs ∧ retxCount s = 0 ∧ d = now - sentAt s
  end.

Lemma ack_loop_spec now p segs x y u b rtt all :
  covers segs x y → x ≤ p ≤ y → y - x < 2^31 → segs ⊆ all → sample_ok now all rtt →
  ∃ segs' x' rtt', ack_loop now (u32 p) segs [] u b rtt =
      (segs', u - (x' - x), b + (x' - x), rtt') ∧
    x ≤ x' ≤ p ∧ covers segs' x' y ∧
    bytes_of segs' = drop (Z.to_nat (x' - x)) (bytes_of segs) ∧
    (∀ s rest, segs' = s :: rest → p < x' + len (payload s)) ∧ sample_ok now all rtt'.
Proof.
  revert x u b rtt. induction segs as [|s segs IH]; intros x u b rtt Hc Hp Hy Hall Hs; cbn in Hc.
  { subst y. exists [], x, rtt. cbn. rewrite Z.sub_diag, Z.sub_0_r, Z.add_0_r.
    split; [done|]. split_and!; done || lia. }
  destruct Hc as (Hl & Hst & Hen & Hc). cbn [ack_loop]. rewrite Hen.
  pose proof (covers_length _ _ _ Hc). rewrite seqLTE_pos by lia.
  destruct (Z.leb_spec (x + len (payload s)) p).
  - destruct (IH (x + len (payload s)) (u - len (payload s)) (b + len (payload s))
      (if (retxCount s =? 0) && negb (non_nil rtt) then Some (now - sentAt s) else rtt))
      as (segs' & x' & rtt' & -> & Hx & Hc' & Hb & Hm & Hs'); [done|lia|lia| | |].
    { intros s' Hs'. apply Hall. by right. }
    { destruct (Z.eqb_spec (retxCount s) 0), rtt; cbn; try done. exists s.
      split_and!; [apply Hall; by left|done..]. }
    exists segs', x', rtt'.
    replace (u - len (payload s) - (x' - (x + len (payload s)))) with (u - (x' - x)) by lia.
    replace (b + len (payload s) + (x' - (x + len (payload s)))) with (b + (x' - x)) by lia.
    split; [done|]. split_and!; auto; try lia.
    rewrite Hb. cbn. rewrite drop_app_ge by lia. f_equal. lia.
  - rewrite (ack_keep now p segs (x + len (payload s)) y) by (done || lia).
    exists (s :: segs), x, rtt. cbn [app]. rewrite Z.sub_diag, Z.sub_0_r, Z.add_0_r.
    split; [done|]. split_and!; try done; try lia. by intros ? ? [= <- <-].
Qed.

(** for a retransmission queue holding the stream from [una] to [nxt], an
    acknowledgement of position [p] in that range releases exactly the
    segments that end at or before it: the queue then holds the stream from
    the last segment boundary at or before [p], the count of buffered bytes is
    exact and stays within the capacity, the bytes still queued are the
    unacknowledged end of those queued before, and a round-trip sample is
    taken only from a segment that was sent once. *)
Theorem send_ack_releases (sb : tcpSendBuffer) (now una nxt p : Z) :
  covers (segments sb) una nxt → used sb = nxt - una → used sb ≤ capacity sb →
  una ≤ p ≤ nxt → nxt - una < 2^31 →
  ∃ sb' una' rtt, ack sb now (u32 p) = (sb', una' - una, rtt) ∧
    una ≤ una' ≤ p ∧ covers (segments sb') una' nxt ∧ used sb' = nxt - una' ∧
    used sb' ≤ capacity sb' ∧
    bytes_of (segments sb') = drop (Z.to_nat (una' - una)) (bytes_of (segments sb)) ∧
    (∀ s rest, segments sb' = s :: rest → p < una' + len (payload s)) ∧
    sample_ok now (segments sb) rtt.
Proof.
  intros Hc Hu Hcap Hp Hw. unfold ack.
  destruct (ack_loop_spec now p (segments sb) una nxt (used sb) 0 None (segments sb))
    as (segs' & una' & rtt & -> & Hx & Hc' & Hb & Hm & Hs); [done..|].
  exists (sb <| segments := segs' |> <| used := used sb - (una' - una) |>), una', rtt.
  split; [done|]. cbn. split_and!; auto; lia.
Qed.

Definition demo_send : tcpSendBuffer :=
  mkSendBuffer [mkSend (u32 (2^32 - 2)) (u32 (2^32 + 1)) [1; 2; 3] 100 0;
                mkSend (u32 (2^32 + 1)) (u32 (2^32 + 3)) [4; 5] 110 0] 1024 5.

Lemma send_ack_releases_witness :
  ∃ sb' una' rtt, ack demo_send 150 (u32 (2^32 + 2)) = (sb', una' - (2^32 - 2), rtt) ∧
    covers (segments sb') una' (2^32 + 3) ∧ used sb' = 2^32 + 3 - una'.
Proof.
  destruct (send_ack_releases demo_send 150 (2^32 - 2) (2^32 + 3) (2^32 + 2))
    as (sb' & una' & rtt & E & _ & Hc & Hu & _).
  - cbn. split_and!; done || lia.
  - done.
  - done.
  - lia.
  - lia.
  - by exists sb', una', rtt.
Defined.

(** * The retransmission timeout stays in its bounds *)

Inductive rtt_event := Sample (rtt : Z) | Backoff | Reset.
Definition rtt_step (r : tcpRTTEstimator) (e : rtt_event) : tcpRTTEstimator :=
  match e with
  | Sample rtt => rtt_update r rtt
  | Backoff => backoff r
  | Reset => resetBackoff r
  end.

Definition rtt_ok (r : tcpRTTEstimator) : Prop :=
  0 ≤ srtt r < 2^59 ∧ 0 ≤ rttVar r < 2^59 ∧ minRTO ≤ rto r ≤ maxRTO.

Lemma i64_small z : - 2^63 ≤ z < 2^63 → i64 z = z.
Proof.
  intros Hz. unfold i64, signed. change (2 ^ (64 - 1)) with (2^63). destruct (decide (0 ≤ z)).
  - rewrite Z.mod_small by lia. destruct (Z.ltb_spec z (2^63)); lia.
  - rewrite <-(Z.mod_add z 1), Z.mod_small by lia.
    destruct (Z.ltb_spec (z + 1 * 2^64) (2^63)); lia.
Qed.

Lemma quot_bounds x y m : 0 < y → 0 ≤ x < m * y → 0 ≤ Z.quot x y < m.
Proof.
  intros Hy Hx. rewrite Z.quot_div_nonneg by lia. split; [apply Z.div_pos; lia|].
  apply Z.div_lt_upper_bound; lia.
Qed.

Definition set_rto (r : tcpRTTEstimator) : tcpRTTEstimator :=
  let r := r <| rto := i64 (srtt r + 4 * rttVar r) |> in
  let r := if rto r <? minRTO then r <| rto := minRTO |> else r in
  if rto r >? maxRTO then r <| rto := maxRTO |> else r.

Lemma set_rto_ok r : 0 ≤ srtt r < 2^59 → 0 ≤ rttVar r < 2^59 → rtt_ok (set_rto r).
Proof.
  intros Hs Hv. unfold set_rto. cbn. rewrite !i64_small by lia. rewrite !Z.gtb_ltb.
  assert (minRTO < maxRTO) by done.
  destruct (Z.ltb_spec (srtt r + 4 * rttVar r) minRTO); cbn.
  - destruct (Z.ltb_spec maxRTO minRTO); split_and!; cbn; lia.
  - destruct (Z.ltb_spec maxRTO (srtt r + 4 * rttVar r)); split_and!; cbn; lia.
Qed.

Lemma rtt_update_ok r rtt : 0 ≤ rtt < 2^59 → rtt_ok r → rtt_ok (rtt_update r rtt).
Proof.
  intros Hr (Hs & Hv & _). unfold rtt_update. destruct (hasInitial r); cbn [negb].
  - apply set_rto_ok; cbn.
    + rewrite (i64_small (7 * srtt r + rtt)) by lia. apply quot_bounds; lia.
    + rewrite (i64_small (srtt r - rtt)) by lia. destruct (Z.ltb_spec (srtt r - rtt) 0);
        rewrite ?(i64_small (- (srtt r - rtt))), i64_small by lia; apply quot_bounds; lia.
  - apply set_rto_ok; cbn; [done|]. apply quot_bounds; lia.
Qed.

Lemma backoff_ok r : rtt_ok r → rtt_ok (backoff r).
Proof.
  intros (Hs & Hv & Hlo & Hhi). unfold backoff, rtt_ok. change minRTO with 50000000 in *.
  change maxRTO with 60000000000 in *. rewrite !Z.gtb_ltb. destruct (_ <? maxBackoffCount); cbn.
  - rewrite i64_small, Z.quot_div_nonneg by lia.
    assert (rto r ≤ rto r * 3 / 2) by (apply Z.div_le_lower_bound; lia).
    destruct (Z.ltb_spec 60000000000 (rto r * 3 / 2)); split_and!; cbn; lia.
  - destruct (Z.ltb_spec 60000000000 (rto r)); split_and!; cbn; lia.
Qed.

(** whatever round-trip times are measured (up to 2^59 ns, eighteen
    years) and however often the timer backs off, the retransmission timeout
    stays between 50 ms and 60 s, and no duration overflows. *)
Theorem rto_bounded (events : list rtt_event) :
  Forall (λ e, match e with Sample rtt => 0 ≤ rtt < 2^59 | _ => True end) events →
  minRTO ≤ getRTO (foldl rtt_step newTCPRTTEstimator events) ≤ maxRTO.
Proof.
  intros He. assert (∀ r, rtt_ok r → rtt_ok (foldl rtt_step r events)) as Hf.
  { induction He as [|e events He _ IH]; intros r Hr; cbn [foldl]; [done|]. apply IH.
    destruct e; [by apply rtt_update_ok|by apply backoff_ok|done]. }
  apply Hf. split_and!; done.
Qed.

Lemma rto_bounded_witness :
  minRTO ≤ getRTO (foldl rtt_step newTCPRTTEstimator
    [Sample 1000000; Backoff; Backoff; Sample 90000000000; Reset]) ≤ maxRTO.
Proof. apply rto_bounded. repeat constructor; lia. Defined.

(** * Congestion control never divides by zero *)

Inductive cc_event := NewAck (bytesAcked : Z) | DupAck | Timeout_.
Definition cc_step (cc : result tcpCongestionControl) (e : cc_event) : result tcpCongestionControl :=
  cc ← cc;
  match e with
  | NewAck n => onAck cc n
  | DupAck => Ok (onDupAck cc).1
  | Timeout_ => Ok (onTimeout cc)
  end.

Definition cc_ok (mss_ : Z) (cc : tcpCongestionControl) : Prop :=
  ccMss cc = mss_ ∧ is_u32 (cwnd cc) ∧ 2 * mss_ ≤ ssthresh cc < 2^32.

Lemma halve_ok mss_ cc : 0 < mss_ < 2^16 → cc_ok mss_ cc → cc_ok mss_ (halve cc).
Proof.
  intros Hm (Hmss & [? ?] & Hs). unfold halve. cbn. rewrite Hmss, u32_small by (unfold is_u; lia).
  assert (cwnd cc / 2 < 2^32) by (apply Z.div_lt_upper_bound; lia).
  destruct (Z.ltb_spec (cwnd cc / 2) (2 * mss_)); split_and!; cbn; unfold is_u; lia.
Qed.

Lemma cc_step_ok mss_ cc e : 0 < mss_ < 2^16 → cc_ok mss_ cc → ∃ cc', cc_step (Ok cc) e = Ok cc' ∧ cc_ok mss_ cc'.
Proof.
  intros Hm Hcc. pose proof Hcc as (Hmss & Hw & Hs). unfold cc_step. cbn [mbind result_bind]. destruct e.
  - unfold onAck. cbn. destruct (Z.ltb_spec (cwnd cc) (ssthresh cc)).
    + eexists. split; [done|]. split_and!; cbn; auto with go; lia.
    + destruct (Z.eqb_spec (cwnd cc) 0); [lia|].
      eexists. split; [done|]. split_and!; cbn; auto with go; lia.
  - unfold onDupAck. eexists. split; [done|].
    destruct (_ =? _); [|destruct (_ >? _)]; cbn [fst].
    + assert (cc_ok mss_ (halve (cc <| dupAcks := dupAcks cc + 1 |>))) as (? & ? & ?)
        by (apply halve_ok; [lia|exact Hcc]).
      generalize dependent (halve (cc <| dupAcks := dupAcks cc + 1 |>)). intros h ? ? ?.
      split_and!; cbn; auto with go; lia.
    + split_and!; cbn; auto with go; lia.
    + split_and!; cbn; auto; lia.
  - unfold onTimeout. eexists. split; [done|].
    destruct (halve_ok mss_ cc Hm Hcc) as (Hm' & ? & ?).
    split_and!; cbn -[halve]; rewrite ?Hm'; unfold is_u; try lia; done.
Qed.

(** The most an event adds to the window. *)
Definition growth (mss_ : Z) (e : cc_event) : Z :=
  match e with NewAck n => Z.max (u32 n) mss_ | DupAck => 5 * mss_ | Timeout_ => 0 end.
Definition total_growth (mss_ : Z) (events : list cc_event) : Z := foldr (λ e g, growth mss_ e + g) 0 events.
Lemma growth_nonneg mss_ e : 0 < mss_ → 0 ≤ growth mss_ e.
Proof. destruct e; cbn; lia. Qed.
Lemma total_growth_nonneg mss_ events : 0 < mss_ → 0 ≤ total_growth mss_ events.
Proof. intros Hm. induction events as [|e events IH]; cbn; [lia|]. pose proof (growth_nonneg mss_ e Hm). unfold total_growth in *. lia. Qed.

(** Without wrapping, the window keeps at least one segment. *)
Lemma halve_thresh mss_ cc : 0 < mss_ < 2^16 → ccMss cc = mss_ → ssthresh (halve cc) = Z.max (cwnd cc / 2) (2 * mss_).
Proof.
  intros Hm E. unfold halve. cbn. rewrite E, u32_small by (unfold is_u; lia).
  destruct (Z.ltb_spec (cwnd cc / 2) (2 * mss_)); cbn; lia.
Qed.
Lemma halve_mss cc : ccMss (halve cc) = ccMss cc.
Proof. unfold halve. by destruct (_ <? _). Qed.
Lemma cc_step_window mss_ cc e cc' :
  0 < mss_ < 2^16 → cc_ok mss_ cc → mss_ ≤ cwnd cc → cwnd cc + growth mss_ e < 2^32 →
  cc_step (Ok cc) e = Ok cc' → mss_ ≤ cwnd cc' ≤ cwnd cc + growth mss_ e.
Proof.
  intros Hm (Hmss & Hw & Hs) Hlow Hg. unfold cc_step. cbn [mbind result_bind]. destruct e as [n| |]; cbn [growth] in Hg |- *.
  - unfold onAck. cbn. pose proof (u32_nonneg n). destruct (Z.ltb_spec (cwnd cc) (ssthresh cc)).
    + intros [= <-]. cbn. rewrite u32_small by (unfold is_u; lia). lia.
    + destruct (Z.eqb_spec (cwnd cc) 0); [lia|]. intros [= <-]. cbn. rewrite Hmss, (u32_small (mss_ * mss_)) by (unfold is_u; nia).
      assert (0 ≤ mss_ * mss_ / cwnd cc ≤ mss_) as Hi.
      { split; [apply Z.div_pos; nia|]. apply Z.div_le_upper_bound; nia. }
      destruct (Z.ltb_spec (mss_ * mss_ / cwnd cc) 1); rewrite u32_small by (unfold is_u; lia); lia.
  - intros [= <-]. unfold onDupAck. destruct (_ =? _); [|destruct (_ >? _)]; cbn [fst].
    + set (h := cc <| dupAcks := _ |>). pose proof (halve_thresh mss_ h Hm Hmss) as Ht. pose proof (halve_mss h) as Hh.
      change (cwnd h) with (cwnd cc) in Ht. change (ccMss h) with (ccMss cc) in Hh. generalize dependent (halve h). intros h' Ht Hh.
      cbn. rewrite Ht, Hh, Hmss. change fastRetransmitThreshold with 3. assert (cwnd cc / 2 ≤ cwnd cc) by (apply Z.div_le_upper_bound; lia).
      assert (0 ≤ cwnd cc / 2) by (apply Z.div_pos; lia).
      rewrite (u32_small (3 * mss_)), u32_small by (unfold is_u; lia). lia.
    + cbn. rewrite Hmss, u32_small by (unfold is_u; lia). lia.
    + cbn. lia.
  - intros [= <-]. unfold onTimeout. cbn -[halve]. rewrite halve_mss. lia.
Qed.

(** C40: for every maximum segment size other than zero the controller handles
    any sequence of acknowledgements, duplicates and timeouts without dividing
    by zero, its window stays a 32-bit value and the slow-start threshold never
    falls below two segments; and as long as what the events can add to the
    initial window stays below 2^32, the window never wraps and never falls
    below one segment, so that the connection does not stop sending. *)
Theorem congestion_safe (mss_ : Z) (events : list cc_event) :
  0 < mss_ < 2^16 →
  ∃ cc, foldl cc_step (Ok (newTCPCongestionControl mss_)) events = Ok cc ∧
    is_u32 (cwnd cc) ∧ 2 * mss_ ≤ ssthresh cc < 2^32 ∧
    (initialCwndSegments * mss_ + total_growth mss_ events < 2^32 →
     mss_ ≤ cwnd cc ≤ initialCwndSegments * mss_ + total_growth mss_ events).
Proof.
  intros Hm. assert (∀ cc, cc_ok mss_ cc → ∃ cc', foldl cc_step (Ok cc) events = Ok cc' ∧ cc_ok mss_ cc' ∧
    (mss_ ≤ cwnd cc → cwnd cc + total_growth mss_ events < 2^32 → mss_ ≤ cwnd cc' ≤ cwnd cc + total_growth mss_ events)) as Hf.
  { induction events as [|e events IH]; intros cc Hcc; cbn [foldl total_growth foldr].
    { exists cc. split_and!; [done|by apply Hcc..|]. lia. }
    destruct (cc_step_ok mss_ cc e Hm Hcc) as (cc1 & E & Hcc1). rewrite E.
    destruct (IH cc1 Hcc1) as (cc' & E' & Hcc' & Hw). exists cc'. split_and!; [done|by apply Hcc'..|]. fold (total_growth mss_ events).
    intros Hlow Hg. pose proof (total_growth_nonneg mss_ events ltac:(lia)).
    pose proof (cc_step_window mss_ cc e cc1 Hm Hcc Hlow ltac:(lia) E). specialize (Hw ltac:(lia) ltac:(lia)). lia. }
  assert (cwnd (newTCPCongestionControl mss_) = initialCwndSegments * mss_) as Ew.
  { cbn. apply u32_small. unfold is_u, initialCwndSegments. lia. }
  destruct (Hf (newTCPCongestionControl mss_)) as (cc & E & (_ & Hw & Hs) & Hwin).
  - split_and!; cbn; auto with go; lia.
  - exists cc. rewrite Ew in Hwin. split; [done|]. split; [exact Hw|]. split; [exact Hs|]. intros Hg. apply Hwin; [|done]. unfold initialCwndSegments. lia.
Qed.

Lemma congestion_safe_witness :
  ∃ cc, foldl cc_step (Ok (newTCPCongestionControl 1460))
      [NewAck 1460; DupAck; DupAck; DupAck; Timeout_; NewAck 5000] = Ok cc ∧
    1460 ≤ cwnd cc ≤ 10 * 1460 + (1460 + 3 * (5 * 1460) + 5000).
Proof.
  destruct (congestion_safe 1460 [NewAck 1460; DupAck; DupAck; DupAck; Timeout_; NewAck 5000] ltac:(lia)) as (cc & E & _ & _ & Hw).
  exists cc. split; [exact E|]. apply Hw. vm_compute. reflexivity.
Defined.

(** In slow start an acknowledgement can wrap the window to zero. *)
Lemma window_wraps : ∃ cc, onAck (newTCPCongestionControl 1460) (2^32 - 14600) = Ok cc ∧ cwnd cc = 0.
Proof. eexists. split; reflexivity. Qed.
