(* ===== verification/Packet.v ===== *)
(** Packets of the user-mode network: src/internal/netstack/netstack.go
    (checksums, MAC addresses, header parsing and building) and
    src/internal/netstack/source_validation.go.

    Frames are built in pooled buffers, so every builder takes the stale
    contents of its buffer and overwrites them as the code does.

    The theorems: inserting a computed checksum makes the packet check as
    valid; a TCP segment, with the stack's own Ethernet and IPv4 headers, is
    parsed back to the same fields with both checksums valid whatever the
    buffer held before; and the source check accepts exactly the frames that
    speak for the guest. *)
From S2P Require Import Prelude.

Definition etherTypeIPv4 : Z := 0x0800.
Definition etherTypeIPv6 : Z := 0x86DD.
Definition etherTypeARP : Z := 0x0806.
Definition etherTypeCustom : Z := 0x1234.
Definition tcpProtocolNumber : Z := 6.
Definition udpProtocolNumber : Z := 17.
Definition icmpProtocol : Z := 1.
Definition arpHardwareEthernet : Z := 1.
Definition arpProtoIPv4 : Z := 0x0800.
Definition tcpHeaderLen : nat := 20.
Definition udpHeaderLen : nat := 8.
Definition ipv4HeaderLen : nat := 20.
Definition ethernetHeaderLen : nat := 14.
Definition macMask : Z := 2^48 - 1.
Definition macUnset : Z := 2^64 - 1.

(** Big-endian fields of a byte string. *)
Definition byte_at (data : list Z) (i : nat) : Z := nth i data 0.
Definition get16 (data : list Z) (i : nat) : Z := be_val (sub data i 2).
Definition get32 (data : list Z) (i : nat) : Z := be_val (sub data i 4).
Definition put16 (i : nat) (v : Z) (buf : list Z) : list Z := overwrite buf i (be_bytes 2 (u16 v)).
Definition put32 (i : nat) (v : Z) (buf : list Z) : list Z := overwrite buf i (be_bytes 4 (u32 v)).
Definition put8 (i : nat) (v : Z) (buf : list Z) : list Z := overwrite buf i [u8 v].
Definition copy_at (i : nat) (src buf : list Z) : list Z := overwrite buf i src.

(** * Internet checksums: 32-bit accumulators *)

Fixpoint sum_words (data : list Z) (sum : Z) : Z :=
  match data with
  | a :: b :: data => sum_words data (u32 (sum + be_val [a; b]))
  | [a] => u32 (sum + Z.shiftl a 8)
  | [] => sum
  end.
(** Two turns are enough for a 32-bit sum. *)
Fixpoint fold_above (fuel : nat) (sum : Z) : Z :=
  match fuel with
  | O => sum
  | S fuel => if sum >? 0xffff then fold_above fuel (Z.shiftr sum 16 + Z.land sum 0xffff) else sum
  end.
Fixpoint fold_carry (fuel : nat) (sum : Z) : Z :=
  match fuel with
  | O => sum
  | S fuel =>
    if negb (Z.shiftr sum 16 =? 0) then fold_carry fuel (Z.land sum 0xffff + Z.shiftr sum 16) else sum
  end.
Definition complement16 (sum : Z) : Z := u16 (Z.lnot (u16 sum)).

Definition ipv4Checksum (data : list Z) : Z := complement16 (fold_above 2 (sum_words data 0)).
Definition checksum (data : list Z) : Z := complement16 (fold_carry 2 (sum_words data 0)).
Definition checksumWithInitial (data : list Z) (initial : Z) : Z :=
  complement16 (fold_carry 2 (sum_words data initial)).
Definition pseudoHeaderChecksum (src dst : list Z) (protocol length_ : Z) : Z :=
  let sum := u32 (0 + get16 src 0) in
  let sum := u32 (sum + get16 src 2) in
  let sum := u32 (sum + get16 dst 0) in
  let sum := u32 (sum + get16 dst 2) in
  let sum := u32 (sum + protocol) in
  u32 (sum + u32 length_).
Definition udpChecksum (src dst payload : list Z) : Z :=
  checksumWithInitial payload (pseudoHeaderChecksum src dst udpProtocolNumber (len payload)).
Definition tcpChecksum (src dst payload : list Z) : Z :=
  checksumWithInitial payload (pseudoHeaderChecksum src dst tcpProtocolNumber (len payload)).

(** * MAC addresses *)

Definition isBroadcast (addr : list Z) : bool := forallb (λ b, b =? 0xff) addr.
Definition macToUint64 (mac : list Z) : option Z :=
  match mac with
  | [m0; m1; m2; m3; m4; m5] =>
    Some (Z.lor (Z.lor (Z.lor (Z.lor (Z.lor (Z.shiftl m0 40) (Z.shiftl m1 32)) (Z.shiftl m2 24))
            (Z.shiftl m3 16)) (Z.shiftl m4 8)) m5)
  | _ => None
  end.
Definition mac_bytes (v : Z) : list Z :=
  [u8 (Z.shiftr v 40); u8 (Z.shiftr v 32); u8 (Z.shiftr v 24);
   u8 (Z.shiftr v 16); u8 (Z.shiftr v 8); u8 v].
(** The empty list is the nil address. *)
Definition macFromUint64 (v : Z) : list Z :=
  if v =? macUnset then [] else mac_bytes (Z.land v macMask).
Definition macIsSet (v : Z) : bool := negb (v =? macUnset).
Definition macEqualUint64 (addr : list Z) (mac : Z) : bool :=
  if negb (macIsSet mac) then false
  else match macToUint64 addr with Some value => value =? Z.land mac macMask | None => false end.
Definition writeMAC (i : nat) (mac : Z) (buf : list Z) : list Z :=
  if negb (macIsSet mac) then buf else overwrite buf i (mac_bytes mac).
Definition ipEqual (a b : list Z) : bool := bool_decide (a = b).
Definition equalHardwareAddr (a b : list Z) : bool :=
  (length a =? 6)%nat && (length b =? 6)%nat && bool_decide (a = b).

(** * Headers *)

Record ipv4Header := mkIPv4 {
  version : Z; ihl : Z; tos : Z; ip_length : Z; ip_id : Z; ip_flags : Z; ttl : Z; protocol : Z;
  ip_checksum : Z; src : list Z; dst : list Z; ip_options : list Z; ip_payload : list Z;
}.
Definition parseIPv4Header (data : list Z) : result ipv4Header :=
  if (length data <? ipv4HeaderLen)%nat then Err "ipv4 header too short"
  else
    let verIHL := byte_at data 0 in
    let version_ := Z.shiftr verIHL 4 in
    let ihl_ := Z.land verIHL 0x0f in
    if negb (version_ =? 4) then Err "unsupported ipv4 version"
    else
      let headerLen := Z.to_nat (ihl_ * 4) in
      if (length data <? headerLen)%nat then Err "ipv4 header length mismatch"
      else Ok (mkIPv4 version_ ihl_ (byte_at data 1) (get16 data 2) (get16 data 4) (get16 data 6)
        (byte_at data 8) (byte_at data 9) (get16 data 10) (sub data 12 4) (sub data 16 4)
        (if (ipv4HeaderLen <? headerLen)%nat
         then sub data ipv4HeaderLen (headerLen - ipv4HeaderLen) else [])
        (drop headerLen data)).

Record tcpHeader := mkHeader {
  srcPort : Z; dstPort : Z; seq : Z; ack_ : Z; dataOff : Z; flags : Z; window : Z;
  tcp_checksum : Z; urgent : Z; options : list Z; hpayload : list Z;
}.
Definition tcpFlagFIN : Z := 0x01.
Definition tcpFlagSYN : Z := 0x02.
Definition tcpFlagRST : Z := 0x04.
Definition tcpFlagPSH : Z := 0x08.
Definition tcpFlagACK : Z := 0x10.

(** A data offset below five is accepted: the payload then starts inside the
    header. *)
Definition parseTCPHeader (data : list Z) : result tcpHeader :=
  if (length data <? tcpHeaderLen)%nat then Err "tcp header too short"
  else
    let hdrLen := Z.to_nat (u8 (Z.shiftr (byte_at data 12) 4 * 4)) in
    if (length data <? hdrLen)%nat then Err "tcp header length mismatch"
    else Ok (mkHeader (get16 data 0) (get16 data 2) (get32 data 4) (get32 data 8) (byte_at data 12)
      (byte_at data 13) (get16 data 14) (get16 data 16) (get16 data 18)
      (if (tcpHeaderLen <? hdrLen)%nat then sub data tcpHeaderLen (hdrLen - tcpHeaderLen) else [])
      (drop hdrLen data)).

(** * Building frames in a used buffer *)

Definition buildEthernetHeaderInto (dstMac srcMac etherType : Z) (buf : list Z) : list Z :=
  put16 12 etherType (writeMAC 6 srcMac (writeMAC 0 dstMac buf)).

Definition buildIPv4HeaderInto (src_ dst_ : list Z) (protocol_ payloadLen : Z) (packet : list Z) : list Z :=
  let totalLen := Z.of_nat ipv4HeaderLen + payloadLen in
  let packet := put8 0 (Z.lor (Z.shiftl 4 4) (Z.of_nat ipv4HeaderLen / 4)) packet in
  let packet := put8 1 0 packet in
  let packet := put16 2 totalLen packet in
  let packet := put16 4 0 packet in
  let packet := put16 6 0 packet in
  let packet := put8 8 64 packet in
  let packet := put8 9 protocol_ packet in
  let packet := copy_at 12 src_ packet in
  let packet := copy_at 16 dst_ packet in
  let packet := put8 10 0 packet in
  let packet := put8 11 0 packet in
  let check := ipv4Checksum (take ipv4HeaderLen packet) in
  put16 10 check packet.

(** The transport part and the frame around it. *)
Definition pad_options (options_ : list Z) : list Z :=
  let optLen := length options_ in
  if negb (optLen mod 4 =? 0)%nat
  then copy_at 0 options_ (replicate ((optLen + 3) / 4 * 4) 0) else options_.

Definition tcp_segment (srcIP dstIP : list Z) (srcPort_ dstPort_ seq_ ack_ flags_ : Z)
    (payload options_ packet : list Z) : list Z :=
  let optLen := length options_ in
  let headerLen := (tcpHeaderLen + optLen)%nat in
  let packet := replicate headerLen 0 ++ drop headerLen packet in
  let packet := put16 0 srcPort_ packet in
  let packet := put16 2 dstPort_ packet in
  let packet := put32 4 seq_ packet in
  let packet := put32 8 ack_ packet in
  let packet := put8 12 (Z.shiftl (u8 (Z.of_nat headerLen / 4)) 4) packet in
  let packet := put8 13 flags_ packet in
  let packet := put16 14 0xffff packet in
  let packet := if (0 <? optLen)%nat then copy_at tcpHeaderLen options_ packet else packet in
  let packet := copy_at headerLen payload packet in
  let packet := put16 16 0 packet in
  let check := tcpChecksum srcIP dstIP packet in
  put16 16 check packet.

(** [frame] is the pooled buffer: the stale bytes of a frame of the right
    size. *)
Definition ip_frame (dstMAC srcMAC : Z) (src_ dst_ : list Z) (protocol_ : Z)
    (packet frame : list Z) : list Z :=
  let header := buildIPv4HeaderInto src_ dst_ protocol_ (len packet)
    (sub frame ethernetHeaderLen ipv4HeaderLen) in
  buildEthernetHeaderInto dstMAC srcMAC etherTypeIPv4 (take ethernetHeaderLen frame) ++ header ++ packet.

Definition tcp_frame (dstMAC srcMAC : Z) (localIPv4 guestIP : list Z)
    (srcPort_ dstPort_ seq_ ack_ flags_ : Z) (payload options_ frame : list Z) : list Z :=
  let packet := tcp_segment localIPv4 guestIP srcPort_ dstPort_ seq_ ack_ flags_ payload
    (pad_options options_) (drop (ethernetHeaderLen + ipv4HeaderLen) frame) in
  ip_frame dstMAC srcMAC localIPv4 guestIP tcpProtocolNumber packet frame.

(** [buf] already holds the payload behind the UDP header. *)
Definition udp_frame (dstMAC srcMAC : Z) (srcIP dstIP : list Z) (srcPort_ dstPort_ : Z)
    (payloadLen : nat) (buf : list Z) : list Z :=
  let totalLen := 8 + Z.of_nat payloadLen in
  let start := (ethernetHeaderLen + ipv4HeaderLen)%nat in
  let packet := sub buf start (udpHeaderLen + payloadLen) in
  let packet := put16 0 srcPort_ packet in
  let packet := put16 2 dstPort_ packet in
  let packet := put16 4 totalLen packet in
  let packet := put16 6 0 packet in
  let check := udpChecksum srcIP dstIP packet in
  let packet := put16 6 check packet in
  ip_frame dstMAC srcMAC srcIP dstIP udpProtocolNumber packet buf
    ++ drop (start + udpHeaderLen + payloadLen) buf.

Definition icmp_reply (dstMAC srcMAC : Z) (src_ dst_ request frame : list Z) : list Z :=
  let reply := replicate (length request) 0 in
  let reply := put8 0 0 reply in
  let reply := put8 1 (byte_at request 1) reply in
  let reply := copy_at 4 (drop 4 request) reply in
  let check := checksum reply in
  let reply := put16 2 check reply in
  ip_frame dstMAC srcMAC src_ dst_ icmpProtocol reply frame.

Definition arp_reply (host : Z) (dstMAC senderMAC senderIP targetIP : list Z) : list Z :=
  let frame := replicate (ethernetHeaderLen + 28) 0 in
  let frame := copy_at 0 dstMAC frame in
  let frame := writeMAC 6 host frame in
  let frame := put16 12 etherTypeARP frame in
  let frame := put16 14 arpHardwareEthernet frame in
  let frame := put16 16 arpProtoIPv4 frame in
  let frame := put8 18 6 frame in
  let frame := put8 19 4 frame in
  let frame := put16 20 2 frame in
  let frame := writeMAC 22 host frame in
  let frame := copy_at 28 targetIP frame in
  let frame := copy_at 32 senderMAC frame in
  copy_at 38 senderIP frame.

(** * The source check *)

Inductive SourceViolation :=
  | SourceValid | SourceMalformed | SourceMACViolation | SourceARPViolation
  | SourceIPv4Violation | SourceUnsupportedProtocol.
#[export] Instance SourceViolation_eq_dec : EqDecision SourceViolation.
Proof. solve_decision. Defined.

Definition validateARPSource (packet expectedMAC expectedIPv4 : list Z) : SourceViolation :=
  if (length packet <? 28)%nat || negb (get16 packet 0 =? arpHardwareEthernet) ||
     negb (get16 packet 2 =? arpProtoIPv4) || negb (byte_at packet 4 =? 6) ||
     negb (byte_at packet 5 =? 4) then SourceMalformed
  else if negb (equalHardwareAddr (sub packet 8 6) expectedMAC) then SourceARPViolation
  else
    let senderIP := sub packet 14 4 in
    if ipEqual senderIP expectedIPv4 then SourceValid
    else if ipEqual senderIP [0; 0; 0; 0] && ipEqual (sub packet 24 4) expectedIPv4
    then SourceValid
    else SourceARPViolation.

Definition validateIPv4Source (packet expectedIPv4 : list Z) : SourceViolation :=
  if (length packet <? ipv4HeaderLen)%nat || negb (Z.shiftr (byte_at packet 0) 4 =? 4)
  then SourceMalformed
  else
    let headerLen := Z.to_nat (Z.land (byte_at packet 0) 0x0f * 4) in
    if (headerLen <? ipv4HeaderLen)%nat || (length packet <? headerLen)%nat then SourceMalformed
    else
      let sourceIP := sub packet 12 4 in
      if ipEqual sourceIP expectedIPv4 then SourceValid
      else if negb (ipEqual sourceIP [0; 0; 0; 0]) || negb (byte_at packet 9 =? udpProtocolNumber) ||
              (length packet <? headerLen + udpHeaderLen)%nat then SourceIPv4Violation
      else
        let udp := drop headerLen packet in
        if (get16 udp 0 =? 68) && (get16 udp 2 =? 67) then SourceValid else SourceIPv4Violation.

Definition ValidateGuestSource (frame expectedMAC expectedIPv4 : list Z) : SourceViolation :=
  if (length frame <? ethernetHeaderLen)%nat || negb (length expectedMAC =? 6)%nat ||
     negb (length expectedIPv4 =? 4)%nat then SourceMalformed
  else if negb (equalHardwareAddr (sub frame 6 6) expectedMAC) then SourceMACViolation
  else
    let etherType := get16 frame 12 in
    if etherType =? etherTypeARP then validateARPSource (drop ethernetHeaderLen frame) expectedMAC expectedIPv4
    else if etherType =? etherTypeIPv4 then validateIPv4Source (drop ethernetHeaderLen frame) expectedIPv4
    else if etherType =? 0x86dd then SourceUnsupportedProtocol
    else SourceValid.

(** * Checksums *)

Lemma land_ffff x : Z.land x 0xffff = x mod 65536.
Proof. change 0xffff with (Z.ones 16). by rewrite Z.land_ones. Qed.
Lemma shiftr_16 x : Z.shiftr x 16 = x / 65536.
Proof. by rewrite Z.shiftr_div_pow2. Qed.

(** One's-complement representatives: [r] is the 16-bit residue of [sum]
    modulo 2^16 - 1 that is zero only for zero. *)
Definition residue (sum r : Z) : Prop :=
  0 ≤ r < 65536 ∧ (∃ k, sum = r + 65535 * k) ∧ (r = 0 ↔ sum = 0).

Lemma residue_carry sum r :
  0 ≤ sum → residue (Z.land sum 0xffff + Z.shiftr sum 16) r → residue sum r.
Proof.
  rewrite land_ffff, shiftr_16. intros Hs (Hr & (k & Hk) & Hz).
  pose proof (Z.div_mod sum 65536 ltac:(lia)). pose proof (Z.mod_pos_bound sum 65536 ltac:(lia)).
  pose proof (Z.div_pos sum 65536 Hs ltac:(lia)).
  split; [done|]. split; [exists (k + sum / 65536); lia|]. lia.
Qed.
Lemma residue_small sum : 0 ≤ sum < 65536 → residue sum sum.
Proof. intros. split; [done|]. split; [by exists 0; lia|done]. Qed.

Lemma fold_residue sum : 0 ≤ sum < 2^32 → residue sum (fold_carry 2 sum).
Proof.
  intros Hs. cbn [fold_carry]. destruct (Z.eqb_spec (Z.shiftr sum 16) 0) as [E|E]; cbn [negb].
  { apply residue_small. rewrite shiftr_16 in E. apply Z.div_small_iff in E; lia. }
  apply residue_carry; [lia|]. set (x := Z.land sum 0xffff + Z.shiftr sum 16).
  assert (0 ≤ x ≤ 131070) as Hx.
  { unfold x. rewrite land_ffff, shiftr_16. pose proof (Z.mod_pos_bound sum 65536 ltac:(lia)).
    pose proof (Z.div_pos sum 65536 ltac:(lia) ltac:(lia)).
    pose proof (Z.div_lt_upper_bound sum 65536 65536 ltac:(lia) ltac:(lia)). lia. }
  destruct (Z.eqb_spec (Z.shiftr x 16) 0) as [E'|E']; cbn [negb].
  { apply residue_small. rewrite shiftr_16 in E'. apply Z.div_small_iff in E'; lia. }
  apply residue_carry; [lia|]. apply residue_small. clearbody x.
  rewrite land_ffff, shiftr_16. rewrite shiftr_16 in E'.
  assert (x / 65536 = 1) as Hd.
  { pose proof (Z.div_lt_upper_bound x 65536 2 ltac:(lia) ltac:(lia)).
    pose proof (Z.div_pos x 65536 ltac:(lia) ltac:(lia)). lia. }
  pose proof (Z.div_mod x 65536 ltac:(lia)). pose proof (Z.mod_pos_bound x 65536 ltac:(lia)). lia.
Qed.

Lemma fold_above_carry n sum : 0 ≤ sum → fold_above n sum = fold_carry n sum.
Proof.
  revert sum. induction n as [|n IH]; intros sum Hs; [done|]. cbn [fold_above fold_carry].
  rewrite land_ffff, shiftr_16. pose proof (Z.mod_pos_bound sum 65536 ltac:(lia)).
  pose proof (Z.div_pos sum 65536 Hs ltac:(lia)).
  destruct (Z.gtb_spec sum 65535), (Z.eqb_spec (sum / 65536) 0) as [E|E]; cbn [negb].
  - apply Z.div_small_iff in E; lia.
  - rewrite IH by lia. f_equal. lia.
  - done.
  - destruct E. apply Z.div_small. lia.
Qed.

(** The sum as a number, when it does not overflow. *)
Fixpoint words (data : list Z) : Z :=
  match data with
  | a :: b :: data => be_val [a; b] + words data
  | [a] => 256 * a
  | [] => 0
  end.
Lemma words_pair_ind (P : list Z → Prop) :
  P [] → (∀ a, P [a]) → (∀ a b l, P l → P (a :: b :: l)) → ∀ l, P l.
Proof.
  intros P0 P1 P2. assert (∀ l, P l ∧ ∀ a, P (a :: l)) as H; [|intros l; apply H].
  induction l as [|b l [IH1 IH2]]; split; auto.
Qed.
Lemma be_val_pair a b : be_val [a; b] = 256 * a + b.
Proof. unfold be_val. cbn [rev app le_val]. lia. Qed.

Lemma words_bound data : is_bytes data → 0 ≤ words data ∧ 2 * words data ≤ 65535 * (len data + 1).
Proof.
  induction data as [|a|a b l IH] using words_pair_ind; intros H; [cbn; lia| |].
  - apply Forall_cons in H as [Ha _]. unfold is_u in Ha. cbn [words length]. lia.
  - apply Forall_cons in H as [Ha H]. apply Forall_cons in H as [Hb H]. specialize (IH H).
    cbn [words length]. rewrite be_val_pair. unfold is_u in *. lia.
Qed.
Lemma sum_words_eq data sum :
  is_bytes data → 0 ≤ sum → sum + words data < 2^32 → sum_words data sum = sum + words data.
Proof.
  revert sum. induction data as [|a|a b l IH] using words_pair_ind; intros sum H Hs Hb.
  - cbn. lia.
  - apply Forall_cons in H as [Ha _]. unfold is_u in Ha. cbn [sum_words words] in *.
    rewrite Z.shiftl_mul_pow2 by lia. unfold u32. rewrite Z.mod_small; lia.
  - apply Forall_cons in H as [Ha H]. apply Forall_cons in H as [Hb' H]. cbn [sum_words words] in *.
    pose proof (words_bound l H). rewrite be_val_pair in *. unfold is_u in *.
    unfold u32. rewrite Z.mod_small by lia. rewrite IH; [lia|done|lia|lia].
Qed.
Lemma words_app a b : Nat.Even (length a) → words (a ++ b) = words a + words b.
Proof.
  induction a as [|x|x y l IH] using words_pair_ind; intros He; [done| |].
  - destruct He as [k Hk]. cbn in Hk. lia.
  - cbn [app words]. rewrite IH; [lia|]. destruct He as [k Hk]. cbn [length] in Hk. exists (k - 1)%nat. lia.
Qed.
Lemma words_cons2 a b l : words (a :: b :: l) = be_val [a; b] + words l.
Proof. done. Qed.

Lemma complement16_residue sum r : residue sum r → complement16 r = 65535 - r.
Proof.
  intros (Hr & _). unfold complement16, u16. rewrite (Z.mod_small r) by lia.
  unfold Z.lnot. rewrite <-(Z.mod_add _ 1) by lia. rewrite Z.mod_small; lia.
Qed.

(** A checksum in place makes the whole sum fold to zero. *)
Lemma checksum_in_place a b initial :
  is_bytes a → is_bytes b → Nat.Even (length a) → 0 ≤ initial ≤ 2^20 →
  len a + len b ≤ 65535 →
  let check := checksumWithInitial (a ++ [0; 0] ++ b) initial in
  is_u16 check ∧ checksumWithInitial (a ++ be_bytes 2 (u16 check) ++ b) initial = 0.
Proof.
  intros Ha Hb He Hi Hl check. pose proof (words_bound a Ha). pose proof (words_bound b Hb).
  assert (is_bytes [0; 0]) by (repeat constructor; lia).
  assert (is_bytes (a ++ [0; 0] ++ b)) as Hz by auto 10 with go.
  assert (check = 65535 - fold_carry 2 (initial + (words a + words b)) ∧
    residue (initial + (words a + words b)) (fold_carry 2 (initial + (words a + words b)))) as [Hc Hr].
  { unfold check, checksumWithInitial. rewrite sum_words_eq; [|done|lia|]; rewrite words_app by done;
      cbn [app]; rewrite words_cons2, be_val_pair; [|lia].
    replace (initial + (words a + (256 * 0 + 0 + words b))) with (initial + (words a + words b)) by lia.
    assert (residue (initial + (words a + words b)) (fold_carry 2 (initial + (words a + words b)))) as Hr
      by (apply fold_residue; lia).
    split; [|done]. by eapply complement16_residue. }
  set (s := initial + (words a + words b)) in *. clearbody check.
  destruct Hr as (Hr & (k & Hk) & Hz0). assert (is_u16 check) as Hu by (unfold is_u; lia).
  split; [done|]. unfold u16. rewrite (Z.mod_small check) by (unfold is_u in Hu; lia).
  assert (words (be_bytes 2 check ++ b) = check + words b) as Hw.
  { pose proof (be_val_bytes 2 check) as E. rewrite Z.mod_small in E by (unfold is_u in Hu; lia).
    assert (∃ x y, be_bytes 2 check = [x; y]) as (x & y & Hxy) by (eexists _, _; reflexivity).
    rewrite Hxy in *. cbn [app]. by rewrite words_cons2, E. }
  unfold checksumWithInitial. rewrite sum_words_eq; [|by auto 10 with go|lia|];
    rewrite words_app, Hw by done; [|unfold is_u in Hu; lia].
  set (s' := initial + _). assert (residue s' (fold_carry 2 s')) as Hres
    by (apply fold_residue; unfold s', is_u in *; lia).
  rewrite (complement16_residue s') by done. destruct Hres as (Hr' & (k' & Hk') & Hz').
  assert (s' = s + check) by (unfold s', s; lia). lia.
Qed.

(** * Built headers *)

Lemma list_4 (l : list Z) : length l = 4%nat → ∃ a b c d, l = [a; b; c; d].
Proof. intros H. destruct l as [|a [|b [|c [|d [|]]]]]; try done. by exists a, b, c, d. Qed.
Lemma list_20 (l : list Z) : length l = 20%nat →
  ∃ a b c d e a1 b1 c1 d1 e1 a2 b2 c2 d2 e2 a3 b3 c3 d3 e3,
    l = [a; b; c; d; e; a1; b1; c1; d1; e1; a2; b2; c2; d2; e2; a3; b3; c3; d3; e3].
Proof.
  intros H. do 20 (destruct l as [|? l]; [done|]). destruct l; [|done]. by repeat eexists.
Qed.

(** The stale buffer leaves no trace. *)
Definition ipv4_first (protocol_ payloadLen : Z) : list Z :=
  [0x45; 0] ++ be_bytes 2 (u16 (20 + payloadLen)) ++ [0; 0; 0; 0; 64; u8 protocol_].
Lemma ipv4_header_bytes src_ dst_ protocol_ payloadLen stale :
  length src_ = 4%nat → length dst_ = 4%nat → length stale = 20%nat →
  let check := ipv4Checksum (ipv4_first protocol_ payloadLen ++ [0; 0] ++ src_ ++ dst_) in
  buildIPv4HeaderInto src_ dst_ protocol_ payloadLen stale =
    ipv4_first protocol_ payloadLen ++ be_bytes 2 (u16 check) ++ src_ ++ dst_.
Proof.
  intros (s0 & s1 & s2 & s3 & ->)%list_4 (d0 & d1 & d2 & d3 & ->)%list_4 H check.
  apply list_20 in H as (? & ? & ? & ? & ? & ? & ? & ? & ? & ? & ? & ? & ? & ? & ? & ? & ? & ? & ? & ? & ->).
  unfold buildIPv4HeaderInto.
  lazy -[ipv4Checksum Z.div Z.modulo u16 u8 Z.add]. reflexivity.
Qed.

Lemma overwrite_part a b c s :
  length b = length s → overwrite (a ++ b ++ c) (length a) s = a ++ s ++ c.
Proof.
  intros Hl. unfold overwrite. rewrite take_app_length, !length_app.
  rewrite (drop_app_add' a (b ++ c) (length a)) by done.
  rewrite take_ge by lia. by rewrite drop_app_length'.
Qed.

Definition tcp_first (srcPort_ dstPort_ seq_ ack_ flags_ : Z) (options_ : list Z) : list Z :=
  be_bytes 2 (u16 srcPort_) ++ be_bytes 2 (u16 dstPort_) ++ be_bytes 4 (u32 seq_) ++
  be_bytes 4 (u32 ack_) ++
  [u8 (Z.shiftl (u8 (Z.of_nat (tcpHeaderLen + length options_) / 4)) 4); u8 flags_; 255; 255].

Lemma tcp_segment_bytes srcIP dstIP srcPort_ dstPort_ seq_ ack_ flags_ payload options_ stale :
  length stale = (20 + length options_ + length payload)%nat →
  let first := tcp_first srcPort_ dstPort_ seq_ ack_ flags_ options_ in
  let check := tcpChecksum srcIP dstIP (first ++ [0; 0] ++ [0; 0] ++ options_ ++ payload) in
  tcp_segment srcIP dstIP srcPort_ dstPort_ seq_ ack_ flags_ payload options_ stale =
    first ++ be_bytes 2 (u16 check) ++ [0; 0] ++ options_ ++ payload.
Proof.
  intros Hst first check. unfold tcp_segment. cbv zeta. unfold tcpHeaderLen.
  set (rest := drop (20 + length options_) stale).
  assert (length rest = length payload) as Hrest
    by (unfold rest; rewrite length_drop; lia).
  set (head := replicate 20 0).
  change (replicate (20 + length options_) 0) with (head ++ replicate (length options_) 0).
  rewrite <-app_assoc. set (tail := replicate (length options_) 0 ++ rest).
  set (p := put16 14 _ _).
  assert (p = (first ++ [0; 0; 0; 0]) ++ tail) as ->.
  { unfold p, first, tcp_first, head. clearbody tail. clear.
    cbn -[Z.div Z.modulo u16 u8 u32 Z.add Z.shiftl]. reflexivity. }
  assert (length first = 16%nat) as Hfirst by reflexivity.
  set (q := if (0 <? length options_)%nat then _ else _).
  assert (q = ((first ++ [0; 0; 0; 0]) ++ options_) ++ rest) as ->.
  { unfold q, tail, copy_at. destruct (Nat.ltb_spec 0 (length options_)) as [_|Hz].
    - change 20%nat with (length (first ++ [0; 0; 0; 0])).
      rewrite overwrite_part by (by rewrite length_replicate). by rewrite <-!app_assoc.
    - destruct options_; [by rewrite app_nil_r|cbn in Hz; lia]. }
  unfold copy_at.
  replace (20 + length options_)%nat with (length ((first ++ [0; 0; 0; 0]) ++ options_))
    by (rewrite !length_app, Hfirst; done).
  rewrite <-(app_nil_r rest), overwrite_part, app_nil_r by done.
  unfold put16. rewrite <-!app_assoc. change 16%nat with (length first) at 1 2 3.
  cbn [app]. change (0 :: 0 :: 0 :: 0 :: options_ ++ payload) with ([0; 0] ++ [0; 0] ++ options_ ++ payload).
  rewrite (overwrite_part first [0; 0]) by done. change (be_bytes 2 (u16 0)) with [0; 0]. fold check.
  by rewrite (overwrite_part first [0; 0]).
Qed.

Lemma be2_u16 v : is_u16 v → be_val (be_bytes 2 (u16 v)) = v.
Proof.
  intros Hv. unfold is_u in Hv. rewrite be_val_bytes.
  change (256 ^ Z.of_nat 2) with (2^16). unfold u16. rewrite Zmod_mod, Z.mod_small; lia.
Qed.
Lemma be4_u32 v : is_u32 v → be_val (be_bytes 4 (u32 v)) = v.
Proof.
  intros Hv. unfold is_u in Hv. rewrite be_val_bytes.
  change (256 ^ Z.of_nat 4) with (2^32). unfold u32. rewrite Zmod_mod, Z.mod_small; lia.
Qed.
Lemma u8_is_u v : is_u8 v → u8 v = v.
Proof. intros Hv. unfold u8. apply Z.mod_small, Hv. Qed.

Lemma parse_ipv4_built protocol_ payloadLen check src_ dst_ packet :
  length src_ = 4%nat → length dst_ = 4%nat →
  is_u8 protocol_ → is_u16 (20 + payloadLen) → is_u16 check →
  parseIPv4Header (ipv4_first protocol_ payloadLen ++ be_bytes 2 (u16 check) ++ src_ ++ dst_ ++ packet) =
    Ok (mkIPv4 4 5 0 (20 + payloadLen) 0 0 64 protocol_ check src_ dst_ [] packet).
Proof.
  intros (s0 & s1 & s2 & s3 & ->)%list_4 (d0 & d1 & d2 & d3 & ->)%list_4 Hp Hl Hc.
  transitivity (Ok (mkIPv4 4 5 0 (be_val (be_bytes 2 (u16 (20 + payloadLen)))) 0 0 64 (u8 protocol_)
    (be_val (be_bytes 2 (u16 check))) [s0; s1; s2; s3] [d0; d1; d2; d3] [] packet)); [reflexivity|].
  by rewrite !be2_u16, u8_is_u by done.
Qed.

Lemma is_bytes_cons x l : is_u8 x → is_bytes l → is_bytes (x :: l).
Proof. by constructor. Qed.
Lemma is_bytes_nil : is_bytes [].
Proof. constructor. Qed.
Lemma u8_is_u8 x : is_u8 (u8 x).
Proof. apply Z.mod_pos_bound. lia. Qed.
#[export] Hint Resolve is_bytes_cons is_bytes_nil u8_is_u8 : go.

Lemma ipv4_first_bytes protocol_ n : is_bytes (ipv4_first protocol_ n).
Proof. unfold ipv4_first. auto 20 with go. Qed.
Lemma sum_words_bound data sum : is_bytes data → 0 ≤ sum → sum + words data < 2^32 → 0 ≤ sum_words data sum.
Proof. intros Hd ? ?. rewrite sum_words_eq by done. pose proof (words_bound data Hd). lia. Qed.

(** Below the overflow, the two checksum functions agree. *)
Lemma ipv4Checksum_eq data :
  is_bytes data → len data ≤ 65535 → ipv4Checksum data = checksumWithInitial data 0.
Proof.
  intros Hd Hl. unfold ipv4Checksum, checksumWithInitial. pose proof (words_bound data Hd).
  rewrite fold_above_carry; [done|]. apply sum_words_bound; [done|lia|lia].
Qed.

Lemma ipv4_header_checks protocol_ n src_ dst_ :
  length src_ = 4%nat → length dst_ = 4%nat → is_bytes src_ → is_bytes dst_ →
  let check := ipv4Checksum (ipv4_first protocol_ n ++ [0; 0] ++ src_ ++ dst_) in
  is_u16 check ∧ ipv4Checksum (ipv4_first protocol_ n ++ be_bytes 2 (u16 check) ++ src_ ++ dst_) = 0.
Proof.
  intros Hs Hd Hbs Hbd check. pose proof (ipv4_first_bytes protocol_ n) as Hf.
  assert (∀ mid, length mid = 2%nat →
    len (ipv4_first protocol_ n ++ mid ++ src_ ++ dst_) = 20) as Hlen.
  { intros mid Hm. rewrite !length_app, Hs, Hd, Hm. reflexivity. }
  destruct (checksum_in_place (ipv4_first protocol_ n) (src_ ++ dst_) 0) as [Hu Hz];
    [done|by auto with go|by exists 5%nat|lia|rewrite length_app, Hs, Hd; cbn; lia|].
  assert (check = checksumWithInitial (ipv4_first protocol_ n ++ [0; 0] ++ src_ ++ dst_) 0) as ->.
  { apply ipv4Checksum_eq; [auto 20 with go|rewrite Hlen; [lia|done]]. }
  split; [done|]. rewrite ipv4Checksum_eq; [done|auto 20 with go|rewrite Hlen; [lia|done]].
Qed.

Lemma pseudo_bound src_ dst_ protocol_ n :
  is_bytes src_ → is_bytes dst_ → is_u8 protocol_ → 0 ≤ n ≤ 65535 →
  0 ≤ pseudoHeaderChecksum src_ dst_ protocol_ n ≤ 2^20.
Proof.
  intros Hs Hd Hp Hn. unfold pseudoHeaderChecksum, get16.
  assert (∀ l i, is_bytes l → 0 ≤ be_val (sub l i 2) < 65536) as Hb.
  { intros l i Hl. pose proof (be_val_bound (sub l i 2) (is_bytes_sub l i 2 Hl)) as H.
    assert (length (sub l i 2) ≤ 2)%nat by (unfold sub; rewrite length_take; lia).
    pose proof (Z.pow_le_mono_r 256 (len (sub l i 2)) 2). lia. }
  pose proof (Hb src_ 0%nat Hs). pose proof (Hb src_ 2%nat Hs).
  pose proof (Hb dst_ 0%nat Hd). pose proof (Hb dst_ 2%nat Hd).
  unfold is_u in Hp. unfold u32.
  rewrite (Z.mod_small (0 + _)), (Z.mod_small n) by lia.
  rewrite (Z.mod_small (0 + _ + _)) by lia. rewrite (Z.mod_small (0 + _ + _ + _)) by lia.
  rewrite (Z.mod_small (0 + _ + _ + _ + _)) by lia. rewrite (Z.mod_small (_ + protocol_)) by lia.
  rewrite Z.mod_small; lia.
Qed.

Lemma pad_options_spec o :
  ∃ k, (k < 4)%nat ∧ pad_options o = o ++ replicate k 0 ∧ (length (pad_options o) mod 4 = 0)%nat.
Proof.
  unfold pad_options. destruct (Nat.eqb_spec (length o mod 4) 0) as [E|E]; cbn [negb].
  { exists 0%nat. rewrite app_nil_r. by split; [lia|]. }
  pose proof (Nat.div_mod_eq (length o) 4). pose proof (Nat.mod_upper_bound (length o) 4 ltac:(lia)).
  assert ((length o + 3) / 4 = length o / 4 + 1)%nat as ->.
  { symmetry. apply (Nat.div_unique _ _ _ (length o mod 4 - 1)); lia. }
  exists (4 - length o mod 4)%nat. split; [lia|].
  replace ((length o / 4 + 1) * 4)%nat with (length o + (4 - length o mod 4))%nat by lia.
  rewrite replicate_add. unfold copy_at.
  pose proof (overwrite_part [] (replicate (length o) 0)) as Hw. cbn [app length] in Hw.
  rewrite Hw by (by rewrite length_replicate). split; [done|]. rewrite length_app, length_replicate.
  replace (length o + (4 - length o mod 4))%nat with (0 + (length o / 4 + 1) * 4)%nat by lia.
  by rewrite Nat.Div0.mod_add.
Qed.

(** The data offset says where the payload starts. *)
Lemma data_offset n :
  (n ≤ 40)%nat → (n mod 4 = 0)%nat →
  let off := u8 (Z.shiftl (u8 (Z.of_nat (20 + n) / 4)) 4) in
  Z.to_nat (u8 (Z.shiftr off 4 * 4)) = (20 + n)%nat.
Proof.
  intros Hn Hm off. assert (∃ q, q ≤ 10 ∧ n = q * 4)%nat as (q & Hq & ->).
  { exists (n / 4)%nat. pose proof (Nat.div_mod_eq n 4). lia. }
  unfold off. do 11 (destruct q as [|q]; [done|]). lia.
Qed.

Lemma parse_tcp_built sp dp sq ak fl o check payload :
  is_u16 sp → is_u16 dp → is_u32 sq → is_u32 ak → is_u8 fl → is_u16 check →
  (length o ≤ 40)%nat → (length o mod 4 = 0)%nat →
  parseTCPHeader (tcp_first sp dp sq ak fl o ++ be_bytes 2 (u16 check) ++ [0; 0] ++ o ++ payload) =
    Ok (mkHeader sp dp sq ak (u8 (Z.shiftl (u8 (Z.of_nat (20 + length o) / 4)) 4)) fl 0xffff check 0
      o payload).
Proof.
  intros Hsp Hdp Hsq Hak Hfl Hc Hl Hm. pose proof (data_offset (length o) Hl Hm) as Hoff.
  set (off := u8 (Z.shiftl _ 4)) in *.
  set (data := _ ++ _ ++ [0; 0] ++ o ++ payload).
  assert (drop 20 data = o ++ payload) as Hd by reflexivity.
  unfold parseTCPHeader. change (byte_at data 12) with off. rewrite Hoff.
  assert (length data = 20 + (length o + length payload))%nat as Hlen.
  { rewrite <-length_app. reflexivity. }
  unfold tcpHeaderLen. rewrite Hlen.
  destruct (Nat.ltb_spec (20 + (length o + length payload)) 20); [lia|].
  destruct (Nat.ltb_spec (20 + (length o + length payload)) (20 + length o)); [lia|].
  rewrite <-drop_drop, Hd, drop_app_length.
  assert ((if (20 <? 20 + length o)%nat then sub data 20 (20 + length o - 20) else []) = o) as ->.
  { destruct (Nat.ltb_spec 20 (20 + length o)); [|by destruct o; [|cbn in *; lia]].
    unfold sub. rewrite Hd. by rewrite Nat.add_comm, Nat.add_sub, take_app_length. }
  transitivity (Ok (mkHeader (be_val (be_bytes 2 (u16 sp))) (be_val (be_bytes 2 (u16 dp)))
    (be_val (be_bytes 4 (u32 sq))) (be_val (be_bytes 4 (u32 ak))) off (u8 fl) 0xffff
    (be_val (be_bytes 2 (u16 check))) 0 o payload)); [reflexivity|].
  by rewrite !be2_u16, !be4_u32, u8_is_u by done.
Qed.

Lemma tcp_first_bytes sp dp sq ak fl o : is_bytes (tcp_first sp dp sq ak fl o).
Proof. unfold tcp_first. auto 20 with go. Qed.

Lemma tcp_segment_checks srcIP dstIP sp dp sq ak fl o payload :
  is_bytes srcIP → is_bytes dstIP → is_bytes o → is_bytes payload →
  len o + len payload ≤ 65000 →
  let first := tcp_first sp dp sq ak fl o in
  let check := tcpChecksum srcIP dstIP (first ++ [0; 0] ++ [0; 0] ++ o ++ payload) in
  is_u16 check ∧
  tcpChecksum srcIP dstIP (first ++ be_bytes 2 (u16 check) ++ [0; 0] ++ o ++ payload) = 0.
Proof.
  intros Hs Hd Ho Hp Hl first check. unfold tcpChecksum.
  assert (∀ mid, length mid = 2%nat →
    len (first ++ mid ++ [0; 0] ++ o ++ payload) = 20 + len o + len payload) as Hlen.
  { intros mid Hmid. rewrite !length_app, Hmid. change (length first) with 16%nat. cbn [length]. lia. }
  rewrite Hlen by done. unfold check, tcpChecksum. rewrite (Hlen [0; 0]) by done.
  apply checksum_in_place.
  - apply tcp_first_bytes.
  - auto 20 with go.
  - by exists 8%nat.
  - apply pseudo_bound; [done|done|auto with go|lia].
  - change (length first) with 16%nat. rewrite !length_app. cbn [length]. lia.
Qed.

(** * Frames *)

Lemma ethernet_header_bytes dstMAC srcMAC ty stale :
  macIsSet dstMAC = true → macIsSet srcMAC = true → length stale = 14%nat →
  buildEthernetHeaderInto dstMAC srcMAC ty stale = mac_bytes dstMAC ++ mac_bytes srcMAC ++ be_bytes 2 (u16 ty).
Proof.
  intros Hd Hs Hl. unfold buildEthernetHeaderInto, writeMAC. rewrite Hd, Hs. cbn [negb].
  do 14 (destruct stale as [|? stale]; [done|]). destruct stale; [|done].
  lazy -[Z.div Z.modulo u16 u8 Z.shiftr]. reflexivity.
Qed.

(** What a receiver sees of the two outer headers. *)
Definition seen_ip (f : list Z) (dstMAC srcMAC : Z) (h : ipv4Header) : Prop :=
  sub f 0 6 = mac_bytes dstMAC ∧ sub f 6 6 = mac_bytes srcMAC ∧ get16 f 12 = etherTypeIPv4 ∧
  ipv4Checksum (sub f 14 20) = 0 ∧ parseIPv4Header (drop 14 f) = Ok h.

Lemma ip_frame_parses dstMAC srcMAC src_ dst_ protocol_ packet frame rest :
  macIsSet dstMAC = true → macIsSet srcMAC = true → length src_ = 4%nat → length dst_ = 4%nat →
  is_bytes src_ → is_bytes dst_ → is_u8 protocol_ → (34 ≤ length frame)%nat → len packet ≤ 65515 →
  ∃ check, seen_ip (ip_frame dstMAC srcMAC src_ dst_ protocol_ packet frame ++ rest) dstMAC srcMAC
    (mkIPv4 4 5 0 (20 + len packet) 0 0 64 protocol_ check src_ dst_ [] (packet ++ rest)).
Proof.
  intros Hdm Hsm Hs Hd Hbs Hbd Hp Hf Hl. unfold ip_frame.
  rewrite ethernet_header_bytes by (done || (rewrite length_take; unfold ethernetHeaderLen; lia)).
  rewrite ipv4_header_bytes by (done || (rewrite length_sub; unfold ethernetHeaderLen, ipv4HeaderLen; lia)).
  destruct (ipv4_header_checks protocol_ (len packet) src_ dst_) as [Hu Hz]; [done..|].
  set (check := ipv4Checksum _) in *. exists check. clearbody check.
  pose proof Hs as (s0 & s1 & s2 & s3 & ->)%list_4. pose proof Hd as (d0 & d1 & d2 & d3 & ->)%list_4.
  set (h := ipv4_first protocol_ (len packet) ++ be_bytes 2 (u16 check) ++ [s0; s1; s2; s3] ++ [d0; d1; d2; d3]).
  replace (((mac_bytes dstMAC ++ mac_bytes srcMAC ++ be_bytes 2 (u16 etherTypeIPv4)) ++ h ++ packet) ++ rest)
    with (mac_bytes dstMAC ++ mac_bytes srcMAC ++ be_bytes 2 (u16 etherTypeIPv4) ++ h ++ packet ++ rest)
    by (by rewrite <-!app_assoc).
  split_and!; try reflexivity.
  - exact Hz.
  - change (drop 14 _) with (h ++ packet ++ rest). unfold h. rewrite <-!app_assoc.
    apply parse_ipv4_built; try done. unfold is_u. lia.
Qed.

(** C23: a TCP segment the stack sends is what its own parsers read back —
    addresses, ports, sequence numbers, flags, the options padded to a
    multiple of four, the payload — and both checksums are valid, whatever
    the reused buffer held before. *)
Theorem tcp_frame_roundtrip (dstMAC srcMAC : Z) (localIPv4 guestIP : list Z) (sp dp sq ak fl : Z)
    (payload o frame : list Z) :
  macIsSet dstMAC = true → macIsSet srcMAC = true →
  length localIPv4 = 4%nat → length guestIP = 4%nat → is_bytes localIPv4 → is_bytes guestIP →
  is_u16 sp → is_u16 dp → is_u32 sq → is_u32 ak → is_u8 fl →
  is_bytes payload → is_bytes o → (length o ≤ 40)%nat → len payload ≤ 64000 →
  length frame = (54 + length (pad_options o) + length payload)%nat →
  let f := tcp_frame dstMAC srcMAC localIPv4 guestIP sp dp sq ak fl payload o frame in
  ∃ h off check, seen_ip f dstMAC srcMAC h ∧
    src h = localIPv4 ∧ dst h = guestIP ∧ protocol h = tcpProtocolNumber ∧
    ip_length h = len (drop 14 f) ∧ tcpChecksum localIPv4 guestIP (ip_payload h) = 0 ∧
    parseTCPHeader (ip_payload h) = Ok (mkHeader sp dp sq ak off fl 0xffff check 0 (pad_options o) payload).
Proof.
  intros Hdm Hsm Hs Hd Hbs Hbd Hsp Hdp Hsq Hak Hfl Hbp Hbo Ho Hp Hf f. unfold tcp_frame in f.
  destruct (pad_options_spec o) as (k & Hk & Hpad & Hm).
  assert (length (pad_options o) ≤ 40)%nat as Hlo.
  { assert (length (pad_options o) = length o + k)%nat by (by rewrite Hpad, length_app, length_replicate).
    pose proof (Nat.div_mod_eq (length (pad_options o)) 4). lia. }
  assert (is_bytes (pad_options o)) as Hbpo.
  { rewrite Hpad. apply is_bytes_app; [done|]. apply Forall_replicate. done. }
  set (o' := pad_options o) in *. clearbody o'. clear Hpad.
  destruct (tcp_segment_checks localIPv4 guestIP sp dp sq ak fl o' payload) as [Hu Hz]; [done..|lia|].
  set (check := tcpChecksum _ _ (_ ++ [0; 0] ++ _)) in *.
  set (packet := tcp_segment localIPv4 guestIP sp dp sq ak fl payload o'
    (drop (ethernetHeaderLen + ipv4HeaderLen) frame)) in *.
  assert (packet = tcp_first sp dp sq ak fl o' ++ be_bytes 2 (u16 check) ++ [0; 0] ++ o' ++ payload) as Hpk
    by (apply tcp_segment_bytes; rewrite length_drop; unfold ethernetHeaderLen, ipv4HeaderLen; lia).
  assert (len packet = 20 + len o' + len payload) as Hlp.
  { rewrite Hpk, !length_app. change (length (tcp_first sp dp sq ak fl o')) with 16%nat.
    change (length (be_bytes 2 (u16 check))) with 2%nat. cbn [length]. lia. }
  destruct (ip_frame_parses dstMAC srcMAC localIPv4 guestIP tcpProtocolNumber packet frame [])
    as (ck & Hseen); [done..|by auto with go|lia|lia|]. rewrite !app_nil_r in Hseen.
  change (ip_frame _ _ _ _ _ packet frame) with f in Hseen.
  eexists _, _, check. split; [exact Hseen|]. cbn [src dst protocol ip_length ip_payload].
  split_and!; [done..| |by rewrite Hpk|by rewrite Hpk; apply parse_tcp_built].
  unfold f. fold packet. unfold ip_frame.
  rewrite ethernet_header_bytes by (done || (rewrite length_take; unfold ethernetHeaderLen; lia)).
  rewrite ipv4_header_bytes by (done || (rewrite length_sub; unfold ethernetHeaderLen, ipv4HeaderLen; lia)).
  rewrite length_drop, !length_app, Hs, Hd, !length_be_bytes.
  change (length (ipv4_first _ _)) with 10%nat. change (length (mac_bytes dstMAC)) with 6%nat.
  change (length (mac_bytes srcMAC)) with 6%nat. lia.
Qed.

Definition demo_stale : list Z := replicate 65 0xaa.
Lemma tcp_frame_roundtrip_witness :
  let f := tcp_frame 0x112233445566 0x665544332211 [10; 42; 0; 1] [10; 42; 0; 2] 80 49152 (2^32 - 1) 7
    (Z.lor tcpFlagACK tcpFlagPSH) [104; 105; 33] [2; 4; 5; 180; 3] demo_stale in
  ∃ h off check, seen_ip f 0x112233445566 0x665544332211 h ∧ dst h = [10; 42; 0; 2] ∧
    parseTCPHeader (ip_payload h) = Ok (mkHeader 80 49152 (2^32 - 1) 7 off 0x18 0xffff check 0
      [2; 4; 5; 180; 3; 0; 0; 0] [104; 105; 33]).
Proof.
  destruct (tcp_frame_roundtrip 0x112233445566 0x665544332211 [10; 42; 0; 1] [10; 42; 0; 2] 80 49152
    (2^32 - 1) 7 (Z.lor tcpFlagACK tcpFlagPSH) [104; 105; 33] [2; 4; 5; 180; 3] demo_stale)
    as (h & off & check & Hseen & _ & Hdst & _ & _ & _ & Hp);
    [reflexivity|reflexivity|reflexivity|reflexivity|by auto 20 with go..|cbn; lia|cbn; lia|reflexivity|].
  exists h, off, check. split; [exact Hseen|]. split; [exact Hdst|exact Hp].
Defined.

Lemma udp_checks srcIP dstIP sp dp data :
  is_bytes srcIP → is_bytes dstIP → is_bytes data → len data ≤ 65000 →
  let first := be_bytes 2 (u16 sp) ++ be_bytes 2 (u16 dp) ++ be_bytes 2 (u16 (8 + len data)) in
  let check := udpChecksum srcIP dstIP (first ++ [0; 0] ++ data) in
  is_u16 check ∧ udpChecksum srcIP dstIP (first ++ be_bytes 2 (u16 check) ++ data) = 0.
Proof.
  intros Hs Hd Hb Hl first check. unfold udpChecksum.
  assert (∀ mid, length mid = 2%nat → len (first ++ mid ++ data) = 8 + len data) as Hlen.
  { intros mid Hmid. rewrite !length_app, Hmid. change (length first) with 6%nat. lia. }
  rewrite Hlen by done. unfold check, udpChecksum. rewrite (Hlen [0; 0]) by done.
  apply checksum_in_place.
  - unfold first. auto 20 with go.
  - done.
  - by exists 3%nat.
  - apply pseudo_bound; [done|done|auto with go|lia].
  - change (length first) with 6%nat. lia.
Qed.

Lemma udp_header_bytes sp dp n q data :
  length q = 8%nat →
  put16 6 0 (put16 4 n (put16 2 dp (put16 0 sp (q ++ data)))) =
    (be_bytes 2 (u16 sp) ++ be_bytes 2 (u16 dp) ++ be_bytes 2 (u16 n)) ++ [0; 0] ++ data.
Proof.
  intros Hq. do 8 (destruct q as [|? q]; [done|]). destruct q; [|done].
  destruct data; lazy -[Z.div Z.modulo u16]; reflexivity.
Qed.

(** The datagram a receiver finds in an IPv4 payload. *)
Definition seen_udp (u : list Z) (srcIP dstIP : list Z) (sp dp : Z) (data : list Z) : Prop :=
  get16 u 0 = sp ∧ get16 u 2 = dp ∧ get16 u 4 = len u ∧
  udpChecksum srcIP dstIP u = 0 ∧ drop udpHeaderLen u = data.

(** A UDP datagram the stack sends is read back with the same ports and data
    and a valid checksum; [rest], what the buffer holds behind it, follows. *)
Lemma udp_frame_exact (dstMAC srcMAC : Z) (srcIP dstIP : list Z) (sp dp : Z) (data head rest : list Z) :
  macIsSet dstMAC = true → macIsSet srcMAC = true → length srcIP = 4%nat → length dstIP = 4%nat →
  is_bytes srcIP → is_bytes dstIP → is_u16 sp → is_u16 dp → is_bytes data → len data ≤ 65000 →
  length head = 42%nat →
  let f := udp_frame dstMAC srcMAC srcIP dstIP sp dp (length data) (head ++ data ++ rest) in
  ∃ h u, seen_ip f dstMAC srcMAC h ∧ src h = srcIP ∧ dst h = dstIP ∧ protocol h = udpProtocolNumber ∧
    ip_length h = 20 + len u ∧ ip_payload h = u ++ rest ∧ seen_udp u srcIP dstIP sp dp data.
Proof.
  intros Hdm Hsm Hs Hd Hbs Hbd Hsp Hdp Hb Hl Hh f.
  destruct (udp_checks srcIP dstIP sp dp data) as [Hu Hz]; [done..|].
  set (first := be_bytes 2 (u16 sp) ++ be_bytes 2 (u16 dp) ++ be_bytes 2 (u16 (8 + len data))) in *.
  set (check := udpChecksum _ _ (first ++ [0; 0] ++ data)) in *.
  set (u := first ++ be_bytes 2 (u16 check) ++ data) in *.
  assert (len u = 8 + len data) as Hlu.
  { unfold u. rewrite !length_app. change (length first) with 6%nat.
    change (length (be_bytes 2 (u16 check))) with 2%nat. lia. }
  assert (f = ip_frame dstMAC srcMAC srcIP dstIP udpProtocolNumber u (head ++ data ++ rest) ++ rest) as Hf.
  { unfold f, udp_frame, udpHeaderLen, ethernetHeaderLen, ipv4HeaderLen. cbv zeta. f_equal.
    - f_equal. unfold sub.
      assert (∃ p q, head = p ++ q ∧ length p = 34%nat ∧ length q = 8%nat) as (p & q & -> & Hp & Hq).
      { exists (take 34 head), (drop 34 head). rewrite take_drop, length_take, length_drop, Hh. done. }
      rewrite <-!app_assoc, (drop_app_length' p) by done.
      replace (8 + length data)%nat with (length (q ++ data)) by (rewrite length_app; lia).
      rewrite (app_assoc q), take_app_length.
      rewrite udp_header_bytes by done. fold first.
      fold check. unfold put16, u. change 6%nat with (length first). by apply overwrite_part.
    - rewrite app_assoc, drop_app_length'; [done|]. rewrite length_app. lia. }
  destruct (ip_frame_parses dstMAC srcMAC srcIP dstIP udpProtocolNumber u (head ++ data ++ rest) rest)
    as (ck & Hseen); [done..|by auto with go|rewrite length_app; lia|lia|].
  rewrite <-Hf in Hseen. eexists _, u. split; [exact Hseen|]. cbn [src dst protocol ip_length ip_payload].
  split_and!; [done..|]. unfold seen_udp. rewrite Hlu. split_and!; try done.
  - change (be_val (be_bytes 2 (u16 sp)) = sp). by apply be2_u16.
  - change (be_val (be_bytes 2 (u16 dp)) = dp). by apply be2_u16.
  - change (be_val (be_bytes 2 (u16 (8 + len data))) = 8 + len data). apply be2_u16. unfold is_u. lia.
Qed.

(** * Who a frame speaks for *)

(** An IPv4 packet from the guest's address, or a DHCP discovery. *)
Definition ipv4_from (ip : list Z) (h : ipv4Header) : Prop :=
  src h = ip ∨
  src h = [0; 0; 0; 0] ∧ protocol h = udpProtocolNumber ∧ (udpHeaderLen ≤ length (ip_payload h))%nat ∧
    get16 (ip_payload h) 0 = 68 ∧ get16 (ip_payload h) 2 = 67.
(** An ARP packet from the guest's address, or a probe for it. *)
Definition arp_from (mac ip p : list Z) : Prop :=
  (28 ≤ length p)%nat ∧ get16 p 0 = arpHardwareEthernet ∧ get16 p 2 = arpProtoIPv4 ∧
  byte_at p 4 = 6 ∧ byte_at p 5 = 4 ∧ sub p 8 6 = mac ∧
  (sub p 14 4 = ip ∨ sub p 14 4 = [0; 0; 0; 0] ∧ sub p 24 4 = ip).
Definition speaks_for (mac ip frame : list Z) : Prop :=
  (ethernetHeaderLen ≤ length frame)%nat ∧ length mac = 6%nat ∧ length ip = 4%nat ∧ sub frame 6 6 = mac ∧
  let p := drop ethernetHeaderLen frame in
  get16 frame 12 ≠ etherTypeIPv6 ∧
  (get16 frame 12 = etherTypeARP → arp_from mac ip p) ∧
  (get16 frame 12 = etherTypeIPv4 → ∃ h, parseIPv4Header p = Ok h ∧ 5 ≤ ihl h ∧ ipv4_from ip h).

Lemma ipEqual_true a b : ipEqual a b = true ↔ a = b.
Proof. apply bool_decide_eq_true. Qed.

Lemma mac_equal a mac : length mac = 6%nat → equalHardwareAddr a mac = true ↔ a = mac.
Proof.
  intros Hm. unfold equalHardwareAddr. rewrite Hm. split.
  - intros [_ E]%andb_true_iff. by apply bool_decide_eq_true in E.
  - intros ->. rewrite Hm. by rewrite bool_decide_eq_true_2.
Qed.

Lemma arp_source mac ip p :
  length mac = 6%nat → validateARPSource p mac ip = SourceValid ↔ arp_from mac ip p.
Proof.
  intros Hm. unfold validateARPSource, arp_from.
  destruct (Nat.ltb_spec (length p) 28), (Z.eqb_spec (get16 p 0) arpHardwareEthernet),
    (Z.eqb_spec (get16 p 2) arpProtoIPv4), (Z.eqb_spec (byte_at p 4) 6), (Z.eqb_spec (byte_at p 5) 4);
    cbn [orb negb]; try (split; [done|intros; lia]).
  destruct (equalHardwareAddr (sub p 8 6) mac) eqn:E; cbn [negb].
  2:{ split; [done|]. intros (_ & _ & _ & _ & _ & E' & _). apply (mac_equal _ mac) in E'; congruence. }
  apply mac_equal in E; [|done]. destruct (ipEqual (sub p 14 4) ip) eqn:E1.
  { apply ipEqual_true in E1. split; [|done]. intros _. split_and!; auto. }
  destruct (ipEqual (sub p 14 4) [0; 0; 0; 0] && ipEqual (sub p 24 4) ip) eqn:E2.
  { apply andb_true_iff in E2 as [E2 E3]. rewrite ipEqual_true in E2, E3. split; [|done].
    intros _. split_and!; auto. }
  split; [done|]. intros (_ & _ & _ & _ & _ & _ & [Ha|[Ha Hb]]).
  - apply ipEqual_true in Ha. congruence.
  - apply ipEqual_true in Ha, Hb. by rewrite Ha, Hb in E2.
Qed.

Lemma ihl_range p : 0 ≤ Z.land (byte_at p 0) 15 < 16.
Proof.
  change 15 with (Z.ones 4). rewrite Z.land_ones by lia. apply Z.mod_pos_bound. lia.
Qed.

(** The check and the parser read the packet the same way. *)
Lemma ipv4_source ip p :
  validateIPv4Source p ip = SourceValid ↔
    ∃ h, parseIPv4Header p = Ok h ∧ 5 ≤ ihl h ∧ ipv4_from ip h.
Proof.
  pose proof (ihl_range p). unfold validateIPv4Source, parseIPv4Header.
  destruct (Nat.ltb_spec (length p) ipv4HeaderLen); cbn [orb]; [split; [done|intros (? & ? & _); done]|].
  destruct (Z.eqb_spec (Z.shiftr (byte_at p 0) 4) 4); cbn [negb]; [|split; [done|intros (? & ? & _); done]].
  set (hl := Z.to_nat (Z.land (byte_at p 0) 15 * 4)).
  destruct (Nat.ltb_spec (length p) hl).
  { rewrite orb_true_r. split; [done|intros (? & ? & _); done]. }
  rewrite orb_false_r. destruct (Nat.ltb_spec hl ipv4HeaderLen) as [Hhl|Hhl].
  { split; [done|]. intros (h & [= <-] & Hi & _). cbn [ihl] in Hi. unfold hl, ipv4HeaderLen in *. lia. }
  set (h := mkIPv4 _ _ _ _ _ _ _ _ _ _ _ _ _).
  assert (5 ≤ ihl h) as Hi by (cbn [ihl h]; unfold hl, ipv4HeaderLen in *; lia).
  trans (ipv4_from ip h); [|split; [intros ?; by exists h|by intros (? & [= <-] & _ & ?)]].
  unfold ipv4_from. cbn [src protocol ip_payload h]. rewrite length_drop.
  destruct (ipEqual (sub p 12 4) ip) eqn:E.
  { apply ipEqual_true in E. split; auto. }
  assert (sub p 12 4 ≠ ip) by (intros E'; apply ipEqual_true in E'; congruence).
  destruct (ipEqual (sub p 12 4) [0; 0; 0; 0]) eqn:E0; cbn [negb orb].
  2:{ split; [done|]. intros [?|[E' _]]; [done|]. apply ipEqual_true in E'. congruence. }
  apply ipEqual_true in E0.
  destruct (Z.eqb_spec (byte_at p 9) udpProtocolNumber); cbn [negb orb]; [|by split; [done|intros [?|(_ & ? & _)]]].
  destruct (Nat.ltb_spec (length p) (hl + udpHeaderLen)).
  { split; [done|]. intros [?|(_ & _ & ? & _)]; [done|lia]. }
  destruct (Z.eqb_spec (get16 (drop hl p) 0) 68), (Z.eqb_spec (get16 (drop hl p) 2) 67); cbn [andb];
    split; try done; [intros _; right; split_and!; done || lia|intros [?|(_ & _ & _ & ? & ?)]; done..].
Qed.

(** What an accepted IPv4 frame says, as the parser reads it. *)
Lemma source_valid_ipv4 frame mac ip :
  ValidateGuestSource frame mac ip = SourceValid → get16 frame 12 = etherTypeIPv4 →
  ∃ h, parseIPv4Header (drop ethernetHeaderLen frame) = Ok h ∧ 5 ≤ ihl h ∧ ipv4_from ip h.
Proof.
  unfold ValidateGuestSource. intros Hv E. destruct (_ || _); [done|]. destruct (negb _); [done|].
  rewrite E in Hv. by apply ipv4_source.
Qed.

(** The source check accepts exactly the frames that speak for the guest. *)
Lemma source_check_exact (frame mac ip : list Z) :
  ValidateGuestSource frame mac ip = SourceValid ↔ speaks_for mac ip frame.
Proof.
  unfold ValidateGuestSource, speaks_for.
  destruct (Nat.ltb_spec (length frame) ethernetHeaderLen); cbn [orb]; [split; [done|intros; lia]|].
  destruct (Nat.eqb_spec (length mac) 6) as [Hm|]; cbn [orb negb]; [|split; [done|intros; lia]].
  destruct (Nat.eqb_spec (length ip) 4) as [Hi|]; cbn [orb negb]; [|split; [done|intros; lia]].
  destruct (equalHardwareAddr (sub frame 6 6) mac) eqn:E; cbn [negb].
  2:{ split; [done|]. intros (_ & _ & _ & E' & _). apply (mac_equal _ mac) in E'; congruence. }
  apply mac_equal in E; [|done].
  destruct (Z.eqb_spec (get16 frame 12) etherTypeARP) as [Ea|Ea].
  { rewrite arp_source by done. rewrite Ea. split; [intros; by split_and!|]. intros (_ & _ & _ & _ & _ & Ha & _). auto. }
  destruct (Z.eqb_spec (get16 frame 12) etherTypeIPv4) as [Ei|Ei].
  { rewrite ipv4_source, Ei. split; [intros; by split_and!|].
    intros (_ & _ & _ & _ & _ & _ & Ha). auto. }
  destruct (Z.eqb_spec (get16 frame 12) 0x86dd) as [E6|E6]; split; try done.
  intros (_ & _ & _ & _ & E' & _). done.
Qed.
