(* ===== verification/TcpConn.v ===== *)
(** A TCP connection to the guest: [tcpConn] of src/internal/netstack/netstack.go.

    One definition per method, on the connection's fields.  The lock is held or
    re-taken around each step, so a method is one transition; condition
    variables have no state.  Packets handed to the network are recorded in
    [sent]; [accepted] and [registered] say whether the connection was given to
    its listener or callback and whether the stack's table still has it.
    [listenerRefuses] is the case that the select on a closed listener takes:
    its queue may still take the connection.  The wait for room in the queue of
    an open listener is not modelled; the connection is given to it at once.

    The theorems: the bytes queued for the reader are the guest's byte stream,
    in order and without gaps, however its segments arrive; bytes that do not
    fit the reader's queue are acknowledged and lost; and an acknowledgement
    that arrives after the host's sequence number has wrapped moves it back. *)
From S2P Require Import Prelude Tcp Packet.

Inductive tcpState :=
  | tcpStateSynRcvd | tcpStateSynSent | tcpStateEstablished | tcpStateFinWait | tcpStateClosed.
#[export] Instance tcpState_eq_dec : EqDecision tcpState.
Proof. solve_decision. Defined.

Record packet := mkPacket { pseq : Z; pack : Z; pflags : Z; pdata : list Z; poptions : list Z }.

(** A queue entry of the reader; a nil payload signals the end of the stream. *)
Abbreviation chunk := (option (list Z)).

Record tcpConn := mkConn {
  state : tcpState; guestSeq : Z; hostSeq : Z; sendAcked : Z; peerWnd : Z;
  recvBuf : list chunk; readPending : list Z;
  closed : bool; writeClosed : bool;
  sendBuf : tcpSendBuffer; rttEst : tcpRTTEstimator; retxTimer : bool; retxTotal : Z;
  oooRecvBuf : tcpRecvBuffer;
  ourMss : Z; peerMSS : Z; peerWndScale : Z; ourWndScale : Z; wndScaleOK : bool;
  congCtrl : tcpCongestionControl; connDupAcks : Z;
  nagleEnabled : bool; nagleBuf : list Z;
  hasListener : bool; listenerRefuses : bool; dialing : bool; dialResult : option (result unit);
  accepted : bool; registered : bool; sent : list packet;
}.
#[export] Instance eta_tcpConn : Eta tcpConn := λ c,
  mkConn (state c) (guestSeq c) (hostSeq c) (sendAcked c) (peerWnd c) (recvBuf c) (readPending c)
    (closed c) (writeClosed c) (sendBuf c) (rttEst c) (retxTimer c) (retxTotal c) (oooRecvBuf c)
    (ourMss c) (peerMSS c) (peerWndScale c) (ourWndScale c) (wndScaleOK c) (congCtrl c)
    (connDupAcks c) (nagleEnabled c) (nagleBuf c) (hasListener c) (listenerRefuses c) (dialing c)
    (dialResult c) (accepted c) (registered c) (sent c).

Definition defaultMSS : Z := 1460.
Definition sendBufCapacity : Z := 256 * 1024.
Definition maxOOOSegments : Z := 16.
Definition recvBufDepth : Z := 512.

(** [initialSeq] is the stack's random source. *)
Definition newTCPConn (initialSeq guestSeq_ peerWnd_ : Z) (listener : bool) : tcpConn :=
  mkConn tcpStateSynRcvd (u32 (guestSeq_ + 1)) initialSeq initialSeq
    (if peerWnd_ =? 0 then 0xffff else peerWnd_) [] [] false false
    (newTCPSendBuffer sendBufCapacity) newTCPRTTEstimator false 0
    (newTCPRecvBuffer maxOOOSegments) defaultMSS defaultMSS 0 0 false
    (newTCPCongestionControl defaultMSS) 0 false [] listener false false None false true [].

(** * Sending *)

Definition sendTCPPacket (s a f : Z) (data opts : list Z) (c : tcpConn) : tcpConn :=
  c <| sent := sent c ++ [mkPacket s a f data opts] |>.

Definition sendSyn (c : tcpConn) : tcpConn :=
  let s := hostSeq c in
  sendTCPPacket s 0 tcpFlagSYN [] (buildSynAckOptions defaultMSS 7 true)
    (c <| hostSeq := u32 (hostSeq c + 1) |>).
Definition retransmitSyn (c : tcpConn) : tcpConn * result unit :=
  if closed c || negb (bool_decide (state c = tcpStateSynSent)) then (c, Err "use of closed network connection")
  else (sendTCPPacket (u32 (hostSeq c - 1)) 0 tcpFlagSYN []
          (buildSynAckOptions defaultMSS 7 true) c, Ok tt).
Definition sendSynAck (c : tcpConn) : tcpConn :=
  let s := hostSeq c in
  sendTCPPacket s (guestSeq c) (Z.lor tcpFlagSYN tcpFlagACK) []
    (buildSynAckOptions defaultMSS (ourWndScale c) (wndScaleOK c))
    (c <| hostSeq := u32 (hostSeq c + 1) |>).
Definition sendAck (c : tcpConn) : tcpConn :=
  sendTCPPacket (hostSeq c) (guestSeq c) tcpFlagACK [] [] c.
Definition sendAckImmediate (c : tcpConn) : tcpConn := sendAck c.
Definition sendFin (c : tcpConn) : tcpConn :=
  let s := hostSeq c in
  sendTCPPacket s (guestSeq c) (Z.lor tcpFlagFIN tcpFlagACK) [] []
    (c <| hostSeq := u32 (hostSeq c + 1) |>).

(** * Closing *)

(** The result of a dial is reported once. *)
Definition completeDial (r : result unit) (c : tcpConn) : tcpConn :=
  if dialing c && negb (non_nil (dialResult c)) then c <| dialResult := Some r |> else c.

Definition Close (c : tcpConn) : tcpConn :=
  if closed c then c
  else
    let needFin := bool_decide (state c = tcpStateEstablished) && negb (writeClosed c) in
    let c := c <| state := tcpStateClosed |> <| closed := true |> in
    let c := completeDial (Err "use of closed network connection") c in
    let c := c <| readPending := [] |> <| retxTimer := false |>
               <| sendBuf := sb_clear (sendBuf c) |> <| oooRecvBuf := rb_clear (oooRecvBuf c) |> in
    let c := if needFin then sendFin c else c in
    c <| registered := false |>.

Definition CloseWrite (c : tcpConn) : tcpConn * result unit :=
  if closed c || writeClosed c then (c, Ok tt)
  else if negb (bool_decide (state c = tcpStateEstablished))
  then (c, Err "use of closed network connection")
  else (sendFin (c <| writeClosed := true |>), Ok tt).

(** * Receiving *)

(** A full queue drops the payload. *)
Definition enqueueData (data : chunk) (c : tcpConn) : tcpConn :=
  if closed c then c
  else if len (recvBuf c) <? recvBufDepth then c <| recvBuf := recvBuf c ++ [data] |>
  else c.

Definition applyPeerOptions (opts : tcpOptions) (c : tcpConn) : tcpConn :=
  let c := if hasMSS opts then c <| peerMSS := mss opts |> else c in
  if hasWndScale opts
  then c <| peerWndScale := wndScale opts |> <| wndScaleOK := true |> <| ourWndScale := 7 |>
  else c.

(** The acknowledgement of new data. *)
Definition new_ack (hdr : tcpHeader) (now : Z) (c : tcpConn) : result tcpConn :=
  let bytesAcked := u32 (ack_ hdr - sendAcked c) in
  let c := c <| sendAcked := ack_ hdr |> <| connDupAcks := 0 |> in
  cc ← onAck (congCtrl c) bytesAcked;
  let c := c <| congCtrl := cc |> in
  let '(sb, _, rtt) := ack (sendBuf c) now (ack_ hdr) in
  let c := c <| sendBuf := sb |> in
  let c := match rtt with
           | Some d => c <| rttEst := resetBackoff (rtt_update (rttEst c) d) |>
           | None => c
           end in
  if sb_len (sendBuf c) >? 0 then Ok (c <| retxTimer := true |>)
  else
    let c := c <| retxTimer := false |> in
    if len (nagleBuf c) >? 0 then
      let data := nagleBuf c in
      let s := hostSeq c in
      Ok (sendTCPPacket s (guestSeq c) (Z.lor tcpFlagACK tcpFlagPSH) data []
            (c <| nagleBuf := [] |> <| hostSeq := u32 (hostSeq c + len data) |>))
    else Ok c.

Definition is_dup_ack (hdr : tcpHeader) (oldWnd : Z) (c : tcpConn) : bool :=
  (ack_ hdr =? sendAcked c) && (sb_len (sendBuf c) >? 0) && (len (hpayload hdr) =? 0) &&
  negb (has (flags hdr) (Z.lor (Z.lor tcpFlagSYN tcpFlagFIN) tcpFlagRST)) &&
  (window hdr =? oldWnd).

(** The third duplicate retransmits the oldest segment. *)
Definition dup_ack (c : tcpConn) : tcpConn :=
  let c := c <| connDupAcks := connDupAcks c + 1 |> in
  let '(cc, fast) := onDupAck (congCtrl c) in
  let c := c <| congCtrl := cc |> in
  match fast, oldest (sendBuf c) with
  | true, Some seg => sendTCPPacket (seqStart seg) (guestSeq c) tcpFlagACK (payload seg) [] c
  | _, _ => c
  end.

(** An acknowledgement beyond what was sent is taken as the next number. *)
Definition resync (hdr : tcpHeader) (c : tcpConn) : tcpConn :=
  if ack_ hdr >? hostSeq c then c <| hostSeq := ack_ hdr |> <| sendAcked := ack_ hdr |> else c.

(** The part of [handleSegment] for segments with the ACK flag. *)
Definition process_ack (hdr : tcpHeader) (now : Z) (c : tcpConn) : result tcpConn :=
  let oldWnd := peerWnd c in
  let c := c <| peerWnd := window hdr |> in
  c ← (if ack_ hdr >? sendAcked c then new_ack hdr now c
       else Ok (if is_dup_ack hdr oldWnd c then dup_ack c else c));
  Ok (resync hdr c).

(** The end of the guest's stream. *)
Definition peer_closed (c : tcpConn) : tcpConn :=
  let writeClosed_ := writeClosed c in
  let c := sendAckImmediate (enqueueData None c) in
  if negb writeClosed_ then sendFin c else c.

(** A data segment in the established state; the reassembly loop always
    returns. *)
Definition receive_data (hdr : tcpHeader) (c : tcpConn) : tcpConn :=
  if negb (seq hdr =? guestSeq c) then
    let c := if seqGT (seq hdr) (guestSeq c)
             then c <| oooRecvBuf := (insert (oooRecvBuf c)
                    (mkOOO (seq hdr) (u32 (seq hdr + len (hpayload hdr))) (hpayload hdr))).1 |>
             else c in
    sendAck c
  else
    let c := c <| guestSeq := u32 (guestSeq c + len (hpayload hdr)) |> in
    let '(c, contiguous) :=
      match collectContiguous (oooRecvBuf c) (guestSeq c) with
      | Some (rb, n, chunks) => (c <| oooRecvBuf := rb |> <| guestSeq := n |>, chunks)
      | None => (c, [])
      end in
    let peerClosed := has (flags hdr) tcpFlagFIN in
    let c := if peerClosed
             then c <| guestSeq := u32 (guestSeq c + 1) |> <| state := tcpStateFinWait |> else c in
    let c := foldl (λ c d, enqueueData (Some d) c) c (hpayload hdr :: contiguous) in
    if peerClosed then peer_closed c else sendAck c.

Definition established (hdr : tcpHeader) (c : tcpConn) : tcpConn :=
  if len (hpayload hdr) >? 0 then receive_data hdr c
  else if has (flags hdr) tcpFlagFIN then
    peer_closed (c <| guestSeq := u32 (guestSeq c + 1) |> <| state := tcpStateFinWait |>)
  else if has (flags hdr) tcpFlagRST then Close c
  else c.

(** What the states do with a segment; [opts] are its parsed options. *)
Definition by_state (hdr : tcpHeader) (opts : tcpOptions) (c : tcpConn) : tcpConn * bool :=
  match state c with
  | tcpStateSynSent =>
    if has (flags hdr) tcpFlagRST then
      (Close (completeDial (Err "use of closed network connection") (c <| state := tcpStateClosed |>)), false)
    else if (Z.land (flags hdr) (Z.lor tcpFlagSYN tcpFlagACK) =? Z.lor tcpFlagSYN tcpFlagACK) &&
            (ack_ hdr =? hostSeq c) then
      let c := applyPeerOptions opts c in
      let c := c <| guestSeq := u32 (seq hdr + 1) |> <| peerWnd := window hdr |>
                 <| state := tcpStateEstablished |> in
      (completeDial (Ok tt) (sendAck c), false)
    else (c, false)
  | tcpStateSynRcvd =>
    if has (flags hdr) tcpFlagACK then
      if negb (ack_ hdr =? hostSeq c) then (c, false)
      else
        let c := c <| state := tcpStateEstablished |> in
        let hasData := (len (hpayload hdr) >? 0) || has (flags hdr) (Z.lor tcpFlagFIN tcpFlagRST) in
        let c := if hasListener c && listenerRefuses c then Close c else c <| accepted := true |> in
        (c, hasData)
    else (c, false)
  | tcpStateEstablished => (established hdr c, false)
  | tcpStateFinWait =>
    if has (flags hdr) tcpFlagACK then (Close (c <| state := tcpStateClosed |>), false) else (c, false)
  | tcpStateClosed => (c, false)
  end.

(** A segment that completes the handshake and carries data is handled again
    in the state reached; it cannot be handled a third time. *)
Fixpoint handle_turns (n : nat) (hdr : tcpHeader) (opts : tcpOptions) (now : Z) (c : tcpConn)
    : tcpConn * result unit :=
  match n with
  | O => (c, Ok tt)
  | S n =>
    if closed c then (c, Err "use of closed network connection")
    else
      match (if has (flags hdr) tcpFlagACK then process_ack hdr now c else Ok c) with
      | Ok c =>
        let '(c, again) := by_state hdr opts c in
        if again then handle_turns n hdr opts now c else (c, Ok tt)
      | Err e => (c, Err e)
      | Panic => (c, Panic)
      end
  end.
Definition handleSegment (hdr : tcpHeader) (opts : tcpOptions) (now : Z) (c : tcpConn)
    : tcpConn * result unit := handle_turns 2 hdr opts now c.

(** [Read] of [n] bytes with no deadline; [None] when it has to wait. *)
Definition Read (n : nat) (c : tcpConn) : option (tcpConn * result (list Z)) :=
  match readPending c with
  | (_ :: _) as p => Some (c <| readPending := drop n p |>, Ok (take n p))
  | [] =>
    match recvBuf c with
    | [] => if closed c then Some (c, Err "use of closed network connection") else None
    | None :: q => Some (c <| recvBuf := q |>, Err "EOF")
    | Some d :: q =>
      let c := c <| recvBuf := q |> in
      let c := if (n <? length d)%nat && negb (closed c) then c <| readPending := drop n d |> else c in
      Some (c, Ok (take n d))
    end
  end.

(** * Writing *)

Definition maxPayload : Z := 1460.

Definition send_window (c : tcpConn) : Z :=
  if wndScaleOK c then u32 (Z.shiftl (peerWnd c) (peerWndScale c)) else peerWnd c.

(** A sent segment is kept for retransmission; [false] when the buffer has no
    room even after dropping what is acknowledged. *)
Definition keep_segment (seg : tcpSendSegment) (now : Z) (c : tcpConn) : tcpConn * bool :=
  let '(sb, ok) := append (sendBuf c) seg in
  let '(sb, ok) := if ok then (sb, ok) else append (ack sb now (sendAcked c)).1.1 seg in
  if negb ok then (c <| sendBuf := sb |>, false)
  else
    let sb := (ack sb now (sendAcked c)).1.1 in
    let c := c <| sendBuf := sb |> in
    (if sb_len sb >? 0 then c <| retxTimer := true |> else c, true).

(** One turn of [Write] over the rest [b] of the data: bytes taken from it, or
    what it waits for. *)
Inductive write_outcome := Wrote (n : Z) | WaitWindow | WaitBuffer (seg : tcpSendSegment) | WriteClosed.
Definition write_turn (b : list Z) (now : Z) (c : tcpConn) : tcpConn * write_outcome :=
  if closed c || writeClosed c then (c, WriteClosed)
  else
    let inFlight_ := u32 (hostSeq c - sendAcked c) in
    let wnd := send_window c in
    if negb ((wnd >? 0) && (inFlight_ <? wnd)) then (c, WaitWindow)
    else
      let avail := wnd - inFlight_ in
      let maxChunk := Z.to_nat (if avail <? maxPayload then avail else maxPayload) in
      let chunk_ := take maxChunk b in
      if nagleEnabled c && (len chunk_ <? maxPayload) && (inFlight_ >? 0) then
        (c <| nagleBuf := nagleBuf c ++ chunk_ |>, Wrote (len chunk_))
      else
        let all := nagleBuf c ++ chunk_ in
        let chunk_ := take maxChunk all in
        let c := c <| nagleBuf := drop maxChunk all |> in
        let s := hostSeq c in
        let c := c <| hostSeq := u32 (hostSeq c + len chunk_) |> in
        let f := if (len chunk_ =? len b) && (len (nagleBuf c) =? 0)
                 then Z.lor tcpFlagACK tcpFlagPSH else tcpFlagACK in
        let c := sendTCPPacket s (guestSeq c) f chunk_ [] c in
        let seg := mkSend s (u32 (s + len chunk_)) chunk_ now 0 in
        let '(c, ok) := keep_segment seg now c in
        (c, if ok then Wrote (len chunk_) else WaitBuffer seg).

(** [Write] until it is done, has to wait, or finds the connection closed:
    the connection, the bytes not yet taken and what stopped it.  A turn takes
    at least one byte, so [length b] turns are enough. *)
Inductive write_stop := Done | WindowFull | BufferFull | Stopped.
Fixpoint write_turns (fuel : nat) (b : list Z) (now : Z) (c : tcpConn)
    : tcpConn * list Z * write_stop :=
  match b, fuel with
  | [], _ => (c, [], Done)
  | _, O => (c, b, Stopped)
  | _, S fuel =>
    match write_turn b now c with
    | (c, Wrote n) => write_turns fuel (drop (Z.to_nat n) b) now c
    | (c, WaitWindow) => (c, b, WindowFull)
    | (c, WaitBuffer seg) => (c, drop (length (payload seg)) b, BufferFull)
    | (c, WriteClosed) => (c, b, Stopped)
    end
  end.
Definition Write (b : list Z) (now : Z) (c : tcpConn) : tcpConn * list Z * write_stop :=
  write_turns (length b) b now c.

Definition maxRetries : Z := 10.

(** The retransmission timer fires. *)
Definition onRetxTimeout (now : Z) (c : tcpConn) : tcpConn :=
  if closed c then c
  else
    match oldestCoalesced (sendBuf c) (if ourMss c =? 0 then defaultMSS else ourMss c) with
    | None => c <| retxTimer := false |>
    | Some (seg, count) =>
      let age := now - sentAt seg in
      if age <? Z.quot (getRTO (rttEst c)) 2 then c <| retxTimer := true |>
      else if retxCount seg >=? maxRetries then Close c
      else
        let c := if retxCount seg >? 0 then c <| congCtrl := onTimeout (congCtrl c) |> else c in
        let c := c <| rttEst := backoff (rttEst c) |> <| retxTotal := retxTotal c + 1 |> in
        let c := c <| sendBuf := markRetransmittedN (sendBuf c) now count |> in
        let c := sendTCPPacket (seqStart seg) (guestSeq c) tcpFlagACK (payload seg) [] c in
        c <| retxTimer := true |>
    end.

(** * Acknowledgements *)

(** The receive side of a connection. *)
Definition recv_side (c : tcpConn) :=
  (state c, closed c, guestSeq c, recvBuf c, readPending c, oooRecvBuf c).

Lemma cc_onAck m cc n : 0 < m < 2^16 → cc_ok m cc → ∃ cc', onAck cc n = Ok cc' ∧ cc_ok m cc'.
Proof.
  intros Hm (Hmss & Hw & Hs). unfold onAck. cbn. destruct (Z.ltb_spec (cwnd cc) (ssthresh cc)).
  - eexists. split; [done|]. split_and!; cbn; auto with go; lia.
  - destruct (Z.eqb_spec (cwnd cc) 0); [lia|].
    eexists. split; [done|]. split_and!; cbn; auto with go; lia.
Qed.
Lemma cc_onDupAck m cc : 0 < m < 2^16 → cc_ok m cc → cc_ok m (onDupAck cc).1.
Proof.
  intros Hm (Hmss & Hw & Hs). unfold onDupAck. destruct (_ =? _); [|destruct (_ >? _)]; cbn [fst].
  - assert (cc_ok m (halve (cc <| dupAcks := dupAcks cc + 1 |>))) as (? & ? & ?)
      by (apply halve_ok; [lia|exact (conj Hmss (conj Hw Hs))]).
    generalize dependent (halve (cc <| dupAcks := dupAcks cc + 1 |>)). intros h ? ? ?.
    split_and!; cbn; auto with go; lia.
  - split_and!; cbn; auto with go; lia.
  - exact (conj Hmss (conj Hw Hs)).
Qed.

(** New data acknowledged: the controller never fails, the receive side is
    untouched, and without delayed small writes so is the host's sequence
    number. *)
Lemma new_ack_spec m hdr now c :
  0 < m < 2^16 → cc_ok m (congCtrl c) →
  ∃ c', new_ack hdr now c = Ok c' ∧ recv_side c' = recv_side c ∧ cc_ok m (congCtrl c') ∧
    sendAcked c' = ack_ hdr ∧ (nagleBuf c = [] → hostSeq c' = hostSeq c ∧ nagleBuf c' = []).
Proof.
  intros Hm Hcc. unfold new_ack. cbn.
  destruct (cc_onAck m (congCtrl c) (u32 (ack_ hdr - sendAcked c)) Hm Hcc) as (cc & -> & Hcc').
  cbn [mbind result_bind]. cbn. destruct (ack (sendBuf c) now (ack_ hdr)) as [[sb b] rtt].
  set (c1 := match rtt with Some _ => _ | None => _ end).
  assert (recv_side c1 = recv_side c ∧ congCtrl c1 = cc ∧ sendAcked c1 = ack_ hdr ∧
    hostSeq c1 = hostSeq c ∧ nagleBuf c1 = nagleBuf c) as (Hr & Hc1 & Hs1 & Hh1 & Hn1)
    by (unfold c1; by destruct rtt).
  clearbody c1. destruct (sb_len (sendBuf c1) >? 0).
  - exists (c1 <| retxTimer := true |>). rewrite <-Hc1 in Hcc'. split_and!; try done.
    intros E. cbn. by rewrite Hh1, Hn1, E.
  - cbn. rewrite Hn1. rewrite <-Hc1 in Hcc'.
    destruct (Z.gtb_spec (len (nagleBuf c)) 0) as [Hn|Hn]; (eexists; split; [done|]).
    + split_and!; try done. intros E. by rewrite E in Hn.
    + split_and!; done.
Qed.

Lemma dup_ack_spec m c :
  0 < m < 2^16 → cc_ok m (congCtrl c) →
  recv_side (dup_ack c) = recv_side c ∧ cc_ok m (congCtrl (dup_ack c)) ∧
  nagleBuf (dup_ack c) = nagleBuf c ∧ hostSeq (dup_ack c) = hostSeq c ∧
  sendAcked (dup_ack c) = sendAcked c.
Proof.
  intros Hm Hcc. unfold dup_ack. cbn. pose proof (cc_onDupAck m (congCtrl c) Hm Hcc) as Hd.
  destruct (onDupAck (congCtrl c)) as [cc fast]. cbn in Hd. cbn.
  destruct fast; [destruct (oldest (sendBuf c))|]; done.
Qed.

Lemma process_ack_spec m hdr now c :
  0 < m < 2^16 → cc_ok m (congCtrl c) → nagleBuf c = [] →
  ∃ c', process_ack hdr now c = Ok c' ∧ recv_side c' = recv_side c ∧ cc_ok m (congCtrl c') ∧
    nagleBuf c' = [] ∧
    hostSeq c' = (if ack_ hdr >? hostSeq c then ack_ hdr else hostSeq c) ∧
    sendAcked c' = (if (ack_ hdr >? hostSeq c) || (ack_ hdr >? sendAcked c)
                    then ack_ hdr else sendAcked c).
Proof.
  intros Hm Hcc Hn. unfold process_ack.
  set (c1 := c <| peerWnd := window hdr |>). change (sendAcked c1) with (sendAcked c).
  assert (∃ c2, (if ack_ hdr >? sendAcked c then new_ack hdr now c1
       else Ok (if is_dup_ack hdr (peerWnd c) c1 then dup_ack c1 else c1)) = Ok c2 ∧
    recv_side c2 = recv_side c ∧ cc_ok m (congCtrl c2) ∧ nagleBuf c2 = [] ∧ hostSeq c2 = hostSeq c ∧
    sendAcked c2 = (if ack_ hdr >? sendAcked c then ack_ hdr else sendAcked c))
    as (c2 & -> & Hr & Hc2 & Hn2 & Hh & Hs).
  { destruct (ack_ hdr >? sendAcked c).
    - destruct (new_ack_spec m hdr now c1 Hm Hcc) as (c2 & -> & ? & ? & ? & Hk).
      exists c2. destruct (Hk Hn). by split_and!.
    - eexists. split; [done|]. destruct (is_dup_ack _ _ _); [|done].
      destruct (dup_ack_spec m c1 Hm Hcc) as (? & ? & -> & -> & ->). by split_and!. }
  cbn [mbind result_bind]. eexists. split; [done|]. unfold resync. rewrite Hh.
  destruct (ack_ hdr >? hostSeq c); cbn [orb]; by split_and!.
Qed.

(** without delayed small writes, and as long as the unacknowledged data
    does not straddle a multiple of 2^32, an acknowledgement of position [p]
    between the oldest unacknowledged byte and the next byte to send moves the
    acknowledged position to [p] and leaves the next sequence number alone.
    When it does straddle one, an acknowledgement of a position before the
    multiple moves the next sequence number back to [p]: the bytes sent next
    reuse the sequence numbers of bytes already in flight. *)
Theorem host_sequence_number (m : Z) (hdr : tcpHeader) (now una p nxt : Z) (c : tcpConn) :
  0 < m < 2^16 → cc_ok m (congCtrl c) → nagleBuf c = [] →
  sendAcked c = u32 una → hostSeq c = u32 nxt → ack_ hdr = u32 p →
  una ≤ p ≤ nxt → nxt - una < 2^32 →
  ∃ c', process_ack hdr now c = Ok c' ∧
    (una / 2^32 = nxt / 2^32 → sendAcked c' = u32 p ∧ hostSeq c' = u32 nxt) ∧
    (p / 2^32 < nxt / 2^32 → hostSeq c' = u32 p ∧ hostSeq c' ≠ u32 nxt).
Proof.
  intros Hm Hcc Hn Hs Hh Ha Hp Hw.
  destruct (process_ack_spec m hdr now c Hm Hcc Hn) as (c' & E & _ & _ & _ & Hh' & Hs').
  exists c'. split; [done|]. rewrite Hh', Hs', Ha, Hs, Hh. rewrite !Z.gtb_ltb. unfold u32.
  pose proof (Z.div_mod una (2^32) ltac:(lia)). pose proof (Z.mod_pos_bound una (2^32) ltac:(lia)).
  pose proof (Z.div_mod p (2^32) ltac:(lia)). pose proof (Z.mod_pos_bound p (2^32) ltac:(lia)).
  pose proof (Z.div_mod nxt (2^32) ltac:(lia)). pose proof (Z.mod_pos_bound nxt (2^32) ltac:(lia)).
  split.
  - intros Hsame. assert (p / 2^32 = una / 2^32) as Hpd.
    { apply Z.le_antisymm; [rewrite Hsame|]; apply Z.div_le_mono; lia. }
    destruct (Z.ltb_spec (nxt mod 2^32) (p mod 2^32)); [lia|]. cbn [orb].
    destruct (Z.ltb_spec (una mod 2^32) (p mod 2^32)); lia.
  - intros Hlt. assert (p / 2^32 + 1 = nxt / 2^32) by lia.
    destruct (Z.ltb_spec (nxt mod 2^32) (p mod 2^32)); lia.
Qed.

Lemma host_sequence_number_witness :
  let c := (newTCPConn (2^32 - 2) 0 1000 false) <| hostSeq := 3 |> in
  let hdr := mkHeader 49152 80 1 (2^32 - 1) 0x50 tcpFlagACK 1000 0 0 [] [] in
  ∃ c', process_ack hdr 0 c = Ok c' ∧ hostSeq c' = 2^32 - 1.
Proof.
  intros c hdr.
  destruct (host_sequence_number 1460 hdr 0 (2^32 - 2) (2^32 - 1) (2^32 + 3) c) as (c' & E & _ & Hb);
    [lia|split_and!; vm_compute; done|reflexivity..|lia|lia|].
  exists c'. split; [exact E|]. destruct Hb as [-> _]; reflexivity.
Defined.

(** * The byte stream handed to the reader *)

(** Whatever a segment acknowledges, the receive side is left alone. *)
Lemma process_ack_recv m hdr now c :
  0 < m < 2^16 → cc_ok m (congCtrl c) →
  ∃ c', process_ack hdr now c = Ok c' ∧ recv_side c' = recv_side c ∧ cc_ok m (congCtrl c').
Proof.
  intros Hm Hcc. unfold process_ack. set (c1 := c <| peerWnd := window hdr |>).
  assert (∀ c2, recv_side c2 = recv_side c → cc_ok m (congCtrl c2) →
    recv_side (resync hdr c2) = recv_side c ∧ cc_ok m (congCtrl (resync hdr c2))) as Hre
    by (intros c2 ? ?; unfold resync; by destruct (_ >? _)).
  destruct (_ >? _).
  - destruct (new_ack_spec m hdr now c1 Hm Hcc) as (c2 & -> & ? & ? & _).
    cbn [mbind result_bind]. eexists. split; [done|]. by apply Hre.
  - cbn [mbind result_bind]. eexists. split; [done|]. destruct (is_dup_ack _ _ _); [|by apply Hre].
    destruct (dup_ack_spec m c1 Hm Hcc) as (? & ? & _). by apply Hre.
Qed.

(** A segment in the established state. *)
Lemma handle_established m hdr opts now c :
  state c = tcpStateEstablished → closed c = false → 0 < m < 2^16 → cc_ok m (congCtrl c) →
  ∃ c1, recv_side c1 = recv_side c ∧ cc_ok m (congCtrl c1) ∧
    handleSegment hdr opts now c = (established hdr c1, Ok tt).
Proof.
  intros Hst Hop Hm Hcc. unfold handleSegment. cbn [handle_turns]. rewrite Hop.
  assert (∃ c1, (if has (flags hdr) tcpFlagACK then process_ack hdr now c else Ok c) = Ok c1 ∧
    recv_side c1 = recv_side c ∧ cc_ok m (congCtrl c1)) as (c1 & -> & Hs & Hc1).
  { destruct (has _ _); [|by exists c]. by apply process_ack_recv. }
  exists c1. split; [done|]. split; [done|]. unfold by_state. unfold recv_side in Hs.
  injection Hs as -> _ _ _ _ _. by rewrite Hst.
Qed.

Lemma insert_keeps (P : tcpOOOSegment → Prop) rb seg :
  P seg → Forall P (rsegments rb) → Forall P (rsegments (insert rb seg).1).
Proof.
  intros Hseg Hrb. unfold insert. destruct (insert_scan _ _ _ _ _) as [i|]; [|done].
  destruct (_ >=? _); [done|]. cbn.
  apply Forall_app. split; [by apply Forall_take|]. constructor; [done|by apply Forall_drop].
Qed.

Lemma enqueue_all c ds :
  closed c = false → len (recvBuf c) + len ds ≤ recvBufDepth →
  foldl (λ c d, enqueueData (Some d) c) c ds = c <| recvBuf := recvBuf c ++ (Some <$> ds) |>.
Proof.
  revert c. induction ds as [|d ds IH]; intros c Hc Hl; cbn [foldl fmap list_fmap].
  { rewrite app_nil_r. by destruct c. }
  unfold enqueueData at 2. rewrite Hc. cbn [length] in Hl.
  destruct (Z.ltb_spec (Z.of_nat (length (recvBuf c))) recvBufDepth); [|lia].
  rewrite IH; [cbn; by rewrite <-app_assoc|done|]. cbn. rewrite length_app. cbn. lia.
Qed.

Section stream.
Context (stream : Z → Z) (lo hi : Z) (window : hi - lo < 2^32).

(** A segment whose payload is the piece of the guest's stream that its
    sequence number says, and which ends neither the stream nor the
    connection. *)
Definition honest (hdr : tcpHeader) : Prop :=
  has (flags hdr) tcpFlagFIN = false ∧ has (flags hdr) tcpFlagRST = false ∧
  ∃ x l, lo ≤ x ∧ 0 ≤ l ∧ x + l ≤ hi ∧ seq hdr = u32 x ∧ hpayload hdr = slice stream x l.

(** The bytes the reader has not taken. *)
Definition waiting (c : tcpConn) : list Z := readPending c ++ concat (omap id (recvBuf c)).

(** [out] are the bytes already read; together with the waiting ones they are
    the stream up to the sequence number the connection acknowledges. *)
Record receiving (out : list Z) (c : tcpConn) (n : Z) : Prop := {
  rc_state : state c = tcpStateEstablished;
  rc_open : closed c = false;
  rc_cc : ∃ m, 0 < m < 2^16 ∧ cc_ok m (congCtrl c);
  rc_data : Forall is_Some (recvBuf c);
  rc_range : lo ≤ n ≤ hi;
  rc_seq : guestSeq c = u32 n;
  rc_held : Forall (held stream lo hi) (rsegments (oooRecvBuf c));
  rc_bytes : out ++ waiting c = slice stream lo (n - lo);
}.

Definition queue_room (c : tcpConn) : bool :=
  len (recvBuf c) + len (rsegments (oooRecvBuf c)) <? recvBufDepth.

Lemma slice_length x l : 0 ≤ l → len (slice stream x l) = l.
Proof. intros. unfold slice. rewrite length_fmap, length_seqZ. lia. Qed.

Lemma u32_add_len x k : u32 (u32 x + k) = u32 (x + k).
Proof. unfold u32. by rewrite Zplus_mod_idemp_l. Qed.

Lemma omap_some (ds : list (list Z)) : omap id (Some <$> ds) = ds.
Proof. induction ds as [|d ds IH]; [done|]. cbn. by rewrite IH. Qed.

(** In-order data. *)
Lemma receive_in_order out c n hdr l :
  receiving out c n → queue_room c = true → has (flags hdr) tcpFlagFIN = false →
  0 ≤ l → n + l ≤ hi → seq hdr = u32 n → hpayload hdr = slice stream n l →
  ∃ n', n + l ≤ n' ∧ receiving out (receive_data hdr c) n'.
Proof.
  intros [Hst Hop Hcc Hd Hr Hsq Hh Hb] Hroom Hfin Hl Hhi Hseq Hpl. unfold receive_data.
  rewrite Hseq, Hsq, Z.eqb_refl. cbn [negb]. rewrite Hpl, slice_length, u32_add_len by done.
  cbn -[collectContiguous foldl u32 has]. unfold collectContiguous.
  destruct (collect_loop_spec stream lo hi (S (length (rsegments (oooRecvBuf c))))
    (rsegments (oooRecvBuf c)) (n + l) []) as (segs & n' & chunks & -> & [Hr' Hb' Hs' Hc'] & _);
    [done..|lia|lia|]. cbn -[foldl u32 has]. rewrite Hfin. unfold queue_room in Hroom. apply Z.ltb_lt in Hroom.
  rewrite enqueue_all; [|done|cbn [recvBuf update length]; lia].
  exists n'. split; [lia|]. split; try done; cbn.
  - apply Forall_app. split; [done|]. constructor; [done|]. apply Forall_fmap, Forall_true. by eexists.
  - lia.
  - by eapply Forall_sub.
  - rewrite omap_app, concat_app, (app_assoc (readPending c)), app_assoc. fold (waiting c). rewrite Hb.
    change (Some (slice stream n l) :: (Some <$> chunks)) with (Some <$> (slice stream n l :: chunks)).
    rewrite omap_some. cbn [concat]. rewrite Hb', slice_app by lia.
    replace n with (lo + (n - lo)) at 2 by lia. rewrite slice_app by lia. f_equal. lia.
Qed.

(** Any other data segment. *)
Lemma receive_elsewhere out c n hdr x l :
  receiving out c n → lo ≤ x → 0 ≤ l → x + l ≤ hi → seq hdr = u32 x →
  hpayload hdr = slice stream x l → u32 x ≠ u32 n → receiving out (receive_data hdr c) n.
Proof.
  intros [Hst Hop Hcc Hd Hr Hsq Hh Hb] Hx Hl Hxl Hseq Hpl Hne. unfold receive_data.
  rewrite Hseq, Hsq. destruct (Z.eqb_spec (u32 x) (u32 n)); [done|]. cbn [negb].
  destruct (seqGT _ _); [|by split]. split; try done. apply insert_keeps; [|done].
  exists x, l. split_and!; try done; cbn. by rewrite Hpl, slice_length, u32_add_len.
Qed.

Lemma receiving_ext out c c' n :
  recv_side c' = recv_side c → (∃ m, 0 < m < 2^16 ∧ cc_ok m (congCtrl c')) →
  receiving out c n → receiving out c' n.
Proof.
  intros E Hcc' []. unfold recv_side in E. injection E as E1 E2 E3 E4 E5 E6.
  split; unfold waiting in *; by rewrite ?E1, ?E2, ?E3, ?E4, ?E5, ?E6.
Qed.

Lemma handle_honest hdr opts now out c n :
  honest hdr → queue_room c = true → receiving out c n →
  ∃ c' n', handleSegment hdr opts now c = (c', Ok tt) ∧ receiving out c' n' ∧
    ∀ l, 0 ≤ l → seq hdr = u32 n → hpayload hdr = slice stream n l → n + l ≤ n'.
Proof.
  intros (Hf & Hrst & x & l & Hx & Hl & Hxl & Hseq & Hpl) Hroom Hc.
  destruct (rc_cc _ _ _ Hc) as (m & Hm & Hcc).
  destruct (handle_established m hdr opts now c (rc_state _ _ _ Hc) (rc_open _ _ _ Hc) Hm Hcc)
    as (c1 & Hs & Hcc1 & ->).
  assert (receiving out c1 n) as Hc1 by (apply (receiving_ext _ c); eauto).
  assert (queue_room c1 = true) as Hroom1.
  { unfold recv_side in Hs. injection Hs as _ _ _ E4 _ E6. unfold queue_room. by rewrite E4, E6. }
  exists (established hdr c1). unfold established. rewrite Hf, Hrst, Hpl, slice_length by done.
  pose proof (rc_range _ _ _ Hc). destruct (Z.gtb_spec l 0) as [Hpos|Hzero].
  - destruct (decide (u32 x = u32 n)) as [E|E].
    + assert (x = n) as -> by (apply (u32_inj lo hi); [done|lia|lia|done]).
      destruct (receive_in_order out c1 n hdr l) as (n' & Hn' & Hc'); [done..|].
      exists n'. split_and!; [done..|]. intros l' ? _ Hl'. apply (f_equal length) in Hl'.
      pose proof (slice_length n l). pose proof (slice_length n l'). lia.
    + exists n. split_and!; [done|by eapply receive_elsewhere|]. intros l' _ E'. congruence.
  - exists n. split_and!; [done..|]. intros l' ? _ Hl'. apply (f_equal length) in Hl'.
    pose proof (slice_length x l). pose proof (slice_length n l'). lia.
Qed.

Lemma read_data k out c n c' r :
  receiving out c n → Read k c = Some (c', r) → ∃ d, r = Ok d ∧ receiving (out ++ d) c' n.
Proof.
  intros [Hst Hop Hcc Hd Hr Hsq Hh Hb] E. unfold Read in E. unfold waiting in Hb.
  destruct (readPending c) as [|b p] eqn:Ep.
  - destruct (recvBuf c) as [|[d|] q] eqn:Eq; [by rewrite Hop in E| |by apply Forall_cons in Hd as [[] _]].
    apply Forall_cons in Hd as [_ Hd]. injection E as <- <-. exists (take k d). split; [done|].
    cbn in Hb. rewrite Hop. destruct (Nat.ltb_spec k (length d)) as [Hk|Hk]; cbn [andb negb];
      (split; try done; unfold waiting; cbn; rewrite <-app_assoc).
    + by rewrite (app_assoc (take k d)), take_drop.
    + rewrite Ep, (take_ge d) by lia. done.
  - injection E as <- <-. eexists. split; [done|]. split; try done. unfold waiting; cbn -[take drop].
    by rewrite <-app_assoc, (app_assoc (take _ _)), take_drop.
Qed.
End stream.

(** Segments arrive and the reader reads, in any order, the queue having room
    whenever a segment arrives. *)
Inductive stream_step (stream : Z → Z) (lo hi : Z) : relation (tcpConn * list Z) :=
  | step_segment hdr opts now c out c' r :
      honest stream lo hi hdr → queue_room c = true → handleSegment hdr opts now c = (c', r) →
      stream_step stream lo hi (c, out) (c', out)
  | step_read k c out c' d :
      Read k c = Some (c', Ok d) → stream_step stream lo hi (c, out) (c', out ++ d).

(** An established connection that has received nothing. *)
Definition fresh (lo : Z) (c : tcpConn) : Prop :=
  state c = tcpStateEstablished ∧ closed c = false ∧ guestSeq c = u32 lo ∧ recvBuf c = [] ∧
  readPending c = [] ∧ rsegments (oooRecvBuf c) = [] ∧
  congCtrl c = newTCPCongestionControl defaultMSS.

Lemma fresh_receiving stream lo hi c : lo ≤ hi → fresh lo c → receiving stream lo hi [] c lo.
Proof.
  intros Hlo (? & ? & ? & Hq & Hp & Hs & Hcc). split; try done.
  - exists 1460. split; [lia|]. rewrite Hcc. split_and!; vm_compute; done.
  - by rewrite Hq.
  - by rewrite Hs.
  - unfold waiting. by rewrite Hq, Hp, Z.sub_diag.
Qed.

Lemma steps_receiving stream lo hi c0 out0 n0 c out :
  hi - lo < 2^32 → receiving stream lo hi out0 c0 n0 →
  rtc (stream_step stream lo hi) (c0, out0) (c, out) → ∃ n, receiving stream lo hi out c n.
Proof.
  intros Hw Hr H. remember (c0, out0) as s eqn:Es. remember (c, out) as s' eqn:Es'.
  revert c0 out0 n0 Es Hr. induction H as [s|s s1 s2 Hstep _ IH]; intros c0 out0 n0 -> Hr.
  { injection Es' as <- <-. by exists n0. }
  inversion Hstep as [hdr opts now ? ? c' r Hh Hroom Hseg|k ? ? c' d Hread]; subst.
  - destruct (handle_honest stream lo hi Hw hdr opts now out0 c0 n0 Hh Hroom Hr) as (c1 & n1 & E & Hr1 & _).
    rewrite Hseg in E. injection E as -> _. by eapply (IH eq_refl).
  - destruct (read_data stream lo hi k out0 c0 n0 c' (Ok d) Hr Hread) as (d' & [= <-] & Hr1).
    by eapply (IH eq_refl).
Qed.

(** C8: however the guest's segments arrive — reordered, duplicated,
    overlapping, within a window of 2^32 bytes — and whenever the reader
    reads, the bytes read followed by the bytes waiting are exactly the
    guest's stream up to the position the connection acknowledges, provided
    the reader's queue has room when a segment arrives.  From any such state
    the segment that starts at that position is accepted and moves it past
    the segment's end. *)
Theorem reader_gets_stream (stream : Z → Z) (lo hi : Z) (c0 c : tcpConn) (out : list Z) :
  lo ≤ hi → hi - lo < 2^32 → fresh lo c0 → rtc (stream_step stream lo hi) (c0, []) (c, out) →
  ∃ n, lo ≤ n ≤ hi ∧ guestSeq c = u32 n ∧ out ++ waiting c = slice stream lo (n - lo) ∧
    ∀ hdr opts now l, honest stream lo hi hdr → queue_room c = true →
      0 ≤ l → seq hdr = u32 n → hpayload hdr = slice stream n l →
      ∃ c' n', handleSegment hdr opts now c = (c', Ok tt) ∧ guestSeq c' = u32 n' ∧ n + l ≤ n'.
Proof.
  intros Hlo Hw Hf H. apply (fresh_receiving stream lo hi c0 Hlo) in Hf.
  destruct (steps_receiving stream lo hi c0 [] lo c out Hw Hf H) as (n & Hr). exists n.
  destruct Hr as [? ? ? ? ? ? ? ?] eqn:E. clear E. split_and!; [lia..|done|done|].
  intros hdr opts now l Hh Hroom Hl Hseq Hpl.
  destruct (handle_honest stream lo hi Hw hdr opts now out c n Hh Hroom Hr) as (c' & n' & ? & Hr' & Hn').
  exists c', n'. split_and!; [done|apply Hr'|by apply Hn'].
Qed.

(** A guest that sends bytes 1 to 6 in three segments, the middle one last. *)
Definition demo_conn : tcpConn :=
  (newTCPConn 1000 (2^32 - 3) 65535 false) <| state := tcpStateEstablished |> <| hostSeq := 1001 |>.
Definition demo_stream (p : Z) : Z := p - (2^32 - 2) + 1.
Definition demo_segment (x l : Z) : tcpHeader :=
  mkHeader 49152 80 (u32 x) 1001 0x50 tcpFlagACK 65535 0 0 [] (slice demo_stream x l).
Definition demo_after : tcpConn :=
  let turn c x l := (handleSegment (demo_segment x l) noOptions 0 c).1 in
  turn (turn (turn demo_conn (2^32 - 2) 2) (2^32 + 2) 2) (2^32) 2.

Lemma reader_gets_stream_witness :
  ∃ n, guestSeq demo_after = u32 n ∧
    waiting demo_after = slice demo_stream (2^32 - 2) (n - (2^32 - 2)) ∧ waiting demo_after = [1; 2; 3; 4; 5; 6].
Proof.
  assert (∀ x l, 2^32 - 2 ≤ x → 0 ≤ l → x + l ≤ 2^32 + 4 →
    honest demo_stream (2^32 - 2) (2^32 + 4) (demo_segment x l)) as Hh
    by (intros x l ? ? ?; split; [done|]; split; [done|]; exists x, l; by split_and!).
  destruct (reader_gets_stream demo_stream (2^32 - 2) (2^32 + 4) demo_conn demo_after []) as (n & _ & E & Hb & _);
    [lia|lia|split_and!; vm_compute; reflexivity| |].
  - assert (∀ c x l, 2^32 - 2 ≤ x → 0 ≤ l → x + l ≤ 2^32 + 4 → queue_room c = true →
      stream_step demo_stream (2^32 - 2) (2^32 + 4) (c, [])
        ((handleSegment (demo_segment x l) noOptions 0 c).1, [])) as Hs
      by (intros; eapply step_segment; [by apply Hh|done|apply surjective_pairing]).
    eapply rtc_l; [apply (Hs demo_conn (2^32 - 2) 2)|eapply rtc_l; [apply (Hs _ (2^32 + 2) 2)|
      apply rtc_once, (Hs _ (2^32) 2)]]; lia || (vm_compute; reflexivity).
  - exists n. split; [exact E|]. split; [exact Hb|]. vm_compute. reflexivity.
Defined.

(** C36: when the reader's queue is full, a segment with the next bytes is
    acknowledged to the guest although none of its bytes are kept: the reader
    will never see them and the guest will not send them again. *)
Theorem full_queue_loses_bytes (hdr : tcpHeader) (opts : tcpOptions) (now : Z) (c : tcpConn) :
  state c = tcpStateEstablished → closed c = false → (∃ m, 0 < m < 2^16 ∧ cc_ok m (congCtrl c)) →
  recvBufDepth ≤ len (recvBuf c) → rsegments (oooRecvBuf c) = [] →
  seq hdr = guestSeq c → hpayload hdr ≠ [] → has (flags hdr) tcpFlagFIN = false →
  ∃ c' s, handleSegment hdr opts now c = (c', Ok tt) ∧
    recvBuf c' = recvBuf c ∧ readPending c' = readPending c ∧ rsegments (oooRecvBuf c') = [] ∧
    guestSeq c' = u32 (guestSeq c + len (hpayload hdr)) ∧
    last (sent c') = Some (mkPacket s (u32 (guestSeq c + len (hpayload hdr))) tcpFlagACK [] []).
Proof.
  intros Hst Hop (m & Hm & Hcc) Hfull Hooo Hseq Hpl Hfin.
  destruct (handle_established m hdr opts now c Hst Hop Hm Hcc) as (c1 & Hs & _ & ->).
  unfold recv_side in Hs. injection Hs as E1 E2 E3 E4 E5 E6.
  unfold established. destruct (hpayload hdr) as [|b d] eqn:Ed; [done|].
  destruct (Z.gtb_spec (len (b :: d)) 0) as [_|Hl]; [|cbn in Hl; lia].
  unfold receive_data. rewrite Ed, Hseq, <-E3, Z.eqb_refl. cbn [negb guestSeq oooRecvBuf update].
  destruct (oooRecvBuf c1) as [segs g] eqn:Eo. rewrite <-E6 in Hooo. cbn in Hooo. subst segs.
  cbn -[u32 has length len]. rewrite Hfin. cbn -[u32 length]. unfold enqueueData. cbn -[u32 length].
  rewrite E2, Hop, E4. destruct (Z.ltb_spec (len (recvBuf c)) recvBufDepth); [lia|].
  eexists _, _. split; [done|]. cbn -[u32 length]. split_and!; try done. by rewrite last_snoc.
Qed.

Definition full_conn : tcpConn := demo_conn <| recvBuf := replicate 512 (Some [0]) |>.
Lemma full_queue_loses_bytes_witness :
  ∃ c' s, handleSegment (demo_segment (2^32 - 2) 2) noOptions 0 full_conn = (c', Ok tt) ∧
    recvBuf c' = recvBuf full_conn ∧ guestSeq c' = 0 ∧
    last (sent c') = Some (mkPacket s 0 tcpFlagACK [] []).
Proof.
  destruct (full_queue_loses_bytes (demo_segment (2^32 - 2) 2) noOptions 0 full_conn)
    as (c' & s & E & Hq & _ & _ & Hg & Hl);
    [reflexivity|reflexivity| |vm_compute; done|reflexivity|reflexivity|done|reflexivity|].
  - exists 1460. split; [lia|]. split_and!; vm_compute; done.
  - exists c', s. split; [exact E|]. split; [exact Hq|]. split; [rewrite Hg; reflexivity|rewrite Hl; reflexivity].
Defined.

(** * Writing to the guest *)

(** The flight: what is sent and not acknowledged. *)
Definition flight (c : tcpConn) : Z := u32 (hostSeq c - sendAcked c).

(** Data packets that carry [data] from sequence number [s] on. *)
Fixpoint carries (pkts : list packet) (s : Z) (data : list Z) : Prop :=
  match pkts with
  | [] => data = []
  | p :: pkts =>
    pseq p = u32 s ∧ 1 ≤ len (pdata p) ≤ maxPayload ∧ has (pflags p) tcpFlagACK = true ∧
    ∃ rest, data = pdata p ++ rest ∧ carries pkts (s + len (pdata p)) rest
  end.

(** What a write leaves of the connection: [data] sent, the window respected. *)
Record wrote (c c' : tcpConn) (pkts : list packet) (data : list Z) : Prop := {
  wr_sent : sent c' = sent c ++ pkts;
  wr_pkts : carries pkts (hostSeq c) data;
  wr_seq : hostSeq c' = u32 (hostSeq c + len data);
  wr_frame : sendAcked c' = sendAcked c ∧ send_window c' = send_window c ∧
    closed c' = closed c ∧ writeClosed c' = writeClosed c ∧ guestSeq c' = guestSeq c ∧
    nagleEnabled c' = nagleEnabled c ∧ nagleBuf c' = nagleBuf c;
  wr_flight : flight c' = flight c + len data ∧ (data = [] ∨ flight c' ≤ send_window c);
}.

Lemma carries_mod pkts s s' data : u32 s = u32 s' → carries pkts s data → carries pkts s' data.
Proof.
  revert s s' data. induction pkts as [|p pkts IH]; intros s s' data E; [done|]. cbn [carries].
  intros (-> & [? ?] & Hf & rest & -> & Hr). split_and!; [done..|]. exists rest. split; [done|].
  eapply IH; [|exact Hr]. by rewrite <-(u32_add_len s), <-(u32_add_len s'), E.
Qed.
Lemma carries_app pkts pkts' s data data' :
  carries pkts s data → carries pkts' (s + len data) data' → carries (pkts ++ pkts') s (data ++ data').
Proof.
  revert s data. induction pkts as [|p pkts IH]; intros s data; cbn [carries app].
  - intros ->. by rewrite Z.add_0_r.
  - intros (-> & [? ?] & Hf & rest & -> & Hr) Hc. split_and!; [done..|]. exists (rest ++ data').
    rewrite app_assoc. split; [done|]. apply IH; [done|]. rewrite length_app in Hc.
    by replace (s + len (pdata p) + len rest) with (s + Z.of_nat (length (pdata p) + length rest)) by lia.
Qed.

Lemma wrote_trans c c1 c2 p1 p2 d1 d2 :
  wrote c c1 p1 d1 → wrote c1 c2 p2 d2 → wrote c c2 (p1 ++ p2) (d1 ++ d2).
Proof.
  intros [S1 P1 Q1 F1 W1] [S2 P2 Q2 F2 W2]. destruct F1 as (? & Hw & ? & ? & ? & ? & ?).
  destruct F2 as (? & ? & ? & ? & ? & ? & ?). split.
  - by rewrite S2, S1, app_assoc.
  - apply carries_app; [done|]. eapply carries_mod; [|exact P2]. rewrite Q1.
    apply Zmod_mod.
  - rewrite Q2, Q1, u32_add_len, length_app. f_equal. lia.
  - split_and!; congruence.
  - rewrite length_app. destruct W1 as [E1 W1], W2 as [E2 W2]. rewrite Hw in W2. split; [lia|].
    destruct W2 as [->|W2]; [|right; lia]. rewrite app_nil_r. cbn [length] in E2.
    destruct W1 as [->|W1]; [by left|right; lia].
Qed.

Lemma timer_if (b : bool) c :
  (if b then c <| retxTimer := true |> else c) = c <| retxTimer := b || retxTimer c |>.
Proof. by destruct b, c. Qed.
Lemma keep_segment_frame seg now c :
  ∃ sb t ok, keep_segment seg now c = (c <| sendBuf := sb |> <| retxTimer := t |>, ok) ∧
    (ok = false → capacity sb < used sb + len (payload seg)).
Proof.
  unfold keep_segment, append. destruct (Z.gtb_spec (used (sendBuf c) + len (payload seg)) (capacity (sendBuf c))).
  - set (sb := (ack _ _ _).1.1). destruct (Z.gtb_spec (used sb + len (payload seg)) (capacity sb)); cbn [negb].
    + exists sb, (retxTimer c), false. by split; [destruct c|].
    + rewrite timer_if. by eexists _, _, true.
  - cbn [negb]. rewrite timer_if. by eexists _, _, true.
Qed.

(** A connection open for writing, small writes not delayed. *)
Definition writable (c : tcpConn) : Prop :=
  closed c = false ∧ writeClosed c = false ∧ nagleEnabled c = false ∧ nagleBuf c = [] ∧
  u32 (hostSeq c) = hostSeq c ∧ 0 ≤ send_window c < 2^32.

Lemma wrote_writable c c' pkts data : wrote c c' pkts data → writable c → writable c'.
Proof.
  intros [_ _ Hq (? & Hw & ? & ? & ? & ? & ?) _] (? & ? & ? & ? & ? & ?).
  split_and!; try congruence; [|lia..]. rewrite Hq. apply Zmod_mod.
Qed.

Lemma flight_advance c c' n :
  sendAcked c' = sendAcked c → hostSeq c' = u32 (hostSeq c + n) → 0 ≤ n → flight c + n < 2^32 →
  flight c' = flight c + n.
Proof.
  intros Ha Hh Hn Hb. unfold flight in *. rewrite Ha, Hh. pose proof (u32_nonneg (hostSeq c - sendAcked c)).
  rewrite <-(Z.mod_small (u32 (hostSeq c - sendAcked c) + n) (2^32)) by lia. unfold u32.
  rewrite Zminus_mod_idemp_l, Zplus_mod_idemp_l. f_equal. lia.
Qed.

Lemma send_packet_wrote c pkt d sb t :
  writable c → pseq pkt = hostSeq c → pdata pkt = d → 1 ≤ len d ≤ maxPayload →
  has (pflags pkt) tcpFlagACK = true → flight c + len d ≤ send_window c →
  wrote c (c <| hostSeq := u32 (hostSeq c + len d) |> <| sent := sent c ++ [pkt] |>
             <| sendBuf := sb |> <| retxTimer := t |>) [pkt] d.
Proof.
  intros (? & ? & ? & ? & Hu & ?) Hs Hd Hl Hf Hw. split; try done.
  - cbn. rewrite Hd. split_and!; [congruence|lia|lia|done|]. exists []. by rewrite app_nil_r.
  - rewrite (flight_advance c _ (len d)); [|done|done|lia|lia]. split; [done|]. right. lia.
Qed.

(** One turn. *)
Lemma write_turn_spec b now c :
  writable c → b ≠ [] →
  (send_window c ≤ flight c ∧ write_turn b now c = (c, WaitWindow)) ∨
  ∃ c' pkt k, (1 ≤ k)%nat ∧ wrote c c' [pkt] (take k b) ∧
    (write_turn b now c = (c', Wrote (len (take k b))) ∨
     ∃ seg, payload seg = take k b ∧ write_turn b now c = (c', WaitBuffer seg) ∧
       capacity (sendBuf c') < used (sendBuf c') + maxPayload).
Proof.
  intros Hc Hb. pose proof Hc as (Hcl & Hwc & Hne & Hnb & Hu & Hwr). unfold write_turn.
  rewrite Hcl, Hwc, Hne, Hnb. cbn [orb andb]. fold (flight c).
  pose proof (u32_nonneg (hostSeq c - sendAcked c) : 0 ≤ flight c).
  destruct (Z.gtb_spec (send_window c) 0), (Z.ltb_spec (flight c) (send_window c)); cbn [negb andb];
    try (left; split; [lia|done]). right.
  set (k := Z.to_nat (if send_window c - flight c <? maxPayload then send_window c - flight c else maxPayload)).
  assert ((1 ≤ k)%nat ∧ Z.of_nat k ≤ maxPayload ∧ flight c + Z.of_nat k ≤ send_window c) as (Hk & Hkm & Hkw).
  { unfold k, maxPayload. destruct (Z.ltb_spec (send_window c - flight c) 1460); lia. }
  cbn [app]. rewrite take_take, Nat.min_id, drop_ge by (rewrite length_take; lia).
  assert (c <| nagleBuf := [] |> = c) as -> by (rewrite <-Hnb; by destruct c).
  assert (1 ≤ len (take k b) ≤ Z.of_nat k) as Hlen.
  { rewrite length_take. destruct b; [done|]. cbn [length]. lia. }
  set (f := if _ && _ then Z.lor tcpFlagACK tcpFlagPSH else tcpFlagACK).
  assert (has f tcpFlagACK = true) as Hf by (unfold f; by destruct (_ && _)).
  clearbody f k. cbn [hostSeq guestSeq sendTCPPacket update].
  match goal with |- context [keep_segment ?s now ?c0] =>
    destruct (keep_segment_frame s now c0) as (sb & t & ok & -> & Hok) end.
  exists (c <| hostSeq := u32 (hostSeq c + len (take k b)) |>
    <| sent := sent c ++ [mkPacket (hostSeq c) (guestSeq c) f (take k b) []] |>
    <| sendBuf := sb |> <| retxTimer := t |>), (mkPacket (hostSeq c) (guestSeq c) f (take k b) []), k.
  split; [lia|]. split; [apply send_packet_wrote; try done; lia|].
  destruct ok; [by left|right]. eexists. split; [|split; [done|]]; [done|]. specialize (Hok eq_refl).
  cbn in Hok |- *. lia.
Qed.

Lemma wrote_nothing c : writable c → wrote c c [] [].
Proof.
  intros (? & ? & ? & ? & Hu & ?). split; try done; cbn [length].
  - by rewrite app_nil_r.
  - by rewrite Z.add_0_r.
  - split; [lia|by left].
Qed.

Lemma write_turns_spec fuel b now c :
  writable c → (length b ≤ fuel)%nat →
  ∃ c' rest stop pkts data, write_turns fuel b now c = (c', rest, stop) ∧ b = data ++ rest ∧
    wrote c c' pkts data ∧
    (stop = Done ∧ rest = [] ∨ stop = WindowFull ∧ send_window c ≤ flight c' ∨
     stop = BufferFull ∧ capacity (sendBuf c') < used (sendBuf c') + maxPayload).
Proof.
  revert b c. induction fuel as [|fuel IH]; intros b c Hc Hf.
  { destruct b; [|cbn in Hf; lia]. exists c, [], Done, [], []. split_and!; auto using wrote_nothing. }
  destruct b as [|x b']; [exists c, [], Done, [], []; split_and!; auto using wrote_nothing|].
  cbn [write_turns]. set (b := x :: b') in *.
  destruct (write_turn_spec b now c Hc) as [[Hw ->]|(c1 & pkt & k & Hk & Hwr & [->|(seg & Hs & -> & Hcap)])];
    [done| | |].
  - exists c, b, WindowFull, [], []. split_and!; auto using wrote_nothing.
  - rewrite Nat2Z.id. destruct (IH (drop (length (take k b)) b) c1) as (c2 & rest & stop & pkts & data & -> & Hb & Hwr2 & Hstop).
    { by eapply wrote_writable. }
    { rewrite length_drop, length_take. unfold b in *. cbn [length] in *. lia. }
    exists c2, rest, stop, ([pkt] ++ pkts), (take k b ++ data). split; [done|]. split.
    { rewrite <-app_assoc, <-Hb. rewrite <-(take_drop (length (take k b)) b) at 1. f_equal.
      rewrite length_take. destruct (Nat.le_gt_cases k (length b)); [by rewrite Nat.min_l|].
      rewrite Nat.min_r, !take_ge by lia. done. }
    split; [by eapply wrote_trans|]. by rewrite (proj1 (proj2 (wr_frame _ _ _ _ Hwr))) in Hstop.
  - exists c1, (drop (length (payload seg)) b), BufferFull, [pkt], (take k b). split; [done|]. split.
    { rewrite Hs, length_take. rewrite <-(take_drop k b) at 1. f_equal.
      destruct (Nat.le_gt_cases k (length b)); [by rewrite Nat.min_l|].
      rewrite Nat.min_r, !drop_ge by lia. done. }
    split; [done|]. right; right. done.
Qed.

(** C35: a write, small writes not being delayed, sends a prefix of the data
    in packets of at most 1460 bytes with consecutive sequence numbers, never
    has more unacknowledged bytes than the guest's window, and stops before
    the end only when the window or the retransmission buffer is full. *)
Theorem write_sends (b : list Z) (now : Z) (c : tcpConn) :
  writable c →
  ∃ c' rest stop pkts data, Write b now c = (c', rest, stop) ∧ b = data ++ rest ∧
    sent c' = sent c ++ pkts ∧ carries pkts (hostSeq c) data ∧
    hostSeq c' = u32 (hostSeq c + len data) ∧ (data = [] ∨ flight c' ≤ send_window c) ∧
    (stop = Done ∧ rest = [] ∨ stop = WindowFull ∧ send_window c ≤ flight c' ∨
     stop = BufferFull ∧ capacity (sendBuf c') < used (sendBuf c') + maxPayload).
Proof.
  intros Hc. destruct (write_turns_spec (length b) b now c Hc ltac:(lia))
    as (c' & rest & stop & pkts & data & E & Hb & [] & Hstop).
  exists c', rest, stop, pkts, data. by split_and!; try apply wr_flight0.
Qed.

Lemma write_sends_witness :
  ∃ c' pkts, Write (replicate 2000 7) 0 demo_conn = (c', [], Done) ∧
    sent c' = pkts ∧ carries pkts 1001 (replicate 2000 7) ∧ hostSeq c' = 3001.
Proof.
  destruct (write_sends (replicate 2000 7) 0 demo_conn)
    as (c' & rest & stop & pkts & data & E & Hb & Hs & Hp & Hh & _); [split_and!; vm_compute; done|].
  assert ((Write (replicate 2000 7) 0 demo_conn).1.2 = [] ∧ (Write (replicate 2000 7) 0 demo_conn).2 = Done)
    as [Hr Hst] by (split; vm_compute; reflexivity).
  rewrite E in Hr, Hst. cbn in Hr, Hst. subst rest stop. rewrite app_nil_r in Hb. subst data.
  exists c', pkts. split; [exact E|]. split; [exact Hs|]. split; [exact Hp|]. rewrite Hh. vm_compute. reflexivity.
Defined.

(** * The end of the stream *)

Lemma close_keeps_queue c : closed c = false → closed (Close c) = true ∧ recvBuf (Close c) = recvBuf c.
Proof.
  intros Hc. unfold Close. rewrite Hc. unfold completeDial. cbn.
  destruct (_ && negb (writeClosed c)), (_ && negb _); done.
Qed.

Lemma finwait_closes m hdr opts now c :
  state c = tcpStateFinWait → closed c = false → 0 < m < 2^16 → cc_ok m (congCtrl c) →
  has (flags hdr) tcpFlagACK = true →
  ∃ c', handleSegment hdr opts now c = (c', Ok tt) ∧ closed c' = true ∧ recvBuf c' = recvBuf c.
Proof.
  intros Hst Hop Hm Hcc Hack. unfold handleSegment. cbn [handle_turns]. rewrite Hop, Hack.
  destruct (process_ack_recv m hdr now c Hm Hcc) as (c1 & -> & Hs & _).
  unfold recv_side in Hs. injection Hs as E1 E2 _ E4 _ _. unfold by_state. rewrite E1, Hst, Hack.
  eexists. split; [done|]. 
  destruct (close_keeps_queue (c1 <| state := tcpStateClosed |>)) as [? Hq]; [cbn; congruence|].
  split; [done|]. rewrite Hq. exact E4.
Qed.

(** in the established state a segment with the FIN flag and no payload
    ends the reader's stream whatever its sequence number is: the end mark is
    queued and acknowledged, and the next acknowledging segment closes the
    connection without delivering its payload.  A FIN that overtakes data the
    guest sent before it therefore cuts the stream short. *)
Theorem fin_ignores_sequence (hdr : tcpHeader) (opts : tcpOptions) (now : Z) (c : tcpConn) :
  state c = tcpStateEstablished → closed c = false → (∃ m, 0 < m < 2^16 ∧ cc_ok m (congCtrl c)) →
  len (recvBuf c) < recvBufDepth → hpayload hdr = [] → has (flags hdr) tcpFlagFIN = true →
  ∃ c' s, handleSegment hdr opts now c = (c', Ok tt) ∧
    recvBuf c' = recvBuf c ++ [None] ∧ guestSeq c' = u32 (guestSeq c + 1) ∧
    mkPacket s (u32 (guestSeq c + 1)) tcpFlagACK [] [] ∈ sent c' ∧
    ∀ late opts now, has (flags late) tcpFlagACK = true →
      ∃ c'', handleSegment late opts now c' = (c'', Ok tt) ∧ closed c'' = true ∧ recvBuf c'' = recvBuf c'.
Proof.
  intros Hst Hop (m & Hm & Hcc) Hroom Hpl Hfin.
  destruct (handle_established m hdr opts now c Hst Hop Hm Hcc) as (c1 & Hs & Hcc1 & ->).
  unfold recv_side in Hs. injection Hs as E1 E2 E3 E4 E5 E6.
  set (c2 := established hdr c1). exists c2, (hostSeq c1).
  assert (recvBuf c2 = recvBuf c ++ [None] ∧ guestSeq c2 = u32 (guestSeq c + 1) ∧
    state c2 = tcpStateFinWait ∧ closed c2 = false ∧ congCtrl c2 = congCtrl c1 ∧
    mkPacket (hostSeq c1) (u32 (guestSeq c + 1)) tcpFlagACK [] [] ∈ sent c2) as (? & ? & ? & ? & Hcc2 & ?).
  { unfold c2, established. rewrite Hpl, Hfin. cbn -[has u32]. unfold peer_closed, enqueueData. cbn -[u32 length].
    rewrite E2, Hop, E4. destruct (Z.ltb_spec (len (recvBuf c)) recvBufDepth); [|lia].
    rewrite <-E3. destruct (writeClosed c1); cbn -[u32]; split_and!; try done; set_solver. }
  split_and!; [done..|]. intros late opts' now' Hack. apply (finwait_closes m); try done. by rewrite Hcc2.
Qed.

(** The FIN arrives before four bytes of data. *)
Lemma fin_ignores_sequence_witness :
  let fin := mkHeader 49152 80 (u32 (2^32 + 2)) 1001 0x50 (Z.lor tcpFlagFIN tcpFlagACK) 65535 0 0 [] [] in
  ∃ c' s, handleSegment fin noOptions 0 demo_conn = (c', Ok tt) ∧ recvBuf c' = [None] ∧
    mkPacket s (2^32 - 1) tcpFlagACK [] [] ∈ sent c' ∧
    ∃ c'', handleSegment (demo_segment (2^32 - 2) 4) noOptions 0 c' = (c'', Ok tt) ∧
      closed c'' = true ∧ recvBuf c'' = [None].
Proof.
  intros fin. destruct (fin_ignores_sequence fin noOptions 0 demo_conn) as (c' & s & E & Hq & _ & Hs & Hl);
    [reflexivity|reflexivity| |vm_compute; done|reflexivity|reflexivity|].
  - exists 1460. split; [lia|]. split_and!; vm_compute; done.
  - exists c', s. split; [exact E|]. split; [exact Hq|]. split; [exact Hs|].
    destruct (Hl (demo_segment (2^32 - 2) 4) noOptions 0) as (c'' & E' & Hc & Hq'); [reflexivity|].
    exists c''. split; [exact E'|]. split; [exact Hc|]. rewrite Hq', Hq. reflexivity.
Defined.
