(* ===== verification/NetStack.v ===== *)
(** The user-mode network stack: [NetStack] of src/internal/netstack/netstack.go
    and its buffer pool, src/internal/netstack/buffers.go.

    [DeliverGuestPacket] is the entry point for guest frames.  A handler
    returns [None] when the code never returns: when it parses a zero-length
    TCP option, and when it waits for room in a UDP socket's queue.  Frames
    handed to the backend, datagrams handed to the host and callbacks are
    recorded; the backend, the host's sockets and the random source are
    parameters.

    The theorems: whatever the guest sends, every connection the stack holds
    for it has the guest's own address as its source and a destination that
    the access policy allows; and a frame that does not speak for the guest
    changes nothing but a counter. *)
From stdpp Require Import gmap.
From S2P Require Import Prelude Tcp Packet TcpConn.

(** * The frame pool *)

Module Pool.
Definition byteSlicePoolDepth : nat := 256.
Definition defaultCap : Z := 64 * 1024 + 20 + 14.
Definition maxCap : Z := 256 * 1024 + 14.

(** A buffer is its whole capacity; a slice of it is a prefix. *)
Definition fresh_buffer (size : nat) : list Z := replicate (Z.to_nat (Z.max defaultCap (Z.of_nat size))) 0.
Definition get (size : nat) (pool : list (list Z)) : list Z * list (list Z) :=
  if maxCap <? Z.of_nat size then (replicate size 0, pool)
  else
    match pool with
    | buf :: pool => (if (size <=? length buf)%nat then buf else fresh_buffer size, pool)
    | [] => (fresh_buffer size, [])
    end.
Definition put (buf : list Z) (pool : list (list Z)) : list (list Z) :=
  if maxCap <? len buf then pool
  else if (length pool <? byteSlicePoolDepth)%nat then pool ++ [buf] else pool.
End Pool.

(** [getEthernetFrameBuffer]: the slice and the buffer behind it. *)
Definition getEthernetFrameBuffer (payloadLen : nat) (pool : list (list Z))
    : list Z * list Z * list (list Z) :=
  let total := (ethernetHeaderLen + payloadLen)%nat in
  if Pool.maxCap <? Z.of_nat total then (replicate total 0, replicate total 0, pool)
  else let '(buf, pool) := Pool.get total pool in (take total buf, buf, pool).
(** [putEthernetFrameBuffer]: the buffer keeps what the slice holds now. *)
Definition putEthernetFrameBuffer (frame buf : list Z) (pool : list (list Z)) : list (list Z) :=
  if Pool.maxCap <? len buf then pool else Pool.put (overwrite buf 0 frame) pool.

(** * State *)

Record tcpFourTuple := mkTuple { kSrcIP : list Z; kDstIP : list Z; kSrcPort : Z; kDstPort : Z }.
#[export] Instance tcpFourTuple_eq_dec : EqDecision tcpFourTuple.
Proof. solve_decision. Defined.
#[export] Instance tcpFourTuple_countable : Countable tcpFourTuple.
Proof.
  refine (inj_countable' (λ k, (kSrcIP k, kDstIP k, kSrcPort k, kDstPort k))
    (λ '(a, b, c, d), mkTuple a b c d) _). by intros [].
Defined.

Record udpProxyKey := mkProxyKey { pSrcIP : list Z; pSrcPort : Z; pDstPort : Z }.
#[export] Instance udpProxyKey_eq_dec : EqDecision udpProxyKey.
Proof. solve_decision. Defined.

(** Who a connection is bridged to. *)
Inductive conn_kind := ForListener (port : Z) | ForService | ForOutbound | ForDial.
#[export] Instance conn_kind_eq_dec : EqDecision conn_kind.
Proof. solve_decision. Defined.
Record conn_entry := mkEntry { conn : tcpConn; localIPv4 : list Z; kind : conn_kind }.

Definition udpPacket : Type := list Z * (list Z * Z).
Inductive udpEndpoint :=
  | udpEndpointConn (incoming : list udpPacket) (closed_ : bool)
  | udpCallbackEndpoint (buf : list Z) (closed_ : bool).
Definition udpQueueDepth : nat := 32.

Record NetStack := mkStack {
  hostMAC : Z; guestMAC : Z; observedGuestMAC : Z;
  hostIPv4 : list Z; guestIPv4 : list Z; serviceIPv4 : list Z;
  serviceProxyEnabled : bool; hostAccessEnabled : bool; allowInternet : bool; validateChecksums : bool;
  serviceProxyPorts : gset Z;
  iface : bool; backend : bool;
  tcpListen : gset Z; tcpConns : gmap tcpFourTuple conn_entry;
  udpSockets : gmap Z udpEndpoint; udpServiceProxies : list udpProxyKey;
  udpRxPackets : Z; udpTxPackets : Z; sourceViolations : list Z;
  pool : list (list Z);
  out_frames : list (list Z);
  callbacks : list (Z * udpPacket);
  host_datagrams : list (udpProxyKey * list Z);
}.
#[export] Instance eta_NetStack : Eta NetStack := λ s,
  mkStack (hostMAC s) (guestMAC s) (observedGuestMAC s) (hostIPv4 s) (guestIPv4 s) (serviceIPv4 s)
    (serviceProxyEnabled s) (hostAccessEnabled s) (allowInternet s) (validateChecksums s)
    (serviceProxyPorts s) (iface s) (backend s) (tcpListen s) (tcpConns s) (udpSockets s)
    (udpServiceProxies s) (udpRxPackets s) (udpTxPackets s) (sourceViolations s) (pool s)
    (out_frames s) (callbacks s) (host_datagrams s).

Definition defaultHostIPv4 : list Z := [10; 42; 0; 1].
Definition defaultGuestIPv4 : list Z := [10; 42; 0; 2].
Definition defaultServiceIPv4 : list Z := [10; 42; 0; 100].

Definition New : NetStack :=
  mkStack macUnset macUnset macUnset defaultHostIPv4 defaultGuestIPv4 defaultServiceIPv4
    true true true false ∅ false false ∅ ∅ ∅ [] 0 0 [0; 0; 0; 0; 0; 0] [] [] [] [].

(** * Configuration *)

Definition SetGuestMAC (mac : option (list Z)) (s : NetStack) : NetStack * result unit :=
  match mac with
  | None => (s <| guestMAC := macUnset |>, Ok tt)
  | Some mac =>
    match macToUint64 mac with
    | Some value => (s <| guestMAC := value |>, Ok tt)
    | None => (s, Err "invalid MAC address length")
    end
  end.
Definition SetHostMAC (mac : list Z) (s : NetStack) : NetStack * result unit :=
  match macToUint64 mac with
  | None => (s, Err "invalid MAC address length")
  | Some value =>
    if isBroadcast mac || negb (Z.land (byte_at mac 0) 1 =? 0)
    then (s, Err "host MAC is not a unicast address")
    else (s <| hostMAC := value |>, Ok tt)
  end.
(** [ip] is the four-byte form, if the address has one. *)
Definition SetGuestIPv4 (ip : option (list Z)) (s : NetStack) : NetStack * result unit :=
  match ip with
  | None => (s, Err "guest ip is not an ipv4 address")
  | Some ip4 => (s <| guestIPv4 := ip4 |>, Ok tt)
  end.
Definition SetServiceProxyEnabled (enabled : bool) (s : NetStack) := s <| serviceProxyEnabled := enabled |>.
Definition SetHostAccessEnabled (enabled : bool) (s : NetStack) := s <| hostAccessEnabled := enabled |>.
Definition SetInternetAccessEnabled (enabled : bool) (s : NetStack) := s <| allowInternet := enabled |>.
Definition SetChecksumValidationEnabled (enabled : bool) (s : NetStack) := s <| validateChecksums := enabled |>.
Definition valid_port (port : Z) : bool := negb ((port <=? 0) || (port >? 65535)).
Definition SetAllowedServiceProxyPorts (ports : list Z) (s : NetStack) : NetStack :=
  s <| serviceProxyPorts := list_to_set (filter (λ p, valid_port p = true) ports) |>.
Definition AllowServiceProxyPort (port : Z) (s : NetStack) : NetStack :=
  if negb (valid_port port) then s
  else s <| serviceProxyPorts := {[port]} ∪ serviceProxyPorts s |>.

(** [random] are the six bytes of the random source. *)
Definition AttachNetworkInterface (random : list Z) (s : NetStack) : NetStack * result unit :=
  if iface s then (s, Err "network interface already attached")
  else if negb (macIsSet (guestMAC s)) then (s, Err "guest mac must be configured before attaching interface")
  else
    let s :=
      if macIsSet (hostMAC s) then s
      else
        let mac := put8 0 (Z.lor (byte_at random 0) 2 &^ 1) random in
        s <| hostMAC := default 0 (macToUint64 mac) |> in
    (s <| iface := true |>, Ok tt).
Definition AttachVirtioBackend (handler : bool) (s : NetStack) : NetStack := s <| backend := handler |>.

(** * Sending *)

Definition sendFrame (frame : list Z) (s : NetStack) : NetStack * result unit :=
  if negb (iface s) then (s, Err "network interface detached")
  else if negb (backend s) then (s, Err "virtio backend not attached")
  else (s <| out_frames := out_frames s ++ [frame] |>, Ok tt).

Definition guestMACForTransmit (s : NetStack) : Z :=
  if macIsSet (observedGuestMAC s) then observedGuestMAC s
  else if macIsSet (guestMAC s) then guestMAC s else macUnset.

(** A frame built in a pooled buffer of [size] payload bytes and returned to
    the pool; without a destination only the headers above Ethernet are
    written. *)
Definition send_built (size : nat) (build : Z → list Z → list Z) (s : NetStack) : NetStack * result unit :=
  let '(frame, buf, p) := getEthernetFrameBuffer size (pool s) in
  let s := s <| pool := p |> in
  let dstMAC := guestMACForTransmit s in
  let built := build dstMAC frame in
  if negb (macIsSet dstMAC) then
    let left := take ethernetHeaderLen frame ++ drop ethernetHeaderLen built in
    (s <| pool := putEthernetFrameBuffer left buf (pool s) |>, Err "guest mac unknown for transmit")
  else
    let '(s, r) := sendFrame built s in
    (s <| pool := putEthernetFrameBuffer built buf (pool s) |>, r).

Definition sendTCPPacketWithOptions (local : list Z) (key : tcpFourTuple) (seq_ ack_ flags_ : Z)
    (payload options_ : list Z) (s : NetStack) : NetStack * result unit :=
  let size := (ipv4HeaderLen + tcpHeaderLen + length (pad_options options_) + length payload)%nat in
  send_built size (λ dstMAC frame,
    tcp_frame dstMAC (hostMAC s) local (kSrcIP key) (kDstPort key) (kSrcPort key)
      seq_ ack_ flags_ payload options_ frame) s.

Definition sendICMPEchoReply (src_ dst_ request : list Z) (s : NetStack) : NetStack * result unit :=
  send_built (ipv4HeaderLen + length request) (λ dstMAC frame,
    icmp_reply dstMAC (hostMAC s) src_ dst_ request frame) s.

Definition sendARPReply (dstMAC senderMAC senderIP targetIP : list Z) (s : NetStack) : NetStack * result unit :=
  sendFrame (arp_reply (hostMAC s) dstMAC senderMAC senderIP targetIP) s.

(** [sendUDP]: the whole buffer [buf] is sent. *)
Definition sendUDP (buf : list Z) (sp dp : Z) (srcIP dstIP : list Z) (payloadLen : nat) (s : NetStack)
    : NetStack * list Z * result unit :=
  if (length buf <? ethernetHeaderLen + ipv4HeaderLen + udpHeaderLen + payloadLen)%nat
  then (s, buf, Err "buffer too small for udp packet")
  else
    let dstMAC := guestMACForTransmit s in
    let built := udp_frame dstMAC (hostMAC s) srcIP dstIP sp dp payloadLen buf in
    let left := take ethernetHeaderLen buf ++ drop ethernetHeaderLen built in
    if negb (macIsSet dstMAC) then (s, left, Err "guest mac unknown for udp transmit")
    else if negb (macIsSet (hostMAC s)) then (s, left, Err "host mac unknown for udp transmit")
    else
      match sendFrame built s with
      | (s, Ok tt) => (s <| udpTxPackets := u64 (udpTxPackets s + 1) |>, built, Ok tt)
      | (s, e) => (s, built, e)
      end.

(** The packets a connection sent go out in order; send errors are ignored as
    the connection ignores them. *)
Definition transmit (key : tcpFourTuple) (local : list Z) (pkts : list packet) (s : NetStack) : NetStack :=
  foldl (λ s p, (sendTCPPacketWithOptions local key (pseq p) (pack p) (pflags p) (pdata p) (poptions p) s).1)
    s pkts.

(** Store a connection after a step that sent [sent (conn e)]; a closed
    connection has removed itself. *)
Definition settle (key : tcpFourTuple) (e : conn_entry) (s : NetStack) : NetStack :=
  let c := conn e in
  let s := transmit key (localIPv4 e) (sent c) s in
  if registered c
  then s <| tcpConns := <[key := mkEntry (c <| sent := [] |>) (localIPv4 e) (kind e)]> (tcpConns s) |>
  else s <| tcpConns := delete key (tcpConns s) |>.

(** [sendRST]: [h] always has a four-byte destination. *)
Definition key_of (h : ipv4Header) (hdr : tcpHeader) : tcpFourTuple :=
  mkTuple (src h) (dst h) (srcPort hdr) (dstPort hdr).
Definition sendRST (h : ipv4Header) (hdr : tcpHeader) (s : NetStack) : NetStack * result unit :=
  sendTCPPacketWithOptions (dst h) (key_of h hdr) (ack_ hdr) (u32 (seq hdr + 1))
    (Z.lor tcpFlagRST tcpFlagACK) [] [] s.

(** * Access policy *)

Definition shouldProxyService (ip : list Z) (s : NetStack) : bool := ipEqual ip (serviceIPv4 s).
Definition serviceProxyAllowed (ip : list Z) (port : Z) (s : NetStack) : bool :=
  if negb (shouldProxyService ip s) then false
  else if hostAccessEnabled s then true
  else bool_decide (port ∈ serviceProxyPorts s).
Definition serviceARPEnabled (s : NetStack) : bool :=
  hostAccessEnabled s || negb (bool_decide (serviceProxyPorts s = ∅)).

Definition isHostLocalIPv4 (ip : list Z) : bool :=
  let a := byte_at ip 0 in
  let b := byte_at ip 1 in
  if a =? 0 then true
  else if a =? 10 then true
  else if (a =? 100) && (Z.land b 0xc0 =? 0x40) then true
  else if a =? 127 then true
  else if (a =? 169) && (b =? 254) then true
  else if (a =? 172) && (Z.land b 0xf0 =? 16) then true
  else if (a =? 192) && (b =? 168) then true
  else a >=? 224.

(** * TCP *)

(** A connection answers the SYN that opens it. *)
Definition open_conn (initialSeq : Z) (k : conn_kind) (local : list Z) (key : tcpFourTuple)
    (hdr : tcpHeader) (opts : tcpOptions) (s : NetStack) : NetStack :=
  let c := newTCPConn initialSeq (seq hdr) (window hdr)
    (match k with ForListener _ => true | _ => false end) in
  let c := applyPeerOptions opts c in
  settle key (mkEntry (sendSynAck c) local k) s.

(** A SYN without a connection: whom it is bridged to, if anyone. *)
Definition route_syn (dstIP : list Z) (port : Z) (s : NetStack) : option (conn_kind * list Z) :=
  let allowServiceProxy := serviceProxyAllowed dstIP port s in
  if bool_decide (port ∈ tcpListen s) then Some (ForListener port, hostIPv4 s)
  else if negb (hostAccessEnabled s) && isHostLocalIPv4 dstIP && negb allowServiceProxy then None
  else if shouldProxyService dstIP s then
    if negb (serviceProxyEnabled s) || (negb (hostAccessEnabled s) && negb allowServiceProxy) then None
    else Some (ForService, serviceIPv4 s)
  else if negb (allowInternet s) && negb (ipEqual dstIP (hostIPv4 s)) then None
  else if negb (ipEqual dstIP (hostIPv4 s)) && negb (ipEqual dstIP (serviceIPv4 s))
  then Some (ForOutbound, dstIP)
  else None.

(** Whether [handleSegment] gets as far as parsing the options. *)
Definition reads_options (hdr : tcpHeader) (now : Z) (c : tcpConn) : bool :=
  negb (closed c) &&
  match (if has (flags hdr) tcpFlagACK then process_ack hdr now c else Ok c) with
  | Ok c => bool_decide (state c = tcpStateSynSent) && negb (has (flags hdr) tcpFlagRST) &&
            (Z.land (flags hdr) (Z.lor tcpFlagSYN tcpFlagACK) =? Z.lor tcpFlagSYN tcpFlagACK) &&
            (ack_ hdr =? hostSeq c)
  | _ => false
  end.

Section handlers.
(** [initialSeq] and [now] are the random source and the clock at this
    packet; [dial] and [host_write] what the host's sockets answer. *)
Context (initialSeq now : Z) (dial : udpProxyKey → bool) (host_write : udpProxyKey → list Z → bool).

Definition handleTCP (h : ipv4Header) (payload : list Z) (s : NetStack) : option (NetStack * result unit) :=
  if validateChecksums s && negb (tcpChecksum (src h) (dst h) payload =? 0) then Some (s, Ok tt)
  else
    match parseTCPHeader payload with
    | Ok hdr =>
      let key := key_of h hdr in
      let parsed := parseTCPOptions (S (length (options hdr))) (options hdr) in
      match tcpConns s !! key with
      | None =>
        if negb (has (flags hdr) tcpFlagSYN) then Some (s, Ok tt)
        else
          opts ← parsed;
          match route_syn (dst h) (dstPort hdr) s with
          | Some (k, local) => Some (open_conn initialSeq k local key hdr opts s, Ok tt)
          | None => Some (sendRST h hdr s)
          end
      | Some e =>
        match parsed, reads_options hdr now (conn e) with
        | None, true => None
        | _, _ =>
          let '(c, r) := handleSegment hdr (default noOptions parsed) now (conn e) in
          let s := settle key (mkEntry c (localIPv4 e) (kind e)) s in
          Some (s, match r with Err _ => Ok tt | r => r end)
        end
      end
    | Err e => Some (s, Err e)
    | Panic => Some (s, Panic)
    end.

(** * UDP *)

Definition getUDPServiceProxy (key : udpProxyKey) (s : NetStack) : option NetStack :=
  if bool_decide (key ∈ udpServiceProxies s) then Some s
  else if dial key then Some (s <| udpServiceProxies := udpServiceProxies s ++ [key] |>) else None.

Definition proxyServiceUDP (srcIP : list Z) (sp dp : Z) (payload : list Z) (s : NetStack)
    : NetStack * result unit :=
  let key := mkProxyKey srcIP sp dp in
  match getUDPServiceProxy key s with
  | None => (s, Err "udp service proxy dial failed")
  | Some s =>
    if host_write key payload
    then (s <| host_datagrams := host_datagrams s ++ [(key, payload)] |>
            <| udpRxPackets := u64 (udpRxPackets s + 1) |>, Ok tt)
    else (s, Err "udp service proxy write failed")
  end.

(** [enqueue] of both kinds of endpoint; [None] waits for the reader. *)
Definition enqueue (port : Z) (pkt : udpPacket) (s : NetStack) : option (NetStack * result unit) :=
  match udpSockets s !! port with
  | Some (udpEndpointConn incoming cl) =>
    if cl then Some (s, Err "use of closed network connection")
    else if (length incoming <? udpQueueDepth)%nat
    then Some (s <| udpSockets := <[port := udpEndpointConn (incoming ++ [pkt]) cl]> (udpSockets s) |>, Ok tt)
    else None
  | Some (udpCallbackEndpoint _ cl) =>
    if cl then Some (s, Err "use of closed network connection")
    else Some (s <| callbacks := callbacks s ++ [(port, pkt)] |>, Ok tt)
  | None => Some (s, Ok tt)
  end.

Definition handleUDPWithReuse (h : ipv4Header) (payload : list Z) (s : NetStack)
    : option (NetStack * result unit) :=
  if (length payload <? 8)%nat then Some (s, Err "udp packet too short")
  else
    let sp := get16 payload 0 in
    let dp := get16 payload 2 in
    let length_ := get16 payload 4 in
    if length_ <? Z.of_nat udpHeaderLen then Some (s, Err "udp length shorter than header")
    else if length_ >? len payload then Some (s, Err "udp length exceeds payload")
    else if validateChecksums s && negb (get16 payload 6 =? 0) &&
            negb (udpChecksum (src h) (dst h) (take (Z.to_nat length_) payload) =? 0)
    then Some (s, Ok tt)
    else
      let data := sub payload 8 (Z.to_nat length_ - 8) in
      if shouldProxyService (dst h) s then
        if negb (serviceProxyEnabled s) || negb (serviceProxyAllowed (dst h) dp s) then Some (s, Ok tt)
        else Some (proxyServiceUDP (src h) sp dp data s)
      else
        match udpSockets s !! dp with
        | None => Some (s, Ok tt)
        | Some _ =>
          '(s, r) ← enqueue dp (data, (src h, sp)) s;
          match r with
          | Ok _ => Some (s <| udpRxPackets := u64 (udpRxPackets s + 1) |>, Ok tt)
          | e => Some (s, e)
          end
        end.

(** * ICMP, ARP and the custom protocol *)

Definition handleICMP (h : ipv4Header) (payload : list Z) (s : NetStack) : NetStack * result unit :=
  if (length payload <? 8)%nat then (s, Ok tt)
  else if negb (byte_at payload 0 =? 8) then (s, Ok tt)
  else if validateChecksums s && negb (get16 payload 2 =? checksum (put16 2 0 payload)) then (s, Ok tt)
  else sendICMPEchoReply (dst h) (src h) payload s.

Definition handleARP (srcMAC payload : list Z) (s : NetStack) : NetStack * result unit :=
  if (length payload <? 28)%nat then (s, Err "arp packet too short")
  else if negb (get16 payload 0 =? arpHardwareEthernet) || negb (get16 payload 2 =? arpProtoIPv4) ||
          negb (byte_at payload 4 =? 6) || negb (byte_at payload 5 =? 4) then (s, Ok tt)
  else if negb (get16 payload 6 =? 1) then (s, Ok tt)
  else
    let targetIP := sub payload 24 4 in
    if ipEqual targetIP (hostIPv4 s) || (serviceARPEnabled s && ipEqual targetIP (serviceIPv4 s))
    then sendARPReply srcMAC (sub payload 8 6) (sub payload 14 4) targetIP s
    else (s, Ok tt).

Definition handleCustom (srcMAC payload : list Z) (s : NetStack) : NetStack * result unit :=
  let frame := replicate (ethernetHeaderLen + length payload) 0 in
  let frame := copy_at 0 srcMAC frame in
  let frame := copy_at 6 (macFromUint64 (hostMAC s)) frame in
  let frame := put16 12 etherTypeCustom frame in
  sendFrame (copy_at ethernetHeaderLen payload frame) s.

(** * Frames from the guest *)

Definition handleIPv4Internal (payload : list Z) (s : NetStack) : option (NetStack * result unit) :=
  match parseIPv4Header payload with
  | Ok hdr =>
    let headerLen := Z.to_nat (ihl hdr * 4) in
    if validateChecksums s && (headerLen <=? length payload)%nat &&
       negb (ipv4Checksum (take headerLen payload) =? 0) then Some (s, Ok tt)
    else if protocol hdr =? udpProtocolNumber then handleUDPWithReuse hdr (ip_payload hdr) s
    else if protocol hdr =? tcpProtocolNumber then handleTCP hdr (ip_payload hdr) s
    else if protocol hdr =? icmpProtocol then Some (handleICMP hdr (ip_payload hdr) s)
    else Some (s, Ok tt)
  | Err e => Some (s, Err e)
  | Panic => Some (s, Panic)
  end.

Definition violation_index (v : SourceViolation) : nat :=
  match v with
  | SourceValid => 0 | SourceMalformed => 1 | SourceMACViolation => 2 | SourceARPViolation => 3
  | SourceIPv4Violation => 4 | SourceUnsupportedProtocol => 5
  end.
Definition recordSourceViolation (v : SourceViolation) (s : NetStack) : NetStack :=
  if bool_decide (v = SourceValid) then s
  else s <| sourceViolations := alter (λ n, u64 (n + 1)) (violation_index v) (sourceViolations s) |>.

Definition recordGuestMAC (mac : list Z) (s : NetStack) : NetStack :=
  if negb (length mac =? 6)%nat || isBroadcast mac then s
  else
    match macToUint64 mac with
    | None => s
    | Some value =>
      if macIsSet (hostMAC s) && (value =? Z.land (hostMAC s) macMask) then s
      else if observedGuestMAC s =? value then s
      else s <| observedGuestMAC := value |>
    end.

Definition handleEthernetFrameWithReuse (frame : list Z) (s : NetStack) : option (NetStack * result unit) :=
  let dst_ := sub frame 0 6 in
  let src_ := sub frame 6 6 in
  let etherType := get16 frame 12 in
  let payload := drop 14 frame in
  let violation := ValidateGuestSource frame (macFromUint64 (guestMAC s)) (guestIPv4 s) in
  if negb (bool_decide (violation = SourceValid)) then
    Some (if bool_decide (violation = SourceUnsupportedProtocol) then s
          else recordSourceViolation violation s, Ok tt)
  else
    let s := recordGuestMAC src_ s in
    if macIsSet (guestMAC s) && negb (isBroadcast dst_) && negb (macEqualUint64 dst_ (hostMAC s)) &&
       negb (macEqualUint64 dst_ (guestMAC s)) then Some (s, Ok tt)
    else if etherType =? etherTypeARP then Some (handleARP src_ payload s)
    else if etherType =? etherTypeIPv4 then handleIPv4Internal payload s
    else if etherType =? etherTypeCustom then Some (handleCustom src_ payload s)
    else Some (s, Ok tt).

Definition DeliverGuestPacket (packet : list Z) (s : NetStack) : option (NetStack * result unit) :=
  if (length packet <? ethernetHeaderLen)%nat then Some (s, Err "packet too short")
  else handleEthernetFrameWithReuse packet s.
End handlers.

(** * Listeners and connections opened by the host *)

Definition ListenInternal (port : Z) (s : NetStack) : NetStack * result unit :=
  if bool_decide (port ∈ tcpListen s) then (s, Err "tcp port already in use")
  else (s <| tcpListen := {[port]} ∪ tcpListen s |>, Ok tt).
(** [tcpListener.Close]: a connection of the listener that completes its
    handshake later sees the close channel, and perhaps room in the queue of
    accepted connections; [refuses] says for which the select takes the first. *)
Definition close_listener (refuses : tcpFourTuple → bool) (port : Z) (s : NetStack) : NetStack :=
  s <| tcpListen := tcpListen s ∖ {[port]} |>
    <| tcpConns := map_imap (λ k e, Some (if bool_decide (kind e = ForListener port)
         then mkEntry ((conn e) <| listenerRefuses := refuses k |>) (localIPv4 e) (kind e) else e)) (tcpConns s) |>.

Definition firstEphemeral : Z := 49152.
Definition ephemeralCount : nat := Z.to_nat (65535 - firstEphemeral + 1).
Definition candidate (start : Z) (i : nat) : Z :=
  u16 (firstEphemeral + (start - firstEphemeral + Z.of_nat i) mod Z.of_nat ephemeralCount).
Definition dial_key (dstIP : list Z) (dstPort_ port : Z) (s : NetStack) : tcpFourTuple :=
  mkTuple dstIP (hostIPv4 s) dstPort_ port.
Definition port_free (dstIP : list Z) (dstPort_ : Z) (s : NetStack) (port : Z) : bool :=
  negb (non_nil (tcpConns s !! dial_key dstIP dstPort_ port s)).
(** [random] is below [ephemeralCount]. *)
Definition allocateTCPSourcePortLocked (random : Z) (dstIP : list Z) (dstPort_ : Z) (s : NetStack) : Z :=
  let start := u16 (firstEphemeral + random) in
  match list_find (λ port, port_free dstIP dstPort_ s port = true)
          (candidate start <$> List.seq 0 ephemeralCount) with
  | Some (_, port) => port
  | None => start
  end.

(** [DialInternalContext] up to the point where it waits for the guest. *)
Definition DialInternalContext (random initialSeq : Z) (guestIP : list Z) (port : Z) (s : NetStack)
    : NetStack * result tcpFourTuple :=
  if port =? 0 then (s, Err "tcp dial missing destination port")
  else
    let key := dial_key guestIP port (allocateTCPSourcePortLocked random guestIP port s) s in
    let c := newTCPConn initialSeq 0 0xffff false in
    let c := c <| state := tcpStateSynSent |> <| guestSeq := 0 |> <| dialing := true |> in
    let s := s <| tcpConns := <[key := mkEntry c (hostIPv4 s) ForDial]> (tcpConns s) |> in
    let c := sendSyn c in
    match foldl (λ '(s, r) p,
        (sendTCPPacketWithOptions (hostIPv4 s) key (pseq p) (pack p) (pflags p) (pdata p) (poptions p) s))
        (s, Ok tt) (sent c) with
    | (s, Ok _) =>
      (s <| tcpConns := <[key := mkEntry (c <| sent := [] |>) (hostIPv4 s) ForDial]> (tcpConns s) |>, Ok key)
    | (s, _) => (s <| tcpConns := delete key (tcpConns s) |>, Err "dial")
    end.

(** * UDP sockets of the host *)

Definition bindUDP (ep : udpEndpoint) (port : Z) (s : NetStack) : NetStack * result unit :=
  match udpSockets s !! port with
  | Some _ => (s, Err "udp port already in use")
  | None => (s <| udpSockets := <[port := ep]> (udpSockets s) |>, Ok tt)
  end.
Definition ListenPacketInternal (port : Z) (s : NetStack) : NetStack * result unit :=
  bindUDP (udpEndpointConn [] false) port s.
Definition BindUDPCallback (port : Z) (s : NetStack) : NetStack * result unit :=
  bindUDP (udpCallbackEndpoint [] false) port s.

(** [ReadFrom] with no deadline; [None] waits. *)
Definition ReadFrom (port : Z) (n : nat) (s : NetStack)
    : option (NetStack * result (list Z * (list Z * Z))) :=
  match udpSockets s !! port with
  | Some (udpEndpointConn (pkt :: q) false) =>
    Some (s <| udpSockets := <[port := udpEndpointConn q false]> (udpSockets s) |>, Ok (take n pkt.1, pkt.2))
  | Some (udpEndpointConn [] false) => None
  | _ => Some (s, Err "use of closed network connection")
  end.

Definition udp_head : nat := ethernetHeaderLen + ipv4HeaderLen + udpHeaderLen.
(** [udpEndpointConn.WriteTo]: a fresh buffer of the datagram's size. *)
Definition WriteTo (port : Z) (b : list Z) (addr : list Z * Z) (s : NetStack) : NetStack * result Z :=
  let buf := copy_at udp_head b (replicate (udp_head + length b) 0) in
  match sendUDP buf port (u16 addr.2) (hostIPv4 s) addr.1 (length b) s with
  | (s, _, Ok _) => (s, Ok (len b))
  | (s, _, Err e) => (s, Err e)
  | (s, _, Panic) => (s, Panic)
  end.
(** [udpCallbackEndpoint.WriteTo]: a buffer kept by the endpoint, which only
    ever grows. *)
Definition callback_WriteTo (port : Z) (b : list Z) (addr : list Z * Z) (s : NetStack) : NetStack * result Z :=
  match udpSockets s !! port with
  | Some (udpCallbackEndpoint buf false) =>
    let buf := if (length buf <? udp_head + length b)%nat then replicate (udp_head + length b) 0 else buf in
    let '(s, buf, r) := sendUDP (copy_at udp_head b buf) port (u16 addr.2) (hostIPv4 s) addr.1 (length b) s in
    let s := s <| udpSockets := <[port := udpCallbackEndpoint buf false]> (udpSockets s) |> in
    (s, match r with Ok _ => Ok (len b) | Err e => Err e | Panic => Panic end)
  | _ => (s, Err "use of closed network connection")
  end.
Definition close_udp (port : Z) (s : NetStack) : NetStack := s <| udpSockets := delete port (udpSockets s) |>.

(** A datagram the host's service answered with, sent on by [readLoop]: the
    buffer is sized by the length of the whole frame, and that many bytes
    beyond the Ethernet header are sent. *)
Definition proxy_reply (key : udpProxyKey) (data : list Z) (s : NetStack) : NetStack * result unit :=
  let frameLen := (udp_head + length data)%nat in
  let '(frame, buf, p) := getEthernetFrameBuffer frameLen (pool s) in
  let s := s <| pool := p |> in
  let '(s, frame, r) :=
    sendUDP (copy_at udp_head data frame) (pDstPort key) (pSrcPort key) (serviceIPv4 s) (pSrcIP key)
      (length data) s in
  let s := s <| pool := putEthernetFrameBuffer frame buf (pool s) |> in
  match r with
  | Ok _ => (s, Ok tt)
  | e => (s <| udpServiceProxies := filter (λ k, k ≠ key) (udpServiceProxies s) |>, e)
  end.

(** * Shutdown *)

(** [Close]: the backend is detached first, so nothing is sent. *)
Definition Close_stack (s : NetStack) : NetStack :=
  s <| backend := false |> <| iface := false |> <| tcpListen := ∅ |> <| tcpConns := ∅ |>
    <| udpSockets := ∅ |> <| udpServiceProxies := [] |>.

(** * The guest's connections *)

(** The ranges the stack treats as the host's own networks, as prefixes. *)
Definition host_networks : list (list Z * Z) :=
  [([0; 0; 0; 0], 8); ([10; 0; 0; 0], 8); ([100; 64; 0; 0], 10); ([127; 0; 0; 0], 8);
   ([169; 254; 0; 0], 16); ([172; 16; 0; 0], 12); ([192; 168; 0; 0], 16); ([224; 0; 0; 0], 3)].
Definition in_network (ip : list Z) (net : list Z * Z) : Prop :=
  be_val ip / 2 ^ (32 - net.2) = be_val net.1 / 2 ^ (32 - net.2).

Lemma be_val_4 a b c d : be_val [a; b; c; d] = 16777216 * a + 65536 * b + 256 * c + d.
Proof. unfold be_val. cbn [rev app le_val]. lia. Qed.

Lemma byte_cases (P : Z → bool) :
  forallb P (Z.of_nat <$> List.seq 0 256) = true → ∀ b, is_u8 b → P b = true.
Proof.
  intros H b Hb. rewrite forallb_forall in H. apply H. apply list_elem_of_In, list_elem_of_fmap.
  exists (Z.to_nat b). unfold is_u in Hb. split; [lia|]. apply elem_of_seq. lia.
Qed.
Lemma mask_c0 b : is_u8 b → (Z.land b 0xc0 =? 0x40) = (b / 64 =? 1).
Proof. intros Hb. apply eqb_prop. revert b Hb. apply (byte_cases (λ b, eqb _ _)). vm_compute. reflexivity. Qed.
Lemma mask_f0 b : is_u8 b → (Z.land b 0xf0 =? 16) = (b / 16 =? 1).
Proof. intros Hb. apply eqb_prop. revert b Hb. apply (byte_cases (λ b, eqb _ _)). vm_compute. reflexivity. Qed.

(** The prefixes of an address. *)
Lemma prefixes a b c d :
  is_u8 b → is_u8 c → is_u8 d → let v := be_val [a; b; c; d] in
  v / 2 ^ (32 - 8) = a ∧ v / 2 ^ (32 - 16) = 256 * a + b ∧ v / 2 ^ (32 - 10) = 4 * a + b / 64 ∧
  v / 2 ^ (32 - 12) = 16 * a + b / 16 ∧ v / 2 ^ (32 - 3) = a / 32.
Proof.
  unfold is_u. intros Hb Hc Hd. cbv zeta. rewrite be_val_4.
  pose proof (Z.div_mod b 64 ltac:(lia)). pose proof (Z.mod_pos_bound b 64 ltac:(lia)).
  pose proof (Z.div_mod b 16 ltac:(lia)). pose proof (Z.mod_pos_bound b 16 ltac:(lia)).
  pose proof (Z.div_mod a 32 ltac:(lia)). pose proof (Z.mod_pos_bound a 32 ltac:(lia)).
  split_and!; symmetry.
  - apply (Z.div_unique _ _ _ (65536 * b + 256 * c + d)); lia.
  - apply (Z.div_unique _ _ _ (256 * c + d)); lia.
  - apply (Z.div_unique _ _ _ (65536 * (b mod 64) + 256 * c + d)); lia.
  - apply (Z.div_unique _ _ _ (65536 * (b mod 16) + 256 * c + d)); lia.
  - apply (Z.div_unique _ _ _ (16777216 * (a mod 32) + 65536 * b + 256 * c + d)); lia.
Qed.

Lemma host_local_networks ip :
  length ip = 4%nat → is_bytes ip → isHostLocalIPv4 ip = true ↔ Exists (in_network ip) host_networks.
Proof.
  intros (a & b & c & d & ->)%list_4 Hip.
  apply Forall_cons in Hip as [Ha Hip]. apply Forall_cons in Hip as [Hb Hip].
  apply Forall_cons in Hip as [Hc Hip]. apply Forall_cons in Hip as [Hd _].
  unfold isHostLocalIPv4, byte_at. cbn [nth]. rewrite mask_c0, mask_f0 by done.
  unfold host_networks. rewrite !Exists_cons, Exists_nil. unfold in_network. cbn [fst snd].
  destruct (prefixes a b c d) as (-> & -> & -> & -> & ->); [done..|].
  change (be_val [0; 0; 0; 0] / _) with 0. change (be_val [10; 0; 0; 0] / _) with 10.
  change (be_val [100; 64; 0; 0] / _) with 401. change (be_val [127; 0; 0; 0] / _) with 127.
  change (be_val [169; 254; 0; 0] / _) with 43518. change (be_val [172; 16; 0; 0] / _) with 2753.
  change (be_val [192; 168; 0; 0] / _) with 49320. change (be_val [224; 0; 0; 0] / _) with 7.
  unfold is_u in *. rewrite Z.geb_leb.
  pose proof (Z.div_mod a 32 ltac:(lia)). pose proof (Z.mod_pos_bound a 32 ltac:(lia)).
  pose proof (Z.div_mod b 64 ltac:(lia)). pose proof (Z.mod_pos_bound b 64 ltac:(lia)).
  pose proof (Z.div_mod b 16 ltac:(lia)). pose proof (Z.mod_pos_bound b 16 ltac:(lia)).
  change ((a =? 0) || ((a =? 10) || (((a =? 100) && (b / 64 =? 1)) || ((a =? 127) ||
    (((a =? 169) && (b =? 254)) || (((a =? 172) && (b / 16 =? 1)) ||
    (((a =? 192) && (b =? 168)) || (224 <=? a))))))) = true ↔
    a = 0 ∨ a = 10 ∨ 4 * a + b / 64 = 401 ∨ a = 127 ∨ 256 * a + b = 43518 ∨
     16 * a + b / 16 = 2753 ∨ 256 * a + b = 49320 ∨ a / 32 = 7 ∨ False).
  lia.
Qed.

(** What the configuration allows the guest to reach. *)
Definition allowed (s : NetStack) (key : tcpFourTuple) (e : conn_entry) : Prop :=
  match kind e with
  | ForDial => True
  | ForListener port => kSrcIP key = guestIPv4 s ∧ kDstPort key = port ∧ port ∈ tcpListen s
  | ForService =>
    kSrcIP key = guestIPv4 s ∧ kDstIP key = serviceIPv4 s ∧ serviceProxyEnabled s = true ∧
    (hostAccessEnabled s = true ∨ kDstPort key ∈ serviceProxyPorts s)
  | ForOutbound =>
    kSrcIP key = guestIPv4 s ∧ kDstIP key ≠ hostIPv4 s ∧ kDstIP key ≠ serviceIPv4 s ∧
    allowInternet s = true ∧
    (hostAccessEnabled s = true ∨ ¬ Exists (in_network (kDstIP key)) host_networks)
  end.
Definition all_allowed (s : NetStack) : Prop := map_Forall (allowed s) (tcpConns s).

(** The settings a frame cannot change. *)
Definition config (s : NetStack) :=
  (hostMAC s, guestMAC s, hostIPv4 s, guestIPv4 s, serviceIPv4 s, serviceProxyEnabled s,
   hostAccessEnabled s, allowInternet s, validateChecksums s, serviceProxyPorts s, tcpListen s).

Lemma allowed_config s s' key e : config s' = config s → allowed s key e → allowed s' key e.
Proof.
  intros E. unfold config in E. injection E as _ _ E3 E4 E5 E6 E7 E8 _ E10 E11.
  unfold allowed. destruct (kind e); by rewrite ?E3, ?E4, ?E5, ?E6, ?E7, ?E8, ?E10, ?E11.
Qed.

(** Sending touches the buffers and the wire only. *)
Definition only_sends (s s' : NetStack) : Prop :=
  ∃ p f, s' = s <| pool := p |> <| out_frames := f |>.
Lemma only_sends_refl s : only_sends s s.
Proof. exists (pool s), (out_frames s). by destruct s. Qed.
Lemma only_sends_trans s1 s2 s3 : only_sends s1 s2 → only_sends s2 s3 → only_sends s1 s3.
Proof. intros (p & f & ->) (p' & f' & ->). by exists p', f'. Qed.

Lemma sendFrame_only frame s : only_sends s (sendFrame frame s).1.
Proof.
  unfold sendFrame. destruct (negb (iface s)); [apply only_sends_refl|].
  destruct (negb (backend s)); [apply only_sends_refl|]. by exists (pool s), (out_frames s ++ [frame]); destruct s.
Qed.
Lemma send_built_only size build s : only_sends s (send_built size build s).1.
Proof.
  unfold send_built. destruct (getEthernetFrameBuffer size (pool s)) as [[frame buf] p].
  destruct (negb (macIsSet _)); [by exists (putEthernetFrameBuffer
    (take ethernetHeaderLen frame ++ drop ethernetHeaderLen (build (guestMACForTransmit (s <| pool := p |>)) frame))
    buf p), (out_frames s); destruct s|].
  pose proof (sendFrame_only (build (guestMACForTransmit (s <| pool := p |>)) frame) (s <| pool := p |>)) as Hs.
  destruct (sendFrame _ _) as [s' r]. destruct Hs as (p' & f & Hs). cbn [fst] in *. subst s'.
  by eexists _, f.
Qed.
Lemma transmit_only key local pkts s : only_sends s (transmit key local pkts s).
Proof.
  unfold transmit. revert s. induction pkts as [|p pkts IH]; intros s; [apply only_sends_refl|].
  cbn [foldl]. eapply only_sends_trans; [|apply IH]. apply send_built_only.
Qed.

(** Steps that leave the settings alone and every connection allowed. *)
Definition keeps_policy (s s' : NetStack) : Prop := config s' = config s ∧ (all_allowed s → all_allowed s').
Lemma keeps_policy_same s s' : config s' = config s → tcpConns s' = tcpConns s → keeps_policy s s'.
Proof.
  intros Hc Ht. split; [done|]. intros Hs k e Hk. rewrite Ht in Hk. eapply allowed_config; [done|]. by apply Hs.
Qed.
Lemma keeps_policy_refl s : keeps_policy s s.
Proof. by split. Qed.
Lemma keeps_policy_trans s1 s2 s3 : keeps_policy s1 s2 → keeps_policy s2 s3 → keeps_policy s1 s3.
Proof. intros [H1 H2] [H3 H4]. split; [congruence|auto]. Qed.
Lemma only_sends_policy s s' : only_sends s s' → keeps_policy s s'.
Proof. intros (p & f & ->). by apply keeps_policy_same. Qed.
Create HintDb policy.
#[local] Hint Resolve keeps_policy_refl only_sends_policy send_built_only sendFrame_only : policy.

(** A stored connection is allowed if its key and kind are. *)
Lemma settle_policy key e s : (all_allowed s → allowed s key e) → keeps_policy s (settle key e s).
Proof.
  intros He. unfold settle. destruct (transmit_only key (localIPv4 e) (sent (conn e)) s) as (p & f & ->).
  destruct (registered (conn e)); (split; [done|]); intros Hs; unfold all_allowed; cbn [tcpConns update].
  - apply map_Forall_insert_2; [exact (He Hs)|]. intros k e' Hk. exact (Hs k e' Hk).
  - intros k e' Hk. apply lookup_delete_Some in Hk as [_ Hk]. exact (Hs k e' Hk).
Qed.

Lemma route_syn_allowed dstIP port s k local sp c :
  length dstIP = 4%nat → is_bytes dstIP → route_syn dstIP port s = Some (k, local) →
  allowed s (mkTuple (guestIPv4 s) dstIP sp port) (mkEntry c local k).
Proof.
  intros Hl Hb. unfold route_syn, serviceProxyAllowed, shouldProxyService.
  case_bool_decide as Hp; [by intros [= <- <-]|].
  pose proof (host_local_networks dstIP Hl Hb) as Hnet.
  destruct (ipEqual dstIP (serviceIPv4 s)) eqn:Es.
  - apply ipEqual_true in Es. cbn [negb]. destruct (hostAccessEnabled s) eqn:Eh; cbn [negb andb orb].
    + rewrite orb_false_r. destruct (serviceProxyEnabled s) eqn:Ep; cbn [negb]; [|done].
      intros [= <- <-]. split_and!; auto.
    + case_bool_decide as Hport; cbn [negb]; [|by rewrite andb_true_r, orb_true_r; destruct (isHostLocalIPv4 _)].
      rewrite andb_false_r, orb_false_r. destruct (serviceProxyEnabled s) eqn:Ep; cbn [negb]; [|done].
      intros [= <- <-]. split_and!; auto.
  - assert (dstIP ≠ serviceIPv4 s) as Hns by (intros E; apply ipEqual_true in E; congruence). cbn [negb].
    destruct (ipEqual dstIP (hostIPv4 s)) eqn:Eh; cbn [negb].
    { rewrite !andb_false_r. cbn [andb]. by destruct (_ && _). }
    assert (dstIP ≠ hostIPv4 s) as Hnh by (intros E; apply ipEqual_true in E; congruence).
    destruct (hostAccessEnabled s) eqn:Ea, (isHostLocalIPv4 dstIP) eqn:El, (allowInternet s) eqn:Ei;
      cbn [negb andb]; try done; intros [= <- <-]; split_and!; try done; [by left..|].
    right. rewrite <-Hnet. congruence.
Qed.

(** A header as the IPv4 parser returns it for guest bytes. *)
Definition from_bytes (h : ipv4Header) : Prop := length (dst h) = 4%nat ∧ is_bytes (dst h).
Lemma parse_from_bytes p h : is_bytes p → parseIPv4Header p = Ok h → from_bytes h.
Proof.
  intros Hb. unfold parseIPv4Header. destruct (Nat.ltb_spec (length p) ipv4HeaderLen) as [|Hl]; [done|].
  destruct (negb _); [done|]. destruct (_ <? _)%nat; [done|]. intros [= <-]. cbn [dst]. split; cbn [dst].
  - apply length_sub. unfold ipv4HeaderLen in Hl. lia.
  - by apply is_bytes_sub.
Qed.

Lemma handleTCP_policy initialSeq now h payload s s' r :
  from_bytes h → src h = guestIPv4 s →
  handleTCP initialSeq now h payload s = Some (s', r) → keeps_policy s s'.
Proof.
  intros [Hl Hb] Hsrc. unfold handleTCP. destruct (_ && _); [intros [= <- <-]; auto with policy|].
  destruct (parseTCPHeader payload) as [hdr|e|]; [|intros [= <- <-]; auto with policy..].
  assert (key_of h hdr = mkTuple (guestIPv4 s) (dst h) (srcPort hdr) (dstPort hdr)) as Hkey
    by (unfold key_of; by rewrite Hsrc).
  destruct (tcpConns s !! key_of h hdr) as [e|] eqn:Elook.
  - destruct (parseTCPOptions _ _) as [opts|], (reads_options hdr now (conn e)); try done;
      destruct (handleSegment hdr _ now (conn e)) as [c r0]; intros [= <- _];
      apply settle_policy; intros Hs; exact (Hs _ _ Elook).
  - destruct (negb _); [intros [= <- <-]; auto with policy|].
    destruct (parseTCPOptions _ _) as [opts|]; [|done]. cbn [mbind option_bind].
    destruct (route_syn _ _ _) as [[k local]|] eqn:Er.
    + intros [= <- <-]. unfold open_conn. rewrite Hkey. apply settle_policy. intros _.
      by apply route_syn_allowed.
    + intros [= E]. replace s' with (sendRST h hdr s).1 by (by rewrite E).
      apply only_sends_policy, send_built_only.
Qed.

Lemma handleUDP_policy dial host_write h payload s s' r :
  handleUDPWithReuse dial host_write h payload s = Some (s', r) → keeps_policy s s'.
Proof.
  unfold handleUDPWithReuse. repeat (case_match; [by intros [= <- <-]; auto with policy|]).
  destruct (shouldProxyService _ _).
  - case_match; [by intros [= <- <-]; auto with policy|]. intros [= E].
    revert E. unfold proxyServiceUDP, getUDPServiceProxy. case_bool_decide; [|destruct (dial _)];
      [destruct (host_write _ _)..|]; intros [= <- _]; by apply keeps_policy_same.
  - unfold enqueue. destruct (udpSockets s !! get16 payload 2) as [[inc [|]|b [|]]|];
      [|destruct (length inc <? udpQueueDepth)%nat| | |]; cbn [mbind option_bind]; intros E; simplify_eq;
      by apply keeps_policy_same.
Qed.

Lemma deliver_policy initialSeq now dial host_write packet s s' r :
  is_bytes packet →
  DeliverGuestPacket initialSeq now dial host_write packet s = Some (s', r) → keeps_policy s s'.
Proof.
  intros Hb. unfold DeliverGuestPacket. case_match; [intros [= <- <-]; auto with policy|].
  unfold handleEthernetFrameWithReuse. cbv zeta.
  case_bool_decide as Hv; cbn [negb].
  2:{ intros [= <- _]. case_bool_decide; [auto with policy|]. unfold recordSourceViolation.
      case_bool_decide; [auto with policy|]. by apply keeps_policy_same. }
  set (s1 := recordGuestMAC (sub packet 6 6) s).
  assert (keeps_policy s s1 ∧ guestIPv4 s1 = guestIPv4 s) as [H1 Hg].
  { unfold s1, recordGuestMAC. repeat case_match; split; try done; auto with policy;
      by apply keeps_policy_same. }
  clearbody s1. intros E. apply (keeps_policy_trans _ s1 _ H1). revert E.
  case_match; [intros [= <- _]; auto with policy|].
  destruct (Z.eqb_spec (get16 packet 12) etherTypeARP).
  { intros [= E]. revert E. unfold handleARP. repeat (case_match; [intros [= <- _]; auto with policy|]).
    case_match; [|intros [= <- _]; auto with policy]. intros E.
    replace s' with (sendARPReply (sub packet 6 6) (sub (drop 14 packet) 8 6) (sub (drop 14 packet) 14 4)
      (sub (drop 14 packet) 24 4) s1).1 by (by rewrite E). apply only_sends_policy, sendFrame_only. }
  destruct (Z.eqb_spec (get16 packet 12) etherTypeIPv4) as [Eip|].
  2:{ case_match; [|intros [= <- _]; auto with policy]. intros [= E].
      replace s' with (handleCustom (sub packet 6 6) (drop 14 packet) s1).1 by (by rewrite E).
      apply only_sends_policy, sendFrame_only. }
  unfold handleIPv4Internal. destruct (parseIPv4Header (drop 14 packet)) as [h|e|] eqn:Eh;
    [|intros [= <- _]; auto with policy..].
  case_match; [intros [= <- _]; auto with policy|].
  destruct (Z.eqb_spec (protocol h) udpProtocolNumber); [apply handleUDP_policy|].
  destruct (Z.eqb_spec (protocol h) tcpProtocolNumber).
  - apply handleTCP_policy; [by eapply parse_from_bytes; [apply is_bytes_drop|]|]. rewrite Hg.
    apply source_valid_ipv4 in Hv as (h' & Eh' & _ & Hf); [|done].
    change ethernetHeaderLen with 14%nat in Eh'. rewrite Eh in Eh'.
    injection Eh' as <-. destruct Hf as [?|(_ & ? & _)]; [done|]. congruence.
  - case_match; [|intros [= <- _]; auto with policy]. intros [= E].
    revert E. unfold handleICMP. repeat (case_match; [intros [= <- _]; auto with policy|]). intros E.
    replace s' with (sendICMPEchoReply (dst h) (src h) (ip_payload h) s1).1 by (by rewrite E).
    apply only_sends_policy, send_built_only.
Qed.

(** The guest sends a frame and the stack finishes handling it. *)
Inductive guest_step (s : NetStack) : NetStack → Prop :=
  | deliver initialSeq now dial host_write packet s' r :
      is_bytes packet → DeliverGuestPacket initialSeq now dial host_write packet s = Some (s', r) →
      guest_step s s'.

(** C2: whatever frames the guest sends, every connection the stack holds for
    it has the guest's own address as its source and a destination the
    settings allow: a port the host listens on, the service address on an
    allowed port, or an internet address that — unless host access is
    enabled — lies in none of the host's networks.  The frames cannot change
    the settings. *)
Theorem guest_connections_allowed (s s' : NetStack) :
  all_allowed s → rtc guest_step s s' → all_allowed s' ∧ config s' = config s.
Proof.
  intros Hs H. assert (keeps_policy s s') as [Hc Ha].
  { induction H as [s|s s1 s2 [] _ IH]; [apply keeps_policy_refl|].
    pose proof (deliver_policy _ _ _ _ _ _ _ _ H H0) as Hk.
    apply (keeps_policy_trans _ _ _ Hk). apply IH. by apply Hk. }
  auto.
Qed.

(** A stack without host access, its guest 10.42.0.2 at hardware address 2,
    whose pool holds one used buffer. *)
Definition demo_stack : NetStack :=
  New <| hostMAC := 1 |> <| guestMAC := 2 |> <| hostAccessEnabled := false |>
      <| iface := true |> <| backend := true |> <| pool := [replicate 200 0xaa] |>.
(** A SYN of a guest with source address [from] to port 80 of [to]. *)
Definition demo_syn (from to : list Z) : list Z :=
  tcp_frame 1 2 from to 40000 80 1000 0 tcpFlagSYN [] [] (replicate 54 0).
Definition demo_deliver (packet : list Z) (s : NetStack) : NetStack :=
  (default (s, Ok tt) (DeliverGuestPacket 7 0 (λ _, true) (λ _ _, true) packet s)).1.

Lemma guest_connections_allowed_witness :
  let s1 := demo_deliver (demo_syn [10; 42; 0; 2] [1; 1; 1; 1]) demo_stack in
  let s2 := demo_deliver (demo_syn [10; 42; 0; 2] [192; 168; 1; 1]) s1 in
  all_allowed s2 ∧ size (tcpConns s2) = 1%nat.
Proof.
  intros s1 s2. split; [|vm_compute; reflexivity].
  apply (guest_connections_allowed demo_stack s2); [by intros k e Hk|].
  assert (∀ from to s, is_bytes (demo_syn from to) →
    non_nil (DeliverGuestPacket 7 0 (λ _, true) (λ _ _, true) (demo_syn from to) s) = true →
    guest_step s (demo_deliver (demo_syn from to) s)) as Hstep.
  { intros from to s Hb Hd. unfold demo_deliver.
    destruct (DeliverGuestPacket _ _ _ _ _ _) as [[s' r]|] eqn:E; [|done]. by econstructor. }
  eapply rtc_l; [|eapply rtc_once]; apply Hstep;
    (vm_compute; first [reflexivity|repeat constructor; congruence]).
Defined.

(** C34: a frame is handled only if it speaks for the guest — its hardware
    address in the Ethernet header and, in ARP and IPv4 packets as the stack's
    own parser reads them, its own address, an address probe and a DHCP
    discovery being the only exceptions.  Any other frame changes nothing but
    a counter; and every frame that does is accepted. *)
Theorem guest_frames_checked (initialSeq now : Z) (dial : udpProxyKey → bool)
    (host_write : udpProxyKey → list Z → bool) (packet : list Z) (s : NetStack) :
  (ethernetHeaderLen ≤ length packet)%nat →
  let mac := macFromUint64 (guestMAC s) in
  (¬ speaks_for mac (guestIPv4 s) packet →
     ∃ v, DeliverGuestPacket initialSeq now dial host_write packet s =
       Some (s <| sourceViolations := v |>, Ok tt)) ∧
  (speaks_for mac (guestIPv4 s) packet → ValidateGuestSource packet mac (guestIPv4 s) = SourceValid).
Proof.
  intros Hl mac. split; [|by intros ?%source_check_exact]. intros Hn.
  unfold DeliverGuestPacket. destruct (Nat.ltb_spec (length packet) ethernetHeaderLen); [lia|].
  unfold handleEthernetFrameWithReuse. fold mac. cbv zeta.
  case_bool_decide as Hv; [by apply source_check_exact in Hv|]. cbn [negb].
  case_bool_decide; [exists (sourceViolations s); by destruct s|]. unfold recordSourceViolation.
  case_bool_decide; [exists (sourceViolations s); by destruct s|]. by eexists.
Qed.

(** The guest claims another address. *)
Lemma guest_frames_checked_witness :
  ∃ v, DeliverGuestPacket 7 0 (λ _, true) (λ _ _, true) (demo_syn [10; 42; 0; 3] [1; 1; 1; 1]) demo_stack =
    Some (demo_stack <| sourceViolations := v |>, Ok tt).
Proof.
  apply guest_frames_checked; [vm_compute; lia|]. intros H%source_check_exact. vm_compute in H. discriminate H.
Defined.

(** * Replies of the UDP service proxy *)

Lemma proxy_buffer buf data :
  (56 + length data ≤ length buf)%nat →
  copy_at 42 data (take (56 + length data) buf) = take 42 buf ++ data ++ sub buf (42 + length data) 14.
Proof.
  intros Hl. unfold copy_at, overwrite, sub. rewrite take_take, length_take, Nat.min_l by lia.
  rewrite (take_ge data) by lia. rewrite take_drop_commute. replace (42 + length data + 14)%nat with (56 + length data)%nat by lia. done.
Qed.

(** a datagram from the host's service reaches the guest from the service
    address with its data and a valid checksum; but the frame is fourteen
    bytes too long, and those bytes are what the pooled buffer held from an
    earlier frame. *)
Theorem proxy_reply_frame (key : udpProxyKey) (data buf : list Z) (rest : list (list Z)) (s : NetStack) :
  pool s = buf :: rest → (56 + length data ≤ length buf)%nat → len data ≤ 65000 → is_bytes data →
  iface s = true → backend s = true → macIsSet (hostMAC s) = true → macIsSet (guestMACForTransmit s) = true →
  length (serviceIPv4 s) = 4%nat → length (pSrcIP key) = 4%nat →
  is_bytes (serviceIPv4 s) → is_bytes (pSrcIP key) → is_u16 (pDstPort key) → is_u16 (pSrcPort key) →
  ∃ s' f h u, proxy_reply key data s = (s', Ok tt) ∧ out_frames s' = out_frames s ++ [f] ∧
    seen_ip f (guestMACForTransmit s) (hostMAC s) h ∧ src h = serviceIPv4 s ∧ dst h = pSrcIP key ∧
    seen_udp u (serviceIPv4 s) (pSrcIP key) (pDstPort key) (pSrcPort key) data ∧
    ip_payload h = u ++ sub buf (42 + length data) 14.
Proof.
  intros Hpool Hlen Hl Hb Hif Hbk Hhm Hgm Hs4 Hk4 Hbs Hbk4 Hdp Hsp.
  unfold proxy_reply, getEthernetFrameBuffer, Pool.get, Pool.maxCap, udp_head, ethernetHeaderLen,
    ipv4HeaderLen, udpHeaderLen.
  rewrite Hpool. destruct (Z.ltb_spec (256 * 1024 + 14) (Z.of_nat (14 + (14 + 20 + 8 + length data)))); [lia|].
  destruct (Nat.leb_spec (14 + (14 + 20 + 8 + length data)) (length buf)); [|lia].
  set (s1 := s <| pool := rest |>). set (frame := copy_at _ data _).
  assert (frame = take 42 buf ++ data ++ sub buf (42 + length data) 14) as Hframe.
  { unfold frame. by rewrite <-(proxy_buffer buf data). }
  clearbody frame. subst frame.
  destruct (udp_frame_exact (guestMACForTransmit s) (hostMAC s) (serviceIPv4 s) (pSrcIP key) (pDstPort key)
    (pSrcPort key) data (take 42 buf) (sub buf (42 + length data) 14))
    as (h & u & Hseen & Hsrc & Hdst & _ & _ & Hp & Hu); [done..|rewrite length_take; lia|].
  unfold sendUDP. destruct (Nat.ltb_spec (length (take 42 buf ++ data ++ sub buf (42 + length data) 14))
    (ethernetHeaderLen + ipv4HeaderLen + udpHeaderLen + length data)) as [Hlt|_].
  { rewrite !length_app, length_take, length_sub in Hlt by lia.
    unfold ethernetHeaderLen, ipv4HeaderLen, udpHeaderLen in Hlt. lia. }
  change (guestMACForTransmit s1) with (guestMACForTransmit s). change (hostMAC s1) with (hostMAC s).
  change (serviceIPv4 s1) with (serviceIPv4 s).
  rewrite Hgm, Hhm. cbn [negb]. unfold sendFrame. change (iface s1) with (iface s). change (backend s1) with (backend s).
  rewrite Hif, Hbk. cbn [negb]. eexists _, _, h, u. split; [reflexivity|]. split; [reflexivity|]. by split_and!.
Qed.

Definition demo_used_buffer : list Z := Z.of_nat <$> List.seq 0 64.
Lemma proxy_reply_frame_witness :
  let key := mkProxyKey [10; 42; 0; 2] 1000 53 in
  let s := demo_stack <| pool := [demo_used_buffer] |> in
  ∃ s' f h u, proxy_reply key [7; 8] s = (s', Ok tt) ∧ out_frames s' = [f] ∧
    seen_udp u [10; 42; 0; 100] [10; 42; 0; 2] 53 1000 [7; 8] ∧ parseIPv4Header (drop 14 f) = Ok h ∧
    ip_payload h = u ++ [44; 45; 46; 47; 48; 49; 50; 51; 52; 53; 54; 55; 56; 57].
Proof.
  intros key s. destruct (proxy_reply_frame key [7; 8] demo_used_buffer [] s)
    as (s' & f & h & u & E & Ho & (_ & _ & _ & _ & Hh) & _ & _ & Hu & Hp);
    [reflexivity|vm_compute; lia|cbn; lia|by auto with go|reflexivity|reflexivity|reflexivity|reflexivity|
     reflexivity|reflexivity|change (is_bytes [10; 42; 0; 100])|change (is_bytes [10; 42; 0; 2])|change (is_u16 53)|
     change (is_u16 1000)|].
  1-4: by auto 20 with go.
  exists s', f, h, u. split; [exact E|]. split; [exact Ho|]. split; [exact Hu|]. split; [exact Hh|exact Hp].
Defined.
