(* ===== verification/VirtioNet.v ===== *)
(** The virtio network device: src/internal/virtio/net.go.

    The device keeps slices of guest memory for its rings when the memory can
    give them, and reads and writes through fixed scratch arrays when it
    cannot; both paths are here, with the arrays as fields of the state, since
    a header under construction lies in one of them.  Packets for the guest
    wait in [pendingRx]; those of the guest are collected under the lock and
    handed to the backend after it is released, by the writer or by a
    goroutine: [Write_locked] and [WriteLegacy_locked] are the parts under the
    lock. *)
From S2P Require Import Prelude Packet KvmArm64 GuestMemory GuestViews VirtQueue VirtMmio RxRing.

Definition mmioDeviceIDNet : Z := 1.
Definition netQueueRX : nat := 0.
Definition netQueueTX : nat := 1.
Definition netQueueSize : Z := 256.
Definition netFeatureCSUM : Z := Z.shiftl 1 0.
Definition vringAvailNoInterrupt : Z := 1.
Definition netFeatureMAC : Z := Z.shiftl 1 5.
Definition netFeatureStatus : Z := Z.shiftl 1 16.
Definition netFeatureMergeRX : Z := Z.shiftl 1 15.
Definition netHdrFlagNeedsChecksum : Z := 1.
Definition netStatusLinkUp : Z := 1.
Definition netHeaderLen : Z := 10.
Definition netHeaderLenMergeRX : Z := 12.
Definition featureVersion1 : Z := Z.shiftl 1 32.

(** Where the goroutine [runAsyncTX] is: about to take the lock, with packets
    to deliver, or about to take the lock again with the error so far. *)
Inductive tx_place := Starting | Delivering (packets : list (list Z)) | Ending (err : option string).

(** The device's own fields, and the goroutines it has started; a nil [backend] or error is [None]. *)
Record net_fields (B : Type) := mkNet {
  MAC : list Z;
  LegacyMMIO : bool; AsyncTX : bool; NoTXIRQ : bool; NoTXUsed : bool;
  DisableMergeRX : bool; CompleteTXChecksum : bool; HeaderLength : Z;
  backend : option B;
  pendingRx : list (list Z);
  legacy : bool;
  scratch2 : list Z; scratch4 : list Z; scratch8 : list Z; scratch16 : list Z;
  asyncTXRunning : bool; asyncTXAgain : bool; asyncTXErr : option string;
  detached : bool;
  runners : list tx_place;
}.
Arguments mkNet {B}.
Arguments MAC {B}.
Arguments LegacyMMIO {B}.
Arguments AsyncTX {B}.
Arguments NoTXIRQ {B}.
Arguments NoTXUsed {B}.
Arguments DisableMergeRX {B}.
Arguments CompleteTXChecksum {B}.
Arguments HeaderLength {B}.
Arguments backend {B}.
Arguments pendingRx {B}.
Arguments legacy {B}.
Arguments scratch2 {B}.
Arguments scratch4 {B}.
Arguments scratch8 {B}.
Arguments scratch16 {B}.
Arguments asyncTXRunning {B}.
Arguments asyncTXAgain {B}.
Arguments asyncTXErr {B}.
Arguments detached {B}.
Arguments runners {B}.
#[export] Instance eta_net_fields {B} : Eta (net_fields B) := λ d,
  mkNet (MAC d) (LegacyMMIO d) (AsyncTX d) (NoTXIRQ d) (NoTXUsed d) (DisableMergeRX d) (CompleteTXChecksum d)
    (HeaderLength d) (backend d) (pendingRx d) (legacy d) (scratch2 d) (scratch4 d) (scratch8 d) (scratch16 d)
    (asyncTXRunning d) (asyncTXAgain d) (asyncTXErr d) (detached d) (runners d).

(** [NetBackend]: a backend may call the device, so a call is an action on the
    device with its backend; and [NetTXChecksumPolicy], which a backend may
    implement. *)
Class NetBackend (T I B : Type) := {
  HandleTxPacket : list Z → M (mmio T I (net_fields B)) unit;
  NeedsTXChecksum : option (B → list Z → bool);
}.

Definition internetChecksum (data : list Z) : Z := complement16 (fold_above 2 (sum_words data 0)).

(** The frame with its checksum.  Headers have ten or twelve bytes; a shorter
    one makes the slices of the frame panic. *)
Definition fixTXChecksum (frame : list Z) (headerLen : Z) : result (list Z) :=
  if len frame <? headerLen then Ok frame
  else
    match frame with
    | [] => Panic
    | flags :: _ =>
      if negb (has flags netHdrFlagNeedsChecksum) then Ok frame
      else if (len frame <? 10) || (headerLen <? 0) then Panic
      else
        let csumStart := le_val (sub frame 6 2) in
        let csumOffset := le_val (sub frame 8 2) in
        let packet := drop (Z.to_nat headerLen) frame in
        if (csumStart >=? len packet) || (csumStart + csumOffset + 2 >? len packet)
        then Err "virtio-net checksum range out of packet"
        else
          let sum := internetChecksum (drop (Z.to_nat csumStart) packet) in
          Ok (take (Z.to_nat headerLen) frame ++ overwrite packet (Z.to_nat (csumStart + csumOffset)) (be_bytes 2 sum))
    end.

Section net.
Context {T I B : Type} `{!GuestMemory T, !GuestViews T, !IRQController I, !NetBackend T I B}.
Definition Net : Type := mmio T I (net_fields B).
Implicit Types s : Net.

(** An assignment to the device's own fields. *)
Definition set_dev (f : net_fields B → net_fields B) : M Net unit := modify (λ s, s <| dev := f (dev s) |>).
Definition modify_queue (i : nat) (f : queue → queue) : M Net unit := modify (set_queue i f).

(** * Access to the rings *)

(** What [dst] holds afterwards. *)
Definition readGuestMemoryInto (m : T) (addr : Z) (dst : list Z) : result (list Z) :=
  if reader_into then ReadIPAInto m addr (len dst)
  else buf ← ReadIPA m addr (len dst); Ok (overwrite dst 0 (take (length dst) buf)).
(** [n.readIPAInto(addr, n.scratch[:])]. *)
Definition readIPAInto (scratch : net_fields B → list Z) `{!Setter scratch} (addr : Z) : M Net (list Z) :=
  s ← gets id;
  bs ← read_mem (λ m, readGuestMemoryInto m addr (scratch (dev s)));
  set_dev (λ d, update scratch (λ _, bs) d) ;;;
  mret bs.

Definition slice (addr n : Z) : M Net (Z * Z) := read_mem (λ m, SliceIPA m addr n).
Definition ensureQueueCacheLocked (i : nat) : M Net unit :=
  s ← gets id;
  let q := get_queue i s in
  if (size q =? 0) || (descAddr q =? 0) || (availAddr q =? 0) || (usedAddr q =? 0) then mret tt
  else if non_nil (descMem q) && non_nil (availMem q) && non_nil (usedMem q) then mret tt
  else if negb (non_nil (mem s) && slicer) then mret tt
  else
    descMem_ ← slice (descAddr q) (size q * 16);
    availMem_ ← slice (availAddr q) (4 + size q * 2 + 2);
    usedMem_ ← slice (usedAddr q) (4 + size q * 8 + 2);
    modify_queue i (λ q, q <| descMem := Some descMem_ |> <| availMem := Some availMem_ |> <| usedMem := Some usedMem_ |>).

(** The bytes of a cached slice; a nil slice has none. *)
Definition cached s (w : option (Z * Z)) : list Z :=
  match w, mem s with Some w, Some m => view_read m w | _, _ => [] end.

Definition readAvailHeaderLocked (i : nat) : M Net (Z * Z) :=
  ensureQueueCacheLocked i ;;;
  s ← gets id;
  let q := get_queue i s in
  let avail := cached s (availMem q) in
  if len avail >=? 4 then mret (le_val (sub avail 0 2), le_val (sub avail 2 2))
  else
    bs ← readIPAInto scratch4 (availAddr q);
    mret (le_val (sub bs 0 2), le_val (sub bs 2 2)).
Definition readAvailRingEntryLocked (i : nat) (slot : Z) : M Net Z :=
  s ← gets id;
  let q := get_queue i s in
  let avail := cached s (availMem q) in
  let offset := 4 + slot * 2 in
  if len avail >=? offset + 2 then mret (le_val (sub avail (Z.to_nat offset) 2))
  else
    bs ← readIPAInto scratch2 (u64 (availAddr q + offset));
    mret (le_val bs).

Definition readDescriptorLocked (i : nat) (index : Z) : M Net descriptor :=
  q ← gets (get_queue i);
  if index >=? size q then fail "descriptor index out of range"
  else
    ensureQueueCacheLocked i ;;;
    s ← gets id;
    let q := get_queue i s in
    let desc := cached s (descMem q) in
    let offset := index * 16 in
    if len desc >=? offset + 16 then mret (decode_descriptor (sub desc (Z.to_nat offset) 16))
    else
      buf ← readIPAInto scratch16 (u64 (descAddr q + offset));
      mret (decode_descriptor buf).

(** A store into a cached slice. *)
Definition store_cached (w : option (Z * Z)) (off : Z) (bs : list Z) : M Net unit :=
  modify (λ s, match w, mem s with Some w, Some m => s <| mem := Some (view_write m w off bs) |> | _, _ => s end).
Definition writeUsedLocked (i : nat) (head usedLen : Z) : M Net unit :=
  q ← gets (get_queue i);
  if size q =? 0 then panic
  else
    let slot := usedIdx q mod size q in
    ensureQueueCacheLocked i ;;;
    s ← gets id;
    let q := get_queue i s in
    let offset := 4 + slot * 8 in
    let raw := le_bytes 4 (u32 head) ++ le_bytes 4 usedLen in
    (if len (cached s (usedMem q)) >=? offset + 8 then store_cached (usedMem q) offset raw
     else
       set_dev (λ d, d <| scratch8 := raw |>) ;;;
       write_mem (λ m, WriteIPA m (u64 (usedAddr q + offset)) raw)) ;;;
    modify_queue i (λ q, q <| usedIdx := u16 (usedIdx q + 1) |>) ;;;
    s ← gets id;
    let q := get_queue i s in
    let idx := le_bytes 2 (usedIdx q) in
    if len (cached s (usedMem q)) >=? 4 then store_cached (usedMem q) 2 idx
    else
      set_dev (λ d, d <| scratch2 := idx |>) ;;;
      write_mem (λ m, WriteIPA m (u64 (usedAddr q + 2)) idx).

Definition queueInterruptSuppressedLocked (q : queue) : M Net bool := λ s,
  match mem s with
  | None => (s, Ok false)
  | Some m =>
    if availAddr q =? 0 then (s, Ok false)
    else
      match ReadIPA m (availAddr q) 2 with
      | Ok header => (s, Ok (if len header <? 2 then false else has (le_val (take 2 header)) vringAvailNoInterrupt))
      | Err _ => (s, Ok false)
      | Panic => (s, Panic)
      end
  end.

(** * Transmission *)

Definition netHeaderLenLocked s : Z :=
  if negb (HeaderLength (dev s) =? 0) then HeaderLength (dev s)
  else if has (driverFeatures s) netFeatureMergeRX then netHeaderLenMergeRX
  else netHeaderLen.

(** The loop of [readChainLocked] with [n] turns left.  Its buffer comes from a
    pool; the bytes it is extended by are all overwritten. *)
Fixpoint net_chain_turns (n : nat) (i : nat) (index : Z) (writable : bool) (out : list Z) : M Net (list Z) :=
  match n with
  | O => fail "virtio-net descriptor chain loop"
  | S n =>
    desc ← readDescriptorLocked i index;
    out ← (if Bool.eqb (has (flags desc) descFWrite) writable && (length_ desc >? 0) then
             bs ← read_mem (λ m, readGuestMemoryInto m (addr desc) (replicate (Z.to_nat (length_ desc)) 0));
             mret (out ++ bs)
           else mret out);
    if negb (has (flags desc) descFNext) then mret out
    else net_chain_turns n i (next desc) writable out
  end.
Definition readChainLocked (i : nat) (head : Z) (writable : bool) : M Net (list Z) :=
  q ← gets (get_queue i);
  net_chain_turns (Z.to_nat (size q)) i head writable [].

(** Whether the checksum of a packet is completed. *)
Definition completes (d : net_fields B) (packet : list Z) : bool :=
  CompleteTXChecksum d ||
  match NeedsTXChecksum, backend d with
  | Some needs, Some b => needs b packet
  | _, _ => false
  end.
(** The packets collected so far and that of a chain with the bytes [data]. *)
Definition collect (d : net_fields B) (headerLen : Z) (packets : list (list Z)) (data : list Z) : result (list (list Z)) :=
  if len data >=? headerLen then
    data ← (if completes d (drop (Z.to_nat headerLen) data) then fixTXChecksum data headerLen else Ok data);
    if non_nil (backend d) then
      if len packets =? netQueueSize then Err "virtio-net tx batch full"
      else Ok (packets ++ [drop (Z.to_nat headerLen) data])
    else Ok packets
  else Ok packets.
(** One chain of [processTXLocked]. *)
Definition tx_chain (head headerLen : Z) (packets : list (list Z)) : M Net (list (list Z)) :=
  data ← readChainLocked netQueueTX head false;
  s ← gets id;
  packets ← lift (collect (dev s) headerLen packets data);
  (if negb (NoTXUsed (dev s)) then writeUsedLocked netQueueTX head 0 else mret tt) ;;;
  mret packets.
(** [n] turns of the loop. *)
Fixpoint tx_turns (n : nat) (headerLen : Z) (packets : list (list Z)) : M Net (list (list Z)) :=
  match n with
  | O => mret packets
  | S n =>
    q ← gets (get_queue netQueueTX);
    if size q =? 0 then panic
    else
      head ← readAvailRingEntryLocked netQueueTX (lastAvailIdx q mod size q);
      packets ← tx_chain head headerLen packets;
      modify_queue netQueueTX (λ q, q <| lastAvailIdx := u16 (lastAvailIdx q + 1) |>) ;;;
      tx_turns n headerLen packets
  end.
(** The interrupt at the end of a queue's work, unless the driver does not want
    one. *)
Definition interrupt (i : nat) : M Net unit :=
  q ← gets (get_queue i);
  suppressed ← queueInterruptSuppressedLocked q;
  if suppressed : bool then mret tt else raise intVring.
Definition processTXLocked : M Net (list (list Z)) :=
  s ← gets id;
  let q := get_queue netQueueTX s in
  if negb (ready q) || (size q =? 0) || negb (non_nil (mem s)) then mret []
  else
    '(_, availIdx) ← readAvailHeaderLocked netQueueTX;
    packets ← tx_turns (pending q availIdx) (netHeaderLenLocked s) [];
    (if negb (NoTXUsed (dev s)) && negb (NoTXIRQ (dev s)) then interrupt netQueueTX else mret tt) ;;;
    mret packets.

(** One turn of [deliverTXPackets], which holds no lock. *)
Definition deliver_packet (packet : list Z) : M Net unit :=
  s ← gets id;
  if non_nil (backend (dev s)) then HandleTxPacket packet else mret tt.
Fixpoint deliverTXPackets (packets : list (list Z)) : M Net unit :=
  match packets with
  | [] => mret tt
  | packet :: packets => deliver_packet packet ;;; deliverTXPackets packets
  end.

(** * Reception *)

(** [writeRXChunk]: the bytes written. *)
Definition writeRXChunk (addr size_ : Z) (hdr packet : list Z) (offset : Z) : M Net Z :=
  let h := take (Z.to_nat size_) (drop (Z.to_nat offset) hdr) in
  (if (offset <? len hdr) && (len h >? 0) then write_mem (λ m, WriteIPA m addr h) else mret tt) ;;;
  let written := if offset <? len hdr then len h else 0 in
  let addr := if offset <? len hdr then u64 (addr + len h) else addr in
  if written <? size_ then
    let packetOffset := Z.max (offset - len hdr) 0 in
    if packetOffset <? len packet then
      let p := take (Z.to_nat (size_ - written)) (drop (Z.to_nat packetOffset) packet) in
      if len p >? 0 then write_mem (λ m, WriteIPA m addr p) ;;; mret (written + len p)
      else mret written
    else mret written
  else mret written.

(** The loop of [writeRXPacketLocked]; the header is the start of [scratch16]
    at every turn. *)
Fixpoint rx_fill_turns (n : nat) (i : nat) (index headerLen offset : Z) (packet : list Z) : M Net Z :=
  let totalLen := headerLen + len packet in
  match n with
  | O => fail "virtio-net RX descriptor chain loop"
  | S n =>
    desc ← readDescriptorLocked i index;
    s ← gets id;
    offset ← (if has (flags desc) descFWrite && (length_ desc >? 0) && (offset <? totalLen) then
                if (headerLen <? 0) || (headerLen >? 16) then panic
                else
                  written ← writeRXChunk (addr desc) (length_ desc) (take (Z.to_nat headerLen) (scratch16 (dev s))) packet offset;
                  mret (offset + written)
              else mret offset);
    if negb (has (flags desc) descFNext) then
      if offset <? totalLen then fail "virtio-net RX chain too small" else mret (u32 offset)
    else rx_fill_turns n i (next desc) headerLen offset packet
  end.
Definition rx_header (headerLen : Z) (scratch : list Z) : list Z :=
  overwrite scratch 0 (replicate 10 0 ++ le_bytes 2 (if headerLen =? netHeaderLenMergeRX then 1 else 0)).
Definition writeRXPacketLocked (i : nat) (head : Z) (packet : list Z) : M Net Z :=
  s ← gets id;
  let headerLen := netHeaderLenLocked s in
  set_dev (λ d, d <| scratch16 := rx_header headerLen (scratch16 d) |>) ;;;
  rx_fill_turns (Z.to_nat (size (get_queue i s))) i head headerLen 0 packet.

(** Storing [packet] in the next chain of the available ring. *)
Definition rx_store (packet : list Z) : M Net unit :=
  q ← gets (get_queue netQueueRX);
  if size q =? 0 then panic
  else
    head ← readAvailRingEntryLocked netQueueRX (lastAvailIdx q mod size q);
    written ← writeRXPacketLocked netQueueRX head packet;
    writeUsedLocked netQueueRX head written.
Definition rx_advance : M Net unit := modify_queue netQueueRX (λ q, q <| lastAvailIdx := u16 (lastAvailIdx q + 1) |>).
(** One turn of [processRXLocked], and at most [n] turns; whether there was
    one. *)
Definition rx_turn (packet : list Z) : M Net unit :=
  rx_store packet ;;;
  set_dev (λ d, d <| pendingRx := tail (pendingRx d) |>) ;;;
  rx_advance.
Definition rx_turns (n : nat) (processed : bool) : M Net bool :=
  RxRing.rx_turns (λ s, pendingRx (dev s)) rx_turn n processed.
Definition processRXLocked : M Net unit :=
  s ← gets id;
  let q := get_queue netQueueRX s in
  if negb (ready q) || (size q =? 0) || negb (non_nil (mem s)) || (len (pendingRx (dev s)) =? 0) then mret tt
  else
    '(_, availIdx) ← readAvailHeaderLocked netQueueRX;
    processed ← rx_turns (pending q availIdx) false;
    if processed : bool then interrupt netQueueRX else mret tt.
(** Whether the packet was delivered. *)
Definition processOneRXPacketLocked (packet : list Z) : M Net bool :=
  s ← gets id;
  let q := get_queue netQueueRX s in
  if negb (ready q) || (size q =? 0) || negb (non_nil (mem s)) then mret false
  else
    '(_, availIdx) ← readAvailHeaderLocked netQueueRX;
    if lastAvailIdx q =? availIdx then mret false
    else
      rx_store packet ;;;
      rx_advance ;;;
      interrupt netQueueRX ;;;
      mret true.
Definition enqueueRxPacket (packet : list Z) : M Net unit :=
  s ← gets id;
  if detached (dev s) then mret tt
  else
    delivered ← (if len (pendingRx (dev s)) =? 0 then processOneRXPacketLocked packet else mret false);
    if delivered : bool then mret tt
    else
      set_dev (λ d, d <| pendingRx := pendingRx d ++ [packet] |>) ;;;
      processRXLocked.

(** * Registers *)

Definition configBytesLocked s : list Z := overwrite (replicate 6 0) 0 (take 6 (MAC (dev s))) ++ le_bytes 2 netStatusLinkUp.
Definition deviceFeaturesLocked s : Z :=
  let features := Z.lor (Z.lor (Z.lor featureVersion1 netFeatureCSUM) netFeatureMAC) netFeatureStatus in
  if negb (DisableMergeRX (dev s)) then Z.lor features netFeatureMergeRX else features.
Definition legacyFeaturesLocked s : Z := deviceFeaturesLocked s &^ featureVersion1.

Definition resetLocked s : Net :=
  let s := reset_registers s in
  s <| dev := (dev s) <| legacy := false |> <| pendingRx := [] |> |>.
Definition NewNet (base size_ irq_ : Z) (mac : list Z) (b : option B) : Net :=
  let mac := if len mac =? 6 then mac else [0x02; 0x42; 0x0a; 0x2a; 0x00; 0x02] in
  resetLocked (mkMmio base size_ irq_ None None 0 0 0 0 0 0 false 0 [queue0; queue0]
    (mkNet mac false false false false false true 0 b [] false
       (replicate 2 0) (replicate 4 0) (replicate 8 0) (replicate 16 0) false false None false [])).
(** The exported fields of the device, which its owner sets after [NewNet]. *)
Record net_options := mkOptions {
  withLegacyMMIO : bool; withAsyncTX : bool; withNoTXIRQ : bool; withNoTXUsed : bool;
  withDisableMergeRX : bool; withCompleteTXChecksum : bool; withHeaderLength : Z;
}.
Definition configure (o : net_options) : net_fields B → net_fields B := λ d,
  d <| LegacyMMIO := withLegacyMMIO o |> <| AsyncTX := withAsyncTX o |> <| NoTXIRQ := withNoTXIRQ o |>
    <| NoTXUsed := withNoTXUsed o |> <| DisableMergeRX := withDisableMergeRX o |>
    <| CompleteTXChecksum := withCompleteTXChecksum o |> <| HeaderLength := withHeaderLength o |>.
(** The call that registers [Detach] with the memory is left out. *)
Definition net_Attach (m : option T) (i : option I) s : Net :=
  let s := Attach m i s in s <| dev := (dev s) <| detached := false |> |>.
Definition Detach s : Net :=
  let s := s <| mem := None |> <| irq := None |> <| queues := clearCache <$> queues s |> in
  s <| dev := (dev s) <| detached := true |> <| pendingRx := [] |> |>.

Definition on_sel s (f : queue → Z) : Z :=
  match selectedQueueLocked s with Some i => f (get_queue i s) | None => 0 end.
Definition Read (addr size_ : Z) : M Net Z := λ s,
  let offset := u64 (addr - Base s) in
  let legacy_ := LegacyMMIO (dev s) in
  if offset =? regMagicValue then (s, Ok (truncateValue mmioMagicValue size_))
  else if offset =? regVersion then (s, Ok (truncateValue (mmioTransportVersion legacy_) size_))
  else if offset =? regDeviceID then (s, Ok (truncateValue mmioDeviceIDNet size_))
  else if offset =? regVendorID then (s, Ok (truncateValue mmioVendorID size_))
  else if offset =? regDeviceFeatures then
    let features := if legacy_ then legacyFeaturesLocked s else deviceFeaturesLocked s in
    (s, Ok (if deviceFeatureSel s =? 0 then truncateValue features size_
            else if deviceFeatureSel s =? 1 then truncateValue (Z.shiftr features 32) size_
            else 0))
  else if offset =? regQueueNumMax then (s, Ok (if queueSel s <? len (queues s) then truncateValue netQueueSize size_ else 0))
  else if offset =? regQueueNum then (s, Ok (on_sel s (λ q, truncateValue (size q) size_)))
  else if offset =? regQueueReady then
    (s, Ok (if legacy_ then 0 else on_sel s (λ q, if ready q then truncateValue 1 size_ else 0)))
  else if offset =? regQueuePFN then
    (s, Ok (if legacy_ then on_sel s (λ q, if ready q then truncateValue (descAddr q / 4096) size_ else 0) else 0))
  else if offset =? regInterruptStatus then (s, Ok (truncateValue (interruptStatus s) size_))
  else if offset =? regStatus then (s, Ok (truncateValue (status s) size_))
  else if offset =? regConfigGen then (s, Ok (truncateValue (configGeneration s) size_))
  else if (offset >=? regConfig) && (u64 (offset + u64 size_) <=? regConfig + 8) then
    (s, v ← readConfigValue (drop (Z.to_nat (offset - regConfig)) (configBytesLocked s)) size_; Ok (truncateValue v size_))
  else (s, Ok 0).

Definition configureLegacyQueue (pfn : Z) (q : queue) : queue :=
  let q := clearCache q in
  let q := if size q =? 0 then q <| size := netQueueSize |> else q in
  let q := q <| ready := true |> <| descAddr := u64 (pfn * 4096) |> in
  let q := q <| availAddr := u64 (descAddr q + 16 * size q) |> in
  let used := u64 (availAddr q + 4 + 2 * size q) in
  q <| usedAddr := alignVirtio used 4096 |> <| lastAvailIdx := 0 |> <| usedIdx := 0 |>.
(** The page frame number of the selected queue, from either interface. *)
Definition write_pfn (value : Z) : M Net unit :=
  s ← gets id;
  match selectedQueueLocked s with
  | None => mret tt
  | Some i =>
    if value =? 0 then
      modify_queue i (λ q, clearCache (q <| ready := false |> <| descAddr := 0 |> <| availAddr := 0 |> <| usedAddr := 0 |>))
    else
      modify_queue i (configureLegacyQueue (u32 value)) ;;;
      if queueSel s =? Z.of_nat netQueueRX then processRXLocked else mret tt
  end.

Definition scheduleAsyncTXLocked (d : net_fields B) : net_fields B :=
  if asyncTXRunning d then d <| asyncTXAgain := true |>
  else d <| asyncTXRunning := true |> <| runners := runners d ++ [Starting] |>.
(** The write of a queue number to the notification register, from either
    interface: the part under the lock, and the packets that the writer hands to
    the backend after it has released the lock. *)
Definition notify_locked (value : Z) : M Net (list (list Z)) :=
  s ← gets id;
  if value =? Z.of_nat netQueueTX then
    if AsyncTX (dev s) then set_dev scheduleAsyncTXLocked ;;; mret []
    else processTXLocked
  else if value =? Z.of_nat netQueueRX then processRXLocked ;;; mret []
  else mret [].
(** An error of the goroutine is returned by the next write, which does
    nothing else. *)
Definition unless_failed {A} (m : M Net A) : M Net A :=
  s ← gets id;
  match asyncTXErr (dev s) with
  | Some e => set_dev (λ d, d <| asyncTXErr := None |>) ;;; fail e
  | None => m
  end.
(** One half of an address of the selected queue. *)
Definition set_addr (a : queue → Z) `{!Setter a} (value : Z) (low : bool) : M Net unit :=
  on_selected (λ q, clearCache (update a (λ t, set_half t (u32 value) low) q)).

(** The registers other than the notification register. *)
Definition write_register (offset value : Z) : M Net unit :=
  s ← gets id;
  let legacy_ := LegacyMMIO (dev s) in
  if offset =? regDeviceFeatSel then modify (λ s, s <| deviceFeatureSel := u32 value |>)
  else if offset =? regDriverFeatSel then modify (λ s, s <| driverFeatureSel := u32 value |>)
  else if offset =? regDriverFeatures then modify (write_driverFeatures value)
  else if offset =? regQueueSel then modify (λ s, s <| queueSel := u32 value |>)
  else if offset =? regQueueNum then on_selected (λ q, q <| size := u16 value |>)
  else if offset =? regQueueReady then
    if legacy_ then mret tt
    else
      match selectedQueueLocked s with
      | None => mret tt
      | Some i =>
        if value =? 0 then
          modify_queue i (λ q, clearCache (q <| ready := false |> <| lastAvailIdx := 0 |> <| usedIdx := 0 |>))
        else
          modify_queue i (λ q, q <| ready := true |>) ;;;
          if queueSel s =? Z.of_nat netQueueRX then processRXLocked else mret tt
      end
  else if (offset =? regGuestPageSize) || (offset =? regQueueAlign) then mret tt
  else if offset =? regQueuePFN then if legacy_ then write_pfn value else mret tt
  else if offset =? regQueueDescLow then set_addr descAddr value true
  else if offset =? regQueueDescHigh then set_addr descAddr value false
  else if offset =? regQueueAvailLow then set_addr availAddr value true
  else if offset =? regQueueAvailHigh then set_addr availAddr value false
  else if offset =? regQueueUsedLow then set_addr usedAddr value true
  else if offset =? regQueueUsedHigh then set_addr usedAddr value false
  else if offset =? regInterruptAck then
    modify (λ s, s <| interruptStatus := interruptStatus s &^ u32 value |>) ;;; updateIRQLocked
  else if offset =? regStatus then
    modify (λ s, let s := s <| status := u32 value |> in if status s =? 0 then resetLocked s else s)
  else mret tt.
Definition Write_locked (addr size_ value : Z) : M Net (list (list Z)) := unless_failed (
  s ← gets id;
  let offset := u64 (addr - Base s) in
  if offset =? regQueueNotify then notify_locked value else write_register offset value ;;; mret []).
(** A write that no other access comes between. *)
Definition Write (addr size_ value : Z) : M Net unit :=
  packets ← Write_locked addr size_ value; deliverTXPackets packets.

(** The registers of the legacy PCI interface. *)
Definition ReadLegacy (offset size_ : Z) : M Net Z :=
  set_dev (λ d, d <| legacy := true |>) ;;;
  s ← gets id;
  if offset =? 0 then mret (truncateValue (legacyFeaturesLocked s) size_)
  else if offset =? 8 then mret (on_sel s (λ q, if ready q then truncateValue (descAddr q / 4096) size_ else 0))
  else if offset =? 12 then mret (if queueSel s <? len (queues s) then truncateValue netQueueSize size_ else 0)
  else if offset =? 14 then mret (truncateValue (queueSel s) size_)
  else if offset =? 18 then mret (truncateValue (status s) size_)
  else if offset =? 19 then
    modify (λ s, s <| interruptStatus := 0 |>) ;;;
    updateIRQLocked ;;;
    mret (truncateValue (interruptStatus s) size_)
  else if (offset >=? 20) && (offset + size_ <=? 28) then
    v ← lift (readConfigValue (drop (Z.to_nat (offset - 20)) (configBytesLocked s)) size_);
    mret (truncateValue v size_)
  else mret 0.
Definition write_legacy_register (offset value : Z) : M Net unit :=
  if offset =? 4 then modify (λ s, s <| driverFeatures := u32 value |>)
  else if offset =? 8 then write_pfn value
  else if offset =? 14 then modify (λ s, s <| queueSel := u32 value |>)
  else if offset =? 18 then
    modify (λ s,
      let s := s <| status := u8 value |> in
      if status s =? 0 then let s := resetLocked s in s <| dev := (dev s) <| legacy := true |> |> else s)
  else mret tt.
Definition WriteLegacy_locked (offset size_ value : Z) : M Net (list (list Z)) :=
  set_dev (λ d, d <| legacy := true |>) ;;;
  unless_failed (if offset =? 16 then notify_locked value else write_legacy_register offset value ;;; mret []).
Definition WriteLegacy (offset size_ value : Z) : M Net unit :=
  packets ← WriteLegacy_locked offset size_ value; deliverTXPackets packets.
Definition IRQAsserted s : bool := irqHigh s.

(** * The goroutine [runAsyncTX] *)

(** What a step turns its place into, if it does not return.  A packet is handed
    over per step, since no lock is held. *)
Definition runAsyncTX (p : tx_place) : M Net (option tx_place) :=
  match p with
  | Starting => λ s,
    match processTXLocked s with
    | (s, Ok packets) => (s, Ok (Some (Delivering packets)))
    | (s, Err e) => (s, Ok (Some (Ending (Some e))))
    | (s, Panic) => (s, Panic)
    end
  | Delivering [] => mret (Some (Ending None))
  | Delivering (packet :: packets) => λ s,
    match deliver_packet packet s with
    | (s, Ok _) => (s, Ok (Some (Delivering packets)))
    | (s, Err e) => (s, Ok (Some (Ending (Some e))))
    | (s, Panic) => (s, Panic)
    end
  | Ending err =>
    (match err with Some e => set_dev (λ d, d <| asyncTXErr := Some e |>) | None => mret tt end) ;;;
    s ← gets id;
    if negb (asyncTXAgain (dev s)) || non_nil err then
      set_dev (λ d, d <| asyncTXRunning := false |> <| asyncTXAgain := false |>) ;;; mret None
    else set_dev (λ d, d <| asyncTXAgain := false |>) ;;; mret (Some Starting)
  end.
(** A step of the goroutine at place [i]. *)
Definition run_step (i : nat) : M Net unit :=
  s ← gets id;
  match runners (dev s) !! i with
  | None => mret tt
  | Some p =>
    p' ← runAsyncTX p;
    set_dev (λ d, d <| runners := match p' with Some p' => <[i := p']> (runners d) | None => delete i (runners d) end |>)
  end.
End net.

(** * Checksums *)

Lemma residue_unique a b r r' : residue a r → residue b r' → (65535 | a - b) → (a = 0 ↔ b = 0) → r = r'.
Proof. intros (Hr & (k & Hk) & Hz) (Hr' & (k' & Hk') & Hz') [j Hj] Hab. lia. Qed.

(** The sum over a segment whose checksum field holds the folded sum of the
    pseudo-header is the checksum of the segment with that pseudo-header. *)
Lemma completed_checksum pre post initial :
  is_bytes pre → is_bytes post → Nat.Even (length pre) → 0 ≤ initial ≤ 2^20 → len pre + len post ≤ 65535 →
  internetChecksum (pre ++ be_bytes 2 (fold_carry 2 initial) ++ post) = checksumWithInitial (pre ++ [0; 0] ++ post) initial.
Proof.
  intros Ha Hb He Hi Hl. pose proof (words_bound pre Ha). pose proof (words_bound post Hb).
  pose proof (fold_residue initial ltac:(lia)) as Hres. set (p := fold_carry 2 initial) in *. pose proof Hres as (Hp & (k & Hk) & Hz).
  assert (words (be_bytes 2 p ++ post) = p + words post) as Hw.
  { pose proof (be_val_bytes 2 p) as E. rewrite Z.mod_small in E by lia.
    assert (∃ x y, be_bytes 2 p = [x; y]) as (x & y & Hxy) by (eexists _, _; reflexivity).
    rewrite Hxy in *. cbn [app]. by rewrite words_cons2, E. }
  assert (is_bytes (be_bytes 2 p)) as Hbp by auto with go. assert (is_bytes [0; 0]) as Hb0 by (repeat constructor; lia).
  assert (words (pre ++ be_bytes 2 p ++ post) = words pre + (p + words post)) as Hw1 by by rewrite words_app, Hw.
  assert (words (pre ++ [0; 0] ++ post) = words pre + words post) as Hw0 by by rewrite words_app.
  unfold internetChecksum, checksumWithInitial. rewrite !sum_words_eq by (first [by auto 10 with go|lia]).
  rewrite Hw0, Hw1, fold_above_carry by lia. f_equal.
  eapply residue_unique; [apply fold_residue; lia|apply fold_residue; lia| |lia]. exists (-k). lia.
Qed.

(** C28: A frame whose header asks for it gets the checksum that the guest left
    to the device: the field, which held the folded sum of the pseudo-header,
    is replaced so that the segment's checksum verifies with that
    pseudo-header, and no other byte changes. *)
Theorem net_completes_checksum hdr net pre post initial :
  (10 ≤ length hdr)%nat → is_bytes hdr → is_bytes pre → is_bytes post → Nat.Even (length pre) → 0 ≤ initial ≤ 2^20 →
  len pre + len post ≤ 65535 → has (hd 0 hdr) netHdrFlagNeedsChecksum = true →
  le_val (sub hdr 6 2) = len net → le_val (sub hdr 8 2) = len pre →
  ∃ check, is_u16 check ∧ checksumWithInitial (pre ++ be_bytes 2 check ++ post) initial = 0 ∧
    fixTXChecksum (hdr ++ net ++ pre ++ be_bytes 2 (fold_carry 2 initial) ++ post) (len hdr) =
      Ok (hdr ++ net ++ pre ++ be_bytes 2 check ++ post).
Proof.
  intros Hh Hhb Ha Hb He Hi Hl Hf Hs Ho. destruct (checksum_in_place pre post initial Ha Hb He Hi Hl) as [Hu Hz].
  set (check := checksumWithInitial (pre ++ [0; 0] ++ post) initial) in *. rewrite (u16_small check) in Hz by done.
  exists check. split_and!; [done|done|]. set (seg := pre ++ be_bytes 2 (fold_carry 2 initial) ++ post).
  assert (length seg = length pre + 2 + length post)%nat as Hseg by (unfold seg; rewrite !length_app; cbn; lia).
  unfold fixTXChecksum. destruct (Z.ltb_spec (len (hdr ++ net ++ seg)) (len hdr)); [rewrite length_app in *; lia|].
  assert (∃ l, hdr ++ net ++ seg = hd 0 hdr :: l) as [l El] by (destruct hdr as [|f hdr']; [cbn in Hh; lia|by eexists]).
  rewrite El at 1. rewrite Hf. cbn [negb]. destruct (Z.ltb_spec (len (hdr ++ net ++ seg)) 10); [rewrite length_app in *; lia|].
  destruct (Z.ltb_spec (len hdr) 0); [lia|]. cbn [orb].
  assert (∀ o, (o + 2 ≤ 10)%nat → sub (hdr ++ net ++ seg) o 2 = sub hdr o 2) as Hsub.
  { intros o Hoo. unfold sub. rewrite drop_app_le, take_app_le; [done|rewrite length_drop; lia|lia]. }
  rewrite !Hsub, Hs, Ho, !Nat2Z.id, drop_app_length, take_app_length by lia. rewrite length_app, Hseg.
  destruct (Z.geb_spec (len net) (Z.of_nat (length net + (length pre + 2 + length post)))); [lia|].
  destruct (Z.gtb_spec (len net + len pre + 2) (Z.of_nat (length net + (length pre + 2 + length post)))); [lia|]. cbn [orb].
  rewrite drop_app_length. unfold seg. rewrite completed_checksum by done. fold check. do 2 f_equal.
  replace (Z.to_nat (len net + len pre)) with (length (net ++ pre)) by (rewrite length_app; lia).
  rewrite !(app_assoc net pre). by apply overwrite_middle.
Qed.

Lemma net_completes_checksum_witness :
  ∃ check, checksumWithInitial (replicate 16 7 ++ be_bytes 2 check ++ [1; 2; 3]) 70000 = 0 ∧
    fixTXChecksum ([1; 0; 0; 0; 0; 0; 2; 0; 16; 0] ++ [9; 9] ++ replicate 16 7 ++ [17; 113] ++ [1; 2; 3]) 10 =
      Ok ([1; 0; 0; 0; 0; 0; 2; 0; 16; 0] ++ [9; 9] ++ replicate 16 7 ++ be_bytes 2 check ++ [1; 2; 3]).
Proof.
  destruct (net_completes_checksum [1; 0; 0; 0; 0; 0; 2; 0; 16; 0] [9; 9] (replicate 16 7) [1; 2; 3] 70000) as (check & _ & Hz & E).
  - cbn. lia.
  - by repeat constructor.
  - by repeat constructor.
  - by repeat constructor.
  - by exists 8%nat.
  - lia.
  - cbn. lia.
  - reflexivity.
  - reflexivity.
  - reflexivity.
  - exists check. split; [exact Hz|]. exact E.
Defined.
