(* ===== verification/NetQueues.v ===== *)
(** The queues of the virtio network device.

    The slices of guest memory that the device keeps are transparent: reading
    a ring through them is reading guest memory, and completing a chain
    through them is writing it.  From that, what a transmit notification
    hands to the backend and where a packet for the guest is stored. *)
From S2P Require Import Prelude Packet KvmArm64 GuestMemory GuestViews VirtQueue VirtMmio RxRing VirtioNet.

Section queues.
Context {T I B : Type} `{GuestViewsOk T, !IRQController I, !NetBackend T I B}.
Abbreviation Net := (VirtioNet.Net (T := T) (I := I) (B := B)).
Implicit Types (s : Net) (m : T) (q : queue).

(** * States that differ in what the device keeps to go faster *)

(** The device's settings: its fields without the scratch arrays. *)
Definition settings (d : net_fields B) : net_fields B :=
  d <| scratch2 := [] |> <| scratch4 := [] |> <| scratch8 := [] |> <| scratch16 := [] |>.
(** The transport without the cached slices, and with fields of its own. *)
Definition bare {D} (d : D) s : mmio T I D :=
  mkMmio (Base s) (Size s) (IRQ s) (mem s) (irq s) (deviceFeatureSel s) (driverFeatureSel s) (driverFeatures s)
    (queueSel s) (status s) (interruptStatus s) (irqHigh s) (configGeneration s) (clearCache <$> queues s) d.
Definition same s s' : Prop := bare tt s = bare tt s' ∧ settings (dev s) = settings (dev s').

(** A cached slice is the memory at the address of its ring. *)
Definition view_at m (w : option (Z * Z)) (a : Z) : Prop := ∀ v, w = Some v → ∃ n, 0 < n ∧ view_of m v a n.
Definition cache_ok m q : Prop :=
  view_at m (descMem q) (descAddr q) ∧ view_at m (availMem q) (availAddr q) ∧ view_at m (usedMem q) (usedAddr q).
Record sound s m : Prop := {
  so_mem : mem s = Some m;
  so_ok : mem_ok m;
  so_queues : Forall queue_ok (queues s);
  so_caches : Forall (cache_ok m) (queues s);
  so_scratch : length (scratch2 (dev s)) = 2%nat ∧ length (scratch4 (dev s)) = 4%nat ∧ length (scratch16 (dev s)) = 16%nat;
}.
(** The rings are in guest memory, with the two bytes behind them that a slice
    covers. *)
Definition whole_rings m q : Prop :=
  0 < size q ∧ mapped m (descAddr q) (size q * 16) ∧ mapped m (availAddr q) (4 + size q * 2 + 2) ∧
  mapped m (usedAddr q) (4 + size q * 8 + 2).

#[global] Instance same_equiv : Equivalence same.
Proof. split; [done|intros ?? [? ?]; by split|intros ??? [? ?] [? ?]; split; congruence]. Qed.

Definition with_dev {D D'} (d : D) (t : mmio T I D') : mmio T I D :=
  mkMmio (Base t) (Size t) (IRQ t) (mem t) (irq t) (deviceFeatureSel t) (driverFeatureSel t) (driverFeatures t)
    (queueSel t) (status t) (interruptStatus t) (irqHigh t) (configGeneration t) (queues t) d.
Lemma same_bare {D} (d : D) s s' : same s s' → bare d s = bare d s'.
Proof. intros [E _]. change (with_dev d (bare tt s) = with_dev d (bare tt s')). by rewrite E. Qed.
Lemma bare_queue {D} (d : D) i s : get_queue i (bare d s) = clearCache (get_queue i s).
Proof. unfold get_queue, bare. cbn. by rewrite <-(map_nth clearCache). Qed.
Lemma same_queue i s s' : same s s' → clearCache (get_queue i s) = clearCache (get_queue i s').
Proof. intros E. by rewrite <-!(bare_queue tt), (same_bare tt s s'). Qed.

Lemma same_rings i s s' m : same s s' → whole_rings m (get_queue i s) → whole_rings m (get_queue i s').
Proof.
  intros E. apply (same_queue i) in E. intros (? & ? & ? & ?).
  assert (size (get_queue i s) = size (get_queue i s')) as E1 by by apply (f_equal size) in E.
  assert (descAddr (get_queue i s) = descAddr (get_queue i s')) as E2 by by apply (f_equal descAddr) in E.
  assert (availAddr (get_queue i s) = availAddr (get_queue i s')) as E3 by by apply (f_equal availAddr) in E.
  assert (usedAddr (get_queue i s) = usedAddr (get_queue i s')) as E4 by by apply (f_equal usedAddr) in E.
  unfold whole_rings. rewrite <-E1, <-E2, <-E3, <-E4. done.
Qed.
Lemma same_length s s' : same s s' → length (queues s') = length (queues s).
Proof.
  intros [E _]. apply (f_equal queues) in E. cbn in E. apply (f_equal length) in E. by rewrite !length_fmap in E.
Qed.

(** Changing the cached slices of a queue. *)
Definition recache (i : nat) (a b c : option (Z * Z)) s : Net :=
  set_queue i (λ q, q <| descMem := a |> <| availMem := b |> <| usedMem := c |>) s.
Lemma clear_alter f i (qs : list queue) :
  (∀ q, clearCache (f q) = clearCache q) → clearCache <$> alter f i qs = clearCache <$> qs.
Proof.
  intros Hf. apply list_eq. intros j. rewrite !list_lookup_fmap. destruct (decide (i = j)) as [->|Hne].
  - rewrite list_lookup_alter_eq. destruct (qs !! j); cbn; [by rewrite Hf|done].
  - by rewrite list_lookup_alter_ne.
Qed.
Lemma recache_same i a b c s : same s (recache i a b c s).
Proof. split; [|done]. unfold bare, recache, set_queue. cbn. by rewrite clear_alter. Qed.
Lemma recache_sound i a b c s m :
  sound s m → view_at m a (descAddr (get_queue i s)) → view_at m b (availAddr (get_queue i s)) →
  view_at m c (usedAddr (get_queue i s)) → sound (recache i a b c s) m.
Proof.
  intros [S1 S2 S3 S4 S5] Ha Hb Hc. split; try done; unfold recache, set_queue; cbn.
  - apply Forall_alter; [done|]. intros q _ Hq. by destruct q.
  - apply Forall_alter; [done|]. intros q Hq _. unfold get_queue in *. rewrite nth_lookup, Hq in Ha, Hb, Hc. by split_and!.
Qed.
Lemma sound_queue i s m : sound s m → queue_ok (get_queue i s) ∧ cache_ok m (get_queue i s).
Proof.
  intros [_ _ Hq Hc _]. unfold get_queue. rewrite nth_lookup. destruct (queues s !! i) as [q|] eqn:E; cbn.
  - rewrite Forall_lookup in Hq, Hc. eauto.
  - split; [by split_and!|]. by split_and!; intros v.
Qed.

(** * Through the slices *)

(** The whole descriptor table is cached, or will be by the next access. *)
Definition table_cached m q : Prop :=
  ∃ w n, descMem q = Some w ∧ view_of m w (descAddr q) n ∧ size q * 16 ≤ n ∧ non_nil (availMem q) ∧ non_nil (usedMem q).
Definition can_cache m q : Prop :=
  slicer = true ∧ descAddr q ≠ 0 ∧ availAddr q ≠ 0 ∧ usedAddr q ≠ 0 ∧ (descMem q = None ∨ table_cached m q).

Lemma recache_queue i a b c s :
  (i < length (queues s))%nat → get_queue i (recache i a b c s) = (get_queue i s) <| descMem := a |> <| availMem := b |> <| usedMem := c |>.
Proof. intros Hi. unfold recache. by rewrite get_set_queue. Qed.
Lemma ensure_spec i s m :
  sound s m → (i < length (queues s))%nat → whole_rings m (get_queue i s) →
  ∃ a b c, ensureQueueCacheLocked i s = (recache i a b c s, Ok tt) ∧ sound (recache i a b c s) m ∧
    (can_cache m (get_queue i s) → table_cached m (get_queue i (recache i a b c s))).
Proof.
  intros Hs Hi (Hsz & Hd & Ha & Hu). destruct (sound_queue i s m Hs) as [(Hq1 & Hq2 & Hq3 & Hq4 & _) (C1 & C2 & C3)].
  set (q := get_queue i s) in *.
  assert (recache i (descMem q) (availMem q) (usedMem q) s = s) as Hid.
  { unfold recache, set_queue. destruct s as [????????????? qs d]. cbn in *. f_equal. apply list_alter_same. intros x Hx.
    unfold q, get_queue. cbn. rewrite nth_lookup, Hx. by destruct x. }
  assert ((can_cache m q → table_cached m q) → ∃ a b c, (s, Ok tt) = (recache i a b c s, Ok tt) ∧ sound (recache i a b c s) m ∧
    (can_cache m q → table_cached m (get_queue i (recache i a b c s)))) as Hkeep.
  { intros Hc. exists (descMem q), (availMem q), (usedMem q). by rewrite Hid. }
  unfold ensureQueueCacheLocked, gets, mbind, M_bind. cbv [id]. fold q.
  destruct (_ || _) eqn:Hz; [apply Hkeep; intros (_ & ? & ? & ? & _); rewrite !orb_true_iff, !Z.eqb_eq in Hz; lia|].
  destruct (non_nil (descMem q) && _ && _) eqn:Hn.
  { apply Hkeep. intros (_ & _ & _ & _ & [E|E]); [by rewrite E in Hn|done]. }
  rewrite (so_mem _ _ Hs). cbn [non_nil]. destruct slicer eqn:Hsl; cbn [andb negb]; [|by apply Hkeep; intros (? & _); congruence].
  unfold slice, read_mem. pose proof (so_ok _ _ Hs) as Hok. unfold is_u in Hq1.
  destruct (slice_mapped m (descAddr q) (size q * 16)) as [w1 E1]; [done|lia|done|].
  destruct (slice_mapped m (availAddr q) (4 + size q * 2 + 2)) as [w2 E2]; [done|lia|done|].
  destruct (slice_mapped m (usedAddr q) (4 + size q * 8 + 2)) as [w3 E3]; [done|lia|done|].
  rewrite (so_mem _ _ Hs), E1. cbv beta iota. rewrite (so_mem _ _ Hs), E2. cbv beta iota. rewrite (so_mem _ _ Hs), E3.
  exists (Some w1), (Some w2), (Some w3). split; [done|].
  apply slice_view in E1, E2, E3; try done; try lia. split.
  - apply recache_sound; [done|..]; intros v [= <-]; (eexists; split; [|done]); lia.
  - intros _. rewrite recache_queue by done. exists w1, (size q * 16). by split_and!.
Qed.

Lemma cached_same i s s' m :
  same s s' → can_cache m (get_queue i s) → table_cached m (get_queue i s') → can_cache m (get_queue i s').
Proof.
  intros Hsame (? & ? & ? & ? & _) Ht. apply (same_queue i) in Hsame.
  assert (descAddr (get_queue i s) = descAddr (get_queue i s')) as E1 by by apply (f_equal descAddr) in Hsame.
  assert (availAddr (get_queue i s) = availAddr (get_queue i s')) as E2 by by apply (f_equal availAddr) in Hsame.
  assert (usedAddr (get_queue i s) = usedAddr (get_queue i s')) as E3 by by apply (f_equal usedAddr) in Hsame.
  split_and!; [done|by rewrite <-E1|by rewrite <-E2|by rewrite <-E3|by right].
Qed.

Lemma view_reads m w a n off k :
  mem_ok m → view_of m w a n → 0 ≤ off → 0 < k → off + k ≤ n →
  ReadIPA m (u64 (a + off)) k = Ok (sub (view_read m w) (Z.to_nat off) (Z.to_nat k)).
Proof.
  intros Hm Hw Ho Hk Hn. pose proof (view_mapped m w a n Hm Hw) as Hmap.
  destruct (mapped_bound m a n Hm ltac:(lia) Hmap). rewrite u64_small by (unfold is_u; lia). by eapply view_bytes.
Qed.
(** A read through a slice, or past it from guest memory, is the read from
    guest memory. *)
Lemma cached_read s m w a off k :
  sound s m → view_at m w a → 0 ≤ off → 0 < k → (len (cached s w) >=? off + k) = true →
  ReadIPA m (u64 (a + off)) k = Ok (sub (cached s w) (Z.to_nat off) (Z.to_nat k)).
Proof.
  intros Hs Hw Ho Hk Hl. apply Z.geb_le in Hl. unfold cached in *. rewrite (so_mem _ _ Hs) in *. destruct w as [w|]; [|cbn in Hl; lia].
  destruct (Hw w eq_refl) as (n & Hn & Hv). rewrite (view_len m w a n) in Hl by (done || apply Hs).
  eapply view_reads; [apply Hs|done..|lia].
Qed.
Lemma into_read m a dst n : mem_ok m → len dst = n → n < 2^63 → readGuestMemoryInto m a dst = ReadIPA m a n.
Proof.
  intros Hm Hl Hn. unfold readGuestMemoryInto. rewrite Hl. destruct reader_into; [apply read_into|].
  destruct (ReadIPA m a n) as [buf| |] eqn:E; [|done..]. cbn. f_equal. pose proof (read_length m a n buf Hm ltac:(lia) E).
  rewrite take_ge by lia. unfold overwrite. rewrite drop_ge by lia. cbn [take app]. rewrite app_nil_r. by rewrite (take_ge buf) by lia.
Qed.

Definition scratch_ok (d : net_fields B) : Prop :=
  length (scratch2 d) = 2%nat ∧ length (scratch4 d) = 4%nat ∧ length (scratch16 d) = 16%nat.
Lemma set_dev_id s : s <| dev := dev s |> = s.
Proof. by destruct s. Qed.
(** A read into a scratch array. *)
Lemma into_spec (p : net_fields B → list Z) `{!Setter p} s m a n :
  sound s m → len (p (dev s)) = n → n < 2^63 → (∀ f d, settings (update p f d) = settings d) →
  (∀ bs, len bs = n → scratch_ok (update p (λ _, bs) (dev s))) →
  ∃ d, readIPAInto p a s = (s <| dev := d |>, ReadIPA m a n) ∧ same s (s <| dev := d |>) ∧ sound (s <| dev := d |>) m ∧
    (d = dev s ∨ ∃ bs, d = update p (λ _, bs) (dev s)).
Proof.
  intros Hs Hl Hn Hset Hlen. unfold readIPAInto, gets, mbind, M_bind, read_mem. cbv [id].
  rewrite (so_mem _ _ Hs), (into_read m a _ n) by (done || apply Hs).
  destruct (ReadIPA m a n) as [bs| |] eqn:E.
  2,3: exists (dev s); rewrite set_dev_id; split_and!; [done|done|done|by left].
  exists (update p (λ _, bs) (dev s)). split_and!; [done| | |by right; exists bs].
  - split; [done|]. cbn [dev]. symmetry. apply Hset.
  - destruct Hs as [S1 S2 S3 S4 S5]. split; try done. apply Hlen.
    pose proof (read_length m a n bs S2 ltac:(lia) E). lia.
Qed.

Lemma header_spec i s m :
  sound s m → (i < length (queues s))%nat → whole_rings m (get_queue i s) →
  ∃ s', readAvailHeaderLocked i s = (s', header ← ReadIPA m (availAddr (get_queue i s)) 4;
      Ok (le_val (sub header 0 2), le_val (sub header 2 2))) ∧ same s s' ∧ sound s' m ∧
    (can_cache m (get_queue i s) → can_cache m (get_queue i s')).
Proof.
  intros Hs Hi Hw. destruct (ensure_spec i s m Hs Hi Hw) as (a & b & c & He & Hs1 & Hcache).
  unfold readAvailHeaderLocked, mbind at 1, M_bind at 1. rewrite He. set (s1 := recache i a b c s) in *.
  assert (same s s1) as Hsame by apply recache_same. unfold gets, mbind, M_bind. cbv [id].
  assert (availAddr (get_queue i s1) = availAddr (get_queue i s)) as Ea.
  { pose proof (same_queue i s s1 Hsame) as E. by apply (f_equal availAddr) in E. }
  destruct (sound_queue i s1 m Hs1) as [(_ & _ & Hav & _) (_ & Hc & _)]. rewrite Ea in *.
  assert (can_cache m (get_queue i s) → can_cache m (get_queue i s1)) as Hcc by by intros Hcan; eapply cached_same; [exact Hsame|done|by apply Hcache].
  destruct (len (cached s1 (availMem (get_queue i s1))) >=? 4) eqn:Hl.
  - exists s1. split; [|done]. pose proof (cached_read s1 m _ _ 0 4 Hs1 Hc ltac:(lia) ltac:(lia) Hl) as E.
    rewrite Z.add_0_r, u64_small in E by done. rewrite E. cbn [mbind result_bind]. unfold mret, M_ret. by rewrite !sub_sub by lia.
  - destruct (into_spec scratch4 s1 m (availAddr (get_queue i s)) 4) as (d & E & Hsm & Hsd & _); try done.
    { destruct Hs1 as [_ _ _ _ (_ & -> & _)]. done. }
    { intros bs Hbs. destruct Hs1 as [_ _ _ _ (? & _ & ?)]. split_and!; cbn; (done || lia). }
    rewrite E. exists (s1 <| dev := d |>). split; [by destruct (ReadIPA m _ 4)|]. split_and!; [by etrans|done|done].
Qed.

Lemma entry_spec i s m slot :
  sound s m → 0 ≤ slot →
  ∃ s', readAvailRingEntryLocked i slot s = (s', entry ← ReadIPA m (u64 (availAddr (get_queue i s) + 4 + slot * 2)) 2;
      Ok (le_val entry)) ∧ same s s' ∧ sound s' m ∧ queues s' = queues s.
Proof.
  intros Hs Hslot. unfold readAvailRingEntryLocked, gets, mbind, M_bind. cbv [id].
  destruct (sound_queue i s m Hs) as [_ (_ & Hc & _)]. rewrite <-(Z.add_assoc (availAddr _) 4).
  destruct (len (cached s (availMem (get_queue i s))) >=? 4 + slot * 2 + 2) eqn:Hl.
  - exists s. split; [|done]. by rewrite (cached_read s m _ _ (4 + slot * 2) 2 Hs Hc ltac:(lia) ltac:(lia) Hl).
  - destruct (into_spec scratch2 s m (u64 (availAddr (get_queue i s) + (4 + slot * 2))) 2) as (d & E & Hsm & Hsd & _); try done.
    { destruct Hs as [_ _ _ _ (-> & _)]. done. }
    { intros bs Hbs. destruct Hs as [_ _ _ _ (_ & ? & ?)]. split_and!; cbn; (done || lia). }
    rewrite E. exists (s <| dev := d |>). split; [by destruct (ReadIPA m _ 2)|]. by split_and!.
Qed.

(** Reading a descriptor; the array in which a header may lie is left alone
    when the table is cached. *)
Lemma descriptor_spec i s m index :
  sound s m → (i < length (queues s))%nat → whole_rings m (get_queue i s) → 0 ≤ index →
  ∃ s', readDescriptorLocked i index s = (s', readDescriptor m (get_queue i s) index) ∧ same s s' ∧ sound s' m ∧
    (can_cache m (get_queue i s) → can_cache m (get_queue i s') ∧ scratch16 (dev s') = scratch16 (dev s)).
Proof.
  intros Hs Hi Hw Hx. unfold readDescriptorLocked, readDescriptor, gets, mbind, M_bind.
  destruct (Z.geb_spec index (size (get_queue i s))) as [|Hlt]; [by exists s|].
  destruct (ensure_spec i s m Hs Hi Hw) as (a & b & c & He & Hs1 & Hcache). rewrite He. set (s1 := recache i a b c s) in *.
  assert (same s s1) as Hsame by apply recache_same. cbv [id].
  pose proof (same_queue i s s1 Hsame) as Eq.
  assert (descAddr (get_queue i s1) = descAddr (get_queue i s)) as Ea by by apply (f_equal descAddr) in Eq.
  assert (size (get_queue i s1) = size (get_queue i s)) as Es by by apply (f_equal size) in Eq.
  destruct (sound_queue i s1 m Hs1) as [_ (Hc & _)]. rewrite Ea in *.
  assert (can_cache m (get_queue i s) → can_cache m (get_queue i s1)) as Hcc.
  { intros Hcan. by eapply cached_same; [..|by apply Hcache]. }
  destruct (len (cached s1 (descMem (get_queue i s1))) >=? index * 16 + 16) eqn:Hl.
  - exists s1. split_and!; [|done|done|by auto]. by rewrite (cached_read s1 m _ _ (index * 16) 16 Hs1 Hc ltac:(lia) ltac:(lia) Hl).
  - destruct (into_spec scratch16 s1 m (u64 (descAddr (get_queue i s) + index * 16)) 16) as (d & E & Hsm & Hsd & _); try done.
    { destruct Hs1 as [_ _ _ _ (_ & _ & ->)]. done. }
    { intros bs Hbs. destruct Hs1 as [_ _ _ _ (? & ? & _)]. split_and!; cbn; (done || lia). }
    rewrite E. exists (s1 <| dev := d |>). split_and!; [by destruct (ReadIPA m _ 16)|by etrans|done|].
    intros (w & n & Hd & Hv & Hn & _)%Hcache. exfalso. unfold cached in Hl. rewrite Hd, (so_mem _ _ Hs1) in Hl.
    rewrite Ea in Hv. rewrite (view_len m w _ n) in Hl by (done || apply Hs1). rewrite Es in Hn. lia.
Qed.

(** ** Completing a chain *)

(** Memory after writes: ranges stay mapped and slices stay where they are. *)
Definition kept_views m m' : Prop :=
  mem_ok m' ∧ (∀ a n, mapped m a n → mapped m' a n) ∧ ∀ w a n, view_of m w a n → view_of m' w a n.
Lemma kept_write m a bs : mem_ok m → is_bytes bs → kept_views m (WriteIPA m a bs).1.
Proof. intros Hm Hb. split_and!; [by apply write_mem_ok|intros; by apply mapped_write|intros; by apply view_keep]. Qed.
Lemma kept_trans m m1 m2 : kept_views m m1 → kept_views m1 m2 → kept_views m m2.
Proof. intros (_ & ? & ?) (? & ? & ?). split_and!; auto. Qed.
Lemma kept_rings m m' q : kept_views m m' → whole_rings m q → whole_rings m' q.
Proof. intros (_ & Hk & _) (? & ? & ? & ?). split_and!; auto. Qed.
Lemma kept_cache m m' q : kept_views m m' → cache_ok m q → cache_ok m' q.
Proof.
  intros (_ & _ & Hv) (H1' & H2' & H3').
  split_and!; intros w E; [destruct (H1' w E) as (n & ? & ?)|destruct (H2' w E) as (n & ? & ?)|destruct (H3' w E) as (n & ? & ?)]; by exists n; auto.
Qed.
Lemma kept_can_cache m m' q : kept_views m m' → can_cache m q → can_cache m' q.
Proof.
  intros (_ & _ & Hv) (? & ? & ? & ? & [?|(w & n & ? & ? & ? & ? & ?)]); split_and!; auto. right. exists w, n. split_and!; auto.
Qed.
Lemma sound_kept s m m' : sound s m → kept_views m m' → sound (s <| mem := Some m' |>) m'.
Proof.
  intros [S1 S2 S3 S4 S5] Hk. split; try done; [apply Hk|]. eapply Forall_impl; [exact S4|]. intros q. by apply kept_cache.
Qed.
Lemma sound_dev s m d : sound s m → scratch_ok d → sound (s <| dev := d |>) m.
Proof. intros [S1 S2 S3 S4 S5] Hd. by split. Qed.

(** A store through a slice, or past it into guest memory. *)
Lemma store_spec s m w a off raw (f : net_fields B → net_fields B) :
  sound s m → view_at m w a → 0 ≤ off → 0 < len raw → mapped m (a + off) (len raw) →
  ∃ d, (if len (cached s w) >=? off + len raw then store_cached w off raw
        else set_dev f ;;; write_mem (λ m, WriteIPA m (u64 (a + off)) raw)) s =
      (s <| mem := Some (WriteIPA m (u64 (a + off)) raw).1 |> <| dev := d |>, Ok tt) ∧ (d = dev s ∨ d = f (dev s)).
Proof.
  intros Hs Hw Ho Hr Hm. pose proof (so_ok _ _ Hs) as Hok.
  destruct (mapped_bound m (a + off) (len raw) Hok Hr Hm) as [Hb0 Hb]. rewrite u64_small by (unfold is_u; lia).
  destruct (Z.geb_spec (len (cached s w)) (off + len raw)) as [Hl|Hl].
  - exists (dev s). split; [|by left]. unfold store_cached, modify. unfold cached in Hl. rewrite (so_mem _ _ Hs) in *.
    destruct w as [w|]; [|cbn in Hl; lia]. destruct (Hw w eq_refl) as (n & Hn & Hv). rewrite (view_len m w a n) in Hl by done.
    rewrite (view_update m w a n) by done. by destruct s.
  - exists (f (dev s)). split; [|by right]. unfold set_dev, modify, write_mem, mbind, M_bind. cbn.
    rewrite (so_mem _ _ Hs). pose proof (write_mapped m (a + off) raw Hok Hm). by destruct (WriteIPA m (a + off) raw) as [m' r]; cbn in *; subst r.
Qed.

(** What work on a queue keeps. *)
Record progress i s s' m m' : Prop := {
  pr_views : kept_views m m';
  pr_sound : sound s' m';
  pr_settings : settings (dev s') = settings (dev s);
  pr_length : length (queues s') = length (queues s);
  pr_rings m0 : whole_rings m0 (get_queue i s) → whole_rings m0 (get_queue i s');
}.
Lemma progress_trans i s s1 s2 m m1 m2 : progress i s s1 m m1 → progress i s1 s2 m1 m2 → progress i s s2 m m2.
Proof. intros [? ? ? ? ?] [? ? ? ? ?]. split; [by eapply kept_trans|done|congruence|congruence|auto]. Qed.

Lemma progress_same i s s' m : sound s m → sound s' m → same s s' → progress i s s' m m.
Proof.
  intros Hs Hs' E. split; [|done|by destruct E as [_ ->]|by apply same_length|by intros; eapply same_rings].
  split_and!; [apply Hs|done|done].
Qed.
Lemma set_queue_sound i f s m :
  sound s m → (∀ q, queue_ok q → queue_ok (f q)) → (∀ q, cache_ok m q → cache_ok m (f q)) → sound (set_queue i f s) m.
Proof. intros [S1 S2 S3 S4 S5] Hq Hc. split; try done; apply Forall_alter; auto. Qed.
(** Assigning to a field of a queue, seen without the slices. *)
Lemma bare_set {D} (d : D) i f s s' q' :
  (i < length (queues s))%nat → bare tt s = bare tt s' → clearCache (f (get_queue i s')) = q' →
  set_queue i (λ _, q') (bare d s) = bare d (set_queue i f s').
Proof.
  intros Hi E Hq. assert (clearCache <$> queues s = clearCache <$> queues s') as Eqs by by apply (f_equal queues) in E.
  assert (with_dev d (bare tt s) = with_dev d (bare tt s')) as E' by by rewrite E. change (bare d s = bare d s') in E'.
  rewrite E'. unfold set_queue, bare. cbn. f_equal. apply list_eq. intros j. rewrite !list_lookup_fmap.
  destruct (decide (i = j)) as [<-|Hne]; [|by rewrite !list_lookup_alter_ne, list_lookup_fmap].
  rewrite !list_lookup_alter_eq, list_lookup_fmap. destruct (queues s' !! i) as [x|] eqn:Hx; [|done]. cbn. f_equal. rewrite <-Hq.
  unfold get_queue. by rewrite nth_lookup, Hx.
Qed.

Lemma written m a bs : mem_ok m → 0 < len bs → mapped m a (len bs) → WriteIPA m (u64 a) bs = ((WriteIPA m (u64 a) bs).1, Ok tt).
Proof.
  intros Hm Hb Hmap. destruct (mapped_bound m a (len bs) Hm Hb Hmap). rewrite u64_small by (unfold is_u; lia).
  pose proof (write_mapped m a bs Hm Hmap). by destruct (WriteIPA m a bs); cbn in *; subst.
Qed.
Lemma used_spec i s m head usedLen :
  sound s m → (i < length (queues s))%nat → whole_rings m (get_queue i s) →
  ∃ s' m', VirtioNet.writeUsedLocked i head usedLen s = (s', Ok tt) ∧ progress i s s' m m' ∧
    (can_cache m (get_queue i s) → can_cache m' (get_queue i s')) ∧
    ∀ D (d : D), VirtMmio.writeUsedLocked i head usedLen (bare d s) = (bare d s', Ok tt).
Proof.
  intros Hs Hi Hw. pose proof Hw as (Hsz & _ & _ & Hmap).
  destruct (ensure_spec i s m Hs Hi Hw) as (a & b & c & He & Hs1 & Hcache). set (s1 := recache i a b c s) in *.
  assert (same s s1) as Hsame by apply recache_same. pose proof (same_queue i s s1 Hsame) as Eq.
  set (q := get_queue i s) in *. set (slot := usedIdx q mod size q). set (raw := le_bytes 4 (u32 head) ++ le_bytes 4 usedLen).
  assert (usedAddr (get_queue i s1) = usedAddr q) as Ea by by apply (f_equal usedAddr) in Eq.
  assert (len raw = 8) as Hraw by done. pose proof (Z.mod_pos_bound (usedIdx q) (size q) Hsz) as Hslot. fold slot in Hslot.
  assert (is_bytes raw) as Hrb by (unfold raw; auto with go).
  destruct (sound_queue i s1 m Hs1) as [_ (_ & _ & Hc)]. rewrite Ea in Hc.
  assert (mapped m (usedAddr q + (4 + slot * 8)) (len raw)) as Hmap1.
  { rewrite Hraw. eapply mapped_prefix; [apply (mapped_suffix m _ _ (4 + slot * 8) Hmap)|]; lia. }
  assert (mapped m (usedAddr q + 2) 2) as Hmap2 by (eapply mapped_prefix; [apply (mapped_suffix m _ _ 2 Hmap)|]; lia).
  destruct (store_spec s1 m (usedMem (get_queue i s1)) (usedAddr q) (4 + slot * 8) raw (λ d, d <| scratch8 := raw |>)) as (d1 & E1 & Hd1);
    [done|done|lia|lia|done|].
  set (m1 := (WriteIPA m (u64 (usedAddr q + (4 + slot * 8))) raw).1) in *.
  assert (kept_views m m1) as Hk1 by by apply kept_write; [apply Hs|].
  set (f := λ q : queue, q <| usedIdx := u16 (usedIdx q + 1) |>). set (s2 := s1 <| mem := Some m1 |> <| dev := d1 |>) in *.
  set (s3 := set_queue i f s2).
  assert (scratch_ok d1) as Hd1s by (destruct Hd1 as [-> | ->]; apply Hs1).
  assert (sound s3 m1) as Hs3.
  { apply set_queue_sound; [apply sound_dev; [by eapply sound_kept|done]| |done]. intros x (? & ? & ? & ? & ? & ?). split_and!; [done..|apply is_u16_u16]. }
  assert (get_queue i s3 = f (get_queue i s1)) as Eq3.
  { unfold s3. rewrite get_set_queue; [done|]. unfold s2, s1, recache, set_queue. cbn. by rewrite length_alter. }
  set (idx := le_bytes 2 (usedIdx (get_queue i s3))).
  destruct (store_spec s3 m1 (usedMem (get_queue i s3)) (usedAddr q) 2 idx (λ d, d <| scratch2 := idx |>)) as (d2 & E2 & Hd2);
    [done| |lia|done|by apply Hk1|].
  { destruct (sound_queue i s3 m1 Hs3) as [_ (_ & _ & Hc3)]. rewrite Eq3 in Hc3 |- *.
    change (usedAddr (f (get_queue i s1))) with (usedAddr (get_queue i s1)) in Hc3. by rewrite Ea in Hc3. }
  set (m2 := (WriteIPA m1 (u64 (usedAddr q + 2)) idx).1) in *.
  assert (kept_views m1 m2) as Hk2 by (apply kept_write; [apply Hk1|unfold idx; auto with go]).
  assert (scratch_ok d2) as Hd2s.
  { destruct Hd2 as [-> | ->]; [apply Hs3|]. destruct Hs3 as [_ _ _ _ (? & ? & ?)]. by split_and!. }
  set (s4 := s3 <| mem := Some m2 |> <| dev := d2 |>) in *. exists s4, m2.
  assert (get_queue i s4 = f (get_queue i s1)) as Eq4 by exact Eq3.
  assert (usedIdx (get_queue i s1) = usedIdx q) as Ei by by apply (f_equal usedIdx) in Eq.
  split_and!.
  - unfold VirtioNet.writeUsedLocked, mbind at 1, M_bind at 1, gets at 1. fold q. destruct (Z.eqb_spec (size q) 0) as [|_]; [lia|].
    unfold mbind at 1, M_bind at 1. rewrite He. fold s1. unfold mbind at 1, M_bind at 1, gets at 1. cbv [id]. fold slot raw.
    unfold mbind at 1, M_bind at 1. rewrite Ea. rewrite Hraw in E1. rewrite E1. fold s2.
    unfold modify_queue, modify, mbind at 1, M_bind at 1. fold f s3. unfold mbind at 1, M_bind at 1, gets at 1. cbv [id].
    fold idx. replace (usedAddr (get_queue i s3)) with (usedAddr q) by by rewrite Eq3. exact E2.
  - split.
    + by eapply kept_trans.
    + apply sound_dev; [by eapply sound_kept|done].
    + unfold s4. cbn [dev]. destruct Hd2 as [-> | ->]; destruct Hd1 as [-> | ->]; done.
    + unfold s4, s3, s2, s1, recache, set_queue. cbn. by rewrite !length_alter.
    + intros m0 Hw0. rewrite Eq4. apply (same_rings i s s1 m0 Hsame Hw0).
  - intros Hcan. rewrite Eq4. apply (kept_can_cache m); [by eapply kept_trans|].
    assert (can_cache m (get_queue i s1)) as Hc1 by (eapply cached_same; [exact Hsame|done|by apply Hcache]). exact Hc1.
  - intros D d. unfold VirtMmio.writeUsedLocked. change (mem (bare d s)) with (mem s). rewrite (so_mem _ _ Hs), bare_queue. fold q.
    unfold writeQueueUsed. change (size (clearCache q)) with (size q). change (usedIdx (clearCache q)) with (usedIdx q).
    change (usedAddr (clearCache q)) with (usedAddr q). destruct (Z.eqb_spec (size q) 0) as [|_]; [lia|]. fold slot raw.
    rewrite <-(Z.add_assoc (usedAddr q) 4), (written m) by (done || apply Hs). fold m1. cbv beta iota zeta.
    replace (le_bytes 2 _) with idx by (unfold idx; rewrite Eq3; cbn -[le_bytes get_queue]; by rewrite Ei).
    change (usedAddr (update usedIdx _ _)) with (usedAddr q). rewrite (written m1); [|apply Hk1|done|by apply Hk1]. fold m2. f_equal.
    assert (set_queue i (λ _, (clearCache q) <| usedIdx := u16 (usedIdx q + 1) |>) (bare d s) = bare d (set_queue i f s1)) as Ebs.
    { apply bare_set; [done|apply Hsame|]. change (clearCache (f (get_queue i s1))) with (f (clearCache (get_queue i s1))). by rewrite <-Eq. }
    change (set_queue i ?g (update mem ?h (bare d s))) with (update mem h (set_queue i g (bare d s))). by rewrite Ebs.
Qed.

(** * Transmission *)

Definition chain_loop : string := "virtio-net descriptor chain loop".
Lemma readChain_clearCache e n m q index out : readChain_turns e n m (clearCache q) index out = readChain_turns e n m q index out.
Proof.
  revert index out. induction n as [|n IH]; intros index out; [done|]. cbn [readChain_turns].
  change (readDescriptor m (clearCache q) index) with (readDescriptor m q index).
  destruct (readDescriptor m q index) as [d| |]; cbn [mbind result_bind]; [|done..].
  destruct (negb (has _ descFWrite) && _); [destruct (ReadIPA _ _ _); [|done..]|]; cbn [mbind result_bind]; by rewrite IH.
Qed.
Lemma descriptor_next m q index d : mem_ok m → readDescriptor m q index = Ok d → 0 ≤ next d ∧ 0 ≤ length_ d < 2^32.
Proof.
  intros Hm. unfold readDescriptor. destruct (_ >=? _); [done|]. destruct (ReadIPA _ _ 16) as [raw| |] eqn:E; [|done..].
  intros [= <-]. cbn. pose proof (read_bytes _ _ _ _ Hm E) as Hb. pose proof (read_length _ _ 16 _ Hm ltac:(lia) E) as Hl.
  pose proof (le_val_bound (sub raw 14 2) (is_bytes_sub _ _ _ Hb)). pose proof (le_val_bound (sub raw 8 4) (is_bytes_sub _ _ _ Hb)) as Hv.
  rewrite length_sub in Hv by lia. lia.
Qed.

(** The chain is read as through guest memory. *)
Lemma net_chain_spec n i s m index out :
  sound s m → (i < length (queues s))%nat → whole_rings m (get_queue i s) → 0 ≤ index →
  ∃ s', net_chain_turns n i index false out s = (s', readChain_turns chain_loop n m (get_queue i s) index out) ∧ same s s' ∧ sound s' m.
Proof.
  revert s index out. induction n as [|n IH]; intros s index out Hs Hi Hw Hx; [by exists s|].
  cbn [net_chain_turns readChain_turns]. destruct (descriptor_spec i s m index Hs Hi Hw Hx) as (s1 & E & Hsame & Hs1 & _).
  unfold mbind at 1, M_bind at 1. rewrite E. destruct (readDescriptor m (get_queue i s) index) as [d|e|] eqn:Ed; [|by exists s1..].
  destruct (descriptor_next _ _ _ _ (so_ok _ _ Hs) Ed) as [Hnx Hln]. cbn [mbind result_bind].
  assert (same_rest : ∀ out, ∃ s', net_chain_turns n i (next d) false out s1 =
    (s', readChain_turns chain_loop n m (get_queue i s) (next d) out) ∧ same s s' ∧ sound s' m).
  { intros o. destruct (IH s1 (next d) o) as (s2 & E2 & Hsame2 & Hs2); [done| |by eapply same_rings|done|].
    { by rewrite (same_length s s1). }
    exists s2. split_and!; [|by etrans|done]. rewrite E2. by rewrite <-readChain_clearCache, <-(same_queue i s s1), readChain_clearCache. }
  unfold mbind at 1, M_bind at 1.
  replace (Bool.eqb (has (flags d) descFWrite) false) with (negb (has (flags d) descFWrite)) by by destruct (has _ _).
  destruct (negb (has (flags d) descFWrite) && (length_ d >? 0)).
  - unfold mbind at 1, M_bind at 1, read_mem. rewrite (so_mem _ _ Hs1), (into_read m _ _ (length_ d)); [|apply Hs|rewrite length_replicate; lia|lia].
    destruct (ReadIPA m (addr d) (length_ d)) as [bs| |]; [|by exists s1..]. cbn [mbind result_bind]. unfold mret, M_ret.
    destruct (negb (has (flags d) descFNext)); [by exists s1|apply same_rest].
  - unfold mret, M_ret. destruct (negb (has (flags d) descFNext)); [by exists s1|apply same_rest].
Qed.

(** ** A device without slices *)

(** One chain of a device that collects packets in its only field and goes to
    guest memory for everything. *)
Definition plain_chain (d : net_fields B) (headerLen head : Z) : M (mmio T I (list (list Z))) unit :=
  q ← gets (get_queue netQueueTX);
  data ← read_mem (λ m, readChain_turns chain_loop (Z.to_nat (size q)) m q head []);
  t ← gets id;
  packets ← lift (collect d headerLen (dev t) data);
  modify (λ t, t <| dev := packets |>) ;;;
  VirtMmio.writeUsedLocked netQueueTX head 0.

Lemma collect_settings d hl packets data : collect (settings d) hl packets data = collect d hl packets data.
Proof. done. Qed.

(** One chain of the device does what the plain device does. *)
Lemma tx_chain_sim s m head hl packets t :
  sound s m → (netQueueTX < length (queues s))%nat → whole_rings m (get_queue netQueueTX s) → NoTXUsed (dev s) = false → 0 ≤ head →
  plain_chain (dev s) hl head (bare packets s) = (t, Ok tt) →
  ∃ s' m', tx_chain head hl packets s = (s', Ok (dev t)) ∧ t = bare (dev t) s' ∧ progress netQueueTX s s' m m'.
Proof.
  intros Hs Hi Hw Hn Hh. unfold plain_chain, tx_chain, VirtioNet.readChainLocked, gets, mbind, M_bind. cbv [id].
  rewrite bare_queue. change (size (clearCache ?q)) with (size q). unfold read_mem.
  change (mem (bare packets s)) with (mem s). rewrite (so_mem _ _ Hs), readChain_clearCache.
  destruct (net_chain_spec (Z.to_nat (size (get_queue netQueueTX s))) netQueueTX s m head [] Hs Hi Hw Hh) as (s1 & E & Hsame & Hs1). rewrite E.
  destruct (readChain_turns _ _ m _ head []) as [data| |]; [|done..]. change (dev (bare packets s)) with packets.
  assert (collect (dev s1) hl packets data = collect (dev s) hl packets data) as Ec.
  { rewrite <-(collect_settings (dev s1)), <-(collect_settings (dev s)). by destruct Hsame as [_ ->]. }
  unfold lift. rewrite Ec. destruct (collect (dev s) hl packets data) as [packets'| |]; [|done..]. unfold modify.
  assert (NoTXUsed (dev s1) = false) as Hn1.
  { destruct Hsame as [_ Hset]. apply (f_equal NoTXUsed) in Hset. cbn in Hset. congruence. }
  rewrite Hn1. cbn [negb]. destruct (used_spec netQueueTX s1 m head 0 Hs1) as (s2 & m2 & Eu & Hpr & _ & Eb); [by rewrite (same_length s s1)|by eapply same_rings|].
  rewrite Eu. change ((bare packets s) <| dev := packets' |>) with (bare packets' s). rewrite (same_bare packets' s s1) by done.
  rewrite (Eb _ packets'). intros [= <-]. exists s2, m2. split_and!; [done|done|].
  eapply progress_trans; [by apply progress_same|done].
Qed.

Lemma plain_settings d d' hl : settings d = settings d' → plain_chain d hl = plain_chain d' hl.
Proof. intros E. change (plain_chain (settings d) hl = plain_chain (settings d') hl). by rewrite E. Qed.

Lemma advance_progress i s m : sound s m → (i < length (queues s))%nat → progress i s (set_queue i next_entry s) m m.
Proof.
  intros Hs Hi. split; [split_and!; [apply Hs|done..]| |done|unfold set_queue; cbn; by rewrite length_alter|].
  - apply set_queue_sound; [done| |done]. intros q (? & ? & ? & ? & ? & ?). split_and!; [done..|apply is_u16_u16|done].
  - intros m0. by rewrite get_set_queue.
Qed.
Lemma advance_bare {D} (d : D) i s : (i < length (queues s))%nat → set_queue i next_entry (bare d s) = bare d (set_queue i next_entry s).
Proof.
  intros Hi. rewrite <-(bare_set d i next_entry s s (next_entry (clearCache (get_queue i s)))); [|done..]. unfold set_queue. cbn. f_equal.
  apply list_eq. intros j. destruct (decide (i = j)) as [<-|Hne]; [|by rewrite !list_lookup_alter_ne].
  rewrite !list_lookup_alter_eq, list_lookup_fmap. unfold get_queue. rewrite nth_lookup. by destruct (queues s !! i).
Qed.

(** The loop does what the plain device's loop does. *)
Lemma tx_turns_sim n s m hl packets t :
  sound s m → (netQueueTX < length (queues s))%nat → whole_rings m (get_queue netQueueTX s) → NoTXUsed (dev s) = false →
  ring_turns n netQueueTX (plain_chain (dev s) hl) (bare packets s) = (t, Ok tt) →
  ∃ s' m', tx_turns n hl packets s = (s', Ok (dev t)) ∧ t = bare (dev t) s' ∧ progress netQueueTX s s' m m'.
Proof.
  revert s m packets. induction n as [|n IH]; intros s m packets Hs Hi Hw Hn.
  { cbn. intros [= <-]. exists s, m. split_and!; [done|done|by apply progress_same]. }
  cbn [ring_turns tx_turns]. unfold ring_turn, modify_queue, modify, gets, mbind, M_bind. fold next_entry. rewrite bare_queue. change (size (clearCache ?q)) with (size q). change (availAddr (clearCache ?q)) with (availAddr q).
  change (lastAvailIdx (clearCache ?q)) with (lastAvailIdx q).
  destruct (Z.eqb_spec (size (get_queue netQueueTX s)) 0) as [|Hz]; [done|].
  set (slot := lastAvailIdx (get_queue netQueueTX s) mod size (get_queue netQueueTX s)).
  assert (0 ≤ slot) as Hslot by (unfold slot; destruct Hw as [? _]; pose proof (Z.mod_pos_bound (lastAvailIdx (get_queue netQueueTX s)) (size (get_queue netQueueTX s))); lia).
  destruct (entry_spec netQueueTX s m slot Hs Hslot) as (s1 & E1 & Hsame & Hs1 & _).
  unfold read_mem. change (mem (bare packets s)) with (mem s). rewrite (so_mem _ _ Hs), E1.
  destruct (ReadIPA m _ 2) as [e| |] eqn:He; cbn [mbind result_bind]; [|done..].
  assert (0 ≤ le_val e) as He0 by apply le_val_bound, (read_bytes m _ _ _ (so_ok _ _ Hs) He).
  assert (settings (dev s) = settings (dev s1)) as Hset by apply Hsame.
  rewrite (plain_settings _ (dev s1)), (same_bare packets s s1) by done.
  destruct (plain_chain (dev s1) hl (le_val e) (bare packets s1)) as [t1 [[]| |]] eqn:Ep; [|done..].
  assert (∀ d d' : net_fields B, settings d = settings d' → NoTXUsed d = false → NoTXUsed d' = false) as Hno.
  { intros d d' Ed. apply (f_equal NoTXUsed) in Ed. cbn in Ed. congruence. }
  destruct (tx_chain_sim s1 m (le_val e) hl packets t1) as (s2 & m2 & E2 & Et1 & Hpr); try done;
    [by rewrite (same_length s s1)|by eapply same_rings|by eapply Hno|].
  rewrite E2. assert (netQueueTX < length (queues s2))%nat as Hi2 by (rewrite (pr_length _ _ _ _ _ Hpr), (same_length s s1); done).
  pose proof (advance_progress netQueueTX s2 m2 (pr_sound _ _ _ _ _ Hpr) Hi2) as Hpr3. set (s3 := set_queue netQueueTX next_entry s2) in *.
  assert (progress netQueueTX s s3 m m2) as Hpr4.
  { eapply progress_trans; [by apply (progress_same _ s s1)|]. by eapply progress_trans. }
  rewrite Et1, advance_bare by done. fold s3. rewrite (plain_settings _ (dev s3)) by (rewrite <-Hset; symmetry; apply Hpr4).
  intros Ht. destruct (IH s3 m2 (dev t1)) as (s' & m' & E & Et & Hpr5); try done; [apply Hpr4|by rewrite (pr_length _ _ _ _ _ Hpr4)| | |].
  - apply (kept_rings m); [apply Hpr4|by apply Hpr4].
  - by eapply Hno; [symmetry; apply Hpr4|].
  - exists s', m'. split_and!; [done|done|by eapply progress_trans].
Qed.

(** ** What a chain carries *)

(** The packet of a chain with the bytes [data]: without its header, with its
    checksum when the device completes it. *)
Definition packet_of (d : net_fields B) (hl : Z) (data : list Z) : result (list Z) :=
  data ← (if completes d (drop (Z.to_nat hl) data) then fixTXChecksum data hl else Ok data);
  Ok (drop (Z.to_nat hl) data).
Definition tx_step (d : net_fields B) (hl : Z) (packets : list (list Z)) (parts : list (list Z)) : list (list Z) :=
  match collect d hl packets (concat parts) with Ok packets' => packets' | _ => packets end.
Definition tx_good (d : net_fields B) (hl : Z) (packets : list (list Z)) (parts : list (list Z)) : Prop :=
  ∃ packets', collect d hl packets (concat parts) = Ok packets'.
(** Every chain holds a header and a packet. *)
Definition carries (d : net_fields B) (hl : Z) (reqs : list (Z * list (list Z))) (packets : list (list Z)) : Prop :=
  Forall2 (λ r packet, hl ≤ len (concat r.2) ∧ packet_of d hl (concat r.2) = Ok packet) reqs packets.

Lemma plain_chain_spec d hl (t : mmio T I (list (list Z))) m q l u head parts :
  mem t = Some m → mem_ok m → get_queue netQueueTX t = at_index q l u → chain_parts m q head parts → tx_good d hl (dev t) parts →
  plain_chain d hl head t = VirtMmio.writeUsedLocked netQueueTX head 0 (t <| dev := tx_step d hl (dev t) parts |>).
Proof.
  intros Hm Hok Hq Hp (ps & Hc). unfold plain_chain, gets, mbind, M_bind, read_mem. rewrite Hq, Hm. change (size (at_index q l u)) with (size q).
  rewrite (readChain_parts _ m q l u head parts) by done. cbv [id]. unfold tx_step, lift. by rewrite Hc.
Qed.
Lemma collect_one d hl packets data packet :
  is_Some (backend d) → len packets < netQueueSize → hl ≤ len data → packet_of d hl data = Ok packet →
  collect d hl packets data = Ok (packets ++ [packet]).
Proof.
  intros [b Hb] Hn Hl. unfold packet_of, collect. rewrite Hb. destruct (Z.geb_spec (len data) hl) as [_|]; [|lia].
  destruct (if completes _ _ then _ else _) as [data'| |]; cbn [mbind result_bind non_nil]; [|done..]. intros [= <-].
  destruct (Z.eqb_spec (len packets) netQueueSize); [lia|done].
Qed.
Lemma carried d hl reqs packets packets0 :
  is_Some (backend d) → carries d hl reqs packets → len packets0 + len reqs ≤ netQueueSize →
  all_good (tx_step d hl) (tx_good d hl) packets0 reqs ∧ foldl (tx_step d hl) packets0 reqs.*2 = packets0 ++ packets.
Proof.
  intros Hb Hc. revert packets0. induction Hc as [|[head parts] packet reqs packets [Hl Hp] _ IH]; intros packets0 Hn.
  { split; [done|]. by rewrite app_nil_r. }
  cbn [length snd] in *. pose proof (collect_one d hl packets0 _ packet Hb ltac:(lia) Hl Hp) as Hone.
  destruct (IH (packets0 ++ [packet])) as [Hg Hf]; [rewrite length_app; cbn [length]; lia|].
  assert (tx_step d hl packets0 parts = packets0 ++ [packet]) as Hst by (unfold tx_step; by rewrite Hone).
  cbn [all_good fmap list_fmap foldl snd]. rewrite Hst. split; [split; [by eexists|done]|]. by rewrite Hf, <-app_assoc.
Qed.

(** The loop hands over the packets of the pending chains and completes the
    chains. *)
Lemma tx_turns_spec reqs packets s m q l u hl :
  sound s m → (netQueueTX < length (queues s))%nat → clearCache (get_queue netQueueTX s) = at_index q l u →
  whole_rings m q → ring_ok m q → is_u16 l → is_u16 u → entries m q l reqs →
  NoTXUsed (dev s) = false → is_Some (backend (dev s)) → carries (dev s) hl reqs packets → len reqs ≤ netQueueSize →
  ∃ s' m', tx_turns (length reqs) hl [] s = (s', Ok packets) ∧ progress netQueueTX s s' m m' ∧
    bare tt s' = consumed netQueueTX (bare tt s) q l u (len reqs) m' tt ∧ agree q m m' ∧
    (len reqs ≤ size q → (size q | 2^16) → ∀ k head parts, reqs !! k = Some (head, parts) →
      used_element m' q (u16 (u + Z.of_nat k)) = Ok (head, 0)).
Proof.
  intros Hs Hi Hq Hw Hr Hl Hu He Hn Hb Hc Hlen.
  destruct (carried (dev s) hl reqs packets [] Hb Hc Hlen) as [Hg Hf].
  destruct (ring_turns_spec netQueueTX (plain_chain (dev s) hl) (tx_step (dev s) hl) (λ _, 0) (λ _, conj (Z.le_refl 0) eq_refl)
    (tx_good (dev s) hl) (plain_chain_spec (dev s) hl) reqs (bare [] s) m q l u) as (m' & Ht & Ha & Hel); try done.
  { apply Hs. }
  { unfold bare. cbn. by rewrite length_fmap. }
  { by rewrite bare_queue. }
  change (dev (bare [] s)) with (@nil (list Z)) in Ht. rewrite Hf in Ht. cbn [app] in Ht.
  edestruct (tx_turns_sim (length reqs) s m hl []) as (s' & m1 & E & Et & Hpr); [done|done| |done|exact Ht|].
  { assert (size (get_queue netQueueTX s) = size q) as E1 by by apply (f_equal size) in Hq.
    assert (descAddr (get_queue netQueueTX s) = descAddr q) as E2 by by apply (f_equal descAddr) in Hq.
    assert (availAddr (get_queue netQueueTX s) = availAddr q) as E3 by by apply (f_equal availAddr) in Hq.
    assert (usedAddr (get_queue netQueueTX s) = usedAddr q) as E4 by by apply (f_equal usedAddr) in Hq.
    unfold whole_rings. by rewrite E1, E2, E3, E4. }
  change (dev (consumed _ _ _ _ _ _ _ packets)) with packets in *.
  assert (m1 = m') as ->.
  { pose proof (so_mem _ _ (pr_sound _ _ _ _ _ Hpr)) as Em. apply (f_equal mem) in Et. cbn in Et. congruence. }
  exists s', m'. split_and!; [done|done| |done|by apply Hel].
  symmetry. exact (f_equal (with_dev tt) Et).
Qed.
End queues.

(** ** The interrupt *)

Section interrupts.
Context {T I B : Type} `{GuestViewsOk T, IRQControllerOk I, !NetBackend T I B}.
Abbreviation Net := (VirtioNet.Net (T := T) (I := I) (B := B)).
Implicit Types (s : Net) (m : T) (q : queue).

Lemma read_prefix m a n k bs :
  mem_ok m → 0 < n → 0 < k → n + k < 2^63 → mapped m a (n + k) → ReadIPA m a (n + k) = Ok bs → ReadIPA m a n = Ok (take (Z.to_nat n) bs).
Proof.
  intros Hm Hn Hk Hb Hmap Hr. destruct (read_mapped m a n Hm) as [x Hx]; [lia|apply (mapped_prefix m a (n + k)); [done|lia]|].
  destruct (read_mapped m (a + n) k Hm) as [y Hy]; [lia| |].
  { replace k with (n + k - n) by lia. apply mapped_suffix; [done|lia]. }
  pose proof (read_app m a n k x y Hm Hn Hk Hx Hy Hmap) as E. rewrite Hr in E. injection E as ->.
  rewrite Hx. f_equal. rewrite take_app_le, take_ge; [done|..]; pose proof (read_length m a n x Hm ltac:(lia) Hx); lia.
Qed.

Lemma raise_features bit s : driverFeatures (raise bit s).1 = driverFeatures s.
Proof.
  unfold raise, modify, mbind, M_bind, updateIRQLocked. cbn. destruct (irq s) as [c|]; [|done].
  destruct (Bool.eqb _ _); [done|]. by destruct (SetIRQ _ _ _).
Qed.
(** Whether the driver's flags, the first bytes of [header], ask for silence. *)
Definition silenced (q : queue) (header : list Z) : bool :=
  negb (availAddr q =? 0) && has (le_val (take 2 header)) vringAvailNoInterrupt.
Lemma interrupt_spec i s m header :
  mem s = Some m → mem_ok m → mapped m (availAddr (get_queue i s)) 4 → ReadIPA m (availAddr (get_queue i s)) 4 = Ok header →
  ∃ s', interrupt i s = (s', Ok tt) ∧ mem s' = mem s ∧ dev s' = dev s ∧ queues s' = queues s ∧
    driverFeatures s' = driverFeatures s ∧ interruptStatus s' = if silenced (get_queue i s) header then interruptStatus s else Z.lor (interruptStatus s) intVring.
Proof.
  intros Hm Hok Hmap Hh. unfold interrupt, gets, mbind, M_bind, queueInterruptSuppressedLocked, silenced. rewrite Hm.
  destruct (raise_frame intVring s) as (s' & E & Em & Ed & Eq & Ei). rewrite Hm in Em.
  pose proof (raise_features intVring s) as Ef. rewrite E in Ef. cbn [fst] in Ef.
  destruct (Z.eqb_spec (availAddr (get_queue i s)) 0); cbn [negb andb]; [by exists s'|].
  rewrite (read_prefix m _ 2 2 header) by (done || lia). change (Z.to_nat 2) with 2%nat.
  pose proof (read_length m _ 4 header Hok ltac:(lia) Hh) as Hl. rewrite length_take.
  destruct (Z.ltb_spec (Z.of_nat (Nat.min 2 (length header))) 2) as [|_]; [lia|]. rewrite take_take, Nat.min_id.
  destruct (has _ _); [by exists s|by exists s'].
Qed.
End interrupts.

(** C10: A transmit notification takes the packets of the pending chains, in
    ring order, each once, without their headers and with the checksums that
    the device completes; every chain is completed, the consumer index catches
    up with the driver's, the interrupt is raised unless it is switched off or
    the driver's flags ask for silence, and nothing outside the used ring
    changes in guest memory, with and without slices of the rings. *)
Theorem net_transmits {T I B} `{GuestViewsOk T, IRQControllerOk I, !NetBackend T I B}
    (s : VirtioNet.Net (T := T) (I := I) (B := B)) (m : T) header (reqs : list (Z * list (list Z))) packets :
  let q := clearCache (get_queue netQueueTX s) in
  let availIdx := le_val (sub header 2 2) in
  sound s m → (netQueueTX < length (queues s))%nat → ready q = true → whole_rings m q → ring_ok m q →
  outside q (availAddr q) 4 → ReadIPA m (availAddr q) 4 = Ok header →
  pending q availIdx = length reqs → entries m q (lastAvailIdx q) reqs →
  NoTXUsed (dev s) = false → is_Some (backend (dev s)) → len reqs ≤ netQueueSize →
  carries (dev s) (netHeaderLenLocked s) reqs packets →
  ∃ s' m', processTXLocked s = (s', Ok packets) ∧ sound s' m' ∧ agree q m m' ∧
    settings (dev s') = settings (dev s) ∧
    clearCache (get_queue netQueueTX s') = at_index q availIdx (u16 (usedIdx q + len reqs)) ∧
    interruptStatus s' = (if NoTXIRQ (dev s) || silenced q header then interruptStatus s
                          else Z.lor (interruptStatus s) intVring) ∧
    (len reqs ≤ size q → (size q | 2^16) → ∀ k head parts, reqs !! k = Some (head, parts) →
      used_element m' q (u16 (usedIdx q + Z.of_nat k)) = Ok (head, 0)).
Proof.
  intros q availIdx Hs Hi Hr Hw Hring Hout Hh Hp He Hn Hb Hlen Hc.
  destruct (sound_queue netQueueTX s m Hs) as [(_ & _ & _ & _ & Hql & Hqu) _]. pose proof (so_ok _ _ Hs) as Hok.
  assert (whole_rings m (get_queue netQueueTX s)) as Hw' by exact Hw.
  destruct (header_spec netQueueTX s m Hs Hi Hw') as (s1 & E1 & Hsame & Hs1 & _).
  change (availAddr (get_queue netQueueTX s)) with (availAddr q) in E1. rewrite Hh in E1. cbn [mbind result_bind] in E1. fold availIdx in E1.
  pose proof (same_queue netQueueTX s s1 Hsame) as Eq1. fold q in Eq1.
  assert (settings (dev s) = settings (dev s1)) as Hset by apply Hsame.
  destruct (tx_turns_spec reqs packets s1 m q (lastAvailIdx q) (usedIdx q) (netHeaderLenLocked s)) as (s2 & m2 & E2 & Hpr & Eb & Ha & Hel); try done.
  { by rewrite (same_length s s1). }
  { apply (f_equal NoTXUsed) in Hset. cbn in Hset. congruence. }
  { apply (f_equal backend) in Hset. cbn in Hset. by rewrite <-Hset. }
  { unfold carries. change (Forall2 (λ r packet, netHeaderLenLocked s ≤ len (concat r.2) ∧
      packet_of (settings (dev s1)) (netHeaderLenLocked s) (concat r.2) = Ok packet) reqs packets). by rewrite <-Hset. }
  assert (is_u16 availIdx) as Hav by (eapply header_index; [exact Hok|done]).
  assert (clearCache (get_queue netQueueTX s2) = at_index q availIdx (u16 (usedIdx q + len reqs))) as Eq2.
  { rewrite <-(bare_queue tt), Eb. unfold consumed. rewrite get_set_queue by (unfold bare; cbn; by rewrite length_fmap, (same_length s s1)).
    by rewrite (pending_advance q availIdx (length reqs)). }
  assert (interruptStatus s2 = interruptStatus s) as Ei.
  { apply (f_equal interruptStatus) in Eb. destruct Hsame as [Hb' _]. apply (f_equal interruptStatus) in Hb'. cbn in Eb, Hb'. congruence. }
  assert (processTXLocked s = (if negb (NoTXIRQ (dev s)) then interrupt netQueueTX ;;; mret packets else mret packets) s2) as ->.
  { unfold processTXLocked, gets, mbind, M_bind. cbv [id]. change (ready (get_queue netQueueTX s)) with (ready q).
    change (size (get_queue netQueueTX s)) with (size q). rewrite Hr, (so_mem _ _ Hs). destruct Hw as [Hsz _].
    destruct (Z.eqb_spec (size q) 0) as [|_]; [lia|]. cbn [negb non_nil orb]. rewrite E1.
    change (pending (get_queue netQueueTX s) availIdx) with (pending q availIdx). rewrite Hp, E2, Hn. by destruct (NoTXIRQ (dev s)). }
  assert (settings (dev s2) = settings (dev s)) as Hset2 by (rewrite Hset; apply Hpr).
  destruct (NoTXIRQ (dev s)); cbn [negb orb]; [exists s2, m2; by split_and!; [|apply Hpr|..]|].
  assert (availAddr (get_queue netQueueTX s2) = availAddr q) as Ea by by apply (f_equal availAddr) in Eq2.
  destruct (interrupt_spec netQueueTX s2 m2 header) as (s3 & E3 & Em & Ed & Eqs & _ & Es); rewrite ?Ea.
  { apply Hpr. }
  { apply Hpr. }
  { apply Ha. eapply mapped_prefix; [apply Hw|]. destruct Hw as [? _]. lia. }
  { destruct Ha as (_ & _ & Hr2). rewrite Hr2; [done|lia| |done]. eapply mapped_prefix; [apply Hw|]. destruct Hw as [? _]. lia. }
  exists s3, m2. unfold mbind, M_bind. rewrite E3. split_and!; [done| |done|by rewrite Ed| | |done].
  - destruct (pr_sound _ _ _ _ _ Hpr). split; by rewrite ?Em, ?Eqs, ?Ed.
  - rewrite <-Eq2. unfold get_queue. by rewrite Eqs.
  - rewrite Es, Ei. unfold silenced. by rewrite Ea.
Qed.

(** * Samples *)

(** A backend that keeps the packets it gets. *)
Definition log_net : NetBackend (option VM) (list (Z * bool)) (list (list Z)) := {|
  HandleTxPacket packet := modify (λ s, s <| dev := (dev s) <| backend := (λ log, log ++ [packet]) <$> backend (dev s) |> |>);
  NeedsTXChecksum := None;
|}.
#[local] Existing Instance log_net.
Abbreviation sample_net := (VirtioNet.Net (T := option VM) (I := list (Z * bool)) (B := list (list Z))).
(** A queue of two: descriptors at 16, the available ring at 48 with one entry,
    the used ring at 64, data from 96 on. *)
Definition net_queue : queue := queue0 <| size := 2 |> <| ready := true |> <| descAddr := 16 |> <| availAddr := 48 |> <| usedAddr := 64 |>.
Definition net_memory (flags : Z) (data : list Z) : option VM :=
  Some (mkVM 0 128 (replicate 16 0 ++ le_bytes 8 96 ++ le_bytes 4 16 ++ le_bytes 2 flags ++ replicate 18 0 ++
    le_bytes 2 0 ++ le_bytes 2 1 ++ replicate 44 0 ++ data)).
Definition net_dev (m : option VM) (qs : list queue) : sample_net :=
  (net_Attach (Some m) (Some []) (NewNet 0x1000 0x200 5 [2; 66; 10; 42; 0; 2] (Some []))) <| queues := qs |>.
Definition tx_net_memory : option VM := net_memory 0 (replicate 10 0 ++ [1; 2; 3; 4; 5; 6] ++ replicate 16 0).
Definition tx_net : sample_net := net_dev tx_net_memory [queue0; net_queue].
Ltac per_buffer := repeat (apply Forall_cons; split); try apply Forall_nil_2.

Lemma tx_net_memory_ok : mem_ok tx_net_memory.
Proof. split_and!; [done|done|done|]. apply (bool_decide_unpack _). vm_compute. done. Qed.
Lemma net_sound m qs : mem_ok m → Forall queue_ok qs → Forall (λ q, clearCache q = q) qs → sound (net_dev m qs) m.
Proof.
  intros Hm Hq Hc. split; [done|done|done| |done]. eapply Forall_impl; [exact Hc|]. intros q <-. by split_and!; intros v.
Qed.
Lemma net_whole flags data : whole_rings (net_memory flags data) net_queue.
Proof. split_and!; [done|..]; right; cbn; lia. Qed.
Lemma net_used_ring flags data : used_ring_ok (net_memory flags data) net_queue.
Proof.
  split_and!; [done|done|done|right; cbn; lia|]. intros i. pose proof (Z.mod_pos_bound i 2). right. unfold used_slot. cbn. lia.
Qed.
Lemma net_table_kept flags data : table_kept (net_memory flags data) net_queue.
Proof. split_and!; [done|done|]. intros i Hi. cbn in Hi. split; [right; cbn; lia|left; cbn; lia]. Qed.

Lemma net_transmits_witness :
  ∃ s' m', processTXLocked tx_net = (s', Ok [[1; 2; 3; 4; 5; 6]]) ∧ sound s' m' ∧ interruptStatus s' = 1 ∧
    used_element m' net_queue 0 = Ok (0, 0).
Proof.
  destruct (net_transmits tx_net tx_net_memory [0; 0; 1; 0] [(0, [replicate 10 0 ++ [1; 2; 3; 4; 5; 6]])] [[1; 2; 3; 4; 5; 6]])
    as (s' & m' & E & Hs & _ & _ & _ & Hi & Hel).
  - apply net_sound; [apply tx_net_memory_ok|by per_buffer; split_and!|by per_buffer].
  - unfold netQueueTX. cbn. lia.
  - done.
  - apply net_whole.
  - split; [apply tx_net_memory_ok|]. split; [apply net_used_ring|split; [apply net_table_kept|done]].
  - left. done.
  - vm_compute. reflexivity.
  - vm_compute. reflexivity.
  - intros [|[|k]] head parts; [|done..]. intros [= <- <-].
    split; [done|]. split; [split; [right|left]; vm_compute; intuition congruence|].
    split; [by eexists; split; [vm_compute; reflexivity|]|]. split; [done|].
    exists [mkBuffer 96 16 false]. split_and!.
    + apply (chain_last _ _ _ (mkDescriptor 96 16 0 0)); vm_compute; reflexivity.
    + repeat constructor; try (cbn; lia); right; cbn; lia.
    + vm_compute. reflexivity.
  - done.
  - by eexists.
  - unfold netQueueSize. cbn. lia.
  - apply Forall2_cons. split; [|by apply Forall2_nil]. split; [vm_compute; congruence|vm_compute; reflexivity].
  - exists s', m'. split_and!; [exact E|exact Hs|exact Hi|]. exact (Hel ltac:(cbn; lia) ltac:(by exists 32768) O 0 _ eq_refl).
Defined.
