(* ===== verification/NetReceive.v ===== *)
(** Reception of the virtio network device: where a packet for the guest is
    stored.

    The device writes a chain in two parts, the header that lies in a scratch
    array and the packet; in guest memory that is one frame.  When the
    descriptor table can be sliced the scratch array is not used for
    descriptors, and the frame is what the driver expects. *)
From S2P Require Import Prelude Packet KvmArm64 GuestMemory GuestViews VirtQueue VirtMmio RxRing VirtioNet NetQueues.

Section receiving.
Context {T I B : Type} `{GuestViewsOk T, !IRQController I, !NetBackend T I B}.
Abbreviation Net := (VirtioNet.Net (T := T) (I := I) (B := B)).
Implicit Types (s : Net) (m : T) (q : queue).

(** * One buffer *)

Lemma set_mem_same s m : mem s = Some m → s <| mem := Some m |> = s.
Proof. intros <-. by destruct s. Qed.
(** The two writes of a chunk are one write of a piece of the frame. *)
Lemma writeRXChunk_spec s m a n hdr packet (off : nat) :
  let chunk := take (Z.to_nat n) (drop off (hdr ++ packet)) in
  mem s = Some m → mem_ok m → 0 < n → (off < length (hdr ++ packet))%nat → is_bytes hdr → is_bytes packet → mapped m a n →
  writeRXChunk a n hdr packet (Z.of_nat off) s = (s <| mem := Some (WriteIPA m a chunk).1 |>, Ok (len chunk)) ∧
  (WriteIPA m a chunk).2 = Ok tt ∧ 0 < len chunk ≤ n.
Proof.
  intros chunk Hm Hok Hn Ho Hh Hp Hmap.
  assert (0 < len chunk ≤ n) as Hc by (unfold chunk; rewrite length_take, length_drop; lia).
  assert (mapped m a (len chunk)) as Hmc by (apply (mapped_prefix m a n); [done|lia]).
  split_and!; [|by apply write_mapped|lia..]. rewrite length_app in Ho.
  unfold writeRXChunk, mbind, M_bind. rewrite Nat2Z.id.
  destruct (Z.ltb_spec (Z.of_nat off) (len hdr)) as [Hlt|Hge]; cbn [andb].
  - set (h := take (Z.to_nat n) (drop off hdr)). assert (0 < len h ≤ n) as Hlh by (unfold h; rewrite length_take, length_drop; lia).
    destruct (Z.gtb_spec (len h) 0) as [_|]; [|lia]. replace (Z.max (Z.of_nat off - len hdr) 0) with 0 by lia.
    assert (chunk = h ++ take (Z.to_nat (n - len h)) packet) as Ec.
    { unfold chunk. rewrite drop_app_le, take_app by lia. fold h. f_equal. f_equal. unfold h. rewrite length_take, !length_drop. lia. }
    assert (mapped m a (len h)) as Hmh by (apply (mapped_prefix m a n); [done|lia]).
    assert (is_bytes h) as Hbh by (unfold h; auto with go).
    unfold write_mem at 1. rewrite Hm. pose proof (write_mapped m a h Hok Hmh) as Hw. destruct (WriteIPA m a h) as [m1 r] eqn:Ew. cbn in Hw. subst r.
    assert (take (Z.to_nat (n - len h)) packet = [] → (s <| mem := Some m1 |>, Ok (len h)) = (s <| mem := Some (WriteIPA m a chunk).1 |>, Ok (len chunk) : result Z)) as Hone.
    { intros E. by rewrite Ec, E, app_nil_r, Ew. }
    destruct (Z.ltb_spec (len h) n) as [Hl|Hl]; [|apply Hone; by replace (Z.to_nat (n - len h)) with 0%nat by lia].
    destruct (Z.ltb_spec 0 (len packet)) as [Hpk|Hpk]; [|apply Hone; destruct packet; [by rewrite take_nil|cbn in Hpk; lia]].
    change (Z.to_nat 0) with 0%nat. rewrite drop_0. set (p := take (Z.to_nat (n - len h)) packet) in *.
    assert (0 < len p ≤ n - len h) as Hlp by (unfold p; rewrite length_take; lia).
    destruct (Z.gtb_spec (len p) 0) as [_|]; [|lia]. unfold write_mem. cbn [mem update]. 
    destruct (mapped_bound m a n Hok Hn Hmap). rewrite u64_small by (unfold is_u; lia).
    assert (mapped m a (len h + len p)) as Hmhp by (apply (mapped_prefix m a n); [done|lia]).
    pose proof (write_app m a h p Hok Hbh ltac:(lia) ltac:(lia) Hmhp) as Eapp. rewrite Ew in Eapp. cbn [fst] in Eapp.
    pose proof (write_mapped m a chunk Hok Hmc) as Hwc. rewrite Ec, Eapp in Hwc |- *.
    change (mem (s <| mem := Some m1 |>)) with (Some m1). cbv beta iota. destruct (WriteIPA m1 (a + len h) p) as [m2 r]. cbn in Hwc. subst r.
    cbn [fst]. rewrite length_app, Nat2Z.inj_add. done.
  - unfold mret at 1, M_ret at 1. destruct (Z.ltb_spec 0 n) as [_|]; [|lia]. rewrite Z.max_l, Z.sub_0_r by lia.
    destruct (Z.ltb_spec (Z.of_nat off - len hdr) (len packet)) as [_|]; [|lia].
    assert (chunk = take (Z.to_nat n) (drop (Z.to_nat (Z.of_nat off - len hdr)) packet)) as Ec.
    { unfold chunk. rewrite drop_app_ge by lia. do 2 f_equal. lia. }
    rewrite <-Ec. destruct (Z.gtb_spec (len chunk) 0) as [_|]; [|lia]. unfold write_mem. rewrite Hm.
    pose proof (write_mapped m a chunk Hok Hmc) as Hwc. destruct (WriteIPA m a chunk) as [m2 r]. cbn in Hwc. by subst r.
Qed.

(** * One chain *)

Definition rx_loop : string := "virtio-net RX descriptor chain loop".
Definition rx_small : string := "virtio-net RX chain too small".
(** The queue can be sliced and the header [hdr] is in the scratch array. *)
Definition framed i s m (hdr : list Z) : Prop :=
  sound s m ∧ (i < length (queues s))%nat ∧ whole_rings m (get_queue i s) ∧ can_cache m (get_queue i s) ∧
  (length hdr ≤ 16)%nat ∧ is_bytes hdr ∧ take (length hdr) (scratch16 (dev s)) = hdr.

Lemma bare_mem {D} (d : D) s m : bare d (s <| mem := Some m |>) = bare d s <| mem := Some m |>.
Proof. done. Qed.
Lemma framed_write i s m hdr a bs :
  framed i s m hdr → is_bytes bs → framed i (s <| mem := Some (WriteIPA m a bs).1 |>) (WriteIPA m a bs).1 hdr.
Proof.
  intros (Hs & Hi & Hw & Hc & Hl & Hb & Hh) Hbs. pose proof (kept_write m a bs (so_ok _ _ Hs) Hbs) as Hk.
  split_and!; [by eapply sound_kept|done|by eapply kept_rings|by eapply kept_can_cache|done|done|done].
Qed.
Lemma framed_descriptor i s m hdr index :
  framed i s m hdr → 0 ≤ index →
  ∃ s', readDescriptorLocked i index s = (s', readDescriptor m (clearCache (get_queue i s)) index) ∧ same s s' ∧ framed i s' m hdr.
Proof.
  intros (Hs & Hi & Hw & Hc & Hl & Hb & Hh) Hx. destruct (descriptor_spec i s m index Hs Hi Hw Hx) as (s' & E & Hsame & Hs' & Hcan).
  destruct (Hcan Hc) as [Hc' Hsc]. exists s'. split_and!; [exact E|done|]. split_and!; [done|by rewrite (same_length s s')|by eapply same_rings|done..|by rewrite Hsc].
Qed.

(** The chain is filled as by the device without slices, with the frame. *)
Lemma fill_sim {D} (d : D) n i bs s m index off packet hdr :
  let q := clearCache (get_queue i s) in
  framed i s m hdr → is_bytes packet → chain m q index bs → (length bs ≤ n)%nat → 0 ≤ index → lengths_ok bs → backed m bs →
  table_clear m q bs → (off ≤ length (hdr ++ packet))%nat →
  ∃ s' m' r, rx_fill_turns n i index (len hdr) (Z.of_nat off) packet s = (s', r) ∧
    fillChain_turns rx_loop rx_small n q index (Z.of_nat off) (hdr ++ packet) (bare d s) = (bare d s', r) ∧
    framed i s' m' hdr ∧ settings (dev s') = settings (dev s) ∧ clearCache (get_queue i s') = q.
Proof.
  intros q Hf Hp Hc Hn Hi Hl Hbk Ht Hoff. revert n s m index off q Hf Hc Hn Hi Hbk Ht Hoff.
  induction bs as [|b bs IH]; intros n s m index off q Hf Hc Hn Hi Hbk Ht Hoff; [inversion Hc|].
  destruct n as [|n]; cbn [length] in Hn; [lia|]. destruct (chain_cons _ _ _ _ _ Hc) as (desc & Hd & -> & Hrest).
  apply Forall_cons in Hl as [Hld Hl], Hbk as [Hbd Hbk]. cbn in Hld.
  destruct (framed_descriptor i s m hdr index Hf Hi) as (s1 & E1 & Hsame & Hf1). fold q in E1.
  pose proof Hf as (Hs & _). pose proof (so_ok _ _ Hs) as Hok. pose proof Hf1 as (Hs1 & _ & _ & _ & Hlh & Hbh & Hh1).
  pose proof (same_queue i s s1 Hsame) as Eq1. fold q in Eq1.
  cbn [rx_fill_turns fillChain_turns]. unfold gets, mbind, M_bind, read_mem. cbv [id].
  rewrite E1, (same_bare d s s1 Hsame). change (mem (bare d s1)) with (mem s1). rewrite (so_mem _ _ Hs1), (readDescriptor_Ok _ _ _ _ Hd).
  assert (len hdr + len packet = len (hdr ++ packet)) as Etot by (rewrite length_app; lia). rewrite Etot.
  assert (∀ (off' : nat) s2 m2, framed i s2 m2 hdr → settings (dev s2) = settings (dev s) → clearCache (get_queue i s2) = q →
    rewritten m m2 [buffer_of desc] → (off' ≤ length (hdr ++ packet))%nat →
    ∃ s' m' r,
      (if negb (has (flags desc) descFNext) then
         if Z.of_nat off' <? len (hdr ++ packet) then fail rx_small else mret (u32 (Z.of_nat off'))
       else rx_fill_turns n i (next desc) (len hdr) (Z.of_nat off') packet) s2 = (s', r) ∧
      (if negb (has (flags desc) descFNext) then
         if Z.of_nat off' <? len (hdr ++ packet) then fail rx_small else mret (u32 (Z.of_nat off'))
       else fillChain_turns rx_loop rx_small n q (next desc) (Z.of_nat off') (hdr ++ packet)) (bare d s2) = (bare d s', r) ∧
      framed i s' m' hdr ∧ settings (dev s') = settings (dev s) ∧ clearCache (get_queue i s') = q) as Hgo.
  { intros off' s2 m2 Hf2 Hset2 Eq2 Hrw Hoff'. destruct Hrest as [[Hfl ->]|[Hfl Hc']]; rewrite Hfl; cbn [negb].
    { destruct (Z.of_nat off' <? len (hdr ++ packet)); eexists s2, m2, _; by split_and!. }
    destruct (IH Hl n s2 m2 (next desc) off') as (s' & m' & r & R1 & R2 & Hf' & Hset' & Eq'); rewrite ?Eq2; try done; try lia.
    - eapply chain_same_table; [exact Hok| |by eapply next_nonneg; [apply reads_bytes|]|exact Hc']. by apply (readDescriptor_clear m m2 q (buffer_of desc) bs).
    - by eapply next_nonneg; [apply reads_bytes|].
    - by eapply backed_mono; [apply Hrw|].
    - eapply table_clear_tail; [exact Ht|apply Hrw].
    - exists s', m', r. rewrite Eq2 in R2, Eq'. split_and!; [done..|by rewrite Hset'|done]. }
  clear IH Hrest. assert (settings (dev s1) = settings (dev s)) as Hset1 by (symmetry; apply Hsame).
  assert (rewritten m m [buffer_of desc]) as Hrefl by by apply rewritten_refl.
  destruct (Z.ltb_spec (Z.of_nat off) (len (hdr ++ packet))) as [Hlt|Hge]; rewrite ?andb_false_r, ?andb_true_r; [|by apply (Hgo off s1 m)].
  destruct (has (flags desc) descFWrite) eqn:Hw; cbn [andb]; [|by apply (Hgo off s1 m)].
  destruct (Z.gtb_spec (length_ desc) 0) as [Hpos|Hpos]; [|by apply (Hgo off s1 m)].
  destruct (Z.ltb_spec (len hdr) 0) as [|_]; [lia|]. destruct (Z.gtb_spec (len hdr) 16) as [|_]; [lia|]. cbn [orb]. rewrite !Nat2Z.id, Hh1.
  assert (mapped m (addr desc) (length_ desc)) as Hmap by (apply Hbd; cbn; by rewrite Hw).
  destruct (writeRXChunk_spec s1 m (addr desc) (length_ desc) hdr packet off (so_mem _ _ Hs1) Hok Hpos ltac:(lia) Hbh Hp Hmap) as (Ew & Ew2 & Hcl).
  rewrite Ew. set (piece := take (Z.to_nat (length_ desc)) (drop off (hdr ++ packet))) in *.
  assert (is_bytes piece) as Hpb by (unfold piece; apply Forall_take, Forall_drop, Forall_app; done).
  assert (rewritten m (WriteIPA m (addr desc) piece).1 [buffer_of desc]) as Hrw.
  { apply (rewritten_write m _ (buffer_of desc) [] piece); [done|done|done|cbn; lia|by apply (mapped_prefix m _ (length_ desc)); [|lia]|by apply rewritten_refl, write_mem_ok]. }
  pose proof (framed_write i s1 m hdr (addr desc) piece Hf1 Hpb) as Hf2.
  unfold write_mem, mret, M_ret. change (mem (bare d s1)) with (mem s1). rewrite (so_mem _ _ Hs1).
  destruct (WriteIPA m (addr desc) piece) as [m2 r] eqn:EW. cbn [fst snd] in *. subst r.
  replace (Z.of_nat off + len piece) with (Z.of_nat (off + length piece)) by lia.
  refine (Hgo (off + length piece)%nat (s1 <| mem := Some m2 |>) m2 Hf2 Hset1 (eq_sym Eq1) Hrw _). unfold piece. rewrite length_take, length_drop. lia.
Qed.

(** * One turn *)

(** What the device stores in front of a packet, with headers of [hl] bytes. *)
Definition net_header (hl : Z) : list Z :=
  take (Z.to_nat hl) (replicate 10 0 ++ le_bytes 2 (if hl =? netHeaderLenMergeRX then 1 else 0)).
Definition net_frame (hl : Z) (packet : list Z) : list Z := net_header hl ++ packet.
(** The device, without what it keeps to go faster, and the packets that wait. *)
Definition view s : mmio T I (list (list Z)) := bare (pendingRx (dev s)) s.
Record receiver (hl : Z) s m : Prop := {
  re_sound : sound s m;
  re_queue : (netQueueRX < length (queues s))%nat;
  re_rings : whole_rings m (get_queue netQueueRX s);
  re_cache : can_cache m (get_queue netQueueRX s);
  re_header : netHeaderLenLocked s = hl ∧ 0 ≤ hl ≤ 12;
}.

Lemma net_header_length hl : 0 ≤ hl ≤ 12 → len (net_header hl) = hl.
Proof. intros Hh. unfold net_header. rewrite length_take, length_app, length_le_bytes. cbn [length replicate]. lia. Qed.
Lemma net_header_bytes hl : is_bytes (net_header hl).
Proof. unfold net_header. apply is_bytes_take. destruct (hl =? netHeaderLenMergeRX); by repeat constructor. Qed.
Lemma rx_header_starts hl scratch : 0 ≤ hl ≤ 12 → length scratch = 16%nat → take (length (net_header hl)) (rx_header hl scratch) = net_header hl.
Proof.
  intros Hh Hs. pose proof (net_header_length hl Hh) as Hl. unfold rx_header, overwrite. rewrite take_0, app_nil_l.
  set (h := replicate 10 0 ++ _) in *. assert (length h = 12%nat) as Hh12 by done. rewrite (take_ge h), take_app_le by lia.
  unfold net_header. fold h. rewrite length_take. f_equal. lia.
Qed.

(** The array in which the header is built is not part of what [same] sees. *)
Lemma same_scratch16 s bs : same s (s <| dev := (dev s) <| scratch16 := bs |> |>).
Proof. done. Qed.
Lemma receiver_framed hl s m :
  receiver hl s m → let s' := s <| dev := (dev s) <| scratch16 := rx_header hl (scratch16 (dev s)) |> |> in
  framed netQueueRX s' m (net_header hl).
Proof.
  intros [Hs Hq Hr Hc [_ Hh]] s'. pose proof (net_header_length hl Hh). destruct (so_scratch _ _ Hs) as (H2' & H4' & H16').
  split_and!; [apply sound_dev; [done|]|done|done|done|lia|apply net_header_bytes|by apply rx_header_starts].
  split_and!; [done|done|]. change (length (rx_header hl (scratch16 (dev s))) = 16%nat). unfold rx_header. by rewrite length_overwrite.
Qed.
Lemma receiver_same hl s s' m : receiver hl s m → same s s' → sound s' m → can_cache m (get_queue netQueueRX s') → receiver hl s' m.
Proof.
  intros [Hs Hq Hr Hc [Hh ?]] Hsame Hs' Hc'. split; [done|by rewrite (same_length s s')|by eapply same_rings|done|split; [|done]].
  destruct Hsame as [E1 E2]. unfold netHeaderLenLocked in *. apply (f_equal driverFeatures) in E1. apply (f_equal HeaderLength) in E2. cbn in E1, E2.
  by rewrite <-E1, <-E2.
Qed.

(** A turn does what the turn of the device without slices does. *)
Lemma rx_turn_sim hl s m q l u head bs packet t :
  receiver hl s m → get_queue netQueueRX (view s) = at_index q l u → posted m q l head bs → is_bytes packet →
  RxRing.rx_turn (λ q head p, fill_chain rx_loop rx_small q head (net_frame hl p)) tail packet (view s) = (t, Ok tt) →
  driverFeatures t = driverFeatures s →
  ∃ s' m', rx_turn packet s = (s', Ok tt) ∧ t = view s' ∧ receiver hl s' m'.
Proof.
  intros Hre Hgq Hpo Hb. pose proof Hre as [Hs Hq Hw Hc [Hhl Hh]]. pose proof (so_ok _ _ Hs) as Hok.
  pose proof (posted_head m q l head bs Hok Hpo) as Hhead. pose proof (po_entry _ _ _ _ _ Hpo) as (e & He & Hle).
  assert (clearCache (get_queue netQueueRX s) = at_index q l u) as Hgq' by by rewrite <-Hgq, <-(bare_queue (pendingRx (dev s))).
  unfold rx_turn, rx_store, RxRing.rx_turn, ring_turn, gets, mbind, M_bind. change 0%nat with netQueueRX. rewrite Hgq.
  assert (size (get_queue netQueueRX s) = size q) as Esz by by apply (f_equal size) in Hgq'.
  assert (lastAvailIdx (get_queue netQueueRX s) = l) as El by by apply (f_equal lastAvailIdx) in Hgq'.
  assert (availAddr (get_queue netQueueRX s) = availAddr q) as Ea by by apply (f_equal availAddr) in Hgq'.
  change (size (at_index q l u)) with (size q). change (lastAvailIdx (at_index q l u)) with l. change (availAddr (at_index q l u)) with (availAddr q).
  rewrite Esz, El. assert (0 < size q) as Hsz by (rewrite <-Esz; apply Hw). destruct (Z.eqb_spec (size q) 0) as [|_]; [lia|].
  destruct (entry_spec netQueueRX s m (l mod size q) Hs (proj1 (Z.mod_pos_bound l (size q) Hsz))) as (s1 & E1 & Hsame & Hs1 & Eqs).
  rewrite E1, Ea. change (availAddr q + 4 + _ * 2) with (entry_addr q l). unfold read_mem. change (mem (view s)) with (mem s).
  rewrite (so_mem _ _ Hs), u64_small, He by apply Hpo. cbn [mbind result_bind]. rewrite Hle.
  pose proof (receiver_same hl s s1 m Hre Hsame Hs1 ltac:(unfold get_queue; rewrite Eqs; exact Hc)) as Hre1. pose proof (receiver_framed hl s1 m Hre1) as Hf.
  unfold writeRXPacketLocked, set_dev, modify, gets, mbind, M_bind. cbv [id]. rewrite (proj1 (re_header _ _ _ Hre1)).
  set (s2 := s1 <| dev := (dev s1) <| scratch16 := rx_header hl (scratch16 (dev s1)) |> |>) in *.
  assert (same s s2) as Hsame2 by (etrans; [exact Hsame|apply same_scratch16]).
  assert (view s = bare (pendingRx (dev s)) s2) as Ev by by apply same_bare.
  pose proof (same_queue netQueueRX s s2 Hsame2) as Eq2. rewrite Hgq' in Eq2.
  assert (size (get_queue netQueueRX s1) = size q) as -> by by apply (f_equal size) in Eq2.
  destruct (fill_sim (pendingRx (dev s)) (Z.to_nat (size q)) netQueueRX bs s2 m head 0 packet (net_header hl)) as (s3 & m3 & r & R1 & R2 & Hf3 & Hset3 & Eq3);
    rewrite <-?Eq2; try done; try (apply Hpo); [by apply chain_at_index, Hpo|exact (chain_length m q head bs (reads_bytes m Hok) (proj1 Hhead) (po_chain _ _ _ _ _ Hpo))|apply Hhead|lia|].
  rewrite (net_header_length hl Hh) in R1. change (Z.of_nat 0) with 0 in R1, R2. rewrite R1. unfold fill_chain. rewrite Hgq, Ev.
  change (size (at_index q l u)) with (size q). unfold net_frame. rewrite <-Eq2 in R2. rewrite R2. destruct r as [w| |]; [|done..].
  pose proof Hf3 as (Hs3 & Hq3 & Hw3 & Hc3 & _).
  destruct (used_spec netQueueRX s3 m3 head w Hs3 Hq3 Hw3) as (s4 & m4 & E4 & Hpr & Hcan & Eb). rewrite E4, Eb.
  set (s5 := s4 <| dev := (dev s4) <| pendingRx := tail (pendingRx (dev s4)) |> |>).
  assert (settings (dev s4) = settings (dev s)) as Hset4 by (rewrite (pr_settings _ _ _ _ _ Hpr), Hset3; symmetry; apply Hsame2).
  assert (pendingRx (dev s4) = pendingRx (dev s)) as Hpend by by apply (f_equal pendingRx) in Hset4.
  assert (netQueueRX < length (queues s5))%nat as Hq5 by (change (queues s5) with (queues s4); by rewrite (pr_length _ _ _ _ _ Hpr)).
  pose proof (pr_sound _ _ _ _ _ Hpr) as Hs4. assert (sound s5 m4) as Hs5 by (apply sound_dev; [done|apply Hs4]).
  pose proof (advance_progress netQueueRX s5 m4 Hs5 Hq5) as Hpr5. fold next_entry. unfold rx_advance, modify_queue, modify. fold next_entry.
  intros [= <-] Hdf. exists (set_queue netQueueRX next_entry s5), m4. split_and!; [done| |].
  - unfold view. rewrite <-advance_bare by done. change (pendingRx (dev (set_queue netQueueRX next_entry s5))) with (tail (pendingRx (dev s4))). by rewrite Hpend.
  - split; [apply Hpr5|by rewrite (pr_length _ _ _ _ _ Hpr5)| | |].
    + apply Hpr5. change (get_queue netQueueRX s5) with (get_queue netQueueRX s4). apply (kept_rings m3); [apply Hpr|by apply Hpr].
    + rewrite get_set_queue by done. exact (Hcan Hc3).
    + split; [|done]. rewrite <-Hhl. unfold netHeaderLenLocked. assert (driverFeatures s4 = driverFeatures s) as <- by exact Hdf.
      assert (HeaderLength (dev s4) = HeaderLength (dev s)) as <- by by apply (f_equal HeaderLength) in Hset4. done.
Qed.

Lemma net_turn_stores hl : turn_stores view (receiver hl) (net_frame hl) tail rx_turn.
Proof.
  intros s m q l u head bs packet0 packet Hre Hm Hok Hq Hgq Hur Hu Hpo Hb Hl Hr.
  destruct (rx_turn_spec rx_loop rx_small _ (net_frame hl) tail (λ _ _ _, eq_refl) (view s) m q l u head bs packet0) as (m' & E & ? & ? & ? & ?); try done.
  destruct (rx_turn_sim hl s m q l u head bs packet0 _ Hre Hgq Hpo ltac:(by apply Forall_app in Hb as [_ ?]) E eq_refl) as (s' & m1 & E' & Ev & Hre').
  assert (m1 = m') as ->.
  { apply (f_equal mem) in Ev. pose proof (so_mem _ _ (re_sound _ _ _ Hre')) as Em. cbn in Ev. congruence. }
  exists s', m'. by split_and!.
Qed.

(** The loop stores the packets that wait in the posted chains. *)
Lemma net_turns_spec hl slots s m :
  let q := clearCache (get_queue netQueueRX s) in
  let ps := pendingRx (dev s) in
  let d := Nat.min (length slots) (length ps) in
  receiver hl s m → (size q | 2^16) → used_ring_ok m q → len slots ≤ size q → rx_ring m q (lastAvailIdx q) slots →
  Forall (λ p, is_bytes p ∧ hl + len p < 2^32) ps →
  (∀ k head bs packet, slots !! k = Some (head, bs) → ps !! k = Some packet → hl + len packet ≤ room bs) →
  ∃ s' m', rx_turns (length slots) false s = (s', Ok (0 <? Z.of_nat d)) ∧ receiver hl s' m' ∧
    view s' = consumed netQueueRX (view s) q (lastAvailIdx q) (usedIdx q) (Z.of_nat d) m' (drop d ps) ∧
    touched q (concat slots.*2) m m' ∧ stored m' q (usedIdx q) slots (net_frame hl <$> ps).
Proof.
  intros q ps d Hre Hdiv Hur Hle Hring Hpk Hroom. pose proof Hre as [Hs Hq Hw Hc [Hhl Hh]].
  destruct (sound_queue netQueueRX s m Hs) as [(Hsz & _ & _ & _ & Hl & Hu) _].
  assert (∀ p, len (net_frame hl p) = hl + len p) as Hfl.
  { intros p. unfold net_frame. rewrite length_app, Nat2Z.inj_add, net_header_length; done. }
  destruct (rx_turns_spec view (receiver hl) (net_frame hl) (λ ps, ps) tail rx_turn (λ _, eq_refl) (net_turn_stores hl)
    slots ps s m q (lastAvailIdx q) (usedIdx q) false) as (s' & m' & Ht & Hre' & Hv & Htd & Hst & _); try done.
  - apply Hs.
  - apply Hs.
  - unfold view, bare. cbn. by rewrite length_fmap.
  - unfold view. rewrite bare_queue. symmetry. apply at_index_self.
  - eapply Forall_impl; [exact Hpk|]. intros p [? ?]. rewrite Hfl. split; [|done]. apply is_bytes_app; [apply net_header_bytes|done].
  - intros k head bs p Hk Hkp. rewrite Hfl. by eapply Hroom.
  - exists s', m'. split_and!; [exact Ht|done| |done|done]. rewrite Hv. f_equal. exact (pend_iter (λ ps, ps) tail (λ _, eq_refl) d ps).
Qed.
End receiving.

(** C11: For a driver whose receive ring, chains and used ring are whole, in
    mapped memory and apart, whose buffers have room for the header and the
    packet, and a guest memory that gives slices, with none of the three ring
    addresses zero, so that the descriptor table is cached: the packets waiting
    for the guest are stored in the chains that the driver has posted, in
    order, one packet per chain, until packets or chains run out: each chain
    then holds a header of zeros, with a count of one buffer when the driver
    merges buffers, and its packet, and is completed with their length; the
    other packets wait on, the interrupt is raised unless the driver's flags
    ask for silence, and guest memory outside the used ring and the buffers of
    the chains is as before.  Without the cached table the header is
    overwritten, [net_header_overwritten]. *)
Theorem net_receives {T I B} `{GuestViewsOk T, IRQControllerOk I, !NetBackend T I B}
    (s : VirtioNet.Net (T := T) (I := I) (B := B)) (m : T) hl slots header :
  let q := clearCache (get_queue netQueueRX s) in
  let ps := pendingRx (dev s) in
  let d := Nat.min (length slots) (length ps) in
  receiver hl s m → ready q = true → (size q | 2^16) →
  used_ring_ok m q → len slots ≤ size q → rx_ring m q (lastAvailIdx q) slots →
  outside q (availAddr q) 4 → clear_of (availAddr q) 4 (concat slots.*2) →
  ReadIPA m (availAddr q) 4 = Ok header → le_val (sub header 2 2) = u16 (lastAvailIdx q + len slots) →
  Forall (λ p, is_bytes p ∧ hl + len p < 2^32) ps →
  (∀ k head bs packet, slots !! k = Some (head, bs) → ps !! k = Some packet → hl + len packet ≤ room bs) →
  ∃ s' m', processRXLocked s = (s', Ok tt) ∧ receiver hl s' m' ∧ stored m' q (usedIdx q) slots (net_frame hl <$> ps) ∧
    touched q (concat slots.*2) m m' ∧ pendingRx (dev s') = drop d ps ∧
    clearCache (get_queue netQueueRX s') = at_index q (u16 (lastAvailIdx q + Z.of_nat d)) (u16 (usedIdx q + Z.of_nat d)) ∧
    interruptStatus s' = (if (d =? 0)%nat || silenced q header then interruptStatus s else Z.lor (interruptStatus s) intVring).
Proof.
  intros q ps d Hre Hrdy Hdiv Hur Hle Hring Hout Hclr Hhdr Hav Hpk Hroom. pose proof Hre as [Hs Hq Hw Hc [Hhl Hh]].
  assert (0 < size q) as Hpos by apply Hur. pose proof (so_ok _ _ Hs) as Hok.
  destruct (sound_queue netQueueRX s m Hs) as [(Hsz & _ & _ & _ & Hl & Hu) _].
  unfold processRXLocked, gets, mbind, M_bind. cbv [id]. fold ps.
  change (ready (get_queue netQueueRX s)) with (ready q). change (size (get_queue netQueueRX s)) with (size q).
  rewrite Hrdy, (so_mem _ _ Hs). destruct (Z.eqb_spec (size q) 0) as [|_]; [lia|]. cbn [negb non_nil orb].
  destruct (Z.eqb_spec (len ps) 0) as [Hz|Hnz].
  { assert (ps = []) as Hps by by destruct ps. exists s, m. assert (d = 0%nat) as Hd by (unfold d; rewrite Hps; cbn; lia).
    split_and!; [done|done| |by split_and!|by rewrite Hd, drop_0| |by rewrite Hd].
    - rewrite Hps. intros k h b p _. cbn. by rewrite lookup_nil.
    - rewrite Hd, !Z.add_0_r, !u16_small by done. symmetry. apply at_index_self. }
  destruct (header_spec netQueueRX s m Hs Hq Hw) as (s1 & E1 & Hsame & Hs1 & Hcan).
  change (availAddr (get_queue netQueueRX s)) with (availAddr q) in E1. rewrite Hhdr in E1. cbn [mbind result_bind] in E1. rewrite E1, Hav.
  change (pending (get_queue netQueueRX s)) with (pending q). assert (is_u16 (size q)) as Hszq by exact Hsz.
  rewrite pending_more by (unfold is_u in Hszq; lia).
  pose proof (receiver_same hl s s1 m Hre Hsame Hs1 (Hcan Hc)) as Hre1.
  pose proof (same_queue netQueueRX s s1 Hsame) as Eq1. fold q in Eq1.
  assert (pendingRx (dev s1) = ps) as Eps by (destruct Hsame as [_ E]; by apply (f_equal pendingRx) in E).
  pose proof (net_turns_spec hl slots s1 m) as Hts. rewrite <-Eq1, Eps in Hts.
  destruct (Hts Hre1 Hdiv Hur Hle Hring Hpk Hroom) as (s2 & m2 & E2 & Hre2 & Hv & Htd & Hst). rewrite E2. clear Hts. fold d in Hv |- *.
  assert (clearCache (get_queue netQueueRX s2) = at_index q (u16 (lastAvailIdx q + Z.of_nat d)) (u16 (usedIdx q + Z.of_nat d))) as Eq2.
  { rewrite <-(bare_queue (pendingRx (dev s2))). change (bare _ s2) with (view s2). rewrite Hv. unfold consumed.
    rewrite get_set_queue; [done|]. unfold view, bare. cbn. rewrite length_fmap. apply Hre1. }
  assert (interruptStatus s2 = interruptStatus s) as Ei.
  { apply (f_equal interruptStatus) in Hv. destruct Hsame as [Hb _]. apply (f_equal interruptStatus) in Hb. cbn in Hv, Hb. congruence. }
  assert (pendingRx (dev s2) = drop d ps) as Hpend by by apply (f_equal dev) in Hv.
  destruct (Z.ltb_spec 0 (Z.of_nat d)) as [Hd|Hd]; swap 1 2.
  { exists s2, m2. split_and!; [done..|]. destruct d; [done|lia]. }
  assert (availAddr (get_queue netQueueRX s2) = availAddr q) as Ea by by apply (f_equal availAddr) in Eq2.
  assert (mapped m (availAddr q) 4) as Hmap by (eapply mapped_prefix; [apply Hw|]; destruct Hw as [? _]; lia).
  destruct (interrupt_spec netQueueRX s2 m2 header) as (s3 & E3 & Em & Ed & Eqs & Ef & Es); rewrite ?Ea.
  { apply Hre2. }
  { apply Hre2. }
  { by apply Htd. }
  { destruct Htd as (_ & _ & Hr). by rewrite Hr. }
  exists s3, m2. split_and!; [done| |done|done|by rewrite Ed| |].
  - destruct Hre2 as [[? ? ? ? ?] ? ? ? [Hh2 ?]]. split; [by split; rewrite ?Em, ?Eqs, ?Ed|by rewrite Eqs|unfold get_queue; by rewrite Eqs..|].
    split; [|done]. unfold netHeaderLenLocked in *. by rewrite Ef, Ed.
  - rewrite <-Eq2. unfold get_queue. by rewrite Eqs.
  - rewrite Es, Ei. unfold silenced. rewrite Ea. destruct d; [lia|done].
Qed.

(** * A sample *)

#[local] Existing Instance log_net.

Definition rx_net_memory : option VM := net_memory descFWrite (replicate 32 0).
Definition rx_net : sample_net :=
  let s := net_dev rx_net_memory [net_queue; queue0] in s <| dev := (dev s) <| pendingRx := [[7; 8; 9]] |> |>.
Definition rx_net_buffers : list queueBuffer := [mkBuffer 96 16 true].
Lemma rx_net_memory_ok : mem_ok rx_net_memory.
Proof. split_and!; [done|done|done|]. apply (bool_decide_unpack _). vm_compute. done. Qed.
Lemma rx_net_posted : posted rx_net_memory net_queue 0 0 rx_net_buffers.
Proof.
  split; [done|split; [right; vm_compute; intuition congruence|left; done]|eexists; split; [vm_compute; reflexivity|done]| |
          per_buffer; done| | | |].
  - apply (chain_last _ _ _ (mkDescriptor 96 16 2 0)); vm_compute; reflexivity.
  - per_buffer; intros _; right; cbn; lia.
  - split; [intros _; apply Forall_nil_2|done].
  - per_buffer; intros _; right; cbn; lia.
  - split_and!; [done|done|]. intros i Hi. cbn in Hi. split; [right; cbn; lia|]. per_buffer; intros _; cbn; lia.
Qed.

Lemma net_receives_witness :
  ∃ s' m', processRXLocked rx_net = (s', Ok tt) ∧ receiver 10 s' m' ∧
    gather m' rx_net_buffers 13 = Ok (replicate 10 0 ++ [7; 8; 9]) ∧ used_element m' net_queue 0 = Ok (0, 13) ∧
    pendingRx (dev s') = [] ∧ interruptStatus s' = 1.
Proof.
  destruct (net_receives rx_net rx_net_memory 10 [(0, rx_net_buffers)] [0; 0; 1; 0])
    as (s' & m' & E & Hre & Hst & _ & Hp & _ & Hi).
  - split; [split; [done|apply rx_net_memory_ok|by per_buffer; split_and!|by per_buffer; split_and!; intros v|done]|unfold netQueueRX; cbn; lia|apply net_whole|split_and!; [done..|by left]|by split; [|lia]].
  - done.
  - by exists 32768.
  - apply net_used_ring.
  - cbn. lia.
  - split.
    + apply net_table_kept.
    + intros [|[|k]] head bs; [|done..]. intros [= <- <-]. apply rx_net_posted.
    + intros [|[|k]] [|[|k']] head bs head' bs'; try done. intros [= <- <-] [= <- <-]. split; [|done].
      per_buffer; intros _; left; done.
  - left. done.
  - per_buffer. intros _. left. done.
  - vm_compute. reflexivity.
  - vm_compute. reflexivity.
  - per_buffer. split; [|done]. repeat constructor; lia.
  - intros [|[|k]] head bs packet; try done. intros [= <- <-] [= <-]. cbn. lia.
  - destruct (Hst 0%nat 0 rx_net_buffers (net_frame 10 [7; 8; 9]) eq_refl eq_refl) as [Hg Hu]. exists s', m'. by split_and!.
Defined.

(** A table at address zero is not sliced: the descriptor is read into the array
    that holds the header, and the guest finds the descriptor's bytes in front
    of its packet. *)
Lemma net_header_overwritten :
  let m := Some (mkVM 0 128 (le_bytes 8 96 ++ le_bytes 4 16 ++ le_bytes 2 descFWrite ++ replicate 34 0 ++
    le_bytes 2 0 ++ le_bytes 2 1 ++ replicate 76 0)) in
  let s := net_dev m [net_queue <| descAddr := 0 |>; queue0] in
  let s := s <| dev := (dev s) <| pendingRx := [[7; 8; 9]] |> |> in
  (processRXLocked s).2 = Ok tt ∧
  (m' ← from_option Ok Panic (mem (processRXLocked s).1); gather m' [mkBuffer 96 16 true] 13) = Ok (le_bytes 8 96 ++ [16; 0] ++ [7; 8; 9]).
Proof. split; vm_compute; reflexivity. Qed.
