(* ===== verification/NetRuns.v ===== *)
(** Every run of the virtio network device.

    Whatever the guest writes to the registers, to its memory and to its rings,
    and whatever the host enqueues: the slices that the device keeps stay the
    memory at the addresses of the rings, scratch arrays and packets are bytes,
    at most one goroutine transmits, and a notification that comes while it is
    at work makes it look at the ring again. *)
From S2P Require Import Prelude Packet KvmArm64 GuestMemory GuestViews VirtQueue VirtMmio RxRing VirtioNet NetQueues.

(** A backend changes the device only by enqueueing frames for the guest, and
    keeps an invariant of its own. *)
Class NetBackendOk (T I B : Type) `{GuestMemory T, GuestViews T, IRQController I, NetBackend T I B} := {
  backend_ok : option B → Prop;
  handle_ok (P : Net (T := T) (I := I) (B := B) → Prop) packet :
    is_bytes packet → (∀ s, P s → backend_ok (backend (dev s))) →
    (∀ frame, is_bytes frame → preserves P (enqueueRxPacket frame)) →
    (∀ b, backend_ok b → preserves P (set_dev (λ d, d <| backend := b |>))) → preserves P (HandleTxPacket packet);
}.
#[global] Hint Mode NetBackendOk ! ! ! - - - - : typeclass_instances.

Section invariant.
Context {T I B : Type} `{GuestViewsOk T, !IRQController I, !NetBackend T I B, !NetBackendOk T I B}.
Abbreviation Net := (VirtioNet.Net (T := T) (I := I) (B := B)).
Implicit Types (s : Net) (m : T) (q : queue).

(** * The invariant *)

(** The slices of a queue, when there is a memory. *)
Definition caches_ok (m : option T) q : Prop :=
  match m with Some m => cache_ok m q | None => clearCache q = q end.
(** What holds of the transmit goroutine: a property of the two flags and of
    where the goroutines are. *)
Context (R : bool → bool → list tx_place → Prop).
Record fields_ok (d : net_fields B) : Prop := {
  fo_scratch : scratch_ok d;
  fo_bytes : is_bytes (scratch16 d);
  fo_pending : Forall is_bytes (pendingRx d);
  fo_runner : R (asyncTXRunning d) (asyncTXAgain d) (runners d);
  fo_backend : backend_ok (backend d);
}.
Record net_ok s : Prop := {
  no_memory m : mem s = Some m → mem_ok m;
  no_length : length (queues s) = 2%nat;
  no_queues : Forall queue_ok (queues s);
  no_caches : Forall (caches_ok (mem s)) (queues s);
  no_fields : fields_ok (dev s);
}.
Lemma net_sound_at s m : net_ok s → mem s = Some m → sound s m.
Proof. intros [Hm _ Hq Hc Hf] E. rewrite E in *. split; [done|by apply Hm|done|done|apply Hf]. Qed.

(** * Memory and rings *)

Lemma net_ok_frame s s' : mem s' = mem s → queues s' = queues s → dev s' = dev s → net_ok s → net_ok s'.
Proof. intros E1 E2 E3 [? ? ? ? ?]. split; by rewrite ?E1, ?E2, ?E3. Qed.
Lemma ok_set_dev (f : net_fields B → net_fields B) : (∀ d, fields_ok d → fields_ok (f d)) → preserves net_ok (set_dev f).
Proof. intros Hf s [? ? ? ? ?]. split; try done. by apply Hf. Qed.
Lemma ok_set_queue i f s :
  (∀ q, queue_ok q → queue_ok (f q)) → (∀ q, caches_ok (mem s) q → caches_ok (mem s) (f q)) → net_ok s → net_ok (set_queue i f s).
Proof.
  intros Hq Hc [? ? ? ? ?]. unfold set_queue. split; try done; cbn; [by rewrite length_alter|by apply Forall_alter; auto..].
Qed.
(** An assignment to a field of a queue that is neither a slice nor the address
    of a ring. *)
Lemma caches_update f (m : option T) q :
  (∀ q, clearCache (f q) = f (clearCache q)) → (∀ m q, cache_ok m q → cache_ok m (f q)) → caches_ok m q → caches_ok m (f q).
Proof. intros Hf Hc. destruct m as [m|]; cbn; [apply Hc|]. intros E. by rewrite Hf, E. Qed.
Lemma ok_write_mem a bs : is_bytes bs → preserves net_ok (write_mem (λ m, WriteIPA m a bs)).
Proof.
  intros Hb s Hs. unfold write_mem. destruct (mem s) as [m|] eqn:Em; [|done]. pose proof (no_memory s Hs m Em) as Hm.
  pose proof (kept_write m a bs Hm Hb) as Hk. destruct (WriteIPA m a bs) as [m' r]. cbn [fst] in *.
  destruct Hs as [? ? ? Hc ?]. rewrite Em in Hc. split; try done; [by intros ? [= <-]; apply Hk|].
  eapply Forall_impl; [exact Hc|]. intros q. by apply kept_cache.
Qed.
Lemma ok_readInto (p : net_fields B → list Z) `{!Setter p} a :
  (∀ d bs, fields_ok d → length bs = length (p d) → is_bytes bs → fields_ok (update p (λ _, bs) d)) →
  (∀ d, fields_ok d → len (p d) < 2^63) →
  yields net_ok is_bytes (readIPAInto p a).
Proof.
  intros Hp Hl. apply yields_get. intros s Hs. unfold mbind, M_bind, read_mem, set_dev, modify. destruct (mem s) as [m|] eqn:Em; [|done].
  pose proof (no_memory s Hs m Em) as Hm. pose proof (Hl _ (no_fields s Hs)) as Hls. rewrite (into_read m a _ (len (p (dev s)))) by done.
  destruct (ReadIPA m a (len (p (dev s)))) as [bs| |] eqn:E; [|done..]. pose proof (read_bytes m _ _ _ Hm E) as Hb.
  split; [|by intros ? [= <-]]. destruct Hs as [? ? ? ? ?]. split; try done. apply Hp; [done| |done].
  pose proof (read_length m a (len (p (dev s))) bs Hm ltac:(lia) E). lia.
Qed.

Lemma ok_recache i a b c s m : net_ok s → mem s = Some m → sound (recache i a b c s) m → net_ok (recache i a b c s).
Proof.
  intros [Hm Hl Hq Hc Hf] E Hs. split; [done|unfold recache, set_queue; cbn; by rewrite length_alter|apply Hs| |done].
  change (mem (recache i a b c s)) with (mem s). rewrite E. apply Hs.
Qed.
Lemma ok_ensure i : preserves net_ok (ensureQueueCacheLocked i).
Proof.
  intros s Hs. unfold ensureQueueCacheLocked, gets, mbind, M_bind, slice, read_mem, modify_queue, modify. cbv [id].
  destruct (_ || _ || _ || _) eqn:Hz; [done|]. destruct (non_nil _ && _ && _); [done|]. destruct (mem s) as [m|] eqn:Em; [|done].
  cbn [non_nil andb]. destruct (negb slicer); [done|]. pose proof (net_sound_at s m Hs Em) as Hso. pose proof (no_memory s Hs m Em) as Hm.
  destruct (sound_queue i s m Hso) as [(Hq1 & Hq2 & Hq3 & Hq4 & _) _]. rewrite !orb_false_iff, !Z.eqb_neq in Hz. unfold is_u in Hq1.
  set (q := get_queue i s) in *. rewrite Em.
  destruct (SliceIPA m (descAddr q) (size q * 16)) as [w1| |] eqn:E1; [|done..]. rewrite Em.
  destruct (SliceIPA m (availAddr q) (4 + size q * 2 + 2)) as [w2| |] eqn:E2; [|done..]. rewrite Em.
  destruct (SliceIPA m (usedAddr q) (4 + size q * 8 + 2)) as [w3| |] eqn:E3; [|done..].
  apply slice_view in E1, E2, E3; try done; try lia. apply (ok_recache i (Some w1) (Some w2) (Some w3) s m); [done|done|].
  apply recache_sound; [done|..]; intros v [= <-]; (eexists; split; [|done]); lia.
Qed.

Lemma fields_scratch2 d bs : fields_ok d → length bs = length (scratch2 d) → fields_ok (d <| scratch2 := bs |>).
Proof. intros [(? & ? & ?) ? ? ? ?] Hl. split; try done. split_and!; [cbn; congruence|done|done]. Qed.
Lemma fields_scratch4 d bs : fields_ok d → length bs = length (scratch4 d) → fields_ok (d <| scratch4 := bs |>).
Proof. intros [(? & ? & ?) ? ? ? ?] Hl. split; try done. split_and!; [done|cbn; congruence|done]. Qed.
Lemma fields_scratch16 d bs : fields_ok d → length bs = length (scratch16 d) → is_bytes bs → fields_ok (d <| scratch16 := bs |>).
Proof. intros [(? & ? & ?) ? ? ? ?] Hl Hb. split; try done. split_and!; [done|done|cbn; congruence]. Qed.
Lemma scratch_small d : fields_ok d → len (scratch2 d) < 2^63 ∧ len (scratch4 d) < 2^63 ∧ len (scratch16 d) < 2^63.
Proof. intros [(? & ? & ?) _ _ _ _]. lia. Qed.

Lemma ok_header i : preserves net_ok (readAvailHeaderLocked i).
Proof.
  apply preserves_bind; [apply ok_ensure|]. intros _. apply preserves_bind; [apply preserves_gets|]. intros s.
  apply preserves_if; [apply preserves_ret|]. apply preserves_bind; [|intros bs; apply preserves_ret].
  eapply yields_weaken, ok_readInto; [intros; by apply fields_scratch4|intros; by apply scratch_small].
Qed.
Lemma ok_entry i slot : preserves net_ok (readAvailRingEntryLocked i slot).
Proof.
  apply preserves_bind; [apply preserves_gets|]. intros s. apply preserves_if; [apply preserves_ret|].
  apply preserves_bind; [|intros bs; apply preserves_ret].
  eapply yields_weaken, ok_readInto; [intros; by apply fields_scratch2|intros; by apply scratch_small].
Qed.
Lemma ok_descriptor i index : preserves net_ok (readDescriptorLocked i index).
Proof.
  apply preserves_bind; [apply preserves_gets|]. intros q. apply preserves_if; [apply preserves_fail|].
  apply preserves_bind; [apply ok_ensure|]. intros _. apply preserves_bind; [apply preserves_gets|]. intros s.
  apply preserves_if; [apply preserves_ret|]. apply preserves_bind; [|intros bs; apply preserves_ret].
  eapply yields_weaken, ok_readInto; [intros; by apply fields_scratch16|intros; by apply scratch_small].
Qed.

(** A store through the slice [w] of the ring at [a], or into memory. *)
Lemma ok_store w a off raw f s :
  (∀ m, mem s = Some m → view_at m w a) → 0 ≤ off → 0 < len raw → is_bytes raw → (∀ d, fields_ok d → fields_ok (f d)) → net_ok s →
  net_ok ((if len (cached s w) >=? off + len raw then store_cached w off raw
           else set_dev f ;;; write_mem (λ m, WriteIPA m (u64 (a + off)) raw)) s).1.
Proof.
  intros Hw Ho Hr Hb Hf Hs. destruct (Z.geb_spec (len (cached s w)) (off + len raw)) as [Hl|_].
  - unfold store_cached, modify, cached in *. destruct w as [w|]; [|done]. destruct (mem s) as [m|] eqn:Em; [|done]. cbn [fst].
    pose proof (no_memory s Hs m Em) as Hm. destruct (Hw m eq_refl w eq_refl) as (n & Hn & Hv). rewrite (view_len m w a n) in Hl by done.
    rewrite (view_update m w a n) by done. pose proof (ok_write_mem (a + off) raw Hb s Hs) as Hk. unfold write_mem in Hk. rewrite Em in Hk.
    by destruct (WriteIPA m (a + off) raw).
  - eapply preserves_bind; [by apply ok_set_dev|intros _; by apply ok_write_mem|done].
Qed.
Lemma net_view i s m : net_ok s → mem s = Some m → view_at m (usedMem (get_queue i s)) (usedAddr (get_queue i s)).
Proof. intros Hs Em. by destruct (sound_queue i s m (net_sound_at s m Hs Em)) as [_ (_ & _ & ?)]. Qed.
Lemma ok_get_queue i : yields net_ok queue_ok (gets (get_queue i)).
Proof.
  intros s Hs. split; [done|]. intros q [= <-]. unfold get_queue. rewrite nth_lookup. destruct (queues s !! i) as [q|] eqn:E; [|apply queue0_ok].
  exact (proj1 (Forall_lookup _ _) (no_queues s Hs) i q E).
Qed.
Lemma ok_used i head usedLen : preserves net_ok (VirtioNet.writeUsedLocked i head usedLen).
Proof.
  eapply yields_preserves, yields_bind; [apply ok_get_queue|]. intros q (Hq & _). apply yields_preserves.
  destruct (Z.eqb_spec (size q) 0) as [|Hz]; [apply preserves_panic|].
  apply preserves_bind; [apply ok_ensure|]. intros _. apply yields_preserves, yields_get. intros s Hs. split; [|done].
  set (raw := le_bytes 4 (u32 head) ++ le_bytes 4 usedLen).
  pose proof (Z.mod_pos_bound (usedIdx q) (size q)) as Hslot. unfold is_u in Hq.
  apply preserves_at; [|intros _; apply preserves_bind; [|intros _]].
  - apply (ok_store _ (usedAddr (get_queue i s)) (4 + usedIdx q mod size q * 8) raw (λ d, d <| scratch8 := raw |>)); [by intros; apply net_view|lia|done|unfold raw; auto with go|by intros d []|done].
  - intros s1 Hs1. apply ok_set_queue; [|intros q1; by apply caches_update|done]. intros q1 (? & ? & ? & ? & ? & ?). split_and!; [done..|apply is_u16_u16].
  - apply yields_preserves, yields_get. intros s1 Hs1. split; [|done].
    apply (ok_store _ (usedAddr (get_queue i s1)) 2 (le_bytes 2 (usedIdx (get_queue i s1))) (λ d, d <| scratch2 := le_bytes 2 (usedIdx (get_queue i s1)) |>));
      [by intros; apply net_view|lia|done|auto with go| |done]. intros d Hd. apply fields_scratch2; [done|]. destruct Hd as [(-> & _) _ _ _ _]. done.
Qed.

(** * Both queues *)

Lemma ok_get : yields net_ok net_ok (gets id).
Proof. intros s Hs. split; [done|]. by intros ? [= <-]. Qed.
Lemma into_bytes m a dst bs : mem_ok m → is_bytes dst → readGuestMemoryInto m a dst = Ok bs → is_bytes bs.
Proof.
  intros Hm Hd. unfold readGuestMemoryInto. destruct reader_into; [rewrite read_into; by apply read_bytes|].
  destruct (ReadIPA m a (len dst)) as [buf| |] eqn:E; [|done..]. intros [= <-].
  apply is_bytes_overwrite; [done|]. by eapply is_bytes_take, read_bytes.
Qed.
Lemma ok_chain n i index writable out : is_bytes out → yields net_ok is_bytes (net_chain_turns n i index writable out).
Proof.
  revert index out. induction n as [|n IH]; intros index out Ho; cbn [net_chain_turns]; [apply yields_fail|].
  eapply yields_bind; [apply yields_preserves, ok_descriptor|]. intros desc _.
  apply (yields_bind _ is_bytes).
  - destruct (_ && _); [|by apply yields_ret]. apply (yields_bind _ is_bytes); [|intros bs Hb; apply yields_ret; auto with go].
    intros s Hs. unfold read_mem. destruct (mem s) as [m|] eqn:Em; [|done]. split; [done|]. cbn [snd]. intros bs.
    apply into_bytes; [by apply (no_memory s)|]. by apply Forall_replicate.
  - intros out' Ho'. destruct (negb _); [by apply yields_ret|by apply IH].
Qed.

Lemma fix_bytes frame hl frame' : is_bytes frame → fixTXChecksum frame hl = Ok frame' → is_bytes frame'.
Proof.
  intros Hb. unfold fixTXChecksum. destruct (_ <? _); [by intros [= <-]|]. destruct frame as [|f frame]; [done|].
  destruct (negb _); [by intros [= <-]|]. destruct (_ || _); [done|]. destruct (_ || _); [done|]. intros [= <-].
  apply is_bytes_app; [auto with go|]. apply is_bytes_overwrite; auto with go.
Qed.
Lemma collect_bytes d hl packets data packets' :
  Forall is_bytes packets → is_bytes data → collect d hl packets data = Ok packets' → Forall is_bytes packets'.
Proof.
  intros Hp Hd. unfold collect. destruct (_ >=? _); [|by intros [= <-]].
  destruct (if completes _ _ then _ else _) as [data'| |] eqn:E; cbn [mbind result_bind]; [|done..].
  assert (is_bytes data') as Hd' by (destruct (completes _ _); [by eapply fix_bytes|by injection E as <-]).
  destruct (non_nil _); [|by intros [= <-]]. destruct (_ =? _); [done|]. intros [= <-].
  apply Forall_app. split; [done|]. apply Forall_singleton. auto with go.
Qed.
Lemma ok_advance i : preserves net_ok (modify_queue i next_entry).
Proof.
  intros s Hs. apply ok_set_queue; [|intros q; by apply caches_update|done].
  intros q (? & ? & ? & ? & ? & ?). split_and!; [done..|apply is_u16_u16|done].
Qed.
Lemma ok_tx_turns n hl packets : Forall is_bytes packets → yields net_ok (Forall is_bytes) (tx_turns n hl packets).
Proof.
  revert packets. induction n as [|n IH]; intros packets Hp; cbn [tx_turns]; [by apply yields_ret|].
  eapply yields_bind; [apply ok_get_queue|]. intros q _. destruct (size q =? 0); [apply yields_panic|].
  eapply yields_bind; [apply yields_preserves, ok_entry|]. intros head _.
  apply (yields_bind _ (Forall is_bytes)).
  - eapply yields_bind; [eapply yields_bind; [apply ok_get_queue|intros; apply ok_chain, Forall_nil_2]|]. intros data Hd.
    eapply yields_bind; [apply ok_get|]. intros s _. apply (yields_bind _ (Forall is_bytes)).
    + intros s1 Hs1. split; [done|]. cbn. intros packets'. by apply collect_bytes.
    + intros packets' Hp'. eapply yields_bind; [|intros _ _; by apply yields_ret]. apply yields_preserves, preserves_if; [apply ok_used|apply preserves_ret].
  - intros packets' Hp'. eapply yields_bind; [apply yields_preserves, ok_advance|]. intros _ _. by apply IH.
Qed.
Lemma ok_raise bit : preserves net_ok (raise (T := T) (I := I) bit).
Proof.
  intros s Hs. unfold raise, modify, mbind, M_bind, updateIRQLocked. cbn. destruct (irq s) as [c|]; [|by eapply net_ok_frame; [..|exact Hs]].
  destruct (Bool.eqb _ _); [by eapply net_ok_frame; [..|exact Hs]|]. destruct (SetIRQ _ _ _) as [c' r]. by eapply net_ok_frame; [..|exact Hs].
Qed.
Lemma ok_interrupt i : preserves net_ok (interrupt i).
Proof.
  apply preserves_bind; [apply preserves_gets|]. intros q. apply preserves_bind.
  - intros s Hs. unfold queueInterruptSuppressedLocked. destruct (mem s); [|done]. destruct (_ =? _); [done|]. by destruct (ReadIPA _ _ _).
  - intros b. apply preserves_if; [apply preserves_ret|apply ok_raise].
Qed.
Lemma ok_processTX : yields net_ok (Forall is_bytes) processTXLocked.
Proof.
  eapply yields_bind; [apply ok_get|]. intros s _. cbv zeta. destruct (_ || _); [apply yields_ret, Forall_nil_2|].
  eapply yields_bind; [apply yields_preserves, ok_header|]. intros [_ availIdx] _.
  eapply yields_bind; [apply ok_tx_turns, Forall_nil_2|]. intros packets Hp. eapply yields_bind; [|intros _ _; by apply yields_ret].
  apply yields_preserves, preserves_if; [apply ok_interrupt|apply preserves_ret].
Qed.

Lemma ok_chunk a n hdr packet off : is_bytes hdr → is_bytes packet → preserves net_ok (writeRXChunk a n hdr packet off).
Proof.
  intros Hh Hp. unfold writeRXChunk. apply preserves_bind.
  - apply preserves_if; [apply ok_write_mem; auto with go|apply preserves_ret].
  - intros _. cbv zeta. repeat (apply preserves_if; [|apply preserves_ret]). apply preserves_bind; [apply ok_write_mem; auto with go|].
    intros _. apply preserves_ret.
Qed.
Lemma ok_fill n i index hl off packet : is_bytes packet → preserves net_ok (rx_fill_turns n i index hl off packet).
Proof.
  intros Hp. revert index off. induction n as [|n IH]; intros index off; cbn [rx_fill_turns]; [apply preserves_fail|].
  apply preserves_bind; [apply ok_descriptor|]. intros desc. eapply yields_preserves, yields_bind; [apply ok_get|]. intros s Hs.
  apply yields_preserves, preserves_bind.
  - repeat (apply preserves_if; [|first [apply preserves_ret|idtac]]); [apply preserves_panic|].
    apply preserves_bind; [|intros w; apply preserves_ret]. apply ok_chunk; [|done]. apply is_bytes_take, Hs.
  - intros off'. apply preserves_if; [apply preserves_if; [apply preserves_fail|apply preserves_ret]|apply IH].
Qed.
Lemma fields_header hl d : fields_ok d → fields_ok (d <| scratch16 := rx_header hl (scratch16 d) |>).
Proof.
  intros Hd. apply fields_scratch16; [done|unfold rx_header; by rewrite length_overwrite|].
  apply is_bytes_overwrite; [apply Hd|]. apply is_bytes_app; [by apply Forall_replicate|auto with go].
Qed.
Lemma ok_rx_store packet : is_bytes packet → preserves net_ok (rx_store packet).
Proof.
  intros Hp. apply preserves_bind; [apply preserves_gets|]. intros q. apply preserves_if; [apply preserves_panic|].
  apply preserves_bind; [apply ok_entry|]. intros head. apply preserves_bind; [|intros w; apply ok_used].
  apply preserves_bind; [apply preserves_gets|]. intros s. apply preserves_bind; [|intros _; by apply ok_fill].
  apply ok_set_dev. intros d. apply fields_header.
Qed.
Lemma fields_pending ps d : Forall is_bytes ps → fields_ok d → fields_ok (d <| pendingRx := ps |>).
Proof. intros Hp [? ? ? ? ?]. by split. Qed.
Lemma ok_rx_turns n b : preserves net_ok (rx_turns n b).
Proof.
  revert b. induction n as [|n IH]; intros b; [apply preserves_ret|]. unfold rx_turns. cbn [RxRing.rx_turns].
  eapply yields_preserves, yields_bind; [apply ok_get|]. intros s Hs. apply yields_preserves.
  destruct (pendingRx (dev s)) as [|packet rest] eqn:E; [apply preserves_ret|].
  assert (is_bytes packet) as Hp by (pose proof (fo_pending _ (no_fields s Hs)) as Hf; rewrite E in Hf; by apply Forall_cons in Hf as [? _]).
  apply preserves_bind; [|intros _; apply IH]. apply preserves_bind; [by apply ok_rx_store|]. intros _.
  apply preserves_bind; [|intros _; apply ok_advance]. apply ok_set_dev. intros d Hd. apply fields_pending; [|done].
  destruct Hd as [_ _ Hd _ _]. by destruct Hd.
Qed.
Lemma ok_processRX : preserves net_ok processRXLocked.
Proof.
  apply preserves_bind; [apply preserves_gets|]. intros s. apply preserves_if; [apply preserves_ret|].
  apply preserves_bind; [apply ok_header|]. intros [_ availIdx]. apply preserves_bind; [apply ok_rx_turns|].
  intros processed. apply preserves_if; [apply ok_interrupt|apply preserves_ret].
Qed.
Lemma ok_enqueue packet : is_bytes packet → preserves net_ok (enqueueRxPacket packet).
Proof.
  intros Hp. apply preserves_bind; [apply preserves_gets|]. intros s. apply preserves_if; [apply preserves_ret|].
  apply preserves_bind.
  - apply preserves_if; [|apply preserves_ret]. apply preserves_bind; [apply preserves_gets|]. intros s1.
    apply preserves_if; [apply preserves_ret|]. apply preserves_bind; [apply ok_header|]. intros [_ availIdx].
    apply preserves_if; [apply preserves_ret|]. apply preserves_bind; [by apply ok_rx_store|]. intros _.
    apply preserves_bind; [apply ok_advance|]. intros _. apply preserves_bind; [apply ok_interrupt|]. intros _. apply preserves_ret.
  - intros delivered. apply preserves_if; [apply preserves_ret|]. apply preserves_bind; [|intros _; apply ok_processRX].
    apply ok_set_dev. intros d Hd. apply fields_pending; [|done]. apply Forall_app. split; [apply Hd|by apply Forall_singleton].
Qed.

(** * Registers *)

(** What the goroutine is told by a notification. *)
Context (R_schedule : ∀ running again places, R running again places →
  if running then R true true places else R true again (places ++ [Starting])).

Lemma ok_deliver packet : is_bytes packet → preserves net_ok (deliver_packet packet).
Proof.
  intros Hp. apply preserves_bind; [apply preserves_gets|]. intros s.
  apply preserves_if; [|apply preserves_ret]. apply handle_ok; [done|by intros s1 [_ _ _ _ []]|intros; by apply ok_enqueue|].
  intros b Hb. apply ok_set_dev. by intros d [? ? ? ? ?].
Qed.
Lemma ok_schedule : preserves net_ok (set_dev scheduleAsyncTXLocked).
Proof.
  apply ok_set_dev. intros d [? ? ? Hr ?]. unfold scheduleAsyncTXLocked. apply R_schedule in Hr. destruct (asyncTXRunning d) eqn:E; split; try done.
  cbn. by rewrite E.
Qed.
Lemma yields_none {A} (act : M Net A) : preserves net_ok act → yields net_ok (Forall is_bytes) (act ;;; mret []).
Proof. intros Ha. eapply yields_bind; [by apply yields_preserves|]. intros _ _. apply yields_ret, Forall_nil_2. Qed.
Lemma ok_notify value : yields net_ok (Forall is_bytes) (notify_locked value).
Proof.
  eapply yields_bind; [apply ok_get|]. intros s _. destruct (_ =? _); [|destruct (_ =? _)].
  - destruct (AsyncTX (dev s)); [apply yields_none, ok_schedule|apply ok_processTX].
  - apply yields_none, ok_processRX.
  - apply yields_ret, Forall_nil_2.
Qed.
Lemma caches_clear (m : option T) q : caches_ok m (clearCache q).
Proof. destruct m as [m|]; [|done]. by split_and!; intros v. Qed.
Lemma ok_on_selected f :
  (∀ q, queue_ok q → queue_ok (f q)) → (∀ (m : option T) q, caches_ok m q → caches_ok m (f q)) → preserves net_ok (on_selected f).
Proof.
  intros Hq Hc s Hs. unfold on_selected. destruct (selectedQueueLocked s) as [i|]; [|done]. by apply ok_set_queue; auto.
Qed.
Lemma ok_legacy_queue pfn q : queue_ok q → queue_ok (configureLegacyQueue pfn q).
Proof.
  intros (? & ? & ? & ? & ? & ?). unfold configureLegacyQueue. cbn -[alignVirtio]. destruct (size q =? 0); cbn -[alignVirtio].
  all: split_and!; cbn -[alignVirtio]; first [done|apply alignVirtio_ok, is_u64_u64|auto with go].
Qed.
Lemma clear_clear q : descMem q = None → availMem q = None → usedMem q = None → clearCache q = q.
Proof. destruct q. cbn. by intros -> -> ->. Qed.
Lemma legacy_clear pfn q : clearCache (configureLegacyQueue pfn q) = configureLegacyQueue pfn q.
Proof. unfold configureLegacyQueue. cbv zeta. apply clear_clear; cbn -[alignVirtio]; by destruct (_ =? _). Qed.
Lemma ok_pfn value : preserves net_ok (write_pfn value).
Proof.
  apply preserves_bind; [apply preserves_gets|]. intros s. destruct (selectedQueueLocked s) as [i|]; [|apply preserves_ret].
  apply preserves_if.
  - intros s1 Hs1. apply ok_set_queue; [|intros q _; apply caches_clear|done]. intros q (? & ? & ? & ? & ? & ?). by split_and!.
  - apply preserves_bind; [|intros _; apply preserves_if; [apply ok_processRX|apply preserves_ret]].
    intros s1 Hs1. apply ok_set_queue; [by intros; apply ok_legacy_queue| |done]. intros q _. rewrite <-legacy_clear. apply caches_clear.
Qed.
Lemma ok_update_irq : preserves net_ok (updateIRQLocked (T := T) (I := I)).
Proof.
  intros s Hs. unfold updateIRQLocked. destruct (irq s) as [c|]; [|done].
  destruct (Bool.eqb _ _); [done|]. destruct (SetIRQ _ _ _) as [c' r]. by eapply net_ok_frame; [..|exact Hs].
Qed.
Lemma ok_modify f :
  (∀ s, mem (f s) = mem s ∧ queues (f s) = queues s ∧ dev (f s) = dev s) → preserves net_ok (modify f).
Proof. intros Hf s Hs. destruct (Hf s) as (? & ? & ?). by eapply net_ok_frame. Qed.
Lemma ok_reset s : net_ok s → net_ok (resetLocked s).
Proof.
  intros [? Hl ? ? [? ? ? ? ?]]. split; [done|unfold resetLocked; cbn; by rewrite length_replicate| | |by split].
  - apply Forall_replicate, queue0_ok.
  - apply Forall_replicate, (caches_clear (mem s) queue0).
Qed.
Lemma ok_unless_failed {A} (Q : A → Prop) (act : M Net A) : yields net_ok Q act → yields net_ok Q (unless_failed act).
Proof.
  intros Hm. eapply yields_bind; [apply ok_get|]. intros s _. destruct (asyncTXErr (dev s)); [|done].
  eapply yields_bind; [apply yields_preserves, ok_set_dev; by intros d [? ? ? ? ?]|]. intros _ _. apply yields_fail.
Qed.
Lemma ok_set_addr (a : queue → Z) `{!Setter a} value low :
  (∀ q, queue_ok q → queue_ok (update a (λ t, set_half t (u32 value) low) q)) → preserves net_ok (set_addr a value low).
Proof. intros Ha. apply ok_on_selected; [exact Ha|]. intros m q _. apply caches_clear. Qed.
Lemma ok_register offset value : preserves net_ok (write_register offset value).
Proof.
  apply preserves_bind; [apply preserves_gets|]. intros s. cbv zeta.
  repeat (apply preserves_if; [first [by apply ok_modify|idtac]|]).
  - apply ok_modify. intros s1. unfold write_driverFeatures. by destruct (_ =? 0); [|destruct (_ =? 1)].
  - apply ok_on_selected; [|intros m q; by apply caches_update]. intros q (? & ? & ? & ? & ? & ?). split_and!; [apply is_u16_u16|done..].
  - destruct (selectedQueueLocked s) as [i|]; [|apply preserves_ret]. apply preserves_if.
    + intros s1 Hs1. apply ok_set_queue; [|intros q _; apply caches_clear|done]. intros q (? & ? & ? & ? & ? & ?). by split_and!.
    + apply preserves_bind; [|intros _; apply preserves_if; [apply ok_processRX|apply preserves_ret]].
      intros s1 Hs1. apply ok_set_queue; [|intros q; by apply caches_update|done]. by intros q (? & ? & ? & ? & ? & ?).
  - apply ok_pfn.
  - apply preserves_ret.
  - apply ok_set_addr. intros q (? & ? & ? & ? & ? & ?). split_and!; [done|by apply set_half_ok; auto with go|done..].
  - apply ok_set_addr. intros q (? & ? & ? & ? & ? & ?). split_and!; [done|by apply set_half_ok; auto with go|done..].
  - apply ok_set_addr. intros q (? & ? & ? & ? & ? & ?). split_and!; [done|done|by apply set_half_ok; auto with go|done..].
  - apply ok_set_addr. intros q (? & ? & ? & ? & ? & ?). split_and!; [done|done|by apply set_half_ok; auto with go|done..].
  - apply ok_set_addr. intros q (? & ? & ? & ? & ? & ?). split_and!; [done|done|done|by apply set_half_ok; auto with go|done..].
  - apply ok_set_addr. intros q (? & ? & ? & ? & ? & ?). split_and!; [done|done|done|by apply set_half_ok; auto with go|done..].
  - apply preserves_bind; [by apply ok_modify|]. intros _. apply ok_update_irq.
  - intros s1 Hs1. unfold modify. cbn [fst]. destruct (_ =? 0); [apply ok_reset|]; by eapply net_ok_frame; [..|exact Hs1].
  - apply preserves_ret.
Qed.
Lemma ok_write addr size_ value : yields net_ok (Forall is_bytes) (Write_locked addr size_ value).
Proof.
  apply ok_unless_failed. eapply yields_bind; [apply ok_get|]. intros s _. cbv zeta.
  destruct (_ =? _); [apply ok_notify|apply yields_none, ok_register].
Qed.
Lemma ok_write_legacy offset size_ value : yields net_ok (Forall is_bytes) (WriteLegacy_locked offset size_ value).
Proof.
  eapply yields_bind; [apply yields_preserves, ok_set_dev; by intros d [? ? ? ? ?]|]. intros _ _. apply ok_unless_failed.
  destruct (_ =? _); [apply ok_notify|]. apply yields_none. unfold write_legacy_register.
  repeat (apply preserves_if; [first [by apply ok_modify|idtac]|]); [apply ok_pfn| |apply preserves_ret].
  intros s Hs. unfold modify. cbn [fst]. assert (net_ok (s <| status := u8 value |>)) as Hs1 by by eapply net_ok_frame; [..|exact Hs].
  destruct (_ =? 0); [|done]. apply (ok_set_dev (λ d, d <| legacy := true |>)); [by intros d [? ? ? ? ?]|by apply ok_reset].
Qed.
Lemma ok_read_legacy offset size_ : preserves net_ok (ReadLegacy offset size_).
Proof.
  apply preserves_bind; [apply ok_set_dev; by intros d [? ? ? ? ?]|]. intros _. apply preserves_bind; [apply preserves_gets|]. intros s.
  repeat (apply preserves_if; [apply preserves_ret|]). apply preserves_if; [|apply preserves_if; [|apply preserves_ret]].
  - apply preserves_bind; [by apply ok_modify|]. intros _. apply preserves_bind; [apply ok_update_irq|]. intros _. apply preserves_ret.
  - apply preserves_bind; [apply preserves_lift|]. intros v. apply preserves_ret.
Qed.
Lemma ok_detach s : net_ok s → net_ok (Detach s).
Proof.
  intros [? Hl Hq Hc [? ? ? ? ?]]. unfold Detach. split; cbn; [done|by rewrite length_fmap| | |by split].
  - apply Forall_fmap. eapply Forall_impl; [exact Hq|]. intros q Hq1. exact Hq1.
  - apply Forall_fmap, Forall_true. done.
Qed.
Lemma ok_attach m c s : mem s = None → mem_ok m → net_ok s → net_ok (net_Attach (Some m) c s).
Proof.
  intros Em Hm [? Hl Hq Hc [? ? ? ? ?]]. split; [by intros ? [= <-]|done|done| |by split].
  rewrite Em in Hc. eapply Forall_impl; [exact Hc|]. intros q <-. by split_and!; intros v.
Qed.
Lemma ok_guest m m' s : mem s = Some m → kept_views m m' → net_ok s → net_ok (s <| mem := Some m' |>).
Proof.
  intros Em Hk [? Hl Hq Hc Hf]. split; [intros ? [= <-]; apply Hk|done|done| |done].
  rewrite Em in Hc. eapply Forall_impl; [exact Hc|]. intros q. by apply kept_cache.
Qed.
End invariant.

(** * The transmit goroutine *)

Definition place_ok (p : tx_place) : Prop := match p with Delivering packets => Forall is_bytes packets | _ => True end.
(** At most one goroutine, and it is the one the flags speak of. *)
Definition one_runner (running again : bool) (places : list tx_place) : Prop :=
  Forall place_ok places ∧ if running then ∃ p, places = [p] else again = false ∧ places = [].
(** The goroutine will look at the ring: it is about to, or told to do it
    again. *)
Definition told (running again : bool) (places : list tx_place) : Prop :=
  one_runner running again places ∧ running = true ∧ (again = true ∨ places = [Starting]).

Lemma one_runner_schedule running again places :
  one_runner running again places → if running then one_runner true true places else one_runner true again (places ++ [Starting]).
Proof.
  intros [Hp Hr]. destruct running; [done|]. destruct Hr as [-> ->]. split; [by apply Forall_singleton|by eexists].
Qed.
Lemma told_schedule running again places :
  told running again places → if running then told true true places else told true again (places ++ [Starting]).
Proof. intros (Hr & -> & _). split_and!; [by apply (one_runner_schedule true again)|done|by left]. Qed.
Lemma one_runner_insert i p running again places :
  place_ok p → one_runner running again places → one_runner running again (<[i := p]> places).
Proof.
  intros Hp [Hps Hr]. split; [by apply Forall_insert|]. destruct running; [|by destruct Hr as [-> ->]].
  destruct Hr as [p0 ->]. destruct i; by eexists.
Qed.

(** The goroutine is at work and told to look again. *)
Definition again_told (running again : bool) (places : list tx_place) : Prop :=
  one_runner running again places ∧ running = true ∧ again = true.

Section runner.
Context {T I B : Type} `{GuestViewsOk T, !IRQController I, !NetBackend T I B, !NetBackendOk T I B}.
Abbreviation Net := (VirtioNet.Net (T := T) (I := I) (B := B)).
Implicit Types (s : Net) (m : T).

Definition set_place (i : nat) (p : tx_place) (d : net_fields B) : net_fields B := d <| runners := <[i := p]> (runners d) |>.
(** Work on the ring or on packets, and the place the goroutine is left at. *)
Lemma step_work (R : bool → bool → list tx_place → Prop) {A} (act : M Net A) (Q : A → Prop) (next : A → tx_place) i s :
  (∀ running again places p, R running again places → place_ok p → R running again (<[i := p]> places)) →
  yields (net_ok R) Q act → (∀ a, Q a → place_ok (next a)) → net_ok R s →
  net_ok R (match act s with
            | (s, Ok a) => s <| dev := set_place i (next a) (dev s) |>
            | (s, Err e) => s <| dev := set_place i (Ending (Some e)) (dev s) |>
            | (s, Panic) => s
            end).
Proof.
  intros HR Ha Hn Hs. destruct (Ha s Hs) as [Hs' Hq]. destruct (act s) as [s' [a|e|]]; cbn [fst snd] in *; [| |done].
  - apply (ok_set_dev R (set_place i (next a))); [|done]. intros d [? ? ? ? ?]. split; try done. by apply HR; auto.
  - apply (ok_set_dev R (set_place i (Ending (Some e)))); [|done]. intros d [? ? ? ? ?]. split; try done. by apply HR.
Qed.
Lemma run_step_starting i s :
  runners (dev s) !! i = Some Starting →
  (run_step i s).1 = match processTXLocked s with
    | (s, Ok packets) => s <| dev := set_place i (Delivering packets) (dev s) |>
    | (s, Err e) => s <| dev := set_place i (Ending (Some e)) (dev s) |>
    | (s, Panic) => s
    end.
Proof.
  intros Hp. unfold run_step, gets, mbind, M_bind. cbv [id]. rewrite Hp. cbn [runAsyncTX]. by destruct (processTXLocked s) as [s' [| |]].
Qed.
Lemma run_step_delivering i packet packets s :
  runners (dev s) !! i = Some (Delivering (packet :: packets)) →
  (run_step i s).1 = match deliver_packet packet s with
    | (s, Ok _) => s <| dev := set_place i (Delivering packets) (dev s) |>
    | (s, Err e) => s <| dev := set_place i (Ending (Some e)) (dev s) |>
    | (s, Panic) => s
    end.
Proof.
  intros Hp. unfold run_step, gets, mbind, M_bind. cbv [id]. rewrite Hp. cbn [runAsyncTX]. by destruct (deliver_packet packet s) as [s' [| |]].
Qed.
Lemma run_step_delivered i s :
  runners (dev s) !! i = Some (Delivering []) → (run_step i s).1 = s <| dev := set_place i (Ending None) (dev s) |>.
Proof. intros Hp. unfold run_step, gets, mbind, M_bind. cbv [id]. by rewrite Hp. Qed.
(** Steps between the look at the ring and the end of a turn. *)
Lemma step_delivering (R : bool → bool → list tx_place → Prop) i packets s :
  (∀ running again places, R running again places → if running then R true true places else R true again (places ++ [Starting])) →
  (∀ running again places p, R running again places → place_ok p → R running again (<[i := p]> places)) →
  net_ok R s → Forall is_bytes packets → runners (dev s) !! i = Some (Delivering packets) → net_ok R (run_step i s).1.
Proof.
  intros HS HR Hs Hb Hp. destruct packets as [|packet packets].
  - rewrite (run_step_delivered i s Hp). apply (ok_set_dev R (set_place i (Ending None))); [|done].
    intros d [? ? ? ? ?]. split; try done. by apply HR.
  - apply Forall_cons in Hb as [Hb Hbs]. rewrite (run_step_delivering i packet packets s Hp).
    apply (step_work R (deliver_packet packet) (λ _, True) (λ _, Delivering packets)); [done| |done|done].
    by apply yields_preserves, ok_deliver.
Qed.
Lemma run_step_ending i err s :
  runners (dev s) !! i = Some (Ending err) →
  (run_step i s).1 =
    let d := match err with Some e => (dev s) <| asyncTXErr := Some e |> | None => dev s end in
    s <| dev := if negb (asyncTXAgain (dev s)) || non_nil err
                then d <| asyncTXRunning := false |> <| asyncTXAgain := false |> <| runners := delete i (runners (dev s)) |>
                else d <| asyncTXAgain := false |> <| runners := <[i := Starting]> (runners (dev s)) |> |>.
Proof.
  intros Hp. unfold run_step, gets, mbind, M_bind. cbv [id]. rewrite Hp. cbn [runAsyncTX]. unfold set_dev, modify, gets, mbind, M_bind. cbv [id].
  destruct err as [e|]; cbn [non_nil]; [by rewrite !orb_true_r|]. rewrite !orb_false_r. unfold mret, M_ret.
  by destruct (asyncTXAgain (dev s)).
Qed.
Lemma step_ending R i err s :
  net_ok R s → runners (dev s) !! i = Some (Ending err) →
  (if negb (asyncTXAgain (dev s)) || non_nil err then R false false (delete i (runners (dev s)))
   else R (asyncTXRunning (dev s)) false (<[i := Starting]> (runners (dev s)))) →
  net_ok R (run_step i s).1.
Proof.
  intros Hs Hp HR. rewrite (run_step_ending i err s Hp). cbv zeta. destruct Hs as [Hm Hl Hq Hc [F1 F2 F3 F4 F5]].
  split; [exact Hm|exact Hl|exact Hq|exact Hc|].
  destruct (negb _ || non_nil err); destruct err; (split; [exact F1|exact F2|exact F3|exact HR|exact F5]).
Qed.
Lemma ok_run_step i : preserves (net_ok one_runner) (run_step (T := T) (I := I) (B := B) i).
Proof.
  intros s Hs. destruct (runners (dev s) !! i) as [p|] eqn:Hp; swap 1 2.
  { unfold run_step, gets, mbind, M_bind. cbv [id]. by rewrite Hp. }
  pose proof (fo_runner _ _ (no_fields _ s Hs)) as [Hps Hr].
  assert (place_ok p) as Hpo by by eapply Forall_lookup_1.
  assert (∀ running again places p, one_runner running again places → place_ok p → one_runner running again (<[i := p]> places)) as Hins
    by by intros; apply one_runner_insert.
  destruct p as [|packets|err].
  - rewrite (run_step_starting i s Hp). by apply (step_work one_runner processTXLocked (Forall is_bytes) Delivering); [|apply ok_processTX| |].
  - by apply (step_delivering one_runner i packets s one_runner_schedule).
  - apply (step_ending one_runner i err s Hs Hp). destruct (asyncTXRunning (dev s)); [|by destruct Hr as [_ Hr]; rewrite Hr in Hp].
    destruct Hr as [p0 Hr]. rewrite Hr in *. destruct i as [|i]; [|done]. destruct (negb _ || _).
    + split; [by apply Forall_nil_2|done].
    + split; [by apply Forall_singleton|by eexists].
Qed.

(** * Runs *)

(** A write returns once it has handed over its packets; a run has the packets
    that each writer still has to hand over. *)
Definition writers := list (list (list Z)).
Definition wrote (r : Net * result (list (list Z))) (ws : writers) : Net * writers :=
  match r with (s, Ok packets) => (s, packets :: ws) | (s, _) => (s, ws) end.
Definition delivered (r : Net * result unit) (i : nat) (packets : list (list Z)) (ws : writers) : Net * writers :=
  match r with (s, Ok _) => (s, <[i := packets]> ws) | (s, _) => (s, delete i ws) end.

(** What can happen to the device: accesses of the guest, the hand-over of a
    packet by a writer and its return, frames for the guest, a step of a
    goroutine, a change of the options, a new life of the machine, and stores
    of the guest into its memory. *)
Inductive net_step : relation (Net * writers) :=
  | NRead addr size_ s ws : net_step (s, ws) ((Read addr size_ s).1, ws)
  | NWrite addr size_ value s ws : net_step (s, ws) (wrote (Write_locked addr size_ value s) ws)
  | NReadLegacy offset size_ s ws : net_step (s, ws) ((ReadLegacy offset size_ s).1, ws)
  | NWriteLegacy offset size_ value s ws : net_step (s, ws) (wrote (WriteLegacy_locked offset size_ value s) ws)
  | NDeliver i packet packets s ws :
      ws !! i = Some (packet :: packets) → net_step (s, ws) (delivered (deliver_packet packet s) i packets ws)
  | NReturn i s ws : ws !! i = Some [] → net_step (s, ws) (s, delete i ws)
  | NEnqueue packet s ws : is_bytes packet → net_step (s, ws) ((enqueueRxPacket packet s).1, ws)
  | NRunner i s ws : net_step (s, ws) ((run_step i s).1, ws)
  | NConfigure o s ws : net_step (s, ws) ((set_dev (configure o) s).1, ws)
  | NDetach s ws : net_step (s, ws) (Detach s, ws)
  | NAttach m c s ws : mem s = None → mem_ok m → net_step (s, ws) (net_Attach (Some m) c s, ws)
  | NGuest m m' s ws : mem s = Some m → kept_views m m' → net_step (s, ws) (s <| mem := Some m' |>, ws).

(** A whole write is a run. *)
Lemma deliver_run packets s ws : rtc net_step (s, packets :: ws) ((deliverTXPackets packets s).1, ws).
Proof.
  revert s. induction packets as [|packet packets IH]; intros s; [by apply rtc_once, (NReturn 0)|].
  eapply rtc_l; [by apply (NDeliver 0)|]. cbn [deliverTXPackets]. unfold mbind, M_bind.
  destruct (deliver_packet packet s) as [s' [[]| |]]; cbn; [apply IH|done..].
Qed.
Lemma write_run addr size_ value s ws : rtc net_step (s, ws) ((Write addr size_ value s).1, ws).
Proof.
  eapply rtc_l; [apply (NWrite addr size_ value)|]. unfold Write, mbind, M_bind.
  destruct (Write_locked addr size_ value s) as [s' [packets| |]]; cbn; [apply deliver_run|done..].
Qed.
Definition write_all (regs : list (Z * Z)) s : Net := foldl (λ s w, (Write w.1 4 w.2 s).1) s regs.
Lemma writes_run regs s ws : rtc net_step (s, ws) (write_all regs s, ws).
Proof. revert s. induction regs as [|w regs IH]; intros s; cbn; [done|]. etrans; [apply write_run|apply IH]. Qed.
(** [n] steps of the goroutine. *)
Definition run_steps (n : nat) s : Net := Nat.iter n (λ s, (run_step 0 s).1) s.
Lemma run_steps_run n r s ws : rtc net_step r (s, ws) → rtc net_step r (run_steps n s, ws).
Proof. intros Hr. induction n as [|n IH]; [done|]. eapply rtc_r; [apply IH|apply (NRunner 0)]. Qed.
Lemma read_same addr size_ s : (Read addr size_ s).1 = s.
Proof. unfold Read. repeat (destruct (_ =? _); [done|]). by destruct (_ && _). Qed.

(** The invariant of a run: that of the device, and what the writers hold are
    packets. *)
Definition run_ok (R : bool → bool → list tx_place → Prop) (r : Net * writers) : Prop :=
  net_ok R r.1 ∧ Forall (Forall is_bytes) r.2.
Lemma wrote_ok R act s ws : yields (net_ok R) (Forall is_bytes) act → run_ok R (s, ws) → run_ok R (wrote (act s) ws).
Proof.
  intros Ha [Hs Hw]. destruct (Ha s Hs) as [Hs' Hq]. destruct (act s) as [s' [packets| |]]; split; try done.
  by apply Forall_cons_2; [apply Hq|].
Qed.
(** A step that is not one of the goroutine's. *)
Lemma step_others (R : bool → bool → list tx_place → Prop) r r' :
  (∀ running again places, R running again places → if running then R true true places else R true again (places ++ [Starting])) →
  run_ok R r → net_step r r' →
  run_ok R r' ∨ ∃ i p, runners (dev r.1) !! i = Some p ∧ r' = ((run_step i r.1).1, r.2).
Proof.
  intros HR Hr Hst. destruct Hst as [a z s ws|a z v s ws|a z s ws|a z v s ws|i p ps s ws Hi|i s ws Hi|p s ws Hp|i s ws|o s ws|s ws|m c s ws Em Hm|m m' s ws Em Hk].
  - left. by rewrite read_same.
  - left. apply wrote_ok; [by apply ok_write|done].
  - left. split; [apply ok_read_legacy, Hr|apply Hr].
  - left. apply wrote_ok; [by apply ok_write_legacy|done].
  - left. destruct Hr as [Hs Hw]. pose proof (Forall_lookup_1 _ _ _ _ Hw Hi) as [Hp Hps]%Forall_cons. pose proof (ok_deliver R p Hp s Hs) as Hd.
    destruct (deliver_packet p s) as [s' [| |]]; split; try done; [by apply Forall_insert|by apply Forall_delete..].
  - left. destruct Hr as [Hs Hw]. split; [done|by apply Forall_delete].
  - left. split; [by apply ok_enqueue, Hr|apply Hr].
  - destruct (runners (dev s) !! i) as [p|] eqn:E; [right; by exists i, p|left]. destruct Hr. split; [|done].
    unfold run_step, gets, mbind, M_bind. cbv [id]. cbn [fst]. by rewrite E.
  - left. split; [|apply Hr]. apply (ok_set_dev R (configure o)); [by intros d [? ? ? ? ?]|apply Hr].
  - left. split; [apply ok_detach, Hr|apply Hr].
  - left. split; [apply ok_attach; try done; apply Hr|apply Hr].
  - left. split; [eapply ok_guest; try done; apply Hr|apply Hr].
Qed.
Lemma new_ok base size_ irq_ mac b : backend_ok b → net_ok one_runner (NewNet base size_ irq_ mac b : Net).
Proof.
  intros Hb. unfold NewNet. apply ok_reset. split; [done|done| | |].
  - by repeat (apply Forall_cons; split; [apply queue0_ok|]).
  - by repeat (apply Forall_cons; split).
  - split; [done|by repeat constructor|apply Forall_nil_2| |exact Hb]. split; [apply Forall_nil_2|done].
Qed.
Lemma schedule_told s : net_ok one_runner s → net_ok told (s <| dev := scheduleAsyncTXLocked (dev s) |>).
Proof.
  intros [? ? ? ? [? ? ? Hr ?]]. assert (told true (asyncTXAgain (scheduleAsyncTXLocked (dev s))) (runners (scheduleAsyncTXLocked (dev s)))) as Ht.
  { apply one_runner_schedule in Hr as Hr'. unfold scheduleAsyncTXLocked. destruct (asyncTXRunning (dev s)); [by split_and!; [| |left]|].
    destruct Hr as [_ [_ Hp]]. cbn. split_and!; [done|done|right]. by rewrite Hp. }
  split; try done. unfold scheduleAsyncTXLocked in *. destruct (asyncTXRunning (dev s)) eqn:E; split; try done. cbn [dev update].
  cbn. by rewrite E.
Qed.
Lemma net_ok_impl (R R' : bool → bool → list tx_place → Prop) s :
  (∀ running again places, R running again places → R' running again places) → net_ok R s → net_ok R' s.
Proof. intros HR [? ? ? ? [? ? ? ? ?]]. split; try done. split; auto. Qed.
Lemma runs_ok r r' : run_ok one_runner r → rtc net_step r r' → run_ok one_runner r'.
Proof.
  intros Hr Hrun. induction Hrun as [|r r1 r2 Hst _ IH]; [done|]. apply IH.
  destruct (step_others one_runner r r1 one_runner_schedule Hr Hst) as [?|(i & p & _ & ->)]; [done|]. split; [apply ok_run_step, Hr|apply Hr].
Qed.
Lemma reach_ok base size_ irq_ mac b r :
  backend_ok b → rtc net_step (NewNet base size_ irq_ mac b : Net, []) r → run_ok one_runner r.
Proof. intros Hb. apply runs_ok. split; [by apply new_ok|apply Forall_nil_2]. Qed.
(** A step of the goroutine that does not look at the ring, nor end with an
    error. *)
Lemma told_step r r' :
  run_ok told r → net_step r r' →
  run_ok told r' ∨ ∃ i, r' = ((run_step i r.1).1, r.2) ∧
    (runners (dev r.1) !! i = Some Starting ∨ ∃ e, runners (dev r.1) !! i = Some (Ending (Some e))).
Proof.
  intros Hr Hst. destruct (step_others told r r' told_schedule Hr Hst) as [?|(i & p & Hp & ->)]; [by left|].
  destruct r as [s ws]. destruct Hr as [Hs Hw]. cbn [fst snd] in *.
  pose proof (fo_runner _ _ (no_fields _ s Hs)) as ([Hps Hrn] & Hrun & Hag). rewrite Hrun in Hrn. destruct Hrn as [p0 Hrn].
  rewrite Hrn in Hp, Hag, Hps. destruct i as [|i]; [|done]. injection Hp as ->. apply Forall_cons in Hps as [Hps _].
  destruct p as [|packets|[e|]]; [right; exists 0%nat; rewrite Hrn; split; [done|by left]| |right; exists 0%nat; rewrite Hrn; split; [done|right; by exists e]|];
    (left; split; [|done]); destruct Hag as [Hag|Hag]; try done.
  - apply (net_ok_impl again_told); [by intros ??? (? & ? & ->); split_and!; [| |left]|].
    apply (step_delivering again_told 0 packets); [| | |done|cbn [fst]; by rewrite Hrn].
    + intros running again places (Ho & -> & ->). by split_and!.
    + intros ???? (? & ? & ?) ?. by split_and!; [apply one_runner_insert|..].
    + destruct Hs as [? ? ? ? [? ? ? (? & ? & _) ?]]. by split.
  - apply (step_ending told 0 None s Hs); [by rewrite Hrn|]. rewrite Hag, Hrun, Hrn. cbn.
    split_and!; [|done|by right]. split; [by apply Forall_singleton|by eexists].
Qed.
End runner.

(** C12: In every run of the device from [NewNet], with whatever options its
    owner sets and whenever, synchronous or asynchronous transmission, and
    whatever the guest writes to its registers and its memory: the slices of the
    rings that the device keeps are the memory at the addresses of the rings,
    the packets that wait in the device, at its writers and at the goroutine are
    bytes, and at most one transmit goroutine is alive, exactly when the flag
    says so. *)
Theorem net_slices_current {T I B} `{GuestViewsOk T, !IRQController I, !NetBackend T I B, !NetBackendOk T I B}
    base size_ irq_ mac b (s : VirtioNet.Net (T := T) (I := I) (B := B)) ws :
  backend_ok b → rtc net_step (NewNet base size_ irq_ mac b, []) (s, ws) →
  (∀ m, mem s = Some m → sound s m) ∧ Forall is_bytes (pendingRx (dev s)) ∧ Forall (Forall is_bytes) ws ∧
  Forall place_ok (runners (dev s)) ∧ length (runners (dev s)) = if asyncTXRunning (dev s) then 1%nat else 0%nat.
Proof.
  intros Hb Hr. destruct (reach_ok base size_ irq_ mac b (s, ws) Hb Hr) as [Hs Hw]. cbn in Hs.
  destruct (fo_runner _ _ (no_fields _ s Hs)) as [Hp Hn]. split_and!; [|apply Hs|done|done|].
  - intros m. by apply (net_sound_at one_runner).
  - destruct (asyncTXRunning (dev s)); [by destruct Hn as [p ->]|by destruct Hn as [_ ->]].
Qed.


(** The goroutine that ends with an error forgets the notifications that came
    while it was at work. *)
Lemma net_error_drops_notification {T I B} `{GuestMemory T, !GuestViews T, !IRQController I, !NetBackend T I B}
    (s : VirtioNet.Net (T := T) (I := I) (B := B)) e :
  runners (dev s) = [Ending (Some e)] → asyncTXAgain (dev s) = true →
  let d := dev (run_step 0 s).1 in runners d = [] ∧ asyncTXRunning d = false ∧ asyncTXAgain d = false ∧ asyncTXErr d = Some e.
Proof.
  intros Hr Ha. unfold run_step, gets, mbind, M_bind. cbv [id]. rewrite Hr. cbn [lookup list_lookup runAsyncTX].
  unfold set_dev, modify, gets, mbind, M_bind. cbv [id]. cbn [non_nil]. rewrite orb_true_r. cbn. by rewrite Hr.
Qed.

(** * A sample *)

#[local] Existing Instance log_net.
#[local] Instance log_net_ok : NetBackendOk (option VM) (list (Z * bool)) (list (list Z)).
Proof.
  refine {| backend_ok b := ∀ log, b = Some log → Forall is_bytes log |}.
  intros P packet Hp Hok _ Hb s Hs. refine (Hb ((λ log, log ++ [packet]) <$> backend (dev s)) _ s Hs).
  intros log. destruct (backend (dev s)) as [log0|] eqn:E; [|done]. intros [= <-]. apply Forall_app. split; [by apply (Hok s Hs)|by apply Forall_singleton].
Defined.

(** The owner chooses asynchronous transmission without checksums; a driver sets
    up the transmit queue and notifies; the goroutine runs. *)
Definition net_setup : list (Z * Z) :=
  [(0x1030, 1); (0x1038, 2); (0x1080, 16); (0x1090, 48); (0x10a0, 64); (0x1044, 1)].
Definition async_options : net_options := mkOptions false true false false false false 0.
Definition net_start : sample_net := NewNet 0x1000 0x200 5 [2; 66; 10; 42; 0; 2] (Some []).
Definition net_ready : sample_net :=
  write_all net_setup (net_Attach (Some tx_net_memory) (Some []) (set_dev (configure async_options) net_start).1).
Definition net_told : sample_net * writers := wrote (Write_locked 0x1050 4 1 net_ready) [].
Definition net_done : sample_net := run_steps 4 net_told.1.

Lemma net_ready_run : rtc net_step (net_start, []) (net_ready, []).
Proof.
  eapply rtc_l; [apply (NConfigure async_options)|]. eapply rtc_l; [|apply writes_run]. apply NAttach; [done|apply tx_net_memory_ok].
Qed.
Lemma net_slices_current_witness :
  backend (dev net_done) = Some [[1; 2; 3; 4; 5; 6]] ∧ runners (dev net_told.1) = [Starting] ∧ runners (dev net_done) = [] ∧
  ∀ m, mem net_done = Some m → sound net_done m.
Proof.
  split_and!; [vm_compute; reflexivity..|].
  apply (net_slices_current 0x1000 0x200 5 [2; 66; 10; 42; 0; 2] (Some []) net_done net_told.2); [intros log [= <-]; apply Forall_nil_2|].
  apply run_steps_run. rewrite <-surjective_pairing. eapply rtc_r; [apply net_ready_run|]. apply (NWrite 0x1050 4 1 net_ready []).
Defined.
