(* ===== verification/GuestNet.v ===== *)
(** The guest's network: the network device in front of the network stack.

    src/internal/vm/network_common.go joins the two: a packet of the guest goes
    from the device to the stack, and the frames of the stack go back into the
    device's receive queue.  Whatever the guest does to the device, its rings
    and its memory, the connections of the stack stay within the policy.

    Errors of the receive queue end the call that caused the frame; the stack's
    own reaction to them is not modelled. *)
From S2P Require Import Prelude Packet KvmArm64 NetStack GuestMemory GuestViews VirtQueue VirtMmio RxRing VirtioNet NetQueues NetRuns.

Definition defaultGatewayMACBytes : list Z := [0x02; 0x42; 0x0a; 0x2a; 0x00; 0x01].
Definition frameTargetsDefaultGateway (frame : list Z) : bool :=
  (6 <=? length frame)%nat && bool_decide (take 6 frame = defaultGatewayMACBytes).

(** What the stack asks of the world while it handles a frame: a sequence
    number, the time, and whether sockets of the host open and take data. *)
Record world := mkWorld {
  initialSeq : Z; now : Z; dial : udpProxyKey → bool; host_write : udpProxyKey → list Z → bool;
}.

(** The runtime's fields that a packet meets; [txHook] is code of the caller. *)
Record networkRuntime := mkRuntime { txHook : option (list Z → bool); stack : option NetStack; }.
#[export] Instance eta_networkRuntime : Eta networkRuntime := λ r, mkRuntime (txHook r) (stack r).

Section backend.
Context {T I : Type} `{!GuestMemory T, !GuestViews T, !IRQController I}.
Context (world_at : NetStack → list Z → world).
Abbreviation Net := (VirtioNet.Net (T := T) (I := I) (B := networkRuntime)).

(** [netstackVirtioBackend.NeedsTXChecksum]. *)
Definition needsTXChecksum (r : networkRuntime) (packet : list Z) : bool :=
  non_nil (txHook r) && negb (frameTargetsDefaultGateway packet).
(** The frames that the stack has sent, as the handler gets them. *)
Fixpoint enqueue_frames (frames : list (list Z)) : M Net unit :=
  match frames with
  | [] => mret tt
  | frame :: frames => enqueueRxPacket (u8 <$> frame) ;;; enqueue_frames frames
  end.
(** [networkRuntime.ifaceDeliver]; a call of the stack that does not return
    does not return here either. *)
Definition ifaceDeliver (r : networkRuntime) (st : NetStack) (packet : list Z) : M Net unit :=
  let w := world_at st packet in
  match DeliverGuestPacket (initialSeq w) (now w) (dial w) (host_write w) packet st with
  | None => panic
  | Some (st', res) =>
    set_dev (λ d, d <| VirtioNet.backend := Some (r <| stack := Some st' |>) |>) ;;;
    enqueue_frames (drop (length (out_frames st)) (out_frames st')) ;;;
    lift res
  end.
(** [netstackVirtioBackend.HandleTxPacket]. *)
Definition handleTxPacket (packet : list Z) : M Net unit :=
  s ← gets id;
  match VirtioNet.backend (dev s) with
  | None => fail "network runtime is not attached"
  | Some r =>
    if match txHook r with Some hook => hook packet | None => false end then mret tt
    else
      match stack r with
      | None => fail "network runtime is not attached"
      | Some st => ifaceDeliver r st packet
      end
  end.
#[export] Instance netstackVirtioBackend : VirtioNet.NetBackend T I networkRuntime := {
  HandleTxPacket := handleTxPacket;
  NeedsTXChecksum := Some needsTXChecksum;
}.
End backend.

Section confined.
Context {T I : Type} `{GuestViewsOk T, !IRQController I} (world_at : NetStack → list Z → world).
Abbreviation Net := (VirtioNet.Net (T := T) (I := I) (B := networkRuntime)).
#[local] Instance stack_backend : VirtioNet.NetBackend T I networkRuntime := netstackVirtioBackend world_at.

(** The stack is within its policy, with the settings it started with. *)
Definition within (hook : option (list Z → bool)) (st0 : NetStack) (b : option networkRuntime) : Prop :=
  ∃ st, b = Some (mkRuntime hook (Some st)) ∧ all_allowed st ∧ config st = config st0.

Lemma enqueue_frames_ok (P : Net → Prop) frames :
  (∀ frame, is_bytes frame → preserves P (enqueueRxPacket frame)) → preserves P (enqueue_frames frames).
Proof.
  intros HP. induction frames as [|frame frames IH]; [apply preserves_ret|]. apply preserves_bind; [|intros _; apply IH].
  apply HP, Forall_fmap, Forall_true. intros x. apply is_u8_u8.
Qed.
(** The stack discharges what the device asks of its backend. *)
Definition runtime_ok (hook : option (list Z → bool)) (st0 : NetStack) : NetBackendOk T I networkRuntime.
Proof.
  refine {| backend_ok := within hook st0 |}. intros P packet Hb Hok He Hset s Hs.
  change (HandleTxPacket packet s) with (handleTxPacket world_at packet s). unfold handleTxPacket, gets, mbind, M_bind. cbv [id].
  destruct (Hok s Hs) as (st & -> & Ha & Hc). cbn [txHook stack].
  destruct (match hook with Some _ => _ | None => _ end); [done|]. unfold ifaceDeliver. cbv zeta.
  destruct (DeliverGuestPacket _ _ _ _ packet st) as [[st' res]|] eqn:E; [|done].
  apply (preserves_bind P); [|intros _; apply preserves_bind; [by apply enqueue_frames_ok|intros _; apply preserves_lift]|done].
  apply Hset. exists st'. split; [done|]. apply deliver_policy in E as [Hc' Ha']; [|done]. split; [by apply Ha'|congruence].
Defined.

(** C1: In every run of the device with the stack behind it - register accesses of
    the guest, stores to its memory and rings, packets handed over by the vCPU
    that notified or by the transmit goroutine, in any order, frames for the
    guest, and whatever options the owner has set - every connection that the
    network stack holds is one that the stack's settings allow, and the settings
    are those it started with. *)
Theorem guest_network_confined base size_ irq_ mac hook st0 (s : Net) ws :
  all_allowed st0 → rtc net_step (NewNet base size_ irq_ mac (Some (mkRuntime hook (Some st0))), []) (s, ws) →
  ∃ st, VirtioNet.backend (dev s) = Some (mkRuntime hook (Some st)) ∧ all_allowed st ∧ config st = config st0.
Proof.
  intros Ha Hr. pose (Hok := runtime_ok hook st0).
  assert (backend_ok (Some (mkRuntime hook (Some st0)))) as Hb by (exists st0; by split_and!).
  destruct (reach_ok base size_ irq_ mac _ (s, ws) Hb Hr) as [Hs _].
  exact (fo_backend _ _ (no_fields _ s Hs)).
Qed.
End confined.

(** A driver whose ring holds a SYN to an address of the internet. *)
Definition syn_memory : option VM :=
  Some (mkVM 0 160 (replicate 16 0 ++ le_bytes 8 96 ++ le_bytes 4 64 ++ replicate 20 0 ++
    le_bytes 2 0 ++ le_bytes 2 1 ++ replicate 44 0 ++ replicate 10 0 ++ demo_syn [10; 42; 0; 2] [1; 1; 1; 1])).
Definition quiet_world (st : NetStack) (packet : list Z) : world := mkWorld 7 0 (λ _, true) (λ _ _, true).
#[local] Instance sample_backend : VirtioNet.NetBackend (option VM) (list (Z * bool)) networkRuntime := netstackVirtioBackend quiet_world.
(** The options the program sets: no completion of checksums by the device. *)
Definition stack_options (async : bool) : net_options := mkOptions false async false false false false 0.
Definition guest_ready (async : bool) : VirtioNet.Net (T := option VM) (I := list (Z * bool)) (B := networkRuntime) :=
  write_all net_setup
    (net_Attach (Some syn_memory) (Some []) (set_dev (configure (stack_options async))
      (NewNet 0x1000 0x200 5 [2; 66; 10; 42; 0; 2] (Some (mkRuntime None (Some demo_stack))))).1).
(** The notification, and with asynchronous transmission the goroutine. *)
Definition guest_net (async : bool) : VirtioNet.Net (T := option VM) (I := list (Z * bool)) (B := networkRuntime) :=
  run_steps 4 (Write 0x1050 4 1 (guest_ready async)).1.
Definition guest_connections (async : bool) : nat :=
  match VirtioNet.backend (dev (guest_net async)) with Some (mkRuntime _ (Some st)) => base.size (tcpConns st) | _ => 0%nat end.

Lemma syn_memory_ok : mem_ok syn_memory.
Proof. split_and!; [done|done|done|]. apply (bool_decide_unpack _). vm_compute. done. Qed.
Lemma guest_net_run async :
  rtc net_step (NewNet 0x1000 0x200 5 [2; 66; 10; 42; 0; 2] (Some (mkRuntime None (Some demo_stack))), []) (guest_net async, []).
Proof.
  unfold guest_net. apply run_steps_run.
  etrans; [|apply (write_run 0x1050 4 1)]. unfold guest_ready.
  eapply rtc_l; [apply (NConfigure (stack_options async))|]. eapply rtc_l; [apply (NAttach syn_memory (Some [])); [done|apply syn_memory_ok]|].
  apply (writes_run net_setup).
Qed.
Lemma guest_network_confined_witness :
  guest_connections false = 1%nat ∧ guest_connections true = 1%nat ∧
  (∃ st, VirtioNet.backend (dev (guest_net false)) = Some (mkRuntime None (Some st)) ∧ all_allowed st ∧ config st = config demo_stack) ∧
  ∃ st, VirtioNet.backend (dev (guest_net true)) = Some (mkRuntime None (Some st)) ∧ all_allowed st ∧ config st = config demo_stack.
Proof.
  split; [vm_compute; reflexivity|]. split; [vm_compute; reflexivity|].
  split; (apply (guest_network_confined quiet_world 0x1000 0x200 5 [2; 66; 10; 42; 0; 2] None demo_stack _ []); [by intros k e Hk|]);
    apply guest_net_run.
Defined.
