(* ===== verification/Regions.v ===== *)
(** Memory regions of a disk image: src/internal/fsimage/vm (raw.go, offset.go,
    truncated.go, padded.go, direct_slice.go, file.go, fragmented.go, array.go
    and [boundsCheck] of common.go).

    A region is a tree of views over byte strings.  [ReadAt] takes the buffer
    it fills and returns it with the count and the error; [WriteAt] returns the
    changed region.  Both recurse through the views, so they take a bound on
    the depth of the tree; [Region.ReadAt] and [Region.WriteAt] use the depth of the
    region itself.  A file's contents are what its [ReadAt] returns.  Offsets
    and sizes are 64-bit signed and are taken as integers: sizes of images are
    far from the limit.

    The theorems: every view reads as the bytes it stands for, and a write
    through a view changes exactly the bytes it covers. *)
From S2P Require Import Prelude.

(** [sort.Search]: the first index below [n] at which [f] holds, for a
    predicate that stays true once it is. *)
Fixpoint search_loop (fuel : nat) (f : nat → bool) (i j : nat) : nat :=
  match fuel with
  | O => i
  | S fuel =>
    if (i <? j)%nat then
      let h := ((i + j) / 2)%nat in
      if f h then search_loop fuel f i h else search_loop fuel f (S h) j
    else i
  end.
Definition sort_Search (n : nat) (f : nat → bool) : nat := search_loop n f 0 n.

Lemma search_loop_spec fuel f i j :
  (i ≤ j)%nat → (j - i ≤ fuel)%nat → (∀ a b, (a ≤ b)%nat → (b < j)%nat → f a = true → f b = true) →
  let k := search_loop fuel f i j in
  (i ≤ k ≤ j)%nat ∧ (∀ a, (i ≤ a < k)%nat → f a = false) ∧ (∀ a, (k ≤ a < j)%nat → f a = true).
Proof.
  revert i j. induction fuel as [|fuel IH]; intros i j Hij Hf Hm; cbn [search_loop].
  { split_and!; [lia|lia|intros; lia|intros; lia]. }
  destruct (Nat.ltb_spec i j) as [Hlt|]; [|split_and!; [lia|lia|intros; lia|intros; lia]].
  set (h := ((i + j) / 2)%nat). assert (i ≤ h < j)%nat as Hh.
  { unfold h. split; [apply Nat.div_le_lower_bound; lia|apply Nat.Div0.div_lt_upper_bound; lia]. }
  destruct (f h) eqn:E.
  - destruct (IH i h) as (Hk & Hl & Hr); [lia|lia|intros a b ? ?; apply Hm; lia|].
    split_and!; [lia|lia|done|]. intros a Ha. destruct (decide (a < h)%nat); [apply Hr; lia|].
    apply (Hm h a); [lia|lia|done].
  - destruct (IH (S h) j) as (Hk & Hl & Hr); [lia|lia|done|].
    split_and!; [lia|lia| |done]. intros a Ha. destruct (decide (S h ≤ a)%nat); [apply Hl; lia|].
    destruct (f a) eqn:Ea; [|done]. rewrite (Hm a h) in E; [done|lia|lia|done].
Qed.
Lemma sort_Search_spec n f :
  (∀ a b, (a ≤ b)%nat → (b < n)%nat → f a = true → f b = true) →
  let k := sort_Search n f in
  (k ≤ n)%nat ∧ (∀ a, (a < k)%nat → f a = false) ∧ (∀ a, (k ≤ a < n)%nat → f a = true).
Proof.
  intros Hm. destruct (search_loop_spec n f 0 n) as (Hk & Hl & Hr); [lia|lia|done|].
  split_and!; [apply Hk|intros a Ha; apply Hl; split; [lia|exact Ha]|done].
Qed.

(** * Regions *)

Inductive region :=
  | RawRegion (data : list Z)
  | BitmapRegion (data : list Z)
  | FileRegion (file : list Z) (totalSize : Z)
  | OffsetRegion (base : region) (offset : Z)
  | TruncatedRegion (base : region) (MaxSize : Z)
  | PaddedRegion (base : region) (RegionSize : Z)
  | directSliceRegion (base : region) (offset size : Z)
  | fragmentedRegion (fragments : list (region * Z * Z)) (totalSize : Z)
  | RegionArray (regions : list region).
(** [regionFragment]: a region, its offset and its size. *)
Abbreviation regionFragment := (region * Z * Z)%type.
Definition frag_region (f : regionFragment) : region := f.1.1.
Definition start (f : regionFragment) : Z := f.1.2.
Definition frag_size (f : regionFragment) : Z := f.2.
Definition end_ (f : regionFragment) : Z := start f + frag_size f.

Fixpoint Size (r : region) : Z :=
  match r with
  | RawRegion d | BitmapRegion d => len d
  | FileRegion _ n => n
  | OffsetRegion b o => Size b - o
  | TruncatedRegion _ n => n
  | PaddedRegion _ n => n
  | directSliceRegion _ _ n => n
  | fragmentedRegion _ n => n
  | RegionArray rs => foldr (λ r n, Size r + n) 0 rs
  end.
Fixpoint depth (r : region) : nat :=
  match r with
  | RawRegion _ | BitmapRegion _ | FileRegion _ _ => 1
  | OffsetRegion b _ | TruncatedRegion b _ | PaddedRegion b _ | directSliceRegion b _ _ => S (depth b)
  | fragmentedRegion fs _ => S (foldr (λ f n, max (depth f.1.1) n) 0 fs)
  | RegionArray rs => S (foldr (λ r n, max (depth r) n) 0 rs)
  end%nat.

Definition EOF : string := "EOF".
Definition boundsCheck (r : region) (off : Z) : option string :=
  if off <? 0 then Some "off < 0" else if off >=? Size r then Some EOF else None.

(** The buffer, the count and the error of a read. *)
Definition read_result : Type := list Z * Z * option string.
Definition reader : Type := region → list Z → Z → read_result.

(** Read into the first [k] bytes of the buffer. *)
Definition read_limited (rd : list Z → read_result) (k : Z) (p : list Z) : read_result :=
  if len p >? k then
    let '(q, n, e) := rd (take (Z.to_nat k) p) in (q ++ drop (Z.to_nat k) p, n, e)
  else rd p.

(** * Fragments *)

(** The fragments before the first that starts at or after [rangeEnd]. *)
Fixpoint count_before (rangeEnd : Z) (fs : list regionFragment) : nat :=
  match fs with
  | [] => 0%nat
  | f :: fs => if start f >=? rangeEnd then 0%nat else S (count_before rangeEnd fs)
  end.
Definition findFragmentsForRange (fs : list regionFragment) (off length_ : Z) : nat * nat :=
  match fs with
  | [] => (0, 0)%nat
  | _ =>
    let rangeEnd := off + length_ in
    let startIdx := sort_Search (length fs) (λ i, end_ (nth i fs (RawRegion [], 0, 0)) >? off) in
    (startIdx, count_before rangeEnd (drop startIdx fs))
  end.

(** The loop over the fragments of the range: [None] is no error. *)
Fixpoint read_fragments (rd : reader) (fs : list regionFragment) (requestStart : Z) (p : list Z) : read_result :=
  match fs with
  | [] => (p, len p, None)
  | f :: fs =>
    let readStart := Z.max (start f) requestStart in
    let readEnd := Z.min (end_ f) (requestStart + len p) in
    if readStart >=? readEnd then read_fragments rd fs requestStart p
    else
      let dstStart := Z.to_nat (readStart - requestStart) in
      let readSize := Z.to_nat (readEnd - readStart) in
      let '(q, _, e) := rd (frag_region f) (sub p dstStart readSize) (readStart - start f) in
      let p := overwrite p dstStart q in
      match e with
      | Some err => if String.eqb err EOF then read_fragments rd fs requestStart p else (p, 0, e)
      | None => read_fragments rd fs requestStart p
      end
  end.

(** * Arrays *)

Fixpoint cumulative (sizes : list Z) (offset : Z) : list Z :=
  match sizes with [] => [] | s :: sizes => offset :: cumulative sizes (offset + s) end.
(** The last region that starts at or before the offset. *)
Definition findRegionIndex (cumulativeOffsets : list Z) (offset : Z) : option nat :=
  match cumulativeOffsets with
  | [] => None
  | _ =>
    let idx := sort_Search (length cumulativeOffsets) (λ i, nth i cumulativeOffsets 0 >? offset) in
    Some (idx - 1)%nat
  end.

(** [n] bytes were read before; the last component is the whole count. *)
Fixpoint read_array (rd : reader) (rs : list region) (currentOffset : Z) (p : list Z) (off n : Z) : read_result :=
  match rs with
  | [] => (p, n, None)
  | child :: rs =>
    if len p =? 0 then (p, n, None)
    else
      let childLen := Size child in
      if currentOffset + childLen <=? off then read_array rd rs (currentOffset + childLen) p off n
      else
        let childOffset := off - currentOffset in
        let '(q, childN, e) := rd child p childOffset in
        match e with
        | Some _ => (q, n + childN, e)
        | None =>
          if childN + childOffset >? childLen then (q, -1, Some "child was over read")
          else
            let '(q', n', e') :=
              read_array rd rs (currentOffset + childLen) (drop (Z.to_nat childN) q) (off + childN) (n + childN) in
            (take (Z.to_nat childN) q ++ q', n', e')
        end
  end.

(** * Reading *)

(** The [ReadAt] of each kind of region after its bounds check, with the
    reader for the regions below it. *)
Definition raw_ReadAt (d p : list Z) (off : Z) : read_result :=
  (overwrite p 0 (drop (Z.to_nat off) d), Z.min (len p) (len d - off), None).
Definition bitmap_ReadAt (d p : list Z) (off : Z) : read_result :=
  (overwrite p 0 (drop (Z.to_nat off) d), Z.min (len p) (len d - off), None).
(** The end of the file is no error. *)
Definition file_ReadAt (file p : list Z) (off : Z) : read_result :=
  let avail := drop (Z.to_nat off) file in (overwrite p 0 avail, Z.min (len p) (len avail), None).
Definition offset_ReadAt (rd : reader) (b : region) (o : Z) (p : list Z) (off : Z) : read_result := rd b p (off + o).
Definition truncated_ReadAt (rd : reader) (b : region) (max : Z) (p : list Z) (off : Z) : read_result :=
  read_limited (λ p, rd b p off) (max - off) p.
Definition slice_ReadAt (rd : reader) (b : region) (o size : Z) (p : list Z) (off : Z) : read_result :=
  read_limited (λ p, rd b p (o + off)) (size - off) p.
Definition padded_ReadAt (rd : reader) (b : region) (size : Z) (p : list Z) (off : Z) : read_result :=
  let '(q, n, e) := if off <? Size b then rd b p off else (p, 0, None) in
  match e with
  | Some _ => (q, -1, e)
  | None =>
    let padSize := Z.min (len p) (size - off) in
    (if n <? padSize then overwrite q (Z.to_nat n) (replicate (Z.to_nat (padSize - n)) 0) else q, padSize, None)
  end.
Definition fragmented_ReadAt (rd : reader) (fs : list regionFragment) (total : Z) (p : list Z) (off : Z) : read_result :=
  let k := Z.min (len p) (total - off) in
  let q := take (Z.to_nat k) p in
  if len q =? 0 then (p, 0, None)
  else
    let '(startIdx, count) := findFragmentsForRange fs off (len q) in
    let '(q, n, e) := read_fragments rd (take count (drop startIdx fs)) off (replicate (length q) 0) in
    (q ++ drop (Z.to_nat k) p, n, e).
Definition array_ReadAt (rd : reader) (rs : list region) (p : list Z) (off : Z) : read_result :=
  let cum := cumulative (Size <$> rs) 0 in
  match findRegionIndex cum off with
  | None => (p, 0, None)
  | Some startIdx => read_array rd (drop startIdx rs) (nth startIdx cum 0) p off 0
  end.

Fixpoint read_region (fuel : nat) (r : region) (p : list Z) (off : Z) : read_result :=
  match fuel with
  | O => (p, 0, Some "out of fuel")
  | S fuel =>
    match boundsCheck r off with
    | Some e => (p, 0, Some e)
    | None =>
      match r with
      | RawRegion d => raw_ReadAt d p off
      | BitmapRegion d => bitmap_ReadAt d p off
      | FileRegion file _ => file_ReadAt file p off
      | OffsetRegion b o => offset_ReadAt (read_region fuel) b o p off
      | TruncatedRegion b max => truncated_ReadAt (read_region fuel) b max p off
      | directSliceRegion b o size => slice_ReadAt (read_region fuel) b o size p off
      | PaddedRegion b size => padded_ReadAt (read_region fuel) b size p off
      | fragmentedRegion fs total => fragmented_ReadAt (read_region fuel) fs total p off
      | RegionArray rs => array_ReadAt (read_region fuel) rs p off
      end
    end
  end.
Module Region.
Definition ReadAt (r : region) (p : list Z) (off : Z) : read_result := read_region (depth r) r p off.
End Region.

(** * Views *)

Definition NewOffsetRegion (base : region) (offset : Z) : region :=
  if offset =? 0 then base
  else
    match base with
    | OffsetRegion b o => OffsetRegion b (o + offset)
    | _ => OffsetRegion base offset
    end.
Definition NewTruncatedRegion (r : region) (size : Z) : region :=
  if Size r <? size then r else TruncatedRegion r size.
Definition NewPaddedRegion (r : region) (size : Z) : region := PaddedRegion r size.

(** * What a region stands for *)

(** [rep r l]: reading [r] reads [l].  The fragments of a page tile it. *)
Inductive rep : region → list Z → Prop :=
  | rep_raw d : rep (RawRegion d) d
  | rep_bitmap d : rep (BitmapRegion d) d
  | rep_file d : rep (FileRegion d (len d)) d
  | rep_offset b l o : rep b l → 0 ≤ o ≤ len l → rep (OffsetRegion b o) (drop (Z.to_nat o) l)
  | rep_truncated b l n : rep b l → 0 ≤ n ≤ len l → rep (TruncatedRegion b n) (take (Z.to_nat n) l)
  | rep_padded b l n : rep b l → len l ≤ n →
      rep (PaddedRegion b n) (l ++ replicate (Z.to_nat (n - len l)) 0)
  | rep_slice b l o n : rep b l → 0 ≤ o → 0 ≤ n → o + n ≤ len l →
      rep (directSliceRegion b o n) (sub l (Z.to_nat o) (Z.to_nat n))
  | rep_fragmented fs total l : tiled fs 0 l → total = len l → rep (fragmentedRegion fs total) l
  | rep_array rs ls : Forall2 rep rs ls → rep (RegionArray rs) (concat ls)
with tiled : list regionFragment → Z → list Z → Prop :=
  | tiled_nil o : tiled [] o []
  | tiled_cons r b o n fs l : rep r b → 0 < n ≤ len b → tiled fs (o + n) l →
      tiled ((r, o, n) :: fs) o (take (Z.to_nat n) b ++ l).

Lemma depth_pos r : (0 < depth r)%nat.
Proof. destruct r; cbn; lia. Qed.
Lemma depth_fragment (f : regionFragment) (fs : list regionFragment) :
  f ∈ fs → (depth f.1.1 ≤ foldr (λ f n, max (depth f.1.1) n) 0 fs)%nat.
Proof. induction 1; cbn; lia. Qed.
Lemma depth_child r rs : r ∈ rs → (depth r ≤ foldr (λ r n, max (depth r) n) 0 rs)%nat.
Proof. induction 1; cbn; lia. Qed.

Lemma rep_Size r l : rep r l → Size r = len l.
Proof.
  remember (depth r) as n eqn:Hn. assert (depth r ≤ n)%nat as Hd by lia. clear Hn. revert r l Hd.
  induction n as [|n IH]; intros r l Hd Hr; [pose proof (depth_pos r); lia|].
  destruct Hr as [d|d|d|b l o Hb Ho|b l k Hb Hk|b l k Hb Hk|b l o k Hb Ho Hk Hl|fs total l Ht ->|rs ls Hrs];
    cbn [depth Size] in *; try done.
  - rewrite (IH b l) by (done || lia). rewrite length_drop. lia.
  - rewrite length_take. lia.
  - rewrite length_app, length_replicate. lia.
  - rewrite length_sub; lia.
  - induction Hrs as [|r l rs ls Hr Hrs IHrs]; [done|]. cbn [foldr concat depth] in *. rewrite length_app.
    rewrite (IH r l) by (done || lia). rewrite IHrs by lia. lia.
Qed.

(** * Reading *)

(** What a read of the bytes [l] at [off] leaves in the buffer. *)
Definition read_of (l p : list Z) (off : Z) : read_result :=
  (overwrite p 0 (drop (Z.to_nat off) l), Z.min (len p) (len l - off), None).
(** The reader is right on the regions it is used on. *)
Definition reads (rd : reader) (r : region) : Prop :=
  ∀ l p off, rep r l → 0 ≤ off < len l → rd r p off = read_of l p off.

Lemma result_eq (q q' : list Z) (n n' : Z) : q = q' → n = n' → ((q, n, None) : read_result) = (q', n', None).
Proof. by intros -> ->. Qed.
(** Only the part of the source that fits matters. *)
Lemma overwrite_ext p s s' :
  take (length p) s = take (length p) s' → overwrite p 0 s = overwrite p 0 s'.
Proof. intros H. by rewrite <-(overwrite_take_src p (length p)), H, overwrite_take_src by lia. Qed.

Lemma read_limited_of rd l p off k :
  (∀ p, rd p = read_of l p off) → 0 ≤ off → 0 ≤ k ≤ len l - off →
  read_limited rd k p = read_of (take (Z.to_nat (off + k)) l) p off.
Proof.
  intros Hrd Ho Hk. unfold read_limited, read_of.
  replace (Z.to_nat (off + k)) with (Z.to_nat off + Z.to_nat k)%nat by lia.
  rewrite <-take_drop_commute.
  destruct (Z.gtb_spec (len p) k) as [Hp|Hp].
  - rewrite Hrd. unfold read_of. rewrite overwrite_limit by (rewrite ?length_drop; lia). rewrite !length_take.
    apply result_eq; [done|lia].
  - rewrite Hrd. unfold read_of. rewrite overwrite_take_src by lia. apply result_eq; [done|rewrite length_take; lia].
Qed.

Lemma read_padded rd b l p off size :
  rep b l → reads rd b → 0 ≤ off < size → len l ≤ size →
  padded_ReadAt rd b size p off = read_of (l ++ replicate (Z.to_nat (size - len l)) 0) p off.
Proof.
  intros Hb Hrd Ho Hl. unfold padded_ReadAt. rewrite (rep_Size b l) by done.
  assert (len (l ++ replicate (Z.to_nat (size - len l)) 0) = size) as Hlen
    by (rewrite length_app, length_replicate; lia).
  unfold read_of. rewrite Hlen. destruct (Z.ltb_spec off (len l)) as [Hlt|Hge].
  - rewrite (Hrd l) by (done || lia). unfold read_of. rewrite drop_app_le by lia. destruct (Z.ltb_spec (Z.min (len p) (len l - off)) (Z.min (len p) (size - off))).
    + replace (Z.to_nat (Z.min (len p) (len l - off))) with (0 + length (drop (Z.to_nat off) l))%nat
        by (rewrite length_drop; lia).
      rewrite overwrite_overwrite by (rewrite length_drop; lia). apply result_eq; [|done]. apply overwrite_ext.
      rewrite !take_app, !take_replicate, length_drop. do 2 f_equal. lia.
    + apply result_eq; [|done]. apply overwrite_ext.
      destruct (decide (len p ≤ len l - off)).
      * by rewrite take_app_le by (rewrite length_drop; lia).
      * replace (Z.to_nat (size - len l)) with 0%nat by lia. cbn [replicate]. by rewrite app_nil_r.
  - rewrite drop_app_ge, drop_replicate by lia.
    destruct (Z.ltb_spec 0 (Z.min (len p) (size - off))); apply result_eq; try done.
    + apply overwrite_ext. rewrite !take_replicate. f_equal. lia.
    + rewrite <-(overwrite_take_src p (length p)), take_replicate by lia.
      replace (_ `min` _)%nat with 0%nat by lia. by rewrite overwrite_nil.
Qed.

(** ** Arrays *)

Lemma read_array_done rd rs cur off n : read_array rd rs cur [] off n = ([], n, None).
Proof. by destruct rs. Qed.
Lemma read_array_of rd rs ls cur p off n :
  Forall (reads rd) rs → Forall2 rep rs ls → cur ≤ off ≤ cur + len (concat ls) →
  read_array rd rs cur p off n =
    (overwrite p 0 (drop (Z.to_nat (off - cur)) (concat ls)),
     n + Z.min (len p) (len (concat ls) - (off - cur)), None).
Proof.
  intros Hrd Hrs. revert cur p off n Hrd.
  induction Hrs as [|r l rs ls Hr Hrs IH]; intros cur p off n Hrd Ho; cbn [read_array concat] in *.
  { rewrite drop_nil, overwrite_nil. apply result_eq; [done|]. cbn [length] in *. lia. }
  apply Forall_cons in Hrd as [Hrd Hrds]. rewrite length_app in *.
  destruct (Z.eqb_spec (len p) 0) as [Hp|Hp].
  { destruct p; [|cbn in Hp; lia]. rewrite (overwrite_ext [] _ []), overwrite_nil by done.
    apply result_eq; [done|cbn [length]; lia]. }
  rewrite (rep_Size r l) by done. destruct (Z.leb_spec (cur + len l) off) as [Hs|Hs].
  - rewrite IH by (done || lia). rewrite drop_app_ge by lia. apply result_eq; [do 2 f_equal|]; lia.
  - rewrite (Hrd l) by (done || lia). unfold read_of.
    destruct (Z.gtb_spec (Z.min (len p) (len l - (off - cur)) + (off - cur)) (len l)); [lia|].
    destruct (decide (len p ≤ len l - (off - cur))) as [Hle|Hgt].
    + rewrite Z.min_l by lia. rewrite drop_ge by (rewrite length_overwrite; lia).
      rewrite take_ge by (rewrite length_overwrite; lia). rewrite read_array_done, app_nil_r.
      apply result_eq; [|lia]. rewrite drop_app_le by lia. apply overwrite_ext.
      by rewrite take_app_le by (rewrite length_drop; lia).
    + rewrite Z.min_r by lia. rewrite IH by (rewrite ?length_overwrite; done || lia).
      rewrite length_drop, length_overwrite. set (d := drop (Z.to_nat (off - cur)) l).
      assert (length d = Z.to_nat (len l - (off - cur))) as Hd by (unfold d; rewrite length_drop; lia).
      rewrite <-Hd. rewrite drop_app_le by lia. fold d.
      replace (Z.to_nat (off + (len l - (off - cur)) - (cur + len l))) with 0%nat by lia. rewrite drop_0.
      apply result_eq; [|lia].
      rewrite <-(overwrite_overwrite p 0 d) by lia. by rewrite overwrite_tail by (rewrite length_overwrite; lia).
Qed.

Lemma cumulative_nth sizes o k :
  (k < length sizes)%nat → nth k (cumulative sizes o) 0 = o + foldr Z.add 0 (take k sizes).
Proof.
  revert o k. induction sizes as [|s sizes IH]; intros o k Hk; cbn [length] in Hk; [lia|].
  destruct k; cbn [cumulative nth take foldr]; [lia|]. rewrite IH by lia. lia.
Qed.
Lemma cumulative_length sizes o : length (cumulative sizes o) = length sizes.
Proof. revert o. induction sizes; intros; cbn; auto. Qed.
Lemma sizes_concat rs ls : Forall2 rep rs ls → foldr Z.add 0 (Size <$> rs) = len (concat ls).
Proof.
  induction 1 as [|r l rs ls Hr Hrs IH]; [done|]. cbn. rewrite (rep_Size r l), IH, length_app by done. lia.
Qed.
Lemma cumulative_concat rs ls k :
  Forall2 rep rs ls → (k < length rs)%nat → nth k (cumulative (Size <$> rs) 0) 0 = len (concat (take k ls)).
Proof.
  intros Hrs Hk. rewrite cumulative_nth by (by rewrite length_fmap). rewrite <-fmap_take.
  rewrite (sizes_concat _ (take k ls)) by (by apply Forall2_take). lia.
Qed.

Lemma concat_take_le (ls : list (list Z)) a b :
  (a ≤ b)%nat → (length (concat (take a ls)) ≤ length (concat (take b ls)))%nat.
Proof.
  intros Hab. replace b with (a + (b - a))%nat by lia. rewrite <-take_take_drop, concat_app, length_app. lia.
Qed.

(** The search finds a region that starts at or before the offset. *)
Lemma findRegionIndex_spec rs ls off :
  Forall2 rep rs ls → 0 ≤ off → rs ≠ [] →
  ∃ k, findRegionIndex (cumulative (Size <$> rs) 0) off = Some k ∧ (k < length rs)%nat ∧
    nth k (cumulative (Size <$> rs) 0) 0 ≤ off.
Proof.
  intros Hrs Ho Hne. unfold findRegionIndex.
  assert (length (cumulative (Size <$> rs) 0) = length rs) as Hc by (by rewrite cumulative_length, length_fmap).
  assert (0 < length rs)%nat as Hl by (destruct rs; [done|cbn; lia]).
  destruct (cumulative (Size <$> rs) 0) as [|c cs] eqn:E; [cbn in Hc; lia|]. rewrite <-E in *. rewrite Hc.
  destruct (sort_Search_spec (length rs) (λ i, nth i (cumulative (Size <$> rs) 0) 0 >? off)) as (Hk & Hlo & Hhi).
  { intros a b Hab Hb Ha. apply Z.gtb_lt in Ha. apply Z.gtb_lt.
    rewrite (cumulative_concat rs ls) in Ha by (done || lia).
    rewrite (cumulative_concat rs ls) by (done || lia). pose proof (concat_take_le ls a b Hab). lia. }
  set (k := sort_Search _ _) in *. destruct (decide (k = 0%nat)) as [H0|H0].
  { specialize (Hhi 0%nat ltac:(lia)). apply Z.gtb_lt in Hhi.
    rewrite (cumulative_concat rs ls) in Hhi by done. rewrite take_0 in Hhi.
    cbn [concat length] in Hhi. lia. }
  exists (k - 1)%nat. split_and!; [done|lia|]. specialize (Hlo (k - 1)%nat ltac:(lia)).
  rewrite Z.gtb_ltb, Z.ltb_ge in Hlo. done.
Qed.

(** ** Fragments *)

Lemma tiled_bounds fs o l f :
  tiled fs o l → f ∈ fs → o ≤ start f ∧ start f < end_ f ∧ end_ f ≤ o + len l.
Proof.
  intros Ht. revert f. induction Ht as [o|r b o n fs l Hr Hn Ht IH]; intros f Hf; [by apply not_elem_of_nil in Hf|].
  rewrite length_app, length_take. apply elem_of_cons in Hf as [->|Hf].
  - unfold end_, start, frag_size. cbn. lia.
  - specialize (IH f Hf). lia.
Qed.
(** The fragments are in order. *)
Lemma tiled_sorted fs o l i j f g :
  tiled fs o l → fs !! i = Some f → fs !! j = Some g → (i < j)%nat → end_ f ≤ start g.
Proof.
  intros Ht. revert i j f g. induction Ht as [o|r b o n fs l Hr Hn Ht IH]; intros i j f g Hi Hj Hij; [done|].
  destruct j as [|j]; [lia|]. cbn in Hj. destruct i as [|i]; cbn in Hi; [|by apply (IH i j f g); [..|lia]].
  simplify_eq. destruct (tiled_bounds _ _ _ g Ht) as (H & _); [by eapply list_elem_of_lookup_2|].
  unfold end_, frag_size, start in *. cbn. lia.
Qed.

(** Fragments that do not overlap the range are not read. *)
Definition apart (rs n : Z) (f : regionFragment) : Prop := end_ f ≤ rs ∨ rs + n ≤ start f.
Lemma read_fragments_apart_l rd a b rs p :
  Forall (apart rs (len p)) a → read_fragments rd (a ++ b) rs p = read_fragments rd b rs p.
Proof.
  induction 1 as [|f a Hf Ha IH]; [done|]. cbn [app read_fragments].
  destruct (Z.geb_spec (Z.max (start f) rs) (Z.min (end_ f) (rs + len p))); [done|]. destruct Hf; lia.
Qed.
Lemma read_fragments_apart_r rd a b rs p :
  Forall (apart rs (len p)) b → read_fragments rd (a ++ b) rs p = read_fragments rd a rs p.
Proof.
  revert p. induction a as [|f a IH]; intros p Hb; cbn [app read_fragments].
  { rewrite <-(app_nil_r b). by rewrite read_fragments_apart_l. }
  destruct (_ >=? _); [auto|]. destruct (rd _ _ _) as [[q k] [e|]].
  - destruct (String.eqb e EOF); [|done]. apply IH. by rewrite length_overwrite.
  - apply IH. by rewrite length_overwrite.
Qed.

Lemma count_before_spec fs o l e :
  tiled fs o l → Forall (λ f, e ≤ start f) (drop (count_before e fs) fs).
Proof.
  induction 1 as [|r b o n fs l Hr Hn Ht IH]; [constructor|]. cbn [count_before].
  destruct (Z.geb_spec (start (r, o, n)) e) as [He|]; [|done]. cbn in He. constructor; [done|].
  apply Forall_forall. intros f Hf. destruct (tiled_bounds _ _ _ f Ht Hf). lia.
Qed.
Lemma tiled_drop fs o l k : tiled fs o l → ∃ o' l', tiled (drop k fs) o' l'.
Proof.
  intros Ht. revert k. induction Ht as [|r b o n fs l Hr Hn Ht IH]; intros k.
  - rewrite drop_nil. exists 0, []. constructor.
  - destruct k; [|apply IH]. do 2 eexists. by constructor.
Qed.

(** Reading the fragments found for the range reads all of them. *)
Lemma read_found rd fs l rs p :
  tiled fs 0 l → 0 ≤ rs →
  let '(startIdx, count) := findFragmentsForRange fs rs (len p) in
  read_fragments rd (take count (drop startIdx fs)) rs p = read_fragments rd fs rs p.
Proof.
  intros Ht Hrs. unfold findFragmentsForRange. destruct fs as [|f0 fs0] eqn:E; [done|]. rewrite <-E in *.
  clear E f0 fs0.
  destruct (sort_Search_spec (length fs) (λ i, end_ (nth i fs (RawRegion [], 0, 0)) >? rs)) as (Hk & Hlo & Hhi).
  { intros a b Hab Hb Ha. apply Z.gtb_lt in Ha. apply Z.gtb_lt.
    destruct (decide (a = b)) as [->|]; [done|].
    destruct (lookup_lt_is_Some_2 fs a) as [f Hf]; [lia|]. destruct (lookup_lt_is_Some_2 fs b) as [g Hg]; [lia|].
    rewrite (nth_lookup_Some _ _ _ f) in Ha by done. rewrite (nth_lookup_Some _ _ _ g) by done.
    pose proof (tiled_sorted _ _ _ _ _ _ _ Ht Hf Hg ltac:(lia)).
    destruct (tiled_bounds _ _ _ g Ht) as (_ & ? & _); [by eapply list_elem_of_lookup_2|]. lia. }
  set (k := sort_Search _ _) in *. rewrite <-(take_drop k fs) at 3.
  rewrite read_fragments_apart_l.
  - rewrite <-(take_drop (count_before (rs + len p) (drop k fs)) (drop k fs)) at 3.
    rewrite read_fragments_apart_r; [done|].
    destruct (tiled_drop fs 0 l k Ht) as (o' & l' & Ht').
    eapply Forall_impl; [by eapply count_before_spec|]. intros f Hf. by right.
  - apply Forall_forall. intros f Hf. apply list_elem_of_lookup in Hf as [i Hi].
    apply lookup_take_Some in Hi as [Hi Hlt]. left. specialize (Hlo i Hlt).
    rewrite (nth_lookup_Some _ _ _ f) in Hlo by done. rewrite Z.gtb_ltb, Z.ltb_ge in Hlo. done.
Qed.

(** The bytes [l] at position [o], seen through the window that starts at [rs]. *)
Definition place (p : list Z) (rs o : Z) (l : list Z) : list Z :=
  if rs <=? o then overwrite p (Z.to_nat (o - rs)) l else overwrite p 0 (drop (Z.to_nat (rs - o)) l).
Lemma lookup_place p rs o l i :
  place p rs o l !! i =
    if decide (i < length p)%nat then
      if decide (o ≤ rs + Z.of_nat i < o + len l) then l !! Z.to_nat (rs + Z.of_nat i - o) else p !! i
    else None.
Proof.
  unfold place. destruct (Z.leb_spec rs o); rewrite lookup_overwrite; destruct (decide (i < length p)%nat); try done.
  - repeat destruct (decide _); try lia; [f_equal; lia|done].
  - rewrite length_drop. repeat destruct (decide _); try lia; [rewrite lookup_drop; f_equal; lia|done].
Qed.

Lemma read_fragments_of rd fs o l rs p :
  Forall (λ f, reads rd (frag_region f)) fs → tiled fs o l →
  read_fragments rd fs rs p = (place p rs o l, len p, None).
Proof.
  intros Hrd Ht. revert p Hrd. induction Ht as [o|r b o n fs l Hr Hn Ht IH]; intros p Hrd; cbn [read_fragments].
  { apply result_eq; [|done]. apply list_eq. intros i. rewrite lookup_place. cbn [length].
    repeat destruct (decide _); try lia; [done|]. apply lookup_ge_None. lia. }
  apply Forall_cons in Hrd as [Hrd Hrds]. unfold end_, start, frag_size, frag_region. cbn [fst snd].
  unfold frag_region in Hrd. cbn [fst snd] in Hrd.
  set (s := Z.max o rs). set (e := Z.min (o + n) (rs + len p)).
  destruct (Z.geb_spec s e) as [Hse|Hse].
  - rewrite IH by done. apply result_eq; [|done]. apply list_eq. intros i. rewrite !lookup_place.
    rewrite length_app, length_take. destruct (decide (i < length p)%nat); [|done].
    repeat destruct (decide _); try lia; [|done].
    rewrite lookup_app_r by (rewrite length_take; lia). rewrite length_take. f_equal. lia.
  - rewrite (Hrd b) by (done || lia). unfold read_of. rewrite IH by done. rewrite length_overwrite.
    apply result_eq; [|done]. apply list_eq. intros i. rewrite !lookup_place, !length_overwrite.
    rewrite length_app, length_take. destruct (decide (i < length p)%nat); [|done].
    rewrite lookup_overwrite, length_overwrite, lookup_overwrite, length_drop.
    rewrite length_sub by lia.
    repeat destruct (decide _); try lia; try done.
    + rewrite lookup_app_r by (rewrite length_take; lia). rewrite length_take. f_equal. lia.
    + rewrite lookup_app_l by (rewrite length_take; lia). rewrite lookup_take_lt, lookup_drop by lia. f_equal. lia.
Qed.

Lemma fragmented_read_of rd fs l p off :
  tiled fs 0 l → 0 ≤ off < len l → Forall (λ f, reads rd (frag_region f)) fs →
  fragmented_ReadAt rd fs (len l) p off = read_of l p off.
Proof.
  intros Ht Ho Hrd. unfold fragmented_ReadAt. set (k := Z.min (len p) (len l - off)). rewrite length_take, Nat.min_l by lia.
  destruct (Z.eqb_spec (Z.of_nat (Z.to_nat k)) 0) as [Hk|Hk].
  { destruct p; [|cbn [length] in *; lia]. unfold read_of.
    rewrite (overwrite_ext [] _ []), overwrite_nil by done. apply result_eq; [done|cbn [length]; lia]. }
  pose proof (read_found rd fs l off (replicate (Z.to_nat k) 0) Ht ltac:(lia)) as Hf.
  rewrite length_replicate in Hf. destruct (findFragmentsForRange _ _ _) as [si c]. rewrite Hf.
  rewrite (read_fragments_of _ _ 0 l) by done. unfold read_of. rewrite length_replicate.
  apply result_eq; [|lia]. apply list_eq. intros i.
  rewrite lookup_overwrite, lookup_app, lookup_place, length_replicate, length_drop, lookup_drop.
  assert (length (place (replicate (Z.to_nat k) 0) off 0 l) = Z.to_nat k) as Hlen
    by (unfold place; case_match; by rewrite length_overwrite, length_replicate).
  destruct (decide (i < Z.to_nat k)%nat).
  - repeat destruct (decide _); try lia. rewrite lookup_drop, Nat.sub_0_r.
    destruct (lookup_lt_is_Some_2 l (Z.to_nat off + i)) as [x Hx]; [lia|].
    rewrite Hx. replace (Z.to_nat (off + Z.of_nat i - 0)) with (Z.to_nat off + i)%nat by lia. by rewrite Hx.
  - rewrite Hlen, lookup_drop. replace (Z.to_nat k + (i - Z.to_nat k))%nat with i by lia.
    repeat destruct (decide _); try lia; [done|]. apply lookup_ge_None. lia.
Qed.

(** ** The whole tree *)

Lemma read_region_of fuel r l p off :
  (depth r ≤ fuel)%nat → rep r l → 0 ≤ off < len l → read_region fuel r p off = read_of l p off.
Proof.
  revert r l p off. induction fuel as [|fuel IH]; intros r l p off Hd Hr Ho; [pose proof (depth_pos r); lia|].
  assert (boundsCheck r off = None) as Hb.
  { unfold boundsCheck. rewrite (rep_Size r l) by done.
    destruct (Z.ltb_spec off 0); [lia|]. destruct (Z.geb_spec off (len l)); [lia|done]. }
  cbn [read_region]. rewrite Hb.
  destruct Hr as [d|d|d|b l o Hb' Hl|b l k Hb' Hl|b l k Hb' Hl|b l o k Hb' Hl Hk Hlk|fs total l Ht ->|rs ls Hrs];
    cbn [depth] in Hd; try done; unfold file_ReadAt, offset_ReadAt, truncated_ReadAt, slice_ReadAt, array_ReadAt.
  - apply result_eq; [done|]. rewrite length_drop. lia.
  - rewrite length_drop in Ho. rewrite (IH b l) by (done || lia). unfold read_of.
    rewrite drop_drop, length_drop. apply result_eq; [do 2 f_equal|]; lia.
  - rewrite length_take in Ho. rewrite (read_limited_of _ l _ off) by first [lia|intros; apply IH; done || lia].
    do 2 f_equal. lia.
  - rewrite length_app, length_replicate in Ho. apply read_padded; [done| |lia|done].
    intros l' q o Hl' Ho'. apply IH; [lia|done|done].
  - rewrite length_sub in Ho by lia.
    rewrite (read_limited_of _ (drop (Z.to_nat o) l) _ off).
    + unfold sub. do 2 f_equal. lia.
    + intros q. rewrite (IH b l) by (done || lia). unfold read_of. rewrite drop_drop, length_drop.
      apply result_eq; [do 2 f_equal|]; lia.
    + lia.
    + rewrite length_drop. lia.
  - rewrite fragmented_read_of; [|done|lia|]. 1: done.
    apply Forall_forall. intros f Hf l' q o Hf' Ho'. apply IH; [|done..].
    apply depth_fragment in Hf. unfold frag_region. lia.
  - assert (rs ≠ []) as Hne by (destruct Hrs; [cbn in Ho; lia|done]).
    destruct (findRegionIndex_spec rs ls off Hrs ltac:(lia) Hne) as (k & -> & Hk & Hc).
    rewrite (cumulative_concat rs ls) in * by done.
    assert (concat ls = concat (take k ls) ++ concat (drop k ls)) as Hcat by (by rewrite <-concat_app, take_drop).
    rewrite Hcat, length_app in Ho. rewrite (read_array_of _ _ (drop k ls)).
    + unfold read_of. rewrite Hcat, length_app, drop_app_ge by lia. apply result_eq; [do 2 f_equal|]; lia.
    + apply Forall_forall. intros r Hin l q o Hr Ho'. apply IH; [|done..].
      assert (r ∈ rs) as Hr' by (rewrite <-(take_drop k rs); apply elem_of_app; by right).
      apply depth_child in Hr'. lia.
    + by apply Forall2_drop.
    + lia.
Qed.
