(* ===== verification/RegionWrite.v ===== *)
(** Changing regions of a disk image: the [WriteAt] methods of
    src/internal/fsimage/vm and the splitting of a page into fragments
    ([offsetAt], [cutAt], [mapFragment] and [newFragmentRegion] of
    fragmented.go).

    [write_region] returns the changed region with the count and the error.
    A region is a tree, so two views of one object are two trees here: the
    theorems speak of a write through one view.  [mapFragment] is not handed a
    nil region.

    The theorems: a write through raw, offset, truncated, slice and array
    regions changes exactly the bytes it names; mapping a region over a
    fragmented page overlays its bytes and keeps the fragments a tiling of
    the page; a padded region reports a wrong count. *)
From S2P Require Import Prelude Regions.

(** * Writing *)

Definition write_result : Type := region * Z * option string.
Definition writer : Type := region → list Z → Z → write_result.

(** The loop over the fragments of the range, [n] bytes written before. *)
Fixpoint write_fragments (wr : writer) (fs : list regionFragment) (p : list Z) (off n : Z)
    : list regionFragment * Z * option string :=
  match fs with
  | [] => ([], n, None)
  | ((r, o, size) as f) :: fs =>
    if o + size <=? off then
      let '(fs', n', e) := write_fragments wr fs p off n in (f :: fs', n', e)
    else
      let fragOffset := off - o in
      let '(r', childN, e) := wr r (if len p >? size then take (Z.to_nat size) p else p) fragOffset in
      match e with
      | Some _ => ((r', o, size) :: fs, n + childN, e)
      | None =>
        let p := drop (Z.to_nat childN) p in
        if len p =? 0 then ((r', o, size) :: fs, n + childN, None)
        else
          let '(fs', n', e') := write_fragments wr fs p (o + size) (n + childN) in
          ((r', o, size) :: fs', n', e')
      end
  end.

Fixpoint write_array (wr : writer) (rs : list region) (currentOffset : Z) (p : list Z) (off n : Z)
    : list region * Z * option string :=
  match rs with
  | [] => ([], n, None)
  | child :: rs =>
    if len p =? 0 then (child :: rs, n, None)
    else
      let childLen := Size child in
      if currentOffset + childLen <=? off then
        let '(rs', n', e) := write_array wr rs (currentOffset + childLen) p off n in (child :: rs', n', e)
      else
        let '(child', childN, e) := wr child p (off - currentOffset) in
        match e with
        | Some _ => (child' :: rs, n + childN, e)
        | None =>
          let '(rs', n', e') :=
            write_array wr rs (currentOffset + childLen) (drop (Z.to_nat childN) p) (off + childN) (n + childN) in
          (child' :: rs', n', e')
        end
  end.

(** At most [k] bytes of the buffer. *)
Definition limited (k : Z) (p : list Z) : list Z := if len p >? k then take (Z.to_nat k) p else p.

(** The [WriteAt] of each kind of region after its bounds check, with the
    writer for the regions below it. *)
Definition raw_WriteAt (d p : list Z) (off : Z) : write_result :=
  (RawRegion (overwrite d (Z.to_nat off) p), Z.min (len p) (len d - off), None).
Definition bitmap_WriteAt (d p : list Z) (off : Z) : write_result :=
  (BitmapRegion (overwrite d (Z.to_nat off) p), Z.min (len p) (len d - off), None).
Definition file_WriteAt (file : list Z) (size : Z) : write_result :=
  (FileRegion file size, 0, Some "region is read only").
Definition offset_WriteAt (wr : writer) (b : region) (o : Z) (p : list Z) (off : Z) : write_result :=
  let '(b', n, e) := wr b p (off + o) in (OffsetRegion b' o, n, e).
Definition truncated_WriteAt (wr : writer) (b : region) (max : Z) (p : list Z) (off : Z) : write_result :=
  let '(b', n, e) := wr b (limited (max - off) p) off in (TruncatedRegion b' max, n, e).
Definition slice_WriteAt (wr : writer) (b : region) (o size : Z) (p : list Z) (off : Z) : write_result :=
  let '(b', n, e) := wr b (limited (size - off) p) (o + off) in (directSliceRegion b' o size, n, e).
Definition padded_WriteAt (wr : writer) (b : region) (size : Z) (p : list Z) (off : Z) : write_result :=
  if off >? Size b then (PaddedRegion b size, Z.min (size - Size b) (len p), None)
  else
    let '(b', childN, e) := wr b p off in
    let n := childN in
    match e with
    | Some _ => (PaddedRegion b' size, n, e)
    | None => (PaddedRegion b' size, n + (Z.min (size - Size b) (len p) - n), None)
    end.
Definition fragmented_WriteAt (wr : writer) (fs : list regionFragment) (total : Z) (p : list Z) (off : Z) : write_result :=
  let '(startIdx, count) := findFragmentsForRange fs off (len p) in
  let '(fs', n, e) := write_fragments wr (take count (drop startIdx fs)) p off 0 in
  (fragmentedRegion (take startIdx fs ++ fs' ++ drop (startIdx + count) fs) total, n, e).
Definition array_WriteAt (wr : writer) (rs : list region) (p : list Z) (off : Z) : write_result :=
  let cum := cumulative (Size <$> rs) 0 in
  match findRegionIndex cum off with
  | None => (RegionArray rs, 0, None)
  | Some startIdx =>
    let '(rs', n, e) := write_array wr (drop startIdx rs) (nth startIdx cum 0) p off 0 in
    (RegionArray (take startIdx rs ++ rs'), n, e)
  end.

Fixpoint write_region (fuel : nat) (r : region) (p : list Z) (off : Z) : write_result :=
  match fuel with
  | O => (r, 0, Some "out of fuel")
  | S fuel =>
    match boundsCheck r off with
    | Some e => (r, 0, Some e)
    | None =>
      match r with
      | RawRegion d => raw_WriteAt d p off
      | BitmapRegion d => bitmap_WriteAt d p off
      | FileRegion file size => file_WriteAt file size
      | OffsetRegion b o => offset_WriteAt (write_region fuel) b o p off
      | TruncatedRegion b max => truncated_WriteAt (write_region fuel) b max p off
      | directSliceRegion b o size => slice_WriteAt (write_region fuel) b o size p off
      | PaddedRegion b size => padded_WriteAt (write_region fuel) b size p off
      | fragmentedRegion fs total => fragmented_WriteAt (write_region fuel) fs total p off
      | RegionArray rs => array_WriteAt (write_region fuel) rs p off
      end
    end
  end.
Module RegionW.
Definition WriteAt (r : region) (p : list Z) (off : Z) : write_result := write_region (depth r) r p off.
End RegionW.

(** * Splitting a page *)

(** The fragment from [off] on, and up to [off]. *)
Definition offsetAt (f : regionFragment) (off : Z) : option regionFragment :=
  if (off <? 0) || (off >? frag_size f) then None
  else Some (NewOffsetRegion (frag_region f) off, start f + off, frag_size f - off).
Definition cutAt (f : regionFragment) (off : Z) : option regionFragment :=
  if (off <? 0) || (off >? frag_size f) then None
  else Some (frag_region f, start f, off).

(** The loop of [mapFragment] over the old fragments. *)
Fixpoint map_loop (nf : regionFragment) (fs : list regionFragment) (inserted : bool)
    : list regionFragment + string :=
  match fs with
  | [] => inl (if inserted then [] else [nf])
  | old :: fs =>
    if (end_ old <=? start nf) || (start old >=? end_ nf) then
      let insert := negb inserted && (end_ nf <=? start old) in
      match map_loop nf fs (inserted || insert) with
      | inl l => inl ((if insert then [nf] else []) ++ old :: l)
      | inr e => inr e
      end
    else
      match (if start old <? start nf then option_map (λ f, [f]) (cutAt old (start nf - start old)) else Some []) with
      | None => inr "invalid left fragment split"
      | Some lft =>
        let mid := if inserted then [] else [nf] in
        match (if end_ old >? end_ nf then option_map (λ f, [f]) (offsetAt old (end_ nf - start old)) else Some []) with
        | None => inr "invalid right fragment split"
        | Some rgt =>
          match map_loop nf fs true with
          | inl l => inl (lft ++ mid ++ rgt ++ l)
          | inr e => inr e
          end
        end
      end
  end.
Definition mapFragment (fs : list regionFragment) (totalSize : Z) (frag : region) (off : Z)
    : list regionFragment + string :=
  if (off <? 0) || (off >? totalSize) then inr "fragment offset is outside the region"
  else
    let size := Size frag in
    if (size <? 0) || (size >? totalSize - off) then inr "fragment size exceeds region size"
    else if size =? 0 then inl fs
    else map_loop (frag, off, size) fs false.
Definition newFragmentRegion (pageSize : Z) : region :=
  fragmentedRegion [(RawRegion (replicate (Z.to_nat pageSize) 0), 0, pageSize)] pageSize.

(** ** Views stand for parts of the bytes *)

Lemma rep_NewOffsetRegion r l o :
  rep r l → 0 ≤ o ≤ len l → rep (NewOffsetRegion r o) (drop (Z.to_nat o) l).
Proof.
  intros Hr Ho. unfold NewOffsetRegion. destruct (Z.eqb_spec o 0) as [->|Hne]; [done|].
  destruct Hr; try (by constructor; [constructor|]); try (constructor; [by constructor|done]).
  rewrite length_drop in Ho. rewrite drop_drop.
  replace (Z.to_nat o0 + Z.to_nat o)%nat with (Z.to_nat (o0 + o)) by lia. constructor; [done|lia].
Qed.
Lemma rep_NewTruncatedRegion r l n : rep r l → 0 ≤ n → rep (NewTruncatedRegion r n) (take (Z.to_nat n) l).
Proof.
  intros Hr Hn. unfold NewTruncatedRegion. rewrite (rep_Size r l) by done.
  destruct (Z.ltb_spec (len l) n); [by rewrite take_ge by lia|]. constructor; [done|lia].
Qed.
Lemma rep_newFragmentRegion ps : 0 < ps → rep (newFragmentRegion ps) (replicate (Z.to_nat ps) 0).
Proof.
  intros Hps. constructor; [|rewrite length_replicate; lia].
  pose proof (tiled_cons (RawRegion (replicate (Z.to_nat ps) 0)) (replicate (Z.to_nat ps) 0) 0 ps [] []) as H.
  rewrite take_replicate, Nat.min_id, app_nil_r in H. apply H; [constructor|rewrite length_replicate; lia|constructor].
Qed.

(** ** Mapping keeps the tiling *)

Ltac frag_simpl :=
  repeat match goal with
  | |- context [start (?r, ?o, ?n)] => change (start (r, o, n)) with o
  | |- context [end_ (?r, ?o, ?n)] => change (end_ (r, o, n)) with (o + n)
  | |- context [frag_size (?r, ?o, ?n)] => change (frag_size (r, o, n)) with n
  | |- context [frag_region (?r, ?o, ?n)] => change (frag_region (r, o, n)) with r
  end.

Lemma offsetAt_eq r o n k : 0 ≤ k ≤ n → offsetAt (r, o, n) k = Some (NewOffsetRegion r k, o + k, n - k).
Proof.
  intros Hk. unfold offsetAt. frag_simpl. destruct (Z.ltb_spec k 0); [lia|]. by destruct (Z.gtb_spec k n); [lia|].
Qed.
Lemma cutAt_eq r o n k : 0 ≤ k ≤ n → cutAt (r, o, n) k = Some (r, o, k).
Proof.
  intros Hk. unfold cutAt. frag_simpl. destruct (Z.ltb_spec k 0); [lia|]. by destruct (Z.gtb_spec k n); [lia|].
Qed.

(** The part of a fragment after a position. *)
Lemma tiled_right r b o n k fs l :
  rep r b → 0 ≤ k < n → n ≤ len b → tiled fs (o + n) l →
  tiled ((NewOffsetRegion r k, o + k, n - k) :: fs) (o + k) (drop (Z.to_nat k) (take (Z.to_nat n) b) ++ l).
Proof.
  intros Hr Hk Hn Ht.
  replace (drop (Z.to_nat k) (take (Z.to_nat n) b)) with (take (Z.to_nat (n - k)) (drop (Z.to_nat k) b)).
  - constructor; [apply rep_NewOffsetRegion; [done|lia]|rewrite length_drop; lia|].
    by replace (o + k + (n - k)) with (o + n) by lia.
  - rewrite take_drop_commute. do 2 f_equal. lia.
Qed.

(** After the new fragment is in, what it covers is dropped. *)
Lemma map_loop_inserted nf fs o l :
  tiled fs o l → start nf ≤ o → end_ nf ≤ o + len l →
  ∃ fs', map_loop nf fs true = inl fs' ∧ tiled fs' (Z.max o (end_ nf)) (drop (Z.to_nat (end_ nf - o)) l).
Proof.
  intros Ht. induction Ht as [o|r b o n fs l Hr Hn Ht IH]; intros Hs He.
  { exists []. split; [done|]. rewrite drop_nil. constructor. }
  rewrite length_app, length_take in He. cbn [map_loop orb negb andb]. frag_simpl.
  destruct IH as (fs' & -> & Ht'); [lia|lia|].
  destruct ((o + n <=? start nf) || (o >=? end_ nf)) eqn:Hap.
  { exists ((r, o, n) :: fs'). split; [done|].
    apply orb_true_iff in Hap as [H%Z.leb_le|H]; [lia|]. rewrite Z.geb_leb, Z.leb_le in H.
    rewrite Z.max_l in * by lia. replace (Z.to_nat (end_ nf - o)) with 0%nat by lia.
    replace (Z.to_nat (end_ nf - (o + n))) with 0%nat in Ht' by lia. by constructor. }
  apply orb_false_iff in Hap as [H1%Z.leb_gt H2]. rewrite Z.geb_leb, Z.leb_gt in H2.
  destruct (Z.ltb_spec o (start nf)) as [H3|_]; [lia|]. rewrite (Z.max_r o) by lia.
  destruct (Z.gtb_spec (o + n) (end_ nf)) as [Hgt|Hle].
  - rewrite offsetAt_eq by lia. cbn [option_map app]. eexists. split; [done|].
    rewrite Z.max_l in Ht' by lia. replace (Z.to_nat (end_ nf - (o + n))) with 0%nat in Ht' by lia.
    rewrite drop_app_le by (rewrite length_take; lia).
    pose proof (tiled_right r b o n (end_ nf - o) fs' l Hr ltac:(lia) ltac:(lia) Ht') as H.
    by replace (o + (end_ nf - o)) with (end_ nf) in * by lia.
  - cbn [app]. eexists. split; [done|]. rewrite drop_app_ge by (rewrite length_take; lia). rewrite length_take.
    rewrite Z.max_r in Ht' by lia.
    replace (Z.to_nat (end_ nf - o) - _)%nat with (Z.to_nat (end_ nf - (o + n))) by lia. done.
Qed.

(** The new fragment with what follows it. *)
Lemma map_loop_mid frag c off size r b o n fs l :
  rep frag c → size = len c → 0 < size → rep r b → n ≤ len b → tiled fs (o + n) l →
  o ≤ off < o + n → off + size ≤ o + n + len l →
  ∃ fs', map_loop (frag, off, size) fs true = inl fs' ∧
    ∀ rgt, (if o + n >? off + size then option_map (λ f, [f]) (offsetAt (r, o, n) (off + size - o)) else Some [])
             = Some rgt →
    tiled ((frag, off, size) :: rgt ++ fs') off
      (c ++ drop (Z.to_nat (off + size - o)) (take (Z.to_nat n) b ++ l)).
Proof.
  intros Hf Hsz Hpos Hr Hn Ht Ho He.
  destruct (map_loop_inserted (frag, off, size) fs (o + n) l Ht) as (fs' & Hm & Ht'); frag_simpl; [lia|lia|].
  exists fs'. split; [done|]. frag_simpl. intros rgt Hrgt.
  rewrite <-(take_ge c (Z.to_nat size)) by lia. constructor; [done|lia|].
  destruct (Z.gtb_spec (o + n) (off + size)) as [Hgt|Hle].
  - rewrite offsetAt_eq in Hrgt by lia. cbn in Hrgt. simplify_eq. cbn [app].
    rewrite drop_app_le by (rewrite length_take; lia).
    unfold end_, start, frag_size in Ht'. cbn [fst snd] in Ht'. rewrite Z.max_l in Ht' by lia.
    replace (Z.to_nat (off + len c - (o + n))) with 0%nat in Ht' by lia.
    pose proof (tiled_right r b o n (off + len c - o) fs' l Hr ltac:(lia) ltac:(lia) Ht') as H.
    by replace (o + (off + len c - o)) with (off + len c) in * by lia.
  - simplify_eq. cbn [app]. rewrite drop_app_ge by (rewrite length_take; lia). rewrite length_take.
    unfold end_, start, frag_size in Ht'. cbn [fst snd] in Ht'. rewrite Z.max_r in Ht' by lia.
    replace (Z.to_nat (off + len c - o) - _)%nat with (Z.to_nat (off + len c - (o + n))) by lia. done.
Qed.

Lemma map_loop_spec frag c off fs o l :
  rep frag c → 0 < len c → tiled fs o l → o ≤ off → off + len c ≤ o + len l →
  ∃ fs', map_loop (frag, off, len c) fs false = inl fs' ∧ tiled fs' o (overwrite l (Z.to_nat (off - o)) c).
Proof.
  intros Hf Hc Ht. induction Ht as [o|r b o n fs l Hr Hn Ht IH]; intros Ho He; [cbn in He; lia|].
  rewrite length_app, length_take in He. cbn [map_loop orb negb andb]. frag_simpl.
  destruct (Z.leb_spec (o + n) off) as [Hle|Hgt]; cbn [orb].
  - destruct IH as (fs' & IH & Ht'); [lia|lia|]. destruct (Z.leb_spec (off + len c) o); [lia|].
    cbn [app]. rewrite IH. eexists. split; [done|].
    replace (overwrite _ _ _) with (take (Z.to_nat n) b ++ overwrite l (Z.to_nat (off - (o + n))) c).
    + by constructor.
    + unfold overwrite. rewrite take_app, length_app, length_take, drop_app, length_take, <-app_assoc.
      rewrite (take_ge (take _ _)) by (rewrite length_take; lia).
      rewrite (drop_ge (take _ _)) by (rewrite length_take; lia). cbn [app].
      f_equal. f_equal; [f_equal; lia|]. f_equal; f_equal; lia.
  - destruct (Z.geb_spec o (off + len c)); [lia|].
    destruct (map_loop_mid frag c off (len c) r b o n fs l) as (fs' & -> & Hmid); [done|done|lia|done|lia|done|lia|lia|].
    set (w := if o + n >? off + len c then _ else _) in *.
    assert (∃ rgt, w = Some rgt) as [rgt Hw].
    { subst w. destruct (Z.gtb_spec (o + n) (off + len c)); [|eauto]. rewrite offsetAt_eq by lia. cbn. eauto. }
    specialize (Hmid rgt Hw).
    replace (overwrite _ _ _) with (take (Z.to_nat (off - o)) b ++ (c ++ drop (Z.to_nat (off + len c - o)) (take (Z.to_nat n) b ++ l))).
    + destruct (Z.ltb_spec o off) as [Hlt|Heq].
      * rewrite cutAt_eq by lia. cbn [option_map]. rewrite Hw. eexists. split; [done|]. cbn [app].
        constructor; [done|lia|]. by replace (o + (off - o)) with off by lia.
      * replace off with o in * by lia. rewrite Hw. eexists. split; [done|].
        replace (Z.to_nat (o - o)) with 0%nat by lia. by rewrite take_0.
    + unfold overwrite. rewrite take_app_le, take_take, Nat.min_l by (rewrite ?length_take; lia). f_equal.
      rewrite (take_ge c) by (rewrite length_app, length_take; lia). f_equal. f_equal. lia.
Qed.

(** Mapping a region over a fragmented page overlays its bytes. *)
Lemma mapFragment_spec fs total l frag c off :
  rep (fragmentedRegion fs total) l → rep frag c → 0 ≤ off → off + len c ≤ len l →
  ∃ fs', mapFragment fs total frag off = inl fs' ∧
    rep (fragmentedRegion fs' total) (overwrite l (Z.to_nat off) c).
Proof.
  intros Hr Hf Ho Hc. inversion Hr as [| | | | | | |? ? ? Ht Htot|]; subst. unfold mapFragment.
  rewrite (rep_Size frag c) by done.
  destruct (Z.ltb_spec off 0); [lia|]. destruct (Z.gtb_spec off (len l)); [lia|].
  destruct (Z.ltb_spec (len c) 0); [lia|]. destruct (Z.gtb_spec (len c) (len l - off)); [lia|]. cbn [orb].
  destruct (Z.eqb_spec (len c) 0) as [Hz|Hz].
  - exists fs. split; [done|]. destruct c; [|cbn in Hz; lia]. by rewrite overwrite_nil.
  - destruct (map_loop_spec frag c off fs 0 l) as (fs' & -> & Ht'); [done|lia|done|lia|lia|].
    exists fs'. split; [done|]. rewrite Z.sub_0_r in Ht'. constructor; [done|by rewrite length_overwrite].
Qed.

(** * A write changes the bytes it names *)

(** Regions without files, padding and fragments. *)
Fixpoint writable (r : region) : bool :=
  match r with
  | RawRegion _ | BitmapRegion _ => true
  | OffsetRegion b _ | TruncatedRegion b _ | directSliceRegion b _ _ => writable b
  | RegionArray rs => forallb writable rs
  | FileRegion _ _ | PaddedRegion _ _ | fragmentedRegion _ _ => false
  end.

(** What a write of [p] at [off] makes of the bytes [l]. *)
Definition wrote (r' : region) (n : Z) (e : option string) (l p : list Z) (off : Z) : Prop :=
  rep r' (overwrite l (Z.to_nat off) p) ∧ n = Z.min (len p) (len l - off) ∧ e = None.
Definition writes (wr : writer) (r : region) : Prop :=
  ∀ l p off r' n e, rep r l → writable r = true → 0 ≤ off < len l → wr r p off = (r', n, e) → wrote r' n e l p off.

Lemma write_array_done wr rs cur off n : write_array wr rs cur [] off n = (rs, n, None).
Proof. by destruct rs. Qed.
Lemma write_array_of wr rs ls cur p off n rs' n' e :
  Forall (writes wr) rs → forallb writable rs = true → Forall2 rep rs ls → cur ≤ off ≤ cur + len (concat ls) →
  write_array wr rs cur p off n = (rs', n', e) →
  ∃ ls', Forall2 rep rs' ls' ∧ concat ls' = overwrite (concat ls) (Z.to_nat (off - cur)) p ∧
    n' = n + Z.min (len p) (len (concat ls) - (off - cur)) ∧ e = None.
Proof.
  intros Hwr Hw Hrs. revert cur p off n rs' n' e Hwr Hw.
  induction Hrs as [|r l rs ls Hr Hrs IH]; intros cur p off n rs' n' e Hwr Hw Ho E; cbn [write_array concat] in *.
  { simplify_eq. exists []. split_and!; [constructor| |cbn [length] in *; lia|done].
    symmetry. apply length_zero_iff_nil. by rewrite length_overwrite. }
  apply Forall_cons in Hwr as [Hwr Hwrs]. cbn in Hw. apply andb_true_iff in Hw as [Hw Hws].
  rewrite length_app in *. destruct (Z.eqb_spec (len p) 0) as [Hp|Hp].
  { simplify_eq. destruct p; [|cbn in Hp; lia]. exists (l :: ls). rewrite overwrite_nil.
    split_and!; [by constructor|done|cbn [length]; lia|done]. }
  rewrite (rep_Size r l) in E by done. destruct (Z.leb_spec (cur + len l) off) as [Hs|Hs].
  - destruct (write_array wr rs _ _ _ _) as [[rs1 n1] e1] eqn:E1.
    apply IH in E1 as (ls' & H1 & H2 & H3 & H4); [|done|done|lia]. simplify_eq.
    exists (l :: ls'). split_and!; [by constructor| |lia|done]. cbn [concat]. rewrite H2.
    rewrite overwrite_app_r by lia. do 2 f_equal. lia.
  - destruct (wr r p (off - cur)) as [[r1 n1] e1] eqn:E1.
    apply (Hwr l) in E1 as (H1 & H2 & ->); [|done|done|lia].
    destruct (write_array wr rs _ _ _ _) as [[rs2 n2] e2] eqn:E2. simplify_eq.
    destruct (decide (len p ≤ len l - (off - cur))) as [Hle|Hgt].
    + rewrite drop_ge in E2 by lia. rewrite write_array_done in E2. simplify_eq.
      exists (overwrite l (Z.to_nat (off - cur)) p :: ls). split_and!; [by constructor| |lia|done].
      cbn [concat]. by rewrite overwrite_app_l by lia.
    + rewrite Z.min_r in E2 by lia.
      apply IH in E2 as (ls' & H5 & H6 & H7 & H8); [|done|done|lia].
      exists (overwrite l (Z.to_nat (off - cur)) p :: ls'). rewrite length_drop in H7.
      split_and!; [by constructor| |lia|done]. cbn [concat]. rewrite H6.
      rewrite overwrite_app_split by lia. f_equal. f_equal; [lia|]. f_equal. lia.
Qed.

(** Bytes written to a view of part of the bytes. *)
Lemma overwrite_drop (l p : list Z) o k : drop o (overwrite l (o + k) p) = overwrite (drop o l) k p.
Proof.
  apply list_eq. intros i. rewrite lookup_drop, !lookup_overwrite, length_drop, lookup_drop.
  repeat destruct (decide _); try lia; try done. f_equal. lia.
Qed.
Lemma overwrite_take (l p : list Z) n k : take n (overwrite l k p) = overwrite (take n l) k p.
Proof.
  apply list_eq. intros i. destruct (decide (i < n)%nat).
  - rewrite lookup_take_lt, !lookup_overwrite, length_take, lookup_take_lt by done.
    repeat destruct (decide _); try lia; done.
  - rewrite lookup_take_ge by lia. symmetry. apply lookup_ge_None. rewrite length_overwrite, length_take. lia.
Qed.
Lemma overwrite_limited (l p : list Z) k n :
  (length l ≤ k + n)%nat → overwrite l k (take n p) = overwrite l k p.
Proof.
  intros Hl. apply list_eq. intros i. rewrite !lookup_overwrite, length_take.
  repeat destruct (decide _); try lia; try done. by rewrite lookup_take_lt by lia.
Qed.
Lemma limited_eq k p : 0 ≤ k → limited k p = take (Z.to_nat k) p.
Proof. intros Hk. unfold limited. destruct (Z.gtb_spec (len p) k); [done|]. by rewrite take_ge by lia. Qed.

Lemma write_region_of fuel r : (depth r ≤ fuel)%nat → writes (write_region fuel) r.
Proof.
  revert r. induction fuel as [|fuel IH]; intros r Hd l p off r' n e Hr Hw Ho E; [pose proof (depth_pos r); lia|].
  assert (boundsCheck r off = None) as Hb.
  { unfold boundsCheck. rewrite (rep_Size r l) by done.
    destruct (Z.ltb_spec off 0); [lia|]. destruct (Z.geb_spec off (len l)); [lia|done]. }
  cbn [write_region] in E. rewrite Hb in E. clear Hb.
  destruct Hr as [d|d|d|b l o Hb Hl|b l k Hb Hl|b l k Hb Hl|b l o k Hb Hl Hk Hlk|fs total l Ht ->|rs ls Hrs];
    cbn [depth writable] in Hd, Hw; try done;
    unfold raw_WriteAt, bitmap_WriteAt, offset_WriteAt, truncated_WriteAt, slice_WriteAt, array_WriteAt in E.
  - simplify_eq. split_and!; [constructor|done|done].
  - simplify_eq. split_and!; [constructor|done|done].
  - destruct (write_region fuel b p (off + o)) as [[b' n1] e1] eqn:E1. simplify_eq. rewrite length_drop in Ho.
    apply (IH b ltac:(lia) l) in E1 as (H1 & H2 & H3); [|done|done|lia]. unfold wrote. rewrite length_drop.
    split_and!; [|lia|done]. rewrite <-overwrite_drop. replace (Z.to_nat (off + o)) with (Z.to_nat o + Z.to_nat off)%nat in H1 by lia.
    constructor; [done|]. rewrite length_overwrite. lia.
  - destruct (write_region fuel b _ off) as [[b' n1] e1] eqn:E1. simplify_eq. rewrite length_take in Ho.
    rewrite limited_eq in E1 by lia.
    apply (IH b ltac:(lia) l) in E1 as (H1 & H2 & H3); [|done|done|lia]. rewrite length_take in H2.
    unfold wrote. rewrite length_take. split_and!; [|lia|done].
    rewrite <-(overwrite_limited _ p _ (Z.to_nat (k - off))) by (rewrite length_take; lia).
    rewrite <-overwrite_take. constructor; [done|]. rewrite length_overwrite. lia.
  - destruct (write_region fuel b _ (o + off)) as [[b' n1] e1] eqn:E1. simplify_eq. rewrite length_sub in Ho by lia.
    rewrite limited_eq in E1 by lia.
    apply (IH b ltac:(lia) l) in E1 as (H1 & H2 & H3); [|done|done|lia]. rewrite length_take in H2.
    unfold wrote. rewrite length_sub by lia. split_and!; [|lia|done].
    rewrite <-(overwrite_limited _ p _ (Z.to_nat (k - off))) by (rewrite length_sub; lia).
    unfold sub. rewrite <-overwrite_take, <-overwrite_drop.
    replace (Z.to_nat (o + off)) with (Z.to_nat o + Z.to_nat off)%nat in H1 by lia.
    constructor; [done|lia|lia|]. rewrite length_overwrite. lia.
  - assert (rs ≠ []) as Hne by (destruct Hrs; [cbn in Ho; lia|done]).
    destruct (findRegionIndex_spec rs ls off Hrs ltac:(lia) Hne) as (k & Hk1 & Hk & Hc). rewrite Hk1 in E. clear Hk1.
    rewrite (cumulative_concat rs ls) in * by done.
    destruct (write_array _ _ _ _ _ _) as [[rs' n1] e1] eqn:E1. simplify_eq.
    assert (concat ls = concat (take k ls) ++ concat (drop k ls)) as Hcat by (by rewrite <-concat_app, take_drop).
    rewrite Hcat, length_app in Ho. rewrite <-(take_drop k rs), forallb_app in Hw. apply andb_true_iff in Hw as [_ Hw].
    apply (write_array_of _ _ (drop k ls)) in E1 as (ls' & H1 & H2 & H3 & H4); [|..|lia].
    + unfold wrote. rewrite Hcat, length_app, overwrite_app_r by lia. split_and!; [|lia|done].
      replace (Z.to_nat off - _)%nat with (Z.to_nat (off - len (concat (take k ls)))) by lia.
      rewrite <-H2, <-concat_app. constructor. apply Forall2_app; [by apply Forall2_take|done].
    + apply Forall_forall. intros r Hin. apply IH.
      assert (r ∈ rs) as Hr' by (rewrite <-(take_drop k rs); apply elem_of_app; by right).
      apply depth_child in Hr'. lia.
    + done.
    + by apply Forall2_drop.
Qed.

(** A write does not change the shape of a region. *)
Lemma write_array_writable wr rs cur p off n :
  (∀ r p off, writable r = true → writable (wr r p off).1.1 = true) → forallb writable rs = true →
  forallb writable (write_array wr rs cur p off n).1.1 = true.
Proof.
  intros Hwr. revert cur p off n. induction rs as [|r rs IH]; intros cur p off n Hrs; [done|].
  cbn in Hrs. apply andb_true_iff in Hrs as [Hr Hrs]. cbn [write_array].
  destruct (len p =? 0); [cbn; by rewrite Hr, Hrs|]. destruct (_ <=? off).
  - specialize (IH (cur + Size r) p off n Hrs). destruct (write_array _ _ _ _ _ _) as [[rs' n'] e']. cbn. by rewrite Hr.
  - pose proof (Hwr r p (off - cur) Hr) as Hr'. destruct (wr r p (off - cur)) as [[r' k] [e|]]; [cbn in *; by rewrite Hr', Hrs|].
    specialize (IH (cur + Size r) (drop (Z.to_nat k) p) (off + k) (n + k) Hrs).
    destruct (write_array _ _ _ _ _ _) as [[rs' n'] e']. cbn in *. by rewrite Hr'.
Qed.
Lemma write_region_writable fuel r p off : writable r = true → writable (write_region fuel r p off).1.1 = true.
Proof.
  revert r p off. induction fuel as [|fuel IH]; intros r p off Hw; [done|]. cbn [write_region].
  destruct (boundsCheck r off); [done|]. destruct r; cbn [writable] in Hw; try done;
    unfold offset_WriteAt, truncated_WriteAt, slice_WriteAt, array_WriteAt.
  - specialize (IH r p (off + offset) Hw). by destruct (write_region _ _ _ _) as [[??]?].
  - specialize (IH r (limited (MaxSize - off) p) off Hw). by destruct (write_region _ _ _ _) as [[??]?].
  - specialize (IH r (limited (size - off) p) (offset + off) Hw). by destruct (write_region _ _ _ _) as [[??]?].
  - destruct (findRegionIndex _ _) as [k|]; [|done].
    rewrite <-(take_drop k regions), forallb_app in Hw. apply andb_true_iff in Hw as [Hw1 Hw2].
    pose proof (write_array_writable (write_region fuel) (drop k regions) (nth k (cumulative (Size <$> regions) 0) 0) p off 0 IH Hw2).
    destruct (write_array _ _ _ _ _ _) as [[rs' n'] e']. cbn in *. rewrite forallb_app. by rewrite Hw1.
Qed.

(** * Round trip and count *)

Theorem region_write_read r l p off r' n e :
  rep r l → writable r = true → 0 ≤ off < len l → RegionW.WriteAt r p off = (r', n, e) →
  n = Z.min (len p) (len l - off) ∧ e = None ∧
  ∀ q o, 0 ≤ o < len l → Region.ReadAt r' q o = read_of (overwrite l (Z.to_nat off) p) q o.
Proof.
  intros Hr Hw Ho E. apply (write_region_of _ r ltac:(done) l) in E as (H1 & H2 & H3); [|done..].
  split_and!; [done|done|]. intros q o Hq. apply read_region_of; [done|done|]. by rewrite length_overwrite.
Qed.
(** Bytes written in the middle of an array of two views and read back. *)
Lemma region_write_read_witness :
  let r := RegionArray [RawRegion [1; 2; 3]; TruncatedRegion (OffsetRegion (RawRegion [4; 5; 6; 7]) 1) 2] in
  (RegionW.WriteAt r [8; 9] 2).2 = None ∧
  Region.ReadAt (RegionW.WriteAt r [8; 9] 2).1.1 [0; 0; 0] 1 = ([2; 8; 9], 3, None).
Proof.
  intros r. destruct (RegionW.WriteAt r [8; 9] 2) as [[r' n] e] eqn:E.
  destruct (region_write_read r ([1; 2; 3] ++ [5; 6] ++ []) [8; 9] 2 r' n e) as (_ & -> & H).
  - apply (rep_array _ [[1; 2; 3]; [5; 6]]). repeat constructor.
    apply (rep_truncated _ [5; 6; 7] 2); [|done]. apply (rep_offset _ [4; 5; 6; 7] 1); [constructor|done].
  - done.
  - done.
  - done.
  - split; [done|]. by rewrite H.
Defined.

(** A padded region as large as its base stores the bytes and reports that
    none were written. *)
Theorem padded_write_count d p off :
  0 ≤ off < len d →
  RegionW.WriteAt (PaddedRegion (RawRegion d) (len d)) p off =
    (PaddedRegion (RawRegion (overwrite d (Z.to_nat off) p)) (len d), 0, None).
Proof.
  intros Ho. unfold RegionW.WriteAt. cbn [depth write_region Size]. unfold boundsCheck at 1. cbn [Size].
  destruct (Z.ltb_spec off 0); [lia|]. destruct (Z.geb_spec off (len d)); [lia|].
  unfold padded_WriteAt. cbn [Size].
  destruct (Z.gtb_spec off (len d)); [lia|]. unfold boundsCheck. cbn [Size]. destruct (Z.ltb_spec off 0); [lia|].
  destruct (Z.geb_spec off (len d)); [lia|]. unfold raw_WriteAt. f_equal. f_equal. lia.
Qed.
Lemma padded_write_count_witness :
  RegionW.WriteAt (PaddedRegion (RawRegion [1; 2; 3]) 3) [7] 1 = (PaddedRegion (RawRegion [1; 7; 3]) 3, 0, None).
Proof. apply (padded_write_count [1; 2; 3] [7] 1). done. Defined.
