(* ===== verification/PageTable.v ===== *)
(** Page tables of the virtual disk image: [PageTable] and
    [MultiLevelPageTable] of src/internal/fsimage/vm/vm.go.

    The Go interface is a type class of operations with a class of laws: what
    the image relies on.  The two-level table of lazily allocated lists of
    256 pages is an instance; its proofs discharge the laws. *)
From Stdlib Require Import Sorted.
From S2P Require Import Prelude Regions.

(** * The interface *)

(** A nil region is [None].  The callback of [ForEach] threads a state and
    says whether to go on. *)
Class PageTable (T : Type) := {
  Get : T → Z → option region;
  Set_ : T → Z → option region → T;
  Clear : T → T;
  ForEach : ∀ {St : Type}, T → (Z → region → St → St * bool) → St → St;
}.

(** Visit the entries in order until the callback stops. *)
Fixpoint walk {St} (es : list (Z * region)) (fn : Z → region → St → St * bool) (s : St) : St :=
  match es with
  | [] => s
  | (i, r) :: es => let '(s', go) := fn i r s in if go : bool then walk es fn s' else s'
  end.

Class PageTableLaws (T : Type) `{PageTable T} := {
  (** A table of [n] pages. *)
  pt_ok : Z → T → Prop;
  Set_ok n t i r : pt_ok n t → 0 ≤ i → pt_ok n (Set_ t i r);
  Clear_ok n t : pt_ok n t → pt_ok n (Clear t);
  Get_Set n t i r j : pt_ok n t → 0 ≤ i → 0 ≤ j →
    Get (Set_ t i r) j = if (i =? j) && (i <? n) then r else Get t j;
  Get_range n t i : pt_ok n t → n ≤ i → Get t i = None;
  Get_Clear n t i : pt_ok n t → Get (Clear t) i = None;
  entries : T → list (Z * region);
  ForEach_walk St n t fn (s : St) : pt_ok n t → ForEach t fn s = walk (entries t) fn s;
  entries_sorted n t : pt_ok n t → StronglySorted (λ a b, a.1 < b.1) (entries t);
  entries_spec n t i r : pt_ok n t → (i, r) ∈ entries t ↔ 0 ≤ i ∧ Get t i = Some r;
}.

(** * The two-level table *)

Abbreviation PageList := (list (option region)).
Record MultiLevelPageTable := mkMultiLevelPageTable {
  pageListCapacity : Z;
  totalPages : Z;
  topLevel : list (option PageList);
}.
#[global] Instance eta_MultiLevelPageTable : Eta MultiLevelPageTable :=
  λ t, mkMultiLevelPageTable (pageListCapacity t) (totalPages t) (topLevel t).

Definition NewMultiLevelPageTable (n : Z) : MultiLevelPageTable := mkMultiLevelPageTable 256 n [].

Module MLPT.
(** The page at an index: nil in a list that was not allocated. *)
Definition page (t : MultiLevelPageTable) (index : Z) : option region :=
  match topLevel t !! Z.to_nat (index / pageListCapacity t) with
  | Some (Some pl) => mjoin (pl !! Z.to_nat (index mod pageListCapacity t))
  | _ => None
  end.
Definition Get (t : MultiLevelPageTable) (index : Z) : option region :=
  if index >=? totalPages t then None else page t index.

(** Append nil lists until the index is there. *)
Definition grow (l : list (option PageList)) (topIndex : nat) : list (option PageList) :=
  l ++ replicate (S topIndex - length l) None.
Definition Set_ (t : MultiLevelPageTable) (index : Z) (r : option region) : MultiLevelPageTable :=
  if index >=? totalPages t then t
  else
    let topIndex := Z.to_nat (index / pageListCapacity t) in
    let pageIndex := Z.to_nat (index mod pageListCapacity t) in
    let top := grow (topLevel t) topIndex in
    let pl := default (replicate 256 None) (mjoin (top !! topIndex)) in
    t <| topLevel := <[topIndex := Some (<[pageIndex := r]> pl)]> top |>.
Definition Clear (t : MultiLevelPageTable) : MultiLevelPageTable := t <| topLevel := [] |>.

(** One list: the state and whether to go on. *)
Fixpoint each_page {St} (globalIndex : Z) (pl : PageList) (fn : Z → region → St → St * bool) (s : St) : St * bool :=
  match pl with
  | [] => (s, true)
  | None :: pl => each_page (globalIndex + 1) pl fn s
  | Some r :: pl =>
    let '(s', go) := fn globalIndex r s in
    if go then each_page (globalIndex + 1) pl fn s' else (s', false)
  end.
Fixpoint each_top {St} (cap topIndex : Z) (top : list (option PageList)) (fn : Z → region → St → St * bool) (s : St) : St :=
  match top with
  | [] => s
  | None :: top => each_top cap (topIndex + 1) top fn s
  | Some pl :: top =>
    let '(s', go) := each_page (topIndex * cap) pl fn s in
    if go then each_top cap (topIndex + 1) top fn s' else s'
  end.
Definition ForEach {St} (t : MultiLevelPageTable) (fn : Z → region → St → St * bool) (s : St) : St :=
  each_top (pageListCapacity t) 0 (topLevel t) fn s.
End MLPT.

#[global] Instance MLPT_PageTable : PageTable MultiLevelPageTable := {
  Get := MLPT.Get;
  Set_ := MLPT.Set_;
  Clear := MLPT.Clear;
  ForEach := @MLPT.ForEach;
}.

(** ** Its laws *)

(** Lists are of 256 pages and nothing is stored past the last page. *)
Definition mlpt_ok (n : Z) (t : MultiLevelPageTable) : Prop :=
  pageListCapacity t = 256 ∧ totalPages t = n ∧
  (∀ pl, Some pl ∈ topLevel t → length pl = 256%nat) ∧
  (∀ i, 0 ≤ i → n ≤ i → MLPT.page t i = None).

Lemma mlpt_new_ok n : mlpt_ok n (NewMultiLevelPageTable n).
Proof.
  split_and!; [done|done|intros pl H; by apply not_elem_of_nil in H|]. intros i _ _. unfold MLPT.page. cbn.
  by rewrite lookup_nil.
Qed.

Lemma lookup_grow l k j :
  MLPT.grow l k !! j = if decide (j < length l)%nat then l !! j else if decide (j ≤ k)%nat then Some None else None.
Proof.
  unfold MLPT.grow. destruct (decide (j < length l)%nat); [by rewrite lookup_app_l|].
  rewrite lookup_app_r by lia. destruct (decide (j ≤ k)%nat).
  - apply lookup_replicate. split; [done|lia].
  - apply lookup_replicate_None. lia.
Qed.

Lemma mlpt_page_set n t i r j :
  mlpt_ok n t → 0 ≤ i < n → 0 ≤ j →
  MLPT.page (MLPT.Set_ t i r) j = if i =? j then r else MLPT.page t j.
Proof.
  intros (Hcap & Hn & Hpl & _) Hi Hj. unfold MLPT.Set_. rewrite Hn. destruct (Z.geb_spec i n); [lia|].
  unfold MLPT.page. cbn [pageListCapacity topLevel update eta_MultiLevelPageTable]. rewrite Hcap.
  set (ti := Z.to_nat (i / 256)). set (tj := Z.to_nat (j / 256)).
  set (pi := Z.to_nat (i mod 256)). set (pj := Z.to_nat (j mod 256)).
  assert (0 ≤ i / 256 ∧ 0 ≤ j / 256 ∧ 0 ≤ i mod 256 < 256 ∧ 0 ≤ j mod 256 < 256) as (?&?&?&?).
  { split_and!; try (apply Z.div_pos; lia); apply Z.mod_pos_bound; lia. }
  assert (length (default (replicate 256 None) (mjoin (MLPT.grow (topLevel t) ti !! ti))) = 256%nat) as Hlen.
  { rewrite lookup_grow. destruct (decide _); [|destruct (decide _); by rewrite ?length_replicate].
    destruct (topLevel t !! ti) as [[pl|]|] eqn:E; cbn; [|done..].
    apply Hpl. by apply list_elem_of_lookup_2 in E. }
  assert (ti < length (MLPT.grow (topLevel t) ti))%nat as Htl
    by (unfold MLPT.grow; rewrite length_app, length_replicate; lia).
  destruct (decide (ti = tj)) as [Heq|Hne].
  - rewrite <-Heq, list_lookup_insert_eq by done.
    destruct (Z.eqb_spec i j) as [Hij|Hij].
    + replace pj with pi by (unfold pi, pj; by rewrite Hij).
      rewrite list_lookup_insert_eq by lia. done.
    + assert (pi ≠ pj) by (pose proof (Z.div_mod i 256); pose proof (Z.div_mod j 256); lia).
      rewrite list_lookup_insert_ne by done. rewrite lookup_grow.
      destruct (decide (ti < length (topLevel t))%nat) as [Hlt|Hge].
      * destruct (topLevel t !! ti) as [[pl|]|] eqn:E; cbn -[replicate]; [done|..]; by rewrite lookup_replicate_2 by lia.
      * rewrite (lookup_ge_None_2 (topLevel t)) by lia. destruct (decide _); [|lia].
        cbn -[replicate]. by rewrite lookup_replicate_2 by lia.
  - rewrite list_lookup_insert_ne by done. destruct (Z.eqb_spec i j) as [Hij|_]; [unfold ti, tj in Hne; by rewrite Hij in Hne|].
    rewrite lookup_grow. destruct (decide (tj < length (topLevel t))%nat); [done|].
    rewrite (lookup_ge_None_2 (topLevel t)) by lia. by destruct (decide _).
Qed.

Lemma mlpt_set_ok n t i r : mlpt_ok n t → 0 ≤ i → mlpt_ok n (MLPT.Set_ t i r).
Proof.
  intros Hok Hi. destruct (decide (i < n)) as [Hlt|Hge].
  2:{ destruct Hok as (Hcap & Hn & Hok). unfold MLPT.Set_. rewrite Hn. by destruct (Z.geb_spec i n); [|lia]. }
  pose proof (λ j, mlpt_page_set n t i r j Hok ltac:(lia)) as Hp. revert Hp.
  destruct Hok as (Hcap & Hn & Hpl & Hout). unfold MLPT.Set_. rewrite Hn. destruct (Z.geb_spec i n); [lia|]. intros Hp.
  split_and!; [done|done| |].
  - cbn [topLevel update eta_MultiLevelPageTable]. intros pl Hin.
    apply list_elem_of_lookup in Hin as [k Hk]. apply list_lookup_insert_Some in Hk as [(<- & Hpl' & _)|(Hne & Hk)].
    + simplify_eq. rewrite length_insert, lookup_grow.
      destruct (decide _); [|destruct (decide _); by rewrite ?length_replicate].
      destruct (topLevel t !! _) as [[pl|]|] eqn:E; cbn -[replicate]; [|by rewrite length_replicate..].
      apply Hpl. by apply list_elem_of_lookup_2 in E.
    + rewrite lookup_grow in Hk. destruct (decide _); [|destruct (decide _); by simplify_eq].
      apply Hpl. by apply list_elem_of_lookup_2 in Hk.
  - intros j Hj Hjn. rewrite Hp by done. destruct (Z.eqb_spec i j); [lia|]. by apply Hout.
Qed.
Lemma mlpt_clear_ok n t : mlpt_ok n t → mlpt_ok n (MLPT.Clear t).
Proof.
  intros (Hcap & Hn & Hpl & Hout). split_and!; [done|done|intros pl H; by apply not_elem_of_nil in H|].
  intros i _ _. unfold MLPT.page, MLPT.Clear. cbn. by rewrite lookup_nil.
Qed.
Lemma mlpt_get_page n t i : mlpt_ok n t → 0 ≤ i → MLPT.Get t i = MLPT.page t i.
Proof.
  intros (Hcap & Hn & Hpl & Hout) Hi. unfold MLPT.Get. rewrite Hn. destruct (Z.geb_spec i n); [|done].
  symmetry. by apply Hout.
Qed.
Lemma mlpt_get_set n t i r j :
  mlpt_ok n t → 0 ≤ i → 0 ≤ j →
  MLPT.Get (MLPT.Set_ t i r) j = if (i =? j) && (i <? n) then r else MLPT.Get t j.
Proof.
  intros Hok Hi Hj. destruct (Z.ltb_spec i n) as [Hlt|Hge].
  - rewrite (mlpt_get_page n) by (done || by apply mlpt_set_ok). rewrite (mlpt_page_set n) by (done || lia).
    rewrite andb_true_r, (mlpt_get_page n) by done. done.
  - rewrite andb_false_r. unfold MLPT.Set_. destruct Hok as (_ & -> & _). by destruct (Z.geb_spec i n); [|lia].
Qed.

(** *** The entries in order *)

Fixpoint page_entries (globalIndex : Z) (pl : PageList) : list (Z * region) :=
  match pl with
  | [] => []
  | None :: pl => page_entries (globalIndex + 1) pl
  | Some r :: pl => (globalIndex, r) :: page_entries (globalIndex + 1) pl
  end.
Fixpoint top_entries (cap topIndex : Z) (top : list (option PageList)) : list (Z * region) :=
  match top with
  | [] => []
  | None :: top => top_entries cap (topIndex + 1) top
  | Some pl :: top => page_entries (topIndex * cap) pl ++ top_entries cap (topIndex + 1) top
  end.

(** Visit one list, then go on with [k] if the callback did not stop. *)
Lemma each_page_walk {St} (es : list (Z * region)) g pl (fn : Z → region → St → St * bool) s :
  (let '(s', go) := MLPT.each_page g pl fn s in if go then walk es fn s' else s') =
  walk (page_entries g pl ++ es) fn s.
Proof.
  revert g s. induction pl as [|[r|] pl IH]; intros g s; cbn [MLPT.each_page page_entries app walk]; [done| |done].
  destruct (fn g r s) as [s' []]; [apply IH|done].
Qed.
Lemma each_top_walk {St} cap ti top (fn : Z → region → St → St * bool) s :
  MLPT.each_top cap ti top fn s = walk (top_entries cap ti top) fn s.
Proof.
  revert ti s. induction top as [|[pl|] top IH]; intros ti s; cbn [MLPT.each_top top_entries]; [done| |done].
  rewrite <-each_page_walk. destruct (MLPT.each_page _ _ _ _) as [s' []]; [apply IH|done].
Qed.

Lemma page_entries_elem g pl i r :
  (i, r) ∈ page_entries g pl ↔ g ≤ i ∧ pl !! Z.to_nat (i - g) = Some (Some r).
Proof.
  revert g. induction pl as [|o pl IH]; intros g; cbn [page_entries].
  { rewrite lookup_nil. split; [by intros H%not_elem_of_nil|by intros []]. }
  assert (g + 1 ≤ i ∧ pl !! Z.to_nat (i - (g + 1)) = Some (Some r) ↔ g < i ∧ (o :: pl) !! Z.to_nat (i - g) = Some (Some r)) as Hs.
  { split; intros [Hlt Hl]; (split; [lia|]);
      (replace (Z.to_nat (i - g)) with (S (Z.to_nat (i - (g + 1)))) in * by lia; done). }
  destruct o as [r'|].
  - rewrite elem_of_cons, IH, Hs. split.
    + intros [H|[H1 H2]]; [simplify_eq; split; [lia|by rewrite Z.sub_diag]|split; [lia|done]].
    + intros [H1 H2]. destruct (decide (i = g)) as [->|]; [|right; split; [lia|done]].
      rewrite Z.sub_diag in H2. cbn in H2.
      injection H2 as ->. by left.
  - rewrite IH, Hs. split; intros [H1 H2]; (split; [|done]); [lia|].
    destruct (decide (i = g)) as [->|]; [|lia]. by rewrite Z.sub_diag in H2.
Qed.
Lemma page_entries_sorted g pl : StronglySorted (λ a b, a.1 < b.1) (page_entries g pl).
Proof.
  revert g. induction pl as [|[r|] pl IH]; intros g; cbn [page_entries]; [constructor| |done].
  constructor; [done|]. apply Forall_forall. intros [i r'] [H _]%page_entries_elem. cbn. lia.
Qed.

Lemma top_entries_elem ti top i r :
  0 ≤ ti → (∀ pl, Some pl ∈ top → length pl = 256%nat) →
  (i, r) ∈ top_entries 256 ti top ↔
    ti * 256 ≤ i ∧ ∃ pl, top !! Z.to_nat (i / 256 - ti) = Some (Some pl) ∧
      pl !! Z.to_nat (i mod 256) = Some (Some r).
Proof.
  intros Hti Hpl. revert ti Hti. induction top as [|o top IH]; intros ti Hti; cbn [top_entries].
  { split; [by intros H%not_elem_of_nil|]. intros (_ & pl & H & _). by rewrite lookup_nil in H. }
  specialize (IH (λ pl H, Hpl pl (list_elem_of_further _ _ _ H)) (ti + 1) ltac:(lia)).
  pose proof (Z.div_mod i 256 ltac:(lia)). pose proof (Z.mod_pos_bound i 256 ltac:(lia)).
  assert (Htail : ((ti + 1) * 256 ≤ i ∧ ∃ pl, top !! Z.to_nat (i / 256 - (ti + 1)) = Some (Some pl) ∧
      pl !! Z.to_nat (i mod 256) = Some (Some r)) ↔
    ((ti + 1) * 256 ≤ i ∧ ∃ pl, (o :: top) !! Z.to_nat (i / 256 - ti) = Some (Some pl) ∧
      pl !! Z.to_nat (i mod 256) = Some (Some r))).
  { split; intros (H1 & pl & H2 & H3); (split; [done|]); exists pl; (split; [|done]);
      (replace (Z.to_nat (i / 256 - ti)) with (S (Z.to_nat (i / 256 - (ti + 1)))) in * by lia; done). }
  assert (Hhead : ti * 256 ≤ i → i < (ti + 1) * 256 → Z.to_nat (i / 256 - ti) = 0%nat ∧ i mod 256 = i - ti * 256) by lia.
  destruct o as [pl|].
  - rewrite elem_of_app, IH, Htail, page_entries_elem. split.
    + intros [[H1 H2]|[H1 H2]]; [|split; [lia|done]]. split; [done|]. pose proof (lookup_lt_Some _ _ _ H2) as Hlt.
      rewrite (Hpl pl) in Hlt by apply list_elem_of_here.
      destruct Hhead as [-> ->]; [lia|lia|]. by exists pl.
    + intros (H1 & pl' & H2 & H3). destruct (decide (i < (ti + 1) * 256)) as [Hlt|].
      * destruct Hhead as [H4 H5]; [lia|lia|]. rewrite H4 in H2. rewrite H5 in H3. cbn in H2. simplify_eq. by left.
      * right. split; [lia|]. by exists pl'.
  - rewrite IH, Htail. split; [intros [H1 H2]; split; [lia|done]|]. intros (H1 & pl' & H2 & H3).
    destruct (decide (i < (ti + 1) * 256)) as [Hlt|].
    + destruct Hhead as [H4 _]; [lia|lia|]. by rewrite H4 in H2.
    + split; [lia|]. by exists pl'.
Qed.
Lemma strongly_sorted_app {A} (R : A → A → Prop) l k :
  StronglySorted R l → StronglySorted R k → (∀ x y, x ∈ l → y ∈ k → R x y) → StronglySorted R (l ++ k).
Proof.
  induction 1 as [|x l Hl IH Hx]; intros Hk Hlk; [done|]. cbn. constructor.
  - apply IH; [done|]. intros y z Hy Hz. apply Hlk; [by apply list_elem_of_further|done].
  - apply Forall_app. split; [done|]. apply Forall_forall. intros y Hy. apply Hlk; [apply list_elem_of_here|done].
Qed.
Lemma top_entries_sorted ti top :
  0 ≤ ti → (∀ pl, Some pl ∈ top → length pl = 256%nat) →
  StronglySorted (λ a b, a.1 < b.1) (top_entries 256 ti top).
Proof.
  revert ti. induction top as [|o top IH]; intros ti Hti Hpl; cbn [top_entries]; [constructor|].
  assert (∀ pl, Some pl ∈ top → length pl = 256%nat) as Hpl' by (intros pl H; by apply Hpl, list_elem_of_further).
  destruct o as [pl|]; [|apply IH; [lia|done]].
  apply strongly_sorted_app; [apply page_entries_sorted|apply IH; [lia|done]|].
  intros [i r] [j r'] [H1 H2]%page_entries_elem [H3 _]%top_entries_elem; [|lia|done]. cbn.
  apply lookup_lt_Some in H2. rewrite (Hpl pl) in H2 by apply list_elem_of_here. lia.
Qed.

#[global] Instance MLPT_Laws : PageTableLaws MultiLevelPageTable.
Proof.
  refine {| pt_ok := mlpt_ok; entries t := top_entries (pageListCapacity t) 0 (topLevel t) |}.
  - apply mlpt_set_ok.
  - apply mlpt_clear_ok.
  - apply mlpt_get_set.
  - intros n t i (_ & Hn & _) Hi. cbn. unfold MLPT.Get. rewrite Hn. by destruct (Z.geb_spec i n); [|lia].
  - intros n t i Hok. cbn. unfold MLPT.Get, MLPT.page, MLPT.Clear. cbn. rewrite lookup_nil. by case_match.
  - intros St n t fn s Hok. apply each_top_walk.
  - intros n t (Hcap & Hn & Hpl & _). rewrite Hcap. by apply top_entries_sorted.
  - intros n t i r Hok. pose proof Hok as (Hcap & Hn & Hpl & _). rewrite Hcap, top_entries_elem, Z.sub_0_r by done.
    split.
    + intros (H1 & pl & H2 & H3). split; [lia|]. cbn. rewrite (mlpt_get_page n) by (done || lia).
      unfold MLPT.page. by rewrite Hcap, H2, H3.
    + intros [H1 H2]. cbn in H2. rewrite (mlpt_get_page n) in H2 by done. split; [lia|].
      unfold MLPT.page in H2. rewrite Hcap in H2.
      destruct (topLevel t !! Z.to_nat (i / 256)) as [[pl|]|]; [|done..].
      exists pl. split; [done|]. by destruct (pl !! Z.to_nat (i mod 256)) as [[]|]; simplify_eq/=.
Defined.
