(* ===== verification/ImageVm.v ===== *)
(** The sparse virtual disk image: [VirtualMemory] of
    src/internal/fsimage/vm/vm.go.

    An image is an array of pages over a [PageTable].  [Map] places a region:
    whole pages become views of it, a partial page at either end becomes a
    fragmented page.  Writes go to copies of pages in a second table, so a
    mapped region is never written through the image; values of regions
    are enough and no store of shared objects is needed.

    Offsets are 64-bit signed and do not overflow for an image below 2^63
    bytes; divisions truncate, and a negative page number becomes a large
    unsigned one, as in Go.  The loops of [ReadAt] and [WriteAt] have no
    bound of their own: the model gives them one step per byte and one more,
    and returns [None] when that is used up.  Each step of a well-formed image
    moves at least one byte, so the bound is enough ([read_contents]); on
    a region shorter than its page the loop makes no step at all and never
    ends.

    [contents] is the abstraction: the bytes of the image. *)
From S2P Require Import Prelude Regions RegionWrite PageTable.

Record VirtualMemory (T : Type) := mkVirtualMemory {
  pageSize : Z;
  pages : T;
  writePages : T;
  totalSize : Z;
  totalMaps : Z;
  totalMapRegions : Z;
  totalMapFragments : Z;
}.
Arguments mkVirtualMemory {T} _ _ _ _ _ _ _.
Arguments pageSize {T} _.
Arguments pages {T} _.
Arguments writePages {T} _.
Arguments totalSize {T} _.
Arguments totalMaps {T} _.
Arguments totalMapRegions {T} _.
Arguments totalMapFragments {T} _.
#[global] Instance eta_VirtualMemory {T} : Eta (VirtualMemory T) := λ v,
  mkVirtualMemory (pageSize v) (pages v) (writePages v) (totalSize v) (totalMaps v) (totalMapRegions v)
    (totalMapFragments v).

Module VM.
Section ops.
Context {T : Type} `{PageTable T}.
Implicit Types vm : VirtualMemory T.

(** Install a region as a page: the copy that was written is dropped. *)
Definition set_page vm (index : Z) (r : region) : VirtualMemory T :=
  vm <| pages := Set_ (pages vm) (u64 index) (Some r) |>
     <| writePages := Set_ (writePages vm) (u64 index) None |>.
(** The written copy of a page, or the page. *)
Definition current vm (index : Z) : option region :=
  match Get (writePages vm) (u64 index) with
  | Some r => Some r
  | None => Get (pages vm) (u64 index)
  end.

(** The method of a fragmented page. *)
Definition map_into (page frag : region) (off : Z) : region + string :=
  match page with
  | fragmentedRegion fs total =>
    match mapFragment fs total frag off with
    | inl fs' => inl (fragmentedRegion fs' total)
    | inr e => inr e
    end
  | _ => inr "not a fragmented region"
  end.

Definition mapFragment vm (r : region) (offset : Z) : VirtualMemory T * option string :=
  let vm := vm <| totalMapFragments := totalMapFragments vm + 1 |> in
  let regionIndex := Z.quot offset (pageSize vm) in
  let regionOffset := Z.rem offset (pageSize vm) in
  match current vm regionIndex with
  | Some (fragmentedRegion fs total as frag) =>
    match map_into frag r regionOffset with
    | inr e => (vm, Some e)
    | inl frag' => (set_page vm regionIndex frag', None)
    end
  | Some existing =>
    match map_into (newFragmentRegion (pageSize vm)) (NewTruncatedRegion existing (pageSize vm)) 0 with
    | inr e => (vm, Some "failed to preserve existing page fragment")
    | inl newFrag =>
      match map_into newFrag r regionOffset with
      | inr e => (vm, Some "failed to map fragment")
      | inl newFrag => (set_page vm regionIndex newFrag, None)
      end
    end
  | None =>
    match map_into (newFragmentRegion (pageSize vm)) r regionOffset with
    | inr e => (vm, Some "failed to map fragment")
    | inl newFrag => (set_page vm regionIndex newFrag, None)
    end
  end.

Definition mapRegion vm (r : region) (offset : Z) : VirtualMemory T * option string :=
  let vm := vm <| totalMapRegions := totalMapRegions vm + 1 |> in
  if negb (Z.rem offset (pageSize vm) =? 0) then (vm, Some "attempted to use mapRegion to map an unaligned region")
  else (set_page vm (Z.quot offset (pageSize vm)) r, None).

(** The loop over whole pages: the image, the offset in the region and in the
    image it ends at, and the error. *)
Fixpoint map_pages (fuel : nat) vm (r : region) (regionSize regionOffset offset : Z)
    : VirtualMemory T * Z * Z * option string :=
  match fuel with
  | O => (vm, regionOffset, offset, Some "out of fuel")
  | S fuel =>
    if regionSize - regionOffset <? pageSize vm then (vm, regionOffset, offset, None)
    else
      let '(vm', e) :=
        if regionOffset =? 0 then mapRegion vm r offset else mapRegion vm (NewOffsetRegion r regionOffset) offset in
      match e with
      | Some _ => (vm', regionOffset, offset, Some "failed to map region")
      | None => map_pages fuel vm' r regionSize (regionOffset + pageSize vm) (offset + pageSize vm)
      end
  end.
Definition Map vm (r : region) (offset : Z) : VirtualMemory T * option string :=
  let vm := vm <| totalMaps := totalMaps vm + 1 |> in
  let regionSize := Size r in
  if (offset <? 0) || (regionSize <? 0) || (offset >? totalSize vm) || (regionSize >? totalSize vm - offset) then
    (vm, Some "mapping exceeds virtual memory size")
  else
    let '(vm, regionOffset, offset, e) :=
      if negb (Z.rem offset (pageSize vm) =? 0) then
        let fragmentSize := Z.min (pageSize vm - Z.rem offset (pageSize vm)) regionSize in
        let '(vm', e) := mapFragment vm (NewTruncatedRegion r fragmentSize) offset in
        (vm', fragmentSize, offset + fragmentSize, e)
      else (vm, 0, offset, None) in
    match e with
    | Some _ => (vm, Some "failed to map leading fragment")
    | None =>
      let '(vm, regionOffset, offset, e) :=
        map_pages (S (Z.to_nat (regionSize / pageSize vm))) vm r regionSize regionOffset offset in
      match e with
      | Some e => (vm, Some e)
      | None =>
        if regionSize - regionOffset >? 0 then
          let '(vm, e) := mapFragment vm (NewOffsetRegion r regionOffset) offset in
          match e with Some _ => (vm, Some "failed to map trailing fragment") | None => (vm, None) end
        else (vm, None)
      end
    end.

Definition MapSlice vm (r : region) (srcOffset size dstOffset : Z) : VirtualMemory T * option string :=
  if (srcOffset =? 0) && (size =? Size r) then Map vm r dstOffset
  else Map vm (directSliceRegion r srcOffset size) dstOffset.
Definition MapFile vm (file : list Z) (offset size : Z) : VirtualMemory T * (region + string) :=
  let ret := FileRegion file size in
  let '(vm, e) := Map vm ret offset in
  (vm, match e with Some e => inr e | None => inl ret end).

(** The region at an offset with the offset in its page; writing makes the
    copy of the page. *)
Definition getRegion vm (offset : Z) (isWrite : bool) : VirtualMemory T * (option region * Z + string) :=
  if offset >? totalSize vm then (vm, inr EOF)
  else
    let regionIndex := Z.quot offset (pageSize vm) in
    let regionOffset := Z.rem offset (pageSize vm) in
    match Get (writePages vm) (u64 regionIndex) with
    | Some r => (vm, inl (Some r, regionOffset))
    | None =>
      if isWrite then
        let newWritePage := replicate (Z.to_nat (pageSize vm)) 0 in
        let '(newWritePage, e) :=
          match Get (pages vm) (u64 regionIndex) with
          | Some existing => let '(q, _, e) := Region.ReadAt existing newWritePage 0 in (q, e)
          | None => (newWritePage, None)
          end in
        match e with
        | Some e => (vm, inr e)
        | None =>
          let vm := vm <| writePages := Set_ (writePages vm) (u64 regionIndex) (Some (RawRegion newWritePage)) |> in
          (vm, inl (Get (writePages vm) (u64 regionIndex), regionOffset))
        end
      else (vm, inl (Get (pages vm) (u64 regionIndex), regionOffset))
    end.

(** One page of a read: the region's bytes, or zeros. *)
Definition read_step vm (p : list Z) (r : option region) (regionOffset : Z) : read_result :=
  match r with
  | Some r =>
    let k := Z.to_nat (Z.min (pageSize vm) (len p + regionOffset) - regionOffset) in
    let '(q, readSize, e) := Region.ReadAt r (take k p) regionOffset in (q ++ drop k p, readSize, e)
  | None =>
    let readSize := Z.min (pageSize vm - regionOffset) (len p) in
    (overwrite p 0 (replicate (Z.to_nat readSize) 0), readSize, None)
  end.
Fixpoint read_loop (fuel : nat) vm (p : list Z) (off n : Z) : option read_result :=
  match fuel with
  | O => None
  | S fuel =>
    match (getRegion vm off false).2 with
    | inr e => Some (p, 0, Some e)
    | inl (r, regionOffset) =>
      let '(p, readSize, e) := read_step vm p r regionOffset in
      match e with
      | Some _ => Some (p, 0, e)
      | None =>
        let k := Z.to_nat readSize in
        let rest := drop k p in
        if len rest =? 0 then Some (p, n + readSize, None)
        else
          match read_loop fuel vm rest (off + readSize) (n + readSize) with
          | Some (q, n', e') => Some (take k p ++ q, n', e')
          | None => None
          end
      end
    end
  end.
Definition ReadAt vm (p : list Z) (off : Z) : option read_result := read_loop (S (length p)) vm p off 0.

Fixpoint write_loop (fuel : nat) vm (p : list Z) (off n : Z) : option (VirtualMemory T * Z * option string) :=
  match fuel with
  | O => None
  | S fuel =>
    match getRegion vm off true with
    | (vm, inr e) => Some (vm, 0, Some e)
    | (vm, inl (None, _)) => Some (vm, 0, Some "write to unmapped page")
    | (vm, inl (Some r, regionOffset)) =>
      let k := Z.to_nat (Z.min (pageSize vm) (len p + regionOffset) - regionOffset) in
      let '(r', writeSize, e) := RegionW.WriteAt r (take k p) regionOffset in
      let vm := vm <| writePages := Set_ (writePages vm) (u64 (Z.quot off (pageSize vm))) (Some r') |> in
      match e with
      | Some _ => Some (vm, 0, e)
      | None =>
        let rest := drop (Z.to_nat writeSize) p in
        if len rest =? 0 then Some (vm, n + writeSize, None)
        else write_loop fuel vm rest (off + writeSize) (n + writeSize)
      end
    end
  end.
Definition WriteAt vm (p : list Z) (off : Z) : option (VirtualMemory T * Z * option string) :=
  write_loop (S (length p)) vm p off 0.

Definition Reset vm : VirtualMemory T :=
  vm <| pages := Clear (pages vm) |> <| writePages := Clear (writePages vm) |>.
End ops.

(** A size that is not a multiple of the page size panics. *)
Definition NewVirtualMemory (totalSize pageSize : Z) : result (VirtualMemory MultiLevelPageTable) :=
  if negb (Z.rem totalSize pageSize =? 0) then Panic
  else
    let totalPages := u64 (Z.quot totalSize pageSize) in
    Ok (mkVirtualMemory pageSize (NewMultiLevelPageTable totalPages) (NewMultiLevelPageTable totalPages)
          totalSize 0 0 0).
End VM.

(** * The bytes of an image *)

Definition page_of {T} `{PageTable T} (vm : VirtualMemory T) (i : Z) : list Z :=
  let zeros := replicate (Z.to_nat (pageSize vm)) 0 in
  match VM.current vm i with
  | Some r => (Region.ReadAt r zeros 0).1.1
  | None => zeros
  end.
Definition contents {T} `{PageTable T} (vm : VirtualMemory T) : list Z :=
  concat ((λ i, page_of vm (Z.of_nat i)) <$> seq 0 (Z.to_nat (totalSize vm / pageSize vm))).

(** A region that fills a page. *)
Definition page_ok (ps : Z) (r : region) : Prop := ∃ l, rep r l ∧ ps ≤ len l.
(** A well-formed image of [n] pages. *)
Record vm_ok {T} `{PageTableLaws T} (n : Z) (vm : VirtualMemory T) : Prop := {
  ok_size : 0 < pageSize vm;
  ok_total : totalSize vm = n * pageSize vm;
  ok_count : 0 ≤ n < 2^63;
  ok_pages : pt_ok n (pages vm);
  ok_writePages : pt_ok n (writePages vm);
  ok_mapped i r : 0 ≤ i → Get (pages vm) i = Some r → page_ok (pageSize vm) r;
  ok_written i r : 0 ≤ i → Get (writePages vm) i = Some r → ∃ d, r = RawRegion d ∧ len d = pageSize vm;
}.

(** ** Lists of pages *)

Section paged.
Context (ps : nat).
Implicit Types f g : nat → list Z.

Lemma length_pages f a n : (∀ j, (a ≤ j < a + n)%nat → length (f j) = ps) → length (concat (f <$> seq a n)) = (n * ps)%nat.
Proof.
  revert a. induction n as [|n IH]; intros a Hf; [done|]. cbn. rewrite length_app, Hf, IH by first [lia|intros; apply Hf; lia].
  lia.
Qed.
Lemma pages_split f n i :
  (i < n)%nat →
  concat (f <$> seq 0 n) = concat (f <$> seq 0 i) ++ f i ++ concat (f <$> seq (S i) (n - S i)).
Proof.
  intros Hi. replace n with (i + S (n - S i))%nat at 1 by lia. rewrite seq_app, fmap_app, concat_app. done.
Qed.
Lemma pages_update f g n i k c :
  (∀ j, (j < n)%nat → length (f j) = ps) → (i < n)%nat → (∀ j, (j < n)%nat → j ≠ i → g j = f j) →
  g i = overwrite (f i) k c → (k + length c ≤ ps)%nat →
  concat (g <$> seq 0 n) = overwrite (concat (f <$> seq 0 n)) (i * ps + k) c.
Proof.
  intros Hf Hi Hg Hgi Hk. rewrite !(pages_split _ n i) by done. rewrite Hgi.
  assert (∀ a m, (∀ j, (a ≤ j < a + m)%nat → (j < n)%nat ∧ j ≠ i) → g <$> seq a m = f <$> seq a m) as Hsame.
  { intros a m Hr. apply list_fmap_ext. intros j x Hx. apply lookup_seq in Hx as [-> Hlt]. apply Hg; apply Hr; lia. }
  rewrite !Hsame by lia.
  assert (length (concat (f <$> seq 0 i)) = (i * ps)%nat) as Hl by (apply length_pages; intros; apply Hf; lia).
  rewrite overwrite_app_r, Hl by lia. f_equal. replace (i * ps + k - i * ps)%nat with k by lia.
  by rewrite overwrite_app_l by (rewrite Hf; lia).
Qed.
Lemma pages_sub f n i k m :
  (∀ j, (j < n)%nat → length (f j) = ps) → (i < n)%nat → (k + m ≤ ps)%nat →
  sub (concat (f <$> seq 0 n)) (i * ps + k) m = sub (f i) k m.
Proof.
  intros Hf Hi Hk. rewrite (pages_split f n i) by done. unfold sub.
  assert (length (concat (f <$> seq 0 i)) = (i * ps)%nat) as Hl by (apply length_pages; intros; apply Hf; lia).
  rewrite drop_app_ge by lia. rewrite Hl. replace (i * ps + k - i * ps)%nat with k by lia.
  pose proof (Hf i Hi). rewrite drop_app_le, take_app_le by (rewrite ?length_drop; lia). done.
Qed.
End paged.

Section image.
Context {T : Type} `{HL : PageTableLaws T}.
Implicit Types vm : VirtualMemory T.

Lemma read_page r l ps :
  rep r l → 0 < ps ≤ len l → (Region.ReadAt r (replicate (Z.to_nat ps) 0) 0).1.1 = take (Z.to_nat ps) l.
Proof.
  intros Hr Hl. unfold Region.ReadAt. rewrite (read_region_of _ r l) by (done || lia). cbn.
  rewrite drop_0. unfold overwrite. rewrite length_replicate, Nat.sub_0_r, drop_ge, app_nil_r by (rewrite length_replicate; lia).
  done.
Qed.
Lemma page_of_rep vm i r l :
  0 < pageSize vm → VM.current vm i = Some r → rep r l → pageSize vm ≤ len l →
  page_of vm i = take (Z.to_nat (pageSize vm)) l.
Proof. intros Hps Hc Hr Hl. unfold page_of. rewrite Hc. by apply read_page. Qed.

(** Page numbers are small. *)
Lemma index_u64 n i : 0 ≤ n < 2^63 → 0 ≤ i ≤ n → u64 i = i.
Proof. intros Hn Hi. apply u64_small. unfold is_u. lia. Qed.

Lemma current_ok n vm i r :
  vm_ok n vm → 0 ≤ i < n → VM.current vm i = Some r → page_ok (pageSize vm) r.
Proof.
  intros Hok Hi. unfold VM.current. rewrite (index_u64 n) by (apply Hok || lia).
  destruct (Get (writePages vm) i) as [r'|] eqn:E; intros Hr; simplify_eq.
  - destruct (ok_written n vm Hok i r) as (d & -> & Hd); [lia|done|]. exists d. split; [constructor|lia].
  - by apply (ok_mapped n vm Hok i); [lia|].
Qed.
Lemma length_page_of n vm i : vm_ok n vm → 0 ≤ i < n → length (page_of vm i) = Z.to_nat (pageSize vm).
Proof.
  intros Hok Hi. destruct (VM.current vm i) as [r|] eqn:E.
  - destruct (current_ok n vm i r Hok Hi E) as (l & Hr & Hl).
    rewrite (page_of_rep vm i r l) by (done || apply Hok). rewrite length_take. lia.
  - unfold page_of. rewrite E. apply length_replicate.
Qed.
Lemma pages_count n vm : vm_ok n vm → Z.to_nat (totalSize vm / pageSize vm) = Z.to_nat n.
Proof. intros Hok. rewrite (ok_total n vm Hok), Z.div_mul; [done|]. pose proof (ok_size n vm Hok). lia. Qed.
Lemma length_contents n vm : vm_ok n vm → len (contents vm) = totalSize vm.
Proof.
  intros Hok. unfold contents. rewrite (pages_count n) by done.
  rewrite (length_pages (Z.to_nat (pageSize vm))) by (intros; apply (length_page_of n); [done|lia]).
  rewrite (ok_total n vm Hok). pose proof (ok_count n vm Hok). pose proof (ok_size n vm Hok). lia.
Qed.

(** ** Changing one page *)

Lemma contents_update n vm vm' i k c :
  vm_ok n vm → pageSize vm' = pageSize vm → totalSize vm' = totalSize vm → 0 ≤ i < n → 0 ≤ k →
  (∀ j, 0 ≤ j < n → j ≠ i → VM.current vm' j = VM.current vm j) →
  page_of vm' i = overwrite (page_of vm i) (Z.to_nat k) c → k + len c ≤ pageSize vm →
  contents vm' = overwrite (contents vm) (Z.to_nat (i * pageSize vm + k)) c.
Proof.
  intros Hok Hps Htot Hi Hk Hcur Hpage Hc. unfold contents. rewrite Hps, Htot, (pages_count n) by done.
  pose proof (ok_size n vm Hok).
  rewrite (pages_update (Z.to_nat (pageSize vm)) (λ i, page_of vm (Z.of_nat i)) _ _ (Z.to_nat i) (Z.to_nat k) c).
  - f_equal. lia.
  - intros j Hj. apply (length_page_of n); [done|lia].
  - lia.
  - intros j Hj Hne. unfold page_of. rewrite Hps, Hcur by lia. done.
  - by rewrite Z2Nat.id by lia.
  - lia.
Qed.

Lemma current_set_page n vm i r j :
  vm_ok n vm → 0 ≤ i < n → 0 ≤ j < n →
  VM.current (VM.set_page vm i r) j = if i =? j then Some r else VM.current vm j.
Proof.
  intros Hok Hi Hj. pose proof (ok_count n vm Hok). unfold VM.current, VM.set_page.
  cbn [pages writePages update eta_VirtualMemory]. rewrite !(index_u64 n) by lia.
  rewrite !(Get_Set n) by (apply Hok || lia). replace (i <? n) with true by lia. rewrite andb_true_r.
  by destruct (i =? j).
Qed.
Lemma set_page_ok n vm i r :
  vm_ok n vm → 0 ≤ i < n → page_ok (pageSize vm) r → vm_ok n (VM.set_page vm i r).
Proof.
  intros Hok Hi Hr. pose proof (ok_count n vm Hok). unfold VM.set_page. rewrite (index_u64 n) by lia.
  split; try apply Hok; cbn [pages writePages pageSize update eta_VirtualMemory].
  - apply Set_ok; [apply Hok|lia].
  - apply Set_ok; [apply Hok|lia].
  - intros j r' Hj. rewrite (Get_Set n) by (apply Hok || lia).
    destruct (_ && _); [by intros; simplify_eq|]. by apply (ok_mapped n vm Hok).
  - intros j r' Hj. rewrite (Get_Set n) by (apply Hok || lia).
    destruct (_ && _); [done|]. by apply (ok_written n vm Hok).
Qed.
(** Installing a page that changes part of the old one. *)
Lemma set_page_contents n vm i r l k c :
  vm_ok n vm → 0 ≤ i < n → 0 ≤ k → k + len c ≤ pageSize vm → rep r l → pageSize vm ≤ len l →
  take (Z.to_nat (pageSize vm)) l = overwrite (page_of vm i) (Z.to_nat k) c →
  vm_ok n (VM.set_page vm i r) ∧
  contents (VM.set_page vm i r) = overwrite (contents vm) (Z.to_nat (i * pageSize vm + k)) c.
Proof.
  intros Hok Hi Hk Hc Hr Hl Htake. assert (page_ok (pageSize vm) r) as Hp by (by exists l).
  split; [by apply set_page_ok|]. pose proof (ok_size n vm Hok).
  apply (contents_update n); [done|done|done|done|done| |..|done].
  - intros j Hj Hne. rewrite (current_set_page n) by done. by destruct (Z.eqb_spec i j).
  - rewrite <-Htake. apply (page_of_rep (VM.set_page vm i r) i r l); [done| |done|done].
    rewrite (current_set_page n) by done. by rewrite Z.eqb_refl.
Qed.

(** ** Fragments *)

Lemma map_into_spec page l frag c off :
  (∃ fs total, page = fragmentedRegion fs total) → rep page l → rep frag c → 0 ≤ off → off + len c ≤ len l →
  ∃ fs total, VM.map_into page frag off = inl (fragmentedRegion fs total) ∧
    rep (fragmentedRegion fs total) (overwrite l (Z.to_nat off) c).
Proof.
  intros (fs & total & ->) Hr Hf Ho Hc. destruct (mapFragment_spec fs total l frag c off) as (fs' & H' & Hr'); [done..|].
  exists fs', total. cbn. by rewrite H'.
Qed.

Lemma quot_rem_pos off ps : 0 ≤ off → 0 < ps → Z.quot off ps = off / ps ∧ Z.rem off ps = off mod ps.
Proof. intros. by rewrite Z.quot_div_nonneg, Z.rem_mod_nonneg by lia. Qed.

(** What mapping to one place does to an image. *)
Definition mapped_at (n : Z) vm (off : Z) (c : list Z) (res : VirtualMemory T * option string) : Prop :=
  let '(vm', e) := res in
  e = None ∧ vm_ok n vm' ∧ pageSize vm' = pageSize vm ∧ totalSize vm' = totalSize vm ∧
  contents vm' = overwrite (contents vm) (Z.to_nat off) c.

(** A region is laid over the fragments of a page. *)
Lemma map_page n vm i k r c page l err :
  vm_ok n vm → 0 ≤ i < n → 0 ≤ k → k + len c ≤ pageSize vm → rep r c →
  (∃ fs total, page = fragmentedRegion fs total) → rep page l → pageSize vm ≤ len l →
  take (Z.to_nat (pageSize vm)) l = page_of vm i →
  mapped_at n vm (i * pageSize vm + k) c
    match VM.map_into page r k with
    | inr e => (vm, Some (err e))
    | inl f => (VM.set_page vm i f, None)
    end.
Proof.
  intros Hok Hi Hk Hc Hr Hfrag Hpage Hl Htake.
  destruct (map_into_spec page l r c k) as (fs & total & -> & Hrep); [done|done|done|lia|lia|].
  destruct (set_page_contents n vm i (fragmentedRegion fs total) (overwrite l (Z.to_nat k) c) k c) as [H1 H2];
    [done|done|lia|done|done|by rewrite length_overwrite|by rewrite overwrite_take, Htake|].
  by split_and!.
Qed.
(** The page with which a partial mapping starts. *)
Lemma new_page_zero ps : 0 < ps → ∃ fs total, newFragmentRegion ps = fragmentedRegion fs total ∧
  rep (fragmentedRegion fs total) (replicate (Z.to_nat ps) 0).
Proof. intros Hps. do 2 eexists. split; [done|]. by apply rep_newFragmentRegion. Qed.
Lemma new_page_existing ps existing l :
  0 < ps ≤ len l → rep existing l →
  ∃ fs total, VM.map_into (newFragmentRegion ps) (NewTruncatedRegion existing ps) 0 = inl (fragmentedRegion fs total) ∧
    rep (fragmentedRegion fs total) (take (Z.to_nat ps) l).
Proof.
  intros Hps Hr. destruct (map_into_spec (newFragmentRegion ps) (replicate (Z.to_nat ps) 0)
    (NewTruncatedRegion existing ps) (take (Z.to_nat ps) l) 0) as (fs & total & H1 & H2).
  - by do 2 eexists.
  - apply rep_newFragmentRegion. lia.
  - apply rep_NewTruncatedRegion; [done|lia].
  - lia.
  - rewrite length_take, length_replicate. lia.
  - exists fs, total. split; [done|]. change (Z.to_nat 0) with 0%nat in H2. unfold overwrite in H2.
    rewrite length_replicate, take_0 in H2. cbn [app] in H2.
    rewrite drop_ge, app_nil_r, take_take in H2 by (rewrite length_replicate, length_take; lia).
    by replace ((Z.to_nat ps - 0) `min` Z.to_nat ps)%nat with (Z.to_nat ps) in H2 by lia.
Qed.

(** A region that fits in the rest of its page is laid over it. *)
Lemma vm_mapFragment_spec n vm r c off :
  vm_ok n vm → rep r c → 0 ≤ off < totalSize vm → off mod pageSize vm + len c ≤ pageSize vm →
  mapped_at n vm off c (VM.mapFragment vm r off).
Proof.
  intros Hok Hr Ho Hc. pose proof (ok_size n vm Hok) as Hps. unfold VM.mapFragment.
  set (vm1 := vm <| totalMapFragments := _ |>). assert (vm_ok n vm1) as Hok1 by (destruct Hok; by split).
  match goal with |- mapped_at _ _ _ _ ?x => change (mapped_at n vm1 off c x) end. change (pageSize vm1) with (pageSize vm).
  destruct (quot_rem_pos off (pageSize vm)) as [-> ->]; [lia|done|].
  set (i := off / pageSize vm). set (k := off mod pageSize vm) in *.
  assert (0 ≤ k < pageSize vm) as Hk by (apply Z.mod_pos_bound; lia).
  assert (off = i * pageSize vm1 + k) as Hoff
    by (change (pageSize vm1) with (pageSize vm); unfold i, k; pose proof (Z.div_mod off (pageSize vm)); lia).
  assert (0 ≤ i < n) as Hi.
  { rewrite (ok_total n vm Hok) in Ho. split; [apply Z.div_pos; lia|apply Z.div_lt_upper_bound; lia]. }
  rewrite Hoff. clearbody i k. clear Hoff.
  destruct (VM.current vm1 i) as [existing|] eqn:E.
  - destruct (current_ok n vm1 i existing Hok1 Hi E) as (l & Hl & Hlen).
    pose proof (page_of_rep vm1 i existing l Hps E Hl Hlen) as Hpage.
    destruct (new_page_existing (pageSize vm) existing l) as (fs & total & Hnew & Hrep); [done|done|].
    assert (mapped_at n vm1 (i * pageSize vm1 + k) c
      match VM.map_into (newFragmentRegion (pageSize vm)) (NewTruncatedRegion existing (pageSize vm)) 0 with
      | inr e => (vm1, Some "failed to preserve existing page fragment")
      | inl newFrag =>
        match VM.map_into newFrag r k with
        | inr e => (vm1, Some "failed to map fragment")
        | inl newFrag => (VM.set_page vm1 i newFrag, None)
        end
      end) as Hother.
    { rewrite Hnew. apply (map_page n vm1 i k r c _ (take (Z.to_nat (pageSize vm)) l) (λ _, "failed to map fragment"));
        try done; [lia|by do 2 eexists|rewrite length_take; change (pageSize vm1) with (pageSize vm) in *; lia|].
      by rewrite Hpage, take_take, Nat.min_id. }
    destruct existing; try exact Hother.
    apply (map_page n vm1 i k r c _ l (λ e, e)); try done; [lia|by do 2 eexists].
  - destruct (new_page_zero (pageSize vm) Hps) as (fs & total & -> & Hrep).
    apply (map_page n vm1 i k r c _ (replicate (Z.to_nat (pageSize vm)) 0) (λ _, "failed to map fragment"));
      try done; [lia|by do 2 eexists|rewrite length_replicate; change (pageSize vm1) with (pageSize vm); lia|].
    unfold page_of. rewrite E. by rewrite take_replicate, Nat.min_id.
Qed.

(** ** Whole pages *)

Lemma mapRegion_spec n vm r l off :
  vm_ok n vm → rep r l → pageSize vm ≤ len l → 0 ≤ off < totalSize vm → off mod pageSize vm = 0 →
  mapped_at n vm off (take (Z.to_nat (pageSize vm)) l) (VM.mapRegion vm r off).
Proof.
  intros Hok Hr Hl Ho Hal. pose proof (ok_size n vm Hok) as Hps. unfold VM.mapRegion.
  set (vm1 := vm <| totalMapRegions := _ |>). assert (vm_ok n vm1) as Hok1 by (destruct Hok; by split).
  match goal with |- mapped_at _ _ _ _ ?x => change (mapped_at n vm1 off (take (Z.to_nat (pageSize vm)) l) x) end.
  change (pageSize vm1) with (pageSize vm). destruct (quot_rem_pos off (pageSize vm)) as [-> ->]; [lia|done|].
  rewrite Hal. cbn [Z.eqb negb]. set (i := off / pageSize vm).
  assert (off = i * pageSize vm1 + 0) as Hoff
    by (change (pageSize vm1) with (pageSize vm); unfold i; pose proof (Z.div_mod off (pageSize vm)); lia).
  assert (0 ≤ i < n) as Hi.
  { rewrite (ok_total n vm Hok) in Ho. split; [apply Z.div_pos; lia|apply Z.div_lt_upper_bound; lia]. }
  rewrite Hoff. clearbody i.
  destruct (set_page_contents n vm1 i r l 0 (take (Z.to_nat (pageSize vm)) l)) as [H1 H2];
    [done|done|lia|rewrite length_take; change (pageSize vm1) with (pageSize vm); lia|done|done| |by split_and!].
  change (Z.to_nat 0) with 0%nat. unfold overwrite. rewrite (length_page_of n) by done. change (pageSize vm1) with (pageSize vm).
  rewrite take_0, take_take, drop_ge by (rewrite (length_page_of n vm1), length_take by done; change (pageSize vm1) with (pageSize vm); lia).
  cbn [app]. rewrite app_nil_r. f_equal. lia.
Qed.

Lemma map_pages_spec fuel n vm r l ro off :
  vm_ok n vm → rep r l → 0 ≤ ro ≤ len l → 0 ≤ off → off mod pageSize vm = 0 → off + (len l - ro) ≤ totalSize vm →
  (len l - ro) / pageSize vm < Z.of_nat fuel →
  let '(vm', ro', off', e) := VM.map_pages fuel vm r (len l) ro off in
  e = None ∧ vm_ok n vm' ∧ pageSize vm' = pageSize vm ∧ totalSize vm' = totalSize vm ∧
  ro ≤ ro' ≤ len l ∧ off' = off + (ro' - ro) ∧ off' mod pageSize vm = 0 ∧ len l - ro' < pageSize vm ∧
  contents vm' = overwrite (contents vm) (Z.to_nat off) (sub l (Z.to_nat ro) (Z.to_nat (ro' - ro))).
Proof.
  revert vm ro off. induction fuel as [|fuel IH]; intros vm ro off Hok Hr Hro Ho Hal Hfit Hfuel;
    pose proof (ok_size n vm Hok) as Hps.
  { pose proof (Z.div_pos (len l - ro) (pageSize vm)). lia. }
  cbn [VM.map_pages]. destruct (Z.ltb_spec (len l - ro) (pageSize vm)) as [Hlt|Hge].
  { rewrite Z.sub_diag. unfold sub. change (Z.to_nat 0) with 0%nat. rewrite take_0, overwrite_nil.
    split_and!; try done; lia. }
  assert (mapped_at n vm off (take (Z.to_nat (pageSize vm)) (drop (Z.to_nat ro) l))
    (if ro =? 0 then VM.mapRegion vm r off else VM.mapRegion vm (NewOffsetRegion r ro) off)) as Hm.
  { destruct (Z.eqb_spec ro 0) as [->|Hne].
    - change (Z.to_nat 0) with 0%nat. rewrite drop_0. apply mapRegion_spec; [done|done|lia|lia|done].
    - apply mapRegion_spec; [done|by apply rep_NewOffsetRegion|rewrite length_drop; lia|lia|done]. }
  destruct (if ro =? 0 then _ else _) as [vm1 e]. destruct Hm as (-> & Hok1 & Hps1 & Htot1 & Hc1).
  assert ((len l - (ro + pageSize vm)) / pageSize vm < Z.of_nat fuel) as Hfuel'.
  { replace (len l - (ro + pageSize vm)) with (len l - ro + (-1) * pageSize vm) by lia. rewrite Z.div_add by lia.
    lia. }
  specialize (IH vm1 (ro + pageSize vm) (off + pageSize vm) Hok1 Hr ltac:(lia) ltac:(lia)).
  rewrite Hps1, Htot1 in IH. specialize (IH ltac:(rewrite <-Z.add_mod_idemp_r, Z.mod_same, Z.add_0_r by lia; done) ltac:(lia)).
  specialize (IH Hfuel').
  destruct (VM.map_pages fuel vm1 _ _ _ _) as [[[vm2 ro2] off2] e2].
  destruct IH as (H1 & H2 & H3 & H4 & [H5 H5'] & H6 & H7 & H8 & H9). split_and!; try done; try lia.
  rewrite H9, Hc1. change (take (Z.to_nat (pageSize vm)) (drop (Z.to_nat ro) l)) with (sub l (Z.to_nat ro) (Z.to_nat (pageSize vm))).
  set (a := sub l (Z.to_nat ro) (Z.to_nat (pageSize vm))).
  assert (length a = Z.to_nat (pageSize vm)) as Ha by (apply length_sub; lia).
  replace (Z.to_nat (off + pageSize vm)) with (Z.to_nat off + length a)%nat by lia.
  pose proof (length_contents n vm Hok). rewrite overwrite_overwrite by lia. f_equal.
  replace (Z.to_nat (ro2 - ro)) with (Z.to_nat (pageSize vm) + Z.to_nat (ro2 - (ro + pageSize vm)))%nat by lia.
  rewrite sub_split. f_equal. f_equal. lia.
Qed.

(** ** Mapping a region *)

(** Mapping twice, the second right after the first. *)
Lemma mapped_then n vm vm1 off a b off1 res :
  vm_ok n vm → mapped_at n vm off a (vm1, None) → off1 = off + len a → 0 ≤ off → off1 ≤ totalSize vm →
  mapped_at n vm1 off1 b res → mapped_at n vm off (a ++ b) res.
Proof.
  intros Hok (_ & Hok1 & Hps & Htot & Hc) -> Ho Hfit. destruct res as [vm2 e]. intros (-> & Hok2 & Hps2 & Htot2 & Hc2).
  pose proof (length_contents n vm Hok). split_and!; [done|done|congruence|congruence|].
  rewrite Hc2, Hc. replace (Z.to_nat (off + len a)) with (Z.to_nat off + length a)%nat by lia.
  by rewrite overwrite_overwrite by lia.
Qed.

(** The whole pages and the partial page after them. *)
Lemma map_rest n vm r l ro off fuel :
  vm_ok n vm → rep r l → 0 ≤ ro ≤ len l → 0 ≤ off → off mod pageSize vm = 0 → off + (len l - ro) ≤ totalSize vm →
  (len l - ro) / pageSize vm < Z.of_nat fuel →
  mapped_at n vm off (drop (Z.to_nat ro) l)
    (let '(vm, regionOffset, offset, e) := VM.map_pages fuel vm r (len l) ro off in
     match e with
     | Some e => (vm, Some e)
     | None =>
       if len l - regionOffset >? 0 then
         let '(vm, e) := VM.mapFragment vm (NewOffsetRegion r regionOffset) offset in
         match e with Some _ => (vm, Some "failed to map trailing fragment") | None => (vm, None) end
       else (vm, None)
     end).
Proof.
  intros Hok Hr Hro Ho Hal Hfit Hfuel. pose proof (ok_size n vm Hok) as Hps.
  pose proof (map_pages_spec fuel n vm r l ro off Hok Hr Hro Ho Hal Hfit Hfuel) as Hp.
  destruct (VM.map_pages _ _ _ _ _ _) as [[[vm1 ro1] off1] e].
  destruct Hp as (-> & Hok1 & Hps1 & Htot1 & [H5 H5'] & -> & H7 & H8 & H9).
  assert (drop (Z.to_nat ro) l = sub l (Z.to_nat ro) (Z.to_nat (ro1 - ro)) ++ drop (Z.to_nat ro1) l) as ->.
  { unfold sub. rewrite <-(take_drop (Z.to_nat (ro1 - ro)) (drop (Z.to_nat ro) l)) at 1. rewrite drop_drop. do 2 f_equal. lia. }
  assert (mapped_at n vm off (sub l (Z.to_nat ro) (Z.to_nat (ro1 - ro))) (vm1, None)) as Hm by (by split_and!).
  assert (len (sub l (Z.to_nat ro) (Z.to_nat (ro1 - ro))) = ro1 - ro) as Hlen by (rewrite length_sub; lia).
  destruct (Z.gtb_spec (len l - ro1) 0).
  - pose proof (vm_mapFragment_spec n vm1 (NewOffsetRegion r ro1) (drop (Z.to_nat ro1) l) (off + (ro1 - ro))) as Hf.
    rewrite Hps1, Htot1, H7, length_drop in Hf.
    specialize (Hf Hok1 ltac:(apply rep_NewOffsetRegion; [done|lia]) ltac:(lia) ltac:(lia)).
    destruct (VM.mapFragment _ _ _) as [vm2 e2]. pose proof Hf as (-> & _).
    by apply (mapped_then n vm vm1 off _ _ (off + (ro1 - ro))); [| |lia|lia|lia|].
  - rewrite drop_ge, app_nil_r by lia. done.
Qed.

Lemma Map_spec n vm r l off :
  vm_ok n vm → rep r l → 0 ≤ off → off + len l ≤ totalSize vm → mapped_at n vm off l (VM.Map vm r off).
Proof.
  intros Hok Hr Ho Hfit. pose proof (ok_size n vm Hok) as Hps. unfold VM.Map.
  set (vm0 := vm <| totalMaps := _ |>). assert (vm_ok n vm0) as Hok0 by (destruct Hok; by split).
  match goal with |- mapped_at _ _ _ _ ?x => change (mapped_at n vm0 off l x) end.
  change (pageSize vm0) with (pageSize vm). change (totalSize vm0) with (totalSize vm). rewrite (rep_Size r l) by done.
  destruct (Z.ltb_spec off 0); [lia|]. destruct (Z.ltb_spec (len l) 0); [lia|].
  destruct (Z.gtb_spec off (totalSize vm)); [lia|]. destruct (Z.gtb_spec (len l) (totalSize vm - off)); [lia|]. cbn [orb].
  destruct (quot_rem_pos off (pageSize vm)) as [_ ->]; [lia|done|].
  assert (∀ vm', pageSize vm' = pageSize vm → ∀ x, 0 ≤ x → (len l - x) / pageSize vm' < Z.of_nat (S (Z.to_nat (len l / pageSize vm')))) as Hfuel.
  { intros vm' -> x Hx. pose proof (Z.div_pos (len l) (pageSize vm) ltac:(lia) Hps).
    pose proof (Z.div_le_mono (len l - x) (len l) (pageSize vm) Hps ltac:(lia)). lia. }
  destruct (Z.eqb_spec (off mod pageSize vm) 0) as [Hal|Hal]; cbn [negb].
  { rewrite <-(drop_0 l) at 1. apply (map_rest n vm0 r l 0 off); try done; try lia;
      [change (totalSize vm0) with (totalSize vm); lia|by apply (Hfuel vm0)]. }
  pose proof (Z.mod_pos_bound off (pageSize vm) Hps) as Hmod.
  set (fs := Z.min (pageSize vm - off mod pageSize vm) (len l)).
  pose proof (vm_mapFragment_spec n vm0 (NewTruncatedRegion r fs) (take (Z.to_nat fs) l) off Hok0) as Hf.
  change (pageSize vm0) with (pageSize vm) in Hf. change (totalSize vm0) with (totalSize vm) in Hf.
  rewrite length_take in Hf. specialize (Hf ltac:(apply rep_NewTruncatedRegion; [done|lia])).
  assert (off < totalSize vm) as Hin.
  { destruct (decide (off = totalSize vm)) as [Heq|]; [|lia]. rewrite Heq, (ok_total n vm Hok), Z.mod_mul in Hal by lia. done. }
  specialize (Hf ltac:(lia) ltac:(lia)). destruct (VM.mapFragment _ _ _) as [vm1 e]. pose proof Hf as (-> & Hok1 & Hps1 & Htot1 & _).
  rewrite <-(take_drop (Z.to_nat fs) l) at 1.
  apply (mapped_then n vm0 vm1 off (take (Z.to_nat fs) l) _ (off + fs)); [done|done|rewrite length_take; lia|lia|change (totalSize vm0) with (totalSize vm); lia|].
  destruct (decide (fs = len l)) as [Heq|Hne].
  - rewrite Heq. cbn [VM.map_pages]. rewrite Z.sub_diag, Hps1. change (pageSize vm0) with (pageSize vm).
    destruct (Z.ltb_spec 0 (pageSize vm)); [|lia]. rewrite Z.sub_diag. cbn [Z.gtb Z.compare].
    rewrite drop_ge by lia. split_and!; try done. by rewrite overwrite_nil.
  - apply (map_rest n vm1 r l fs (off + fs)); try done; try lia; [|rewrite Htot1; change (totalSize vm0) with (totalSize vm); lia|apply Hfuel; [done|lia]].
    rewrite Hps1. change (pageSize vm0) with (pageSize vm). unfold fs. rewrite Z.min_l by lia.
    replace (off + (pageSize vm - off mod pageSize vm)) with ((off / pageSize vm + 1) * pageSize vm)
      by (pose proof (Z.div_mod off (pageSize vm)); lia).
    apply Z.mod_mul. lia.
Qed.

(** ** Reading *)

Lemma getRegion_read vm off :
  0 ≤ off ≤ totalSize vm → 0 < pageSize vm →
  (VM.getRegion vm off false).2 = inl (VM.current vm (off / pageSize vm), off mod pageSize vm).
Proof.
  intros Ho Hps. unfold VM.getRegion, VM.current. destruct (Z.gtb_spec off (totalSize vm)); [lia|].
  destruct (quot_rem_pos off (pageSize vm)) as [-> ->]; [lia|done|]. by destruct (Get (writePages vm) _).
Qed.
Lemma page_index n vm off :
  vm_ok n vm → 0 ≤ off < totalSize vm →
  0 ≤ off / pageSize vm < n ∧ 0 ≤ off mod pageSize vm < pageSize vm ∧
  off = off / pageSize vm * pageSize vm + off mod pageSize vm.
Proof.
  intros Hok Ho. pose proof (ok_size n vm Hok). rewrite (ok_total n vm Hok) in Ho.
  split_and!; try apply Z.mod_pos_bound; try lia; [apply Z.div_pos; lia|apply Z.div_lt_upper_bound; lia|].
  pose proof (Z.div_mod off (pageSize vm)). lia.
Qed.
Lemma contents_page n vm i k m :
  vm_ok n vm → 0 ≤ i < n → 0 ≤ k → k + Z.of_nat m ≤ pageSize vm →
  sub (contents vm) (Z.to_nat (i * pageSize vm + k)) m = sub (page_of vm i) (Z.to_nat k) m.
Proof.
  intros Hok Hi Hk Hm. pose proof (ok_size n vm Hok).
  replace (Z.to_nat (i * pageSize vm + k)) with (Z.to_nat i * Z.to_nat (pageSize vm) + Z.to_nat k)%nat by lia.
  unfold contents. rewrite (pages_count n) by done.
  rewrite (pages_sub (Z.to_nat (pageSize vm))); [by rewrite Z2Nat.id by lia| |lia|lia].
  intros j Hj. apply (length_page_of n); [done|lia].
Qed.

Lemma read_step_spec n vm p off :
  vm_ok n vm → 0 ≤ off < totalSize vm →
  let ro := off mod pageSize vm in
  let k := Z.to_nat (Z.min (pageSize vm - ro) (len p)) in
  VM.read_step vm p (VM.current vm (off / pageSize vm)) ro =
    (sub (contents vm) (Z.to_nat off) k ++ drop k p, Z.min (pageSize vm - ro) (len p), None).
Proof.
  intros Hok Ho. destruct (page_index n vm off Hok Ho) as (Hi & Hro & Hoff). cbn zeta.
  set (i := off / pageSize vm) in *. set (ro := off mod pageSize vm) in *.
  set (k := Z.to_nat (Z.min (pageSize vm - ro) (len p))).
  rewrite Hoff at 1. rewrite (contents_page n) by (done || lia). unfold VM.read_step.
  destruct (VM.current vm i) as [r|] eqn:E.
  - replace (Z.to_nat (Z.min (pageSize vm) (len p + ro) - ro)) with k by lia.
    destruct (current_ok n vm i r Hok Hi E) as (l & Hr & Hl). unfold Region.ReadAt.
    rewrite (read_region_of _ r l) by (done || lia). unfold read_of. apply result_eq; [|rewrite length_take; lia].
    f_equal. rewrite (page_of_rep vm i r l) by (done || apply Hok).
    unfold overwrite, sub. rewrite take_0, length_take, Nat.min_l, Nat.sub_0_r by lia.
    rewrite (drop_ge (take k p)), app_nil_r by (rewrite length_take, length_drop; lia). cbn [app].
    rewrite !take_drop_commute, take_take. do 2 f_equal. lia.
  - unfold page_of. rewrite E. apply result_eq; [|done]. fold k. unfold overwrite, sub.
    rewrite take_0, length_replicate, drop_replicate, !take_replicate. cbn [app]. f_equal. f_equal. lia.
Qed.

Lemma read_loop_spec fuel n vm p off m :
  vm_ok n vm → 0 ≤ off → off + len p ≤ totalSize vm → (length p < fuel)%nat →
  VM.read_loop fuel vm p off m = Some (sub (contents vm) (Z.to_nat off) (length p), m + len p, None).
Proof.
  intros Hok. revert p off m. induction fuel as [|fuel IH]; intros p off m Ho Hfit Hfuel; [lia|].
  pose proof (ok_size n vm Hok) as Hps. cbn [VM.read_loop]. rewrite getRegion_read by lia.
  destruct (decide (off = totalSize vm)) as [->|Hne].
  - destruct p; [|cbn [length] in Hfit; lia].
    assert (VM.current vm (totalSize vm / pageSize vm) = None) as ->.
    { rewrite (ok_total n vm Hok), Z.div_mul by lia. unfold VM.current. pose proof (ok_count n vm Hok).
      rewrite (index_u64 n) by lia. rewrite !(Get_range n) by (apply Hok || lia). done. }
    pose proof (Z.mod_pos_bound (totalSize vm) (pageSize vm) Hps). cbn [VM.read_step length].
    rewrite Z.min_r by lia. cbn. done.
  - pose proof (read_step_spec n vm p off Hok ltac:(lia)) as Hs. cbn zeta in Hs. rewrite Hs.
    destruct (page_index n vm off Hok ltac:(lia)) as (_ & Hro & _).
    set (k := Z.min (pageSize vm - off mod pageSize vm) (len p)).
    pose proof (length_contents n vm Hok) as HC.
    assert (length (sub (contents vm) (Z.to_nat off) (Z.to_nat k)) = Z.to_nat k) as Hlk by (apply length_sub; lia).
    rewrite drop_app_ge, Hlk, Nat.sub_diag, drop_0, length_drop by lia.
    destruct (Z.eqb_spec (Z.of_nat (length p - Z.to_nat k)) 0) as [Hz|Hz].
    + rewrite drop_ge, app_nil_r by lia. f_equal. apply result_eq; [f_equal|]; lia.
    + rewrite IH by (rewrite ?length_drop; lia). rewrite take_app_le, take_ge, length_drop by lia.
      f_equal. apply result_eq; [|lia]. replace (length p) with (Z.to_nat k + (length p - Z.to_nat k))%nat at 2 by lia.
      rewrite sub_split. f_equal. f_equal. lia.
Qed.

(** ** Writing *)

Definition set_written vm (i : Z) (d : list Z) : VirtualMemory T :=
  vm <| writePages := Set_ (writePages vm) (u64 i) (Some (RawRegion d)) |>.
Lemma current_set_written n vm i d j :
  vm_ok n vm → 0 ≤ i < n → 0 ≤ j < n →
  VM.current (set_written vm i d) j = if i =? j then Some (RawRegion d) else VM.current vm j.
Proof.
  intros Hok Hi Hj. pose proof (ok_count n vm Hok). unfold VM.current, set_written.
  cbn [pages writePages update eta_VirtualMemory]. rewrite !(index_u64 n) by lia.
  rewrite !(Get_Set n) by (apply Hok || lia). replace (i <? n) with true by lia. rewrite andb_true_r.
  by destruct (i =? j).
Qed.
Lemma set_written_spec n vm i d k c :
  vm_ok n vm → 0 ≤ i < n → 0 ≤ k → k + len c ≤ pageSize vm → d = overwrite (page_of vm i) (Z.to_nat k) c →
  vm_ok n (set_written vm i d) ∧
  contents (set_written vm i d) = overwrite (contents vm) (Z.to_nat (i * pageSize vm + k)) c.
Proof.
  intros Hok Hi Hk Hc Hd. pose proof (ok_count n vm Hok). pose proof (ok_size n vm Hok).
  assert (len d = pageSize vm) as Hlen by (rewrite Hd, length_overwrite, (length_page_of n) by done; lia). split.
  - unfold set_written. rewrite (index_u64 n) by lia.
    split; try apply Hok; cbn [pages writePages pageSize update eta_VirtualMemory].
    + apply Set_ok; [apply Hok|lia].
    + intros j r Hj. rewrite (Get_Set n) by (apply Hok || lia).
      destruct (_ && _); [intros; simplify_eq; eauto|]. by apply (ok_written n vm Hok).
  - apply (contents_update n); [done|done|done|done|done| | |done].
    + intros j Hj Hne. rewrite (current_set_written n) by done. by destruct (Z.eqb_spec i j).
    + rewrite <-Hd. rewrite (page_of_rep _ i (RawRegion d) d).
      * apply take_ge. change (pageSize (set_written vm i d)) with (pageSize vm). lia.
      * done.
      * rewrite (current_set_written n) by done. by rewrite Z.eqb_refl.
      * constructor.
      * change (pageSize (set_written vm i d)) with (pageSize vm). lia.
Qed.

(** The copy of a page that a write gets. *)
Lemma getRegion_write n vm off :
  vm_ok n vm → 0 ≤ off < totalSize vm →
  ∃ vm', VM.getRegion vm off true = (vm', inl (Some (RawRegion (page_of vm (off / pageSize vm))), off mod pageSize vm)) ∧
    vm_ok n vm' ∧ pageSize vm' = pageSize vm ∧ totalSize vm' = totalSize vm ∧ contents vm' = contents vm ∧
    page_of vm' (off / pageSize vm) = page_of vm (off / pageSize vm).
Proof.
  intros Hok Ho. destruct (page_index n vm off Hok Ho) as (Hi & Hro & Hoff). pose proof (ok_size n vm Hok) as Hps.
  pose proof (ok_count n vm Hok). unfold VM.getRegion. destruct (Z.gtb_spec off (totalSize vm)); [lia|].
  destruct (quot_rem_pos off (pageSize vm)) as [-> ->]; [lia|done|].
  set (i := off / pageSize vm) in *. rewrite (index_u64 n) by lia.
  destruct (Get (writePages vm) i) as [r|] eqn:E.
  - destruct (ok_written n vm Hok i r) as (d & -> & Hd); [lia|done|]. exists vm. split_and!; try done.
    rewrite (page_of_rep vm i (RawRegion d) d); [by rewrite take_ge by lia|done| |constructor|lia].
    unfold VM.current. rewrite (index_u64 n) by lia. by rewrite E.
  - set (d := page_of vm i).
    destruct (set_written_spec n vm i d 0 []) as [Hw1 Hw2]; [done|done|lia|cbn; lia|by rewrite overwrite_nil|].
    rewrite overwrite_nil in Hw2.
    assert ((match Get (pages vm) i with
      | Some existing => let '(q, _, e) := Region.ReadAt existing (replicate (Z.to_nat (pageSize vm)) 0) 0 in (q, e)
      | None => (replicate (Z.to_nat (pageSize vm)) 0, None)
      end) = (d, None)) as ->.
    { unfold d, page_of, VM.current. rewrite (index_u64 n) by lia. rewrite E.
      destruct (Get (pages vm) i) as [r|] eqn:Er; [|done].
      destruct (ok_mapped n vm Hok i r) as (l & Hr & Hl); [lia|done|].
      unfold Region.ReadAt. rewrite (read_region_of _ r l) by (done || lia). done. }
    exists (set_written vm i d). cbn [writePages update eta_VirtualMemory].
    rewrite (Get_Set n) by (apply Hok || lia). rewrite Z.eqb_refl. replace (i <? n) with true by lia. cbn [andb].
    split_and!; try done; [unfold set_written; by rewrite (index_u64 n) by lia|].
    rewrite (page_of_rep _ i (RawRegion d) d); [apply take_ge| |rewrite (current_set_written n), Z.eqb_refl; done|constructor|];
      change (pageSize (set_written vm i d)) with (pageSize vm); unfold d; rewrite ?(length_page_of n) by done; lia.
Qed.

Lemma raw_write d p off :
  0 ≤ off < len d →
  RegionW.WriteAt (RawRegion d) p off = (RawRegion (overwrite d (Z.to_nat off) p), Z.min (len p) (len d - off), None).
Proof.
  intros Ho. unfold RegionW.WriteAt. cbn [depth write_region]. unfold boundsCheck. cbn [Size].
  destruct (Z.ltb_spec off 0); [lia|]. by destruct (Z.geb_spec off (len d)); [lia|].
Qed.

Lemma write_loop_spec fuel n vm p off m :
  vm_ok n vm → 0 ≤ off < totalSize vm → off + len p ≤ totalSize vm → (length p < fuel)%nat →
  ∃ vm', VM.write_loop fuel vm p off m = Some (vm', m + len p, None) ∧ mapped_at n vm off p (vm', None).
Proof.
  revert vm p off m. induction fuel as [|fuel IH]; intros vm p off m Hok Ho Hfit Hfuel; [lia|].
  destruct (page_index n vm off Hok Ho) as (Hi & Hro & Hoff). pose proof (ok_size n vm Hok) as Hps.
  cbn [VM.write_loop].
  destruct (getRegion_write n vm off Hok Ho) as (vm1 & -> & Hok1 & Hps1 & Htot1 & Hc1 & Hp1). rewrite Hps1.
  set (k := Z.min (pageSize vm) (len p + off mod pageSize vm) - off mod pageSize vm).
  rewrite raw_write by (rewrite (length_page_of n) by done; lia). rewrite length_take, (length_page_of n) by done.
  replace (Z.min _ (_ - off mod pageSize vm)) with k by lia.
  destruct (quot_rem_pos off (pageSize vm)) as [-> _]; [lia|done|].
  set (i := off / pageSize vm) in *. set (ro := off mod pageSize vm) in *.
  set (d := overwrite (page_of vm i) (Z.to_nat ro) (take (Z.to_nat k) p)).
  change (vm1 <| writePages := _ |>) with (set_written vm1 i d).
  destruct (set_written_spec n vm1 i d ro (take (Z.to_nat k) p)) as [H1 H2];
    [done|done|lia|rewrite length_take, Hps1; lia|by rewrite Hp1|].
  rewrite Hps1, <-Hoff, Hc1 in H2.
  assert (mapped_at n vm off (take (Z.to_nat k) p) (set_written vm1 i d, None)) as Hm by (by split_and!).
  rewrite length_drop. destruct (Z.eqb_spec (Z.of_nat (length p - Z.to_nat k)) 0) as [Hz|Hz].
  - exists (set_written vm1 i d). rewrite take_ge in Hm by lia. split; [|done]. f_equal. f_equal. f_equal. lia.
  - destruct (IH (set_written vm1 i d) (drop (Z.to_nat k) p) (off + k) (m + k)) as (vm2 & -> & Hm2);
      [done|change (totalSize (set_written vm1 i d)) with (totalSize vm1); lia
      |rewrite length_drop; change (totalSize (set_written vm1 i d)) with (totalSize vm1); lia|rewrite length_drop; lia|].
    exists vm2. rewrite length_drop. split; [f_equal; f_equal; f_equal; lia|].
    rewrite <-(take_drop (Z.to_nat k) p) at 1.
    by apply (mapped_then n vm (set_written vm1 i d) off _ _ (off + k)); [| |rewrite length_take; lia|lia|lia|].
Qed.
End image.

(** * Refinement: an image is an array of bytes *)

(** The bytes of a region. *)
Definition bytes_of (r : region) : list Z := (Region.ReadAt r (replicate (Z.to_nat (Size r)) 0) 0).1.1.

(** What the file systems do to an image. *)
Inductive image_op :=
  | OMap (r : region) (off : Z)
  | OMapSlice (r : region) (src size dst : Z)
  | OMapFile (file : list Z) (off size : Z)
  | OWrite (p : list Z) (off : Z)
  | OReset.
Definition image := VirtualMemory MultiLevelPageTable.
(** The image after the call, if it returned without an error. *)
Definition no_error {A} (res : A * option string) : option A :=
  match res with (a, None) => Some a | _ => None end.
Definition run_op (vm : image) (o : image_op) : option image :=
  match o with
  | OMap r off => no_error (VM.Map vm r off)
  | OMapSlice r src size dst => no_error (VM.MapSlice vm r src size dst)
  | OMapFile file off size => match VM.MapFile vm file off size with (vm', inl _) => Some vm' | _ => None end
  | OWrite p off => match VM.WriteAt vm p off with Some (vm', _, None) => Some vm' | _ => None end
  | OReset => Some (VM.Reset vm)
  end.
Definition run_ops (vm : image) (os : list image_op) : option image :=
  foldl (λ ovm o, vm ← ovm; run_op vm o) (Some vm) os.

(** The same on an array of bytes. *)
Definition spec_op (c : list Z) (o : image_op) : list Z :=
  match o with
  | OMap r off => overwrite c (Z.to_nat off) (bytes_of r)
  | OMapSlice r src size dst => overwrite c (Z.to_nat dst) (sub (bytes_of r) (Z.to_nat src) (Z.to_nat size))
  | OMapFile file off _ => overwrite c (Z.to_nat off) file
  | OWrite p off => overwrite c (Z.to_nat off) p
  | OReset => replicate (length c) 0
  end.
(** The operation stays inside an image of the size, and a file is mapped with
    the size it has. *)
Definition valid_op (total : Z) (o : image_op) : Prop :=
  match o with
  | OMap r off => (∃ l, rep r l) ∧ 0 ≤ off ∧ off + Size r ≤ total
  | OMapSlice r src size dst =>
    (∃ l, rep r l) ∧ 0 ≤ src ∧ 0 ≤ size ∧ src + size ≤ Size r ∧ 0 ≤ dst ∧ dst + size ≤ total
  | OMapFile file off size => size = len file ∧ 0 ≤ off ∧ off + size ≤ total
  | OWrite p off => 0 ≤ off < total ∧ off + len p ≤ total
  | OReset => True
  end.

Lemma bytes_of_rep r l : rep r l → bytes_of r = l.
Proof.
  intros Hr. unfold bytes_of. rewrite (rep_Size r l) by done. destruct (decide (len l = 0)) as [H0|H0].
  - destruct l; [|cbn in H0; lia]. unfold Region.ReadAt. destruct (depth r) eqn:E; [pose proof (depth_pos r); lia|].
    cbn [read_region length]. unfold boundsCheck. rewrite (rep_Size r []) by done. done.
  - rewrite (read_page r l) by (done || lia). by rewrite take_ge by lia.
Qed.

Lemma contents_empty n (vm : image) :
  vm_ok n vm → (∀ i, VM.current vm i = None) → contents vm = replicate (Z.to_nat (totalSize vm)) 0.
Proof.
  intros Hok Hnone. pose proof (length_contents n _ Hok) as H1. symmetry. apply replicate_as_elem_of. split; [lia|].
  intros x. unfold contents. rewrite list_elem_of_In, in_concat. intros (pg & Hpg & Hx).
  apply list_elem_of_In in Hpg, Hx. apply list_elem_of_fmap in Hpg as (i & -> & _). unfold page_of in Hx.
  rewrite Hnone in Hx. by apply elem_of_replicate in Hx as [-> _].
Qed.
Lemma vm_reset_spec n (vm : image) :
  vm_ok n vm → vm_ok n (VM.Reset vm) ∧ contents (VM.Reset vm) = replicate (length (contents vm)) 0.
Proof.
  intros Hok. assert (vm_ok n (VM.Reset vm)) as Hok'.
  { destruct Hok. split; try done; cbn [pages writePages VM.Reset update eta_VirtualMemory].
    - by apply Clear_ok.
    - by apply Clear_ok.
    - intros i r _. by rewrite (Get_Clear n).
    - intros i r _. by rewrite (Get_Clear n). }
  split; [done|]. pose proof (length_contents n _ Hok). rewrite (contents_empty n) by
    (done || intros i; unfold VM.current; cbn [pages writePages VM.Reset update eta_VirtualMemory];
     by rewrite !(Get_Clear n) by apply Hok).
  f_equal. change (totalSize (VM.Reset vm)) with (totalSize vm). lia.
Qed.

Lemma run_op_spec n (vm : image) o :
  vm_ok n vm → valid_op (totalSize vm) o →
  ∃ vm', run_op vm o = Some vm' ∧ vm_ok n vm' ∧ totalSize vm' = totalSize vm ∧ contents vm' = spec_op (contents vm) o.
Proof.
  intros Hok Hv. destruct o as [r off|r src size dst|file off size|p off|];
    cbn [run_op valid_op spec_op] in Hv |- *.
  - destruct Hv as ([l Hr] & Ho & Hf). rewrite (rep_Size r l) in Hf by done.
    pose proof (Map_spec n vm r l off Hok Hr Ho Hf) as Hm. destruct (VM.Map vm r off) as [vm' e].
    destruct Hm as (-> & H1 & _ & H2 & H3). exists vm'. rewrite (bytes_of_rep r l) by done. done.
  - destruct Hv as ([l Hr] & Hs & Hz & Hsz & Hd & Hf). rewrite (rep_Size r l) in Hsz by done.
    assert (mapped_at n vm dst (sub l (Z.to_nat src) (Z.to_nat size)) (VM.MapSlice vm r src size dst)) as Hm.
    { unfold VM.MapSlice. destruct (Z.eqb_spec src 0) as [->|]; cbn [andb].
      1: destruct (Z.eqb_spec size (Size r)) as [->|]; cbn [andb].
      - rewrite (rep_Size r l) in * by done. unfold sub. change (Z.to_nat 0) with 0%nat. rewrite drop_0, take_ge by lia.
        apply Map_spec; [done|done|lia|lia].
      - apply Map_spec; [done|by constructor|lia|rewrite length_sub; lia].
      - apply Map_spec; [done|by constructor|lia|rewrite length_sub; lia]. }
    destruct (VM.MapSlice vm r src size dst) as [vm' e]. destruct Hm as (-> & H1 & _ & H2 & H3).
    exists vm'. rewrite (bytes_of_rep r l) by done. done.
  - destruct Hv as (-> & Ho & Hf). unfold VM.MapFile.
    pose proof (Map_spec n vm (FileRegion file (len file)) file off Hok ltac:(constructor) Ho Hf) as Hm.
    destruct (VM.Map vm _ off) as [vm' e]. destruct Hm as (-> & H1 & _ & H2 & H3). by exists vm'.
  - destruct Hv as [Ho Hf]. unfold VM.WriteAt.
    destruct (write_loop_spec (S (length p)) n vm p off 0) as (vm' & -> & Hm); [done|done|done|lia|].
    destruct Hm as (_ & H1 & _ & H2 & H3). by exists vm'.
  - destruct (vm_reset_spec n vm Hok) as [H1 H2]. by exists (VM.Reset vm).
Qed.

Lemma new_vm_ok total ps vm :
  0 < ps → 0 ≤ total < 2^63 → VM.NewVirtualMemory total ps = Ok vm →
  vm_ok (total / ps) vm ∧ totalSize vm = total ∧ pageSize vm = ps ∧ contents vm = replicate (Z.to_nat total) 0.
Proof.
  intros Hps Ht. unfold VM.NewVirtualMemory. destruct (quot_rem_pos total ps) as [-> ->]; [lia|done|].
  destruct (Z.eqb_spec (total mod ps) 0) as [Hm|]; [|done]. cbn [negb]. intros [= <-].
  pose proof (Z.div_pos total ps ltac:(lia) Hps). pose proof (Z.div_le_upper_bound total ps total Hps ltac:(nia)).
  rewrite u64_small by (unfold is_u; lia). assert (total = total / ps * ps) as Htot by (pose proof (Z.div_mod total ps); lia).
  set (t := NewMultiLevelPageTable (total / ps)).
  assert (∀ i, Get t i = None) as Hnone.
  { intros i. cbn. unfold MLPT.Get, MLPT.page. cbn. rewrite lookup_nil. by case_match. }
  assert (vm_ok (total / ps) (mkVirtualMemory ps t t total 0 0 0)) as Hok.
  { split; cbn [pageSize totalSize pages writePages]; try apply mlpt_new_ok; try done; try lia;
      intros i r _; by rewrite Hnone. }
  split_and!; [done..|]. apply (contents_empty _ _ Hok). intros i. unfold VM.current. cbn [pages writePages].
  by rewrite Hnone.
Qed.

Lemma run_ops_spec n (vm : image) os :
  vm_ok n vm → Forall (valid_op (totalSize vm)) os →
  ∃ vm', run_ops vm os = Some vm' ∧ vm_ok n vm' ∧ totalSize vm' = totalSize vm ∧
    contents vm' = foldl spec_op (contents vm) os.
Proof.
  unfold run_ops. revert vm. induction os as [|o os IH]; intros vm Hok Hv; [by exists vm|].
  apply Forall_cons in Hv as [Hv Hvs]. destruct (run_op_spec n vm o Hok Hv) as (vm1 & H1 & Hok1 & Ht1 & Hc1).
  cbn [foldl mbind option_bind]. rewrite H1, <-Hc1, <-Ht1. apply IH; [done|]. by rewrite Ht1.
Qed.

(** C3: A virtual image behaves as an array of bytes: starting from a new
    image, any sequence of mappings of regions, of slices and of files with the
    size they have, writes and resets that stay inside the image succeeds, and a read afterwards returns
    exactly the bytes that the same sequence of overwrites leaves in an array
    of zeros, with the full count and no error. *)
Theorem image_refines total ps vm os :
  0 < ps → 0 ≤ total < 2^63 → VM.NewVirtualMemory total ps = Ok vm → Forall (valid_op total) os →
  ∃ vm', run_ops vm os = Some vm' ∧
    ∀ p off, 0 ≤ off → off + len p ≤ total →
      VM.ReadAt vm' p off =
        Some (sub (foldl spec_op (replicate (Z.to_nat total) 0) os) (Z.to_nat off) (length p), len p, None).
Proof.
  intros Hps Ht Hnew Hv. destruct (new_vm_ok total ps vm Hps Ht Hnew) as (Hok & Htot & _ & Hc). rewrite <-Htot in Hv.
  destruct (run_ops_spec _ vm os Hok Hv) as (vm' & H1 & Hok' & Htot' & Hc'). exists vm'. split; [done|].
  intros p off Ho Hf. unfold VM.ReadAt. rewrite (read_loop_spec _ (total / ps)) by (done || lia).
  by rewrite Hc', Hc.
Qed.
(** A file over two pages of four bytes, a slice over its end and a write into
    the middle, read across the pages. *)
Lemma image_refines_witness :
  ∃ vm vm', VM.NewVirtualMemory 12 4 = Ok vm ∧
    run_ops vm [OMapFile [1; 2; 3; 4; 5; 6] 1 6; OMapSlice (RawRegion [7; 8; 9]) 1 2 6; OWrite [10; 11] 3] = Some vm' ∧
    VM.ReadAt vm' [0; 0; 0; 0; 0; 0; 0] 1 = Some ([1; 2; 10; 11; 5; 8; 9], 7, None).
Proof.
  eexists.
  refine (match image_refines 12 4 _ [OMapFile [1; 2; 3; 4; 5; 6] 1 6; OMapSlice (RawRegion [7; 8; 9]) 1 2 6; OWrite [10; 11] 3]
      ltac:(done) ltac:(done) eq_refl _ with
    ex_intro _ vm' (conj H1 H2) => ex_intro _ vm' (conj eq_refl (conj H1 _)) end).
  - repeat constructor; try done; try (exists [7; 8; 9]; constructor).
  - by rewrite H2.
Defined.

(** * Past the end *)

(** What the last page number, one past the end, yields: a page of zeros, and
    an error only after it. *)
Definition read_end (ps : Z) (q : list Z) : list Z * option string :=
  if len q <=? ps then (replicate (length q) 0, None)
  else (replicate (Z.to_nat ps) 0 ++ drop (Z.to_nat ps) q, Some EOF).

Section past_end.
Context {T : Type} `{HL : PageTableLaws T}.
Implicit Types vm : VirtualMemory T.

Lemma read_loop_end fuel n vm q m :
  vm_ok n vm → 0 < len q → (1 < fuel)%nat →
  VM.read_loop fuel vm q (totalSize vm) m =
    let '(b, e) := read_end (pageSize vm) q in
    Some (b, if non_nil e then 0 else m + len q, e).
Proof.
  intros Hok Hq Hfuel. pose proof (ok_size n vm Hok) as Hps. pose proof (ok_count n vm Hok).
  destruct fuel as [|[|fuel]]; [lia|lia|]. cbn [VM.read_loop]. rewrite getRegion_read; [|rewrite (ok_total n vm Hok); nia|done].
  assert (totalSize vm mod pageSize vm = 0) as -> by (rewrite (ok_total n vm Hok); apply Z.mod_mul; lia).
  assert (VM.current vm (totalSize vm / pageSize vm) = None) as ->.
  { rewrite (ok_total n vm Hok), Z.div_mul by lia. unfold VM.current.
    rewrite (index_u64 n) by lia. by rewrite !(Get_range n) by (apply Hok || lia). }
  cbn [VM.read_step]. rewrite Z.sub_0_r, length_drop, length_overwrite. unfold read_end.
  destruct (Z.leb_spec (len q) (pageSize vm)) as [Hle|Hgt].
  - rewrite Z.min_r by lia. rewrite Nat2Z.id, Nat.sub_diag. cbn [Z.of_nat Z.eqb non_nil]. f_equal. apply result_eq; [|done].
    unfold overwrite. rewrite length_replicate, drop_ge, app_nil_r, Nat.sub_0_r, take_0, take_replicate, Nat.min_id by lia. done.
  - rewrite Z.min_l by lia. destruct (Z.eqb_spec (Z.of_nat (length q - Z.to_nat (pageSize vm))) 0); [lia|].
    unfold VM.getRegion at 1. destruct (Z.gtb_spec (totalSize vm + pageSize vm) (totalSize vm)); [|lia]. cbn [snd non_nil].
    rewrite take_drop. f_equal. unfold overwrite.
    rewrite length_replicate, Nat.sub_0_r, take_0, take_replicate, Nat.min_r by lia. done.
Qed.

Lemma read_loop_past fuel n vm p off m :
  vm_ok n vm → 0 ≤ off ≤ totalSize vm → totalSize vm < off + len p → (length p < fuel)%nat →
  VM.read_loop fuel vm p off m =
    let k := Z.to_nat (totalSize vm - off) in
    let '(b, e) := read_end (pageSize vm) (drop k p) in
    Some (sub (contents vm) (Z.to_nat off) k ++ b, if non_nil e then 0 else m + len p, e).
Proof.
  intros Hok. revert p off m. induction fuel as [|fuel IH]; intros p off m Ho Hpast Hfuel; [lia|]. cbn zeta.
  destruct (decide (off = totalSize vm)) as [->|Hne].
  { rewrite Z.sub_diag. change (Z.to_nat 0) with 0%nat. unfold sub. rewrite drop_0, take_0. cbn [app].
    apply (read_loop_end _ n); [done|lia|lia]. }
  pose proof (ok_size n vm Hok) as Hps. cbn [VM.read_loop]. rewrite getRegion_read by lia.
  pose proof (read_step_spec n vm p off Hok ltac:(lia)) as Hs. cbn zeta in Hs. rewrite Hs.
  destruct (page_index n vm off Hok ltac:(lia)) as (Hi & Hro & Hoff).
  assert (pageSize vm - off mod pageSize vm ≤ totalSize vm - off) as Hroom by (rewrite (ok_total n vm Hok); nia).
  set (k := Z.min (pageSize vm - off mod pageSize vm) (len p)).
  pose proof (length_contents n vm Hok) as HC.
  assert (length (sub (contents vm) (Z.to_nat off) (Z.to_nat k)) = Z.to_nat k) as Hlk by (apply length_sub; lia).
  rewrite drop_app_ge, Hlk, Nat.sub_diag, drop_0, length_drop by lia.
  destruct (Z.eqb_spec (Z.of_nat (length p - Z.to_nat k)) 0) as [Hz|Hz]; [lia|].
  rewrite IH by (rewrite ?length_drop; lia). cbn zeta. rewrite drop_drop.
  replace (Z.to_nat k + Z.to_nat (totalSize vm - (off + k)))%nat with (Z.to_nat (totalSize vm - off)) by lia.
  destruct (read_end _ _) as [b e]. rewrite take_app_le, take_ge, app_assoc, length_drop by lia. f_equal.
  f_equal. f_equal; [|destruct e; cbn; lia]. f_equal.
  replace (Z.to_nat (totalSize vm - off)) with (Z.to_nat k + Z.to_nat (totalSize vm - (off + k)))%nat by lia.
  rewrite sub_split. f_equal. f_equal. lia.
Qed.

(** Bytes of a region that ends before its page are never reached. *)
Lemma read_step_short vm p file size ro :
  len file ≤ ro < size → ro < pageSize vm → 0 < len p → 0 ≤ ro →
  VM.read_step vm p (Some (FileRegion file size)) ro = (p, 0, None).
Proof.
  intros Hf Hro Hp H0. unfold VM.read_step, Region.ReadAt. cbn [depth read_region]. unfold boundsCheck. cbn [Size].
  destruct (Z.ltb_spec ro 0); [lia|]. destruct (Z.geb_spec ro size); [lia|].
  unfold file_ReadAt. rewrite (drop_ge file) by lia. rewrite overwrite_nil, take_drop. apply result_eq; [done|].
  cbn [length]. rewrite length_take. lia.
Qed.
End past_end.

(** Reading up to and past the end of an image: the bytes before the end
    are the contents; up to one page past the end reads as zeros with the
    full count and no error, since the check for the end accepts the offset
    that equals the size; only a longer read reports the end of file, with the
    count zero. *)
Theorem read_past_end n (vm : image) p off :
  vm_ok n vm → 0 ≤ off ≤ totalSize vm → totalSize vm < off + len p →
  let k := Z.to_nat (totalSize vm - off) in
  VM.ReadAt vm p off =
    if off + len p <=? totalSize vm + pageSize vm then
      Some (sub (contents vm) (Z.to_nat off) k ++ replicate (length p - k) 0, len p, None)
    else
      Some (sub (contents vm) (Z.to_nat off) k ++ replicate (Z.to_nat (pageSize vm)) 0 ++
            drop (k + Z.to_nat (pageSize vm)) p, 0, Some EOF).
Proof.
  intros Hok Ho Hpast k. unfold VM.ReadAt. rewrite (read_loop_past _ n) by (done || lia). cbn zeta. fold k.
  unfold read_end. rewrite length_drop.
  destruct (Z.leb_spec (off + len p) (totalSize vm + pageSize vm)), (Z.leb_spec (Z.of_nat (length p - k)) (pageSize vm)); try lia.
  - done.
  - by rewrite drop_drop.
Qed.
(** An image of one page of four bytes: six bytes from offset two, and seven. *)
Lemma read_past_end_witness :
  ∃ vm, VM.NewVirtualMemory 4 4 = Ok vm ∧
    VM.ReadAt vm [9; 9; 9; 9; 9; 9] 2 = Some ([0; 0; 0; 0; 0; 0], 6, None) ∧
    VM.ReadAt vm [9; 9; 9; 9; 9; 9; 9] 2 = Some ([0; 0; 0; 0; 0; 0; 9], 0, Some EOF).
Proof.
  eexists. split; [reflexivity|]. set (vm := mkVirtualMemory _ _ _ _ _ _ _).
  destruct (new_vm_ok 4 4 vm ltac:(done) ltac:(done) eq_refl) as (Hok & _ & _ & Hc). split.
  - rewrite (read_past_end _ vm _ 2 Hok) by done. by rewrite Hc.
  - rewrite (read_past_end _ vm _ 2 Hok) by done. by rewrite Hc.
Defined.

(** A file that is shorter than the page it was mapped to makes a read at or
    after its end loop for ever: every pass reads no byte, reports no error
    and leaves the request as it was, so no number of passes ends it. *)
Theorem short_file_never_returns (vm : image) file size p off fuel m :
  0 < pageSize vm → 0 ≤ off ≤ totalSize vm → 0 < len p →
  VM.current vm (off / pageSize vm) = Some (FileRegion file size) → len file ≤ off mod pageSize vm < size →
  VM.read_loop fuel vm p off m = None.
Proof.
  intros Hps Ho Hp Hcur Hshort. pose proof (Z.mod_pos_bound off (pageSize vm) Hps).
  revert m. induction fuel as [|fuel IH]; intros m; [done|].
  cbn [VM.read_loop]. rewrite getRegion_read by lia. rewrite Hcur, read_step_short by lia.
  change (Z.to_nat 0) with 0%nat. rewrite drop_0. destruct (Z.eqb_spec (len p) 0); [lia|].
  rewrite Z.add_0_r, IH. done.
Qed.
(** A file of two bytes mapped as a page of four. *)
Lemma short_file_never_returns_witness :
  ∃ vm vm', VM.NewVirtualMemory 4 4 = Ok vm ∧ (VM.MapFile vm [1; 2] 0 4).1 = vm' ∧
    ∀ fuel, VM.read_loop fuel vm' [0] 3 0 = None.
Proof.
  eexists. eexists. split; [reflexivity|]. split; [vm_compute; reflexivity|]. intros fuel.
  by apply (short_file_never_returns _ [1; 2] 4 [0] 3 fuel 0).
Defined.
