(* ===== verification/ImageCopy.v ===== *)
(** Copying into and out of a virtual image: [Reinterpret] and
    [WriteSparseTo] of src/internal/fsimage/vm/vm.go.

    [Reinterpret] runs [io.Copy] from a section of the image to the new
    region, in chunks of 32 KiB, and then maps the region; the model has the
    loop of [io.Copy] with its short-write and invalid-count checks.
    [WriteSparseTo] collects the mapped pages, sorts them and writes runs of
    consecutive pages through a buffer of the pool; the writer is a parameter
    and the buffer may hold anything.

    The theorems: reinterpreting leaves the bytes of the image as they are and
    gives the new region those bytes; copying an image to a file of zeros
    leaves the bytes of the image in the file, whatever the runs and
    the size of the buffer. *)
From stdpp Require Import sorting.
From S2P Require Import Prelude Regions RegionWrite PageTable ImageVm.

(** * Reinterpret *)

Module Copy.
Definition chunk : Z := 32 * 1024.

(** The loop of [io.Copy] from a section of the image, read up to [rpos] of
    [size], to a region, written up to [wpos]. *)
Fixpoint copy_loop {T} `{PageTable T} (fuel : nat) (vm : VirtualMemory T) (offset size : Z) (r : region)
    (rpos wpos : Z) (buf : list Z) : option (region * option string) :=
  match fuel with
  | O => None
  | S fuel =>
    if rpos >=? size then Some (r, None)
    else
      let k := Z.to_nat (Z.min (len buf) (size - rpos)) in
      match VM.ReadAt vm (take k buf) (offset + rpos) with
      | None => None
      | Some (q, nr, er) =>
        let buf := q ++ drop k buf in
        let '(r, nw, ew) :=
          if nr >? 0 then
            let '(r, nw, ew) := RegionW.WriteAt r (take (Z.to_nat nr) buf) wpos in
            if (nw <? 0) || (nr <? nw) then (r, 0, Some (default "invalid write result" ew))
            else if non_nil ew then (r, nw, ew)
            else if negb (nr =? nw) then (r, nw, Some "short write")
            else (r, nw, None)
          else (r, 0, None) in
        if non_nil ew then Some (r, ew)
        else
          match er with
          | Some e => Some (r, if String.eqb e EOF then None else Some e)
          | None => copy_loop fuel vm offset size r (rpos + nr) (wpos + nw) buf
          end
      end
  end.

(** The image, the new region and the error; [None] if the copy never ends. *)
Definition Reinterpret {T} `{PageTable T} (vm : VirtualMemory T) (newRegion : region) (offset : Z)
    : option (VirtualMemory T * region * option string) :=
  let size := Size newRegion in
  match copy_loop (S (S (Z.to_nat (size / chunk)))) vm offset size newRegion 0 0 (replicate (Z.to_nat chunk) 0) with
  | None => None
  | Some (r, Some e) => Some (vm, r, Some e)
  | Some (r, None) =>
    let '(vm', e) := VM.Map vm r offset in Some (vm', r, e)
  end.
End Copy.

Section reinterpret.
Context {T : Type} `{HL : PageTableLaws T}.
Implicit Types vm : VirtualMemory T.

Lemma write_keeps r l p off r' n e :
  rep r l → writable r = true → 0 ≤ off < len l → RegionW.WriteAt r p off = (r', n, e) →
  rep r' (overwrite l (Z.to_nat off) p) ∧ writable r' = true ∧ n = Z.min (len p) (len l - off) ∧ e = None.
Proof.
  intros Hr Hw Ho E. pose proof (write_region_writable (depth r) r p off Hw) as Hw'.
  unfold RegionW.WriteAt in E. rewrite E in Hw'. cbn in Hw'.
  apply (write_region_of _ r ltac:(done) l) in E as (H1 & H2 & H3); [|done..]. done.
Qed.

(** The part of the section that is copied is in the region. *)
Lemma copy_loop_spec fuel n vm offset r l pos buf :
  vm_ok n vm → rep r l → writable r = true → 0 ≤ offset → offset + len l ≤ totalSize vm → 0 ≤ pos ≤ len l →
  len buf = Copy.chunk → len l - pos ≤ Copy.chunk * (Z.of_nat fuel - 1) → (0 < fuel)%nat →
  sub l 0 (Z.to_nat pos) = sub (contents vm) (Z.to_nat offset) (Z.to_nat pos) →
  ∃ r', Copy.copy_loop fuel vm offset (len l) r pos pos buf = Some (r', None) ∧
    rep r' (sub (contents vm) (Z.to_nat offset) (length l)).
Proof.
  intros Hok. revert r l pos buf. induction fuel as [|fuel IH]; intros r l pos buf Hr Hw Ho Hfit Hpos Hbuf Hfuel Hf0 Hsub; [lia|].
  cbn [Copy.copy_loop]. destruct (Z.geb_spec pos (len l)) as [Hge|Hlt].
  { exists r. split; [done|]. replace (Z.to_nat pos) with (length l) in Hsub by lia. rewrite <-Hsub.
    unfold sub. by rewrite drop_0, take_ge by lia. }
  set (k := Z.min (len buf) (len l - pos)). assert (0 < k) as Hk by (unfold Copy.chunk in *; lia).
  assert (len (take (Z.to_nat k) buf) = k) as Hlk by (rewrite length_take; lia).
  unfold VM.ReadAt. rewrite (read_loop_spec _ n) by (done || lia). rewrite Hlk, Z.add_0_l.
  replace (length (take (Z.to_nat k) buf)) with (Z.to_nat k) by lia.
  pose proof (length_contents n vm Hok) as HC.
  set (d := sub (contents vm) (Z.to_nat (offset + pos)) (Z.to_nat k)).
  assert (length d = Z.to_nat k) as Hd by (apply length_sub; lia).
  destruct (Z.gtb_spec k 0); [|lia]. rewrite take_app_le, take_ge by lia.
  destruct (RegionW.WriteAt r d pos) as [[r1 nw] ew] eqn:E.
  apply (write_keeps r l) in E as (Hr1 & Hw1 & -> & ->); [|done|done|lia].
  replace (Z.min (len d) (len l - pos)) with k by lia.
  destruct (Z.ltb_spec k 0); [lia|]. destruct (Z.ltb_spec k k); [lia|]. rewrite Z.eqb_refl. cbn [orb negb non_nil].
  replace (length l) with (length (overwrite l (Z.to_nat pos) d)) by apply length_overwrite. apply IH; try done;
    rewrite ?length_overwrite; try lia.
  - rewrite length_app, length_drop. lia.
  - unfold Copy.chunk in *. lia.
  - replace (Z.to_nat (pos + k)) with (Z.to_nat pos + Z.to_nat k)%nat by lia. rewrite !sub_split, Nat.add_0_l.
    f_equal.
    + rewrite <-Hsub. by rewrite sub_overwrite_before by lia.
    + rewrite <-Hd. rewrite sub_overwrite_same by lia. unfold d at 1. rewrite Hd. f_equal. lia.
Qed.
End reinterpret.

(** Reinterpreting part of an image as a new region ends without an error,
    gives the region the bytes that the image has there and leaves every
    byte of the image as it was. *)
Theorem reinterpret_keeps_contents n (vm : image) r l offset :
  vm_ok n vm → rep r l → writable r = true → 0 ≤ offset → offset + len l ≤ totalSize vm →
  ∃ vm' r', Copy.Reinterpret vm r offset = Some (vm', r', None) ∧ vm_ok n vm' ∧
    rep r' (sub (contents vm) (Z.to_nat offset) (length l)) ∧ contents vm' = contents vm.
Proof.
  intros Hok Hr Hw Ho Hfit. unfold Copy.Reinterpret. rewrite (rep_Size r l) by done.
  pose proof (Z.div_pos (len l) Copy.chunk ltac:(lia) ltac:(done)).
  assert (len (replicate (Z.to_nat Copy.chunk) 0) = Copy.chunk) as Hbuf by (rewrite length_replicate; by apply Z2Nat.id).
  revert Hbuf. generalize (replicate (Z.to_nat Copy.chunk) 0) as buf. intros buf Hbuf.
  destruct (copy_loop_spec (S (S (Z.to_nat (len l / Copy.chunk)))) n vm offset r l 0 buf)
    as (r' & -> & Hr'); try done; try lia.
  { pose proof (Z.div_mod (len l) Copy.chunk ltac:(done)). pose proof (Z.mod_pos_bound (len l) Copy.chunk ltac:(done)).
    unfold Copy.chunk in *. lia. }
  pose proof (length_contents n vm Hok) as HC.
  assert (length (sub (contents vm) (Z.to_nat offset) (length l)) = length l) as Hlen by (apply length_sub; lia).
  pose proof (Map_spec n vm r' _ offset Hok Hr' Ho ltac:(lia)) as Hm.
  destruct (VM.Map vm r' offset) as [vm' e]. destruct Hm as (-> & Hok' & _ & _ & Hc').
  exists vm', r'. split_and!; try done. rewrite Hc'. apply overwrite_own. lia.
Qed.
(** Three bytes written to a new image, and four bytes across them taken over by
    a raw region. *)
Lemma reinterpret_keeps_contents_witness :
  ∃ vm vm1 vm2 r, VM.NewVirtualMemory 12 4 = Ok vm ∧ run_op vm (OWrite [1; 2; 3] 2) = Some vm1 ∧
    Copy.Reinterpret vm1 (RawRegion [9; 9; 9; 9]) 3 = Some (vm2, r, None) ∧ rep r [2; 3; 0; 0] ∧
    contents vm2 = contents vm1.
Proof.
  eexists. set (vm := mkVirtualMemory 4 (NewMultiLevelPageTable 3) (NewMultiLevelPageTable 3) 12 0 0 0 : image).
  destruct (new_vm_ok 12 4 vm ltac:(done) ltac:(done) eq_refl) as (Hok & Htot & _ & Hc).
  destruct (run_op_spec _ vm (OWrite [1; 2; 3] 2) Hok ltac:(done)) as (vm1 & H1 & Hok1 & Htot1 & Hc1).
  destruct (reinterpret_keeps_contents _ vm1 (RawRegion [9; 9; 9; 9]) [9; 9; 9; 9] 3 Hok1) as (vm2 & r & H2 & _ & H3 & H4);
    [constructor|done|done|by rewrite Htot1|].
  exists vm1, vm2, r. split_and!; [reflexivity|done|done| |done]. by rewrite Hc1, Hc in H3.
Defined.

(** * Writing an image to a file *)

Module Sparse.
Section sparse.
Context {F : Type} (fh_WriteAt : F → list Z → Z → F * Z * option string).

Record batch := mkBatch {
  batchBuf : list Z;
  batchStartOffset : Z;
  batchPageCount : Z;
  lastPageIndex : Z;
  written : Z;
  fh : F;
}.
#[global] Instance eta_batch : Eta batch := λ b,
  mkBatch (batchBuf b) (batchStartOffset b) (batchPageCount b) (lastPageIndex b) (written b) (fh b).

Definition flushBatch (pageSize : Z) (b : batch) : batch * option string :=
  if batchPageCount b =? 0 then (b, None)
  else
    let '(f, n, e) := fh_WriteAt (fh b) (take (Z.to_nat (batchPageCount b * pageSize)) (batchBuf b)) (batchStartOffset b) in
    match e with
    | Some _ => (b <| fh := f |>, e)
    | None => (b <| fh := f |> <| written := written b + n |> <| batchPageCount := 0 |>, None)
    end.

(** The callback for one page: [Panic] if the page does not fit in the
    buffer. *)
Definition add_page (pageSize maxPagesPerBatch pageIndex : Z) (r : region) (b : batch) : batch * result () :=
  let isConsecutive := negb (lastPageIndex b =? 2^64 - 1) && (pageIndex =? u64 (lastPageIndex b + 1)) in
  let '(b, e) :=
    if negb isConsecutive || (batchPageCount b >=? maxPagesPerBatch) then
      match flushBatch pageSize b with
      | (b, Some e) => (b, Some e)
      | (b, None) => (b <| batchStartOffset := pageIndex * pageSize |>, None)
      end
    else (b, None) in
  match e with
  | Some e => (b, Err e)
  | None =>
    let bufOffset := batchPageCount b * pageSize in
    if bufOffset + pageSize >? len (batchBuf b) then (b, Panic)
    else
      let '(q, n, e) := Region.ReadAt r (sub (batchBuf b) (Z.to_nat bufOffset) (Z.to_nat pageSize)) 0 in
      let b := b <| batchBuf := overwrite (batchBuf b) (Z.to_nat bufOffset) q |> in
      match e with
      | Some e => (b, Err e)
      | None =>
        if negb (n =? pageSize) then (b, Err "incomplete page read")
        else (b <| batchPageCount := batchPageCount b + 1 |> <| lastPageIndex := pageIndex |>, Ok tt)
      end
  end.
Fixpoint add_pages (pageSize maxPagesPerBatch : Z) (es : list (Z * region)) (b : batch) : batch * result () :=
  match es with
  | [] => (b, Ok tt)
  | (i, r) :: es =>
    match add_page pageSize maxPagesPerBatch i r b with
    | (b, Ok _) => add_pages pageSize maxPagesPerBatch es b
    | res => res
    end
  end.

(** The pages that are mapped or written, a written copy instead of the page
    it was made from, by index. *)
Definition by_index (a b : Z * region) : Prop := a.1 ≤ b.1.
#[global] Instance by_index_dec a b : Decision (by_index a b) := decide (a.1 ≤ b.1).
Definition collect {T} `{PageTable T} (vm : VirtualMemory T) : gmap Z region :=
  let add t m := ForEach t (λ i r m, (<[i := r]> m, true)) m in
  add (writePages vm) (add (pages vm) ∅).
Definition forEachMappedPage {T} `{PageTable T} (vm : VirtualMemory T) : list (Z * region) :=
  merge_sort by_index (map_to_list (collect vm)).

(** [buf] is the buffer from the pool. *)
Definition WriteSparseTo (vm : VirtualMemory MultiLevelPageTable) (f : F) (buf : list Z) : F * Z * result () :=
  if (length (topLevel (pages vm)) =? 0)%nat && (length (topLevel (writePages vm)) =? 0)%nat then (f, 0, Ok tt)
  else
    let max := len buf / pageSize vm in
    let maxPagesPerBatch := if max =? 0 then 1 else max in
    let '(b, res) := add_pages (pageSize vm) maxPagesPerBatch (forEachMappedPage vm) (mkBatch buf 0 0 (2^64 - 1) 0 f) in
    match res with
    | Ok _ =>
      let '(b, e) := flushBatch (pageSize vm) b in
      (fh b, written b, match e with Some e => Err e | None => Ok tt end)
    | res => (fh b, written b, res)
    end.
End sparse.
End Sparse.

(** ** The pages that are written *)

Lemma walk_insert (es : list (Z * region)) (m : gmap Z region) k r :
  NoDup es.*1 →
  walk es (λ i r m, (<[i := r]> m, true)) m !! k = Some r ↔
    (k, r) ∈ es ∨ (m !! k = Some r ∧ k ∉ es.*1).
Proof.
  revert m. induction es as [|[i x] es IH]; intros m Hnd; cbn [walk].
  { cbn. split; [intros H; right; split; [done|apply not_elem_of_nil]|by intros [H%not_elem_of_nil|[H _]]]. }
  cbn in Hnd. apply NoDup_cons in Hnd as [Hi Hnd]. rewrite IH, fmap_cons, elem_of_cons, not_elem_of_cons by done. cbn [fst].
  assert ((k, r) ∈ es → k ∈ es.*1) as Hin by (intros H; by apply (list_elem_of_fmap_2 fst _ _) in H).
  destruct (decide (k = i)) as [->|Hne].
  - rewrite lookup_insert_eq. split.
    + intros [H|[H _]]; [by left; right|]. left. left. by simplify_eq.
    + intros [[H|H]|[_ [H _]]]; [simplify_eq; by right|by left|done].
  - rewrite lookup_insert_ne by done. split.
    + intros [H|[H1 H2]]; [by left; right|by right].
    + intros [[H|H]|[H1 [_ H2]]]; [by simplify_eq|by left|by right].
Qed.
Lemma sorted_nodup (es : list (Z * region)) : StronglySorted (λ a b, a.1 < b.1) es → NoDup es.*1.
Proof.
  induction 1 as [|[i r] es Hs IH Hf]; [constructor|]. cbn. constructor; [|done].
  intros Hin. apply list_elem_of_fmap in Hin as ([j r'] & Heq & Hin). cbn in Heq. subst j.
  rewrite Forall_forall in Hf. specialize (Hf _ Hin). cbn in Hf. lia.
Qed.

Section pages.
Context {T : Type} `{HL : PageTableLaws T}.
Implicit Types vm : VirtualMemory T.

Lemma collect_spec n vm k r :
  vm_ok n vm → Sparse.collect vm !! k = Some r ↔ 0 ≤ k < n ∧ VM.current vm k = Some r.
Proof.
  intros Hok. unfold Sparse.collect. rewrite !(ForEach_walk _ n) by apply Hok.
  pose proof (λ k r, entries_spec n (pages vm) k r (ok_pages n vm Hok)) as Hp.
  pose proof (λ k r, entries_spec n (writePages vm) k r (ok_writePages n vm Hok)) as Hw.
  rewrite walk_insert by (eapply sorted_nodup, entries_sorted, (ok_writePages n vm Hok)).
  rewrite walk_insert by (eapply sorted_nodup, entries_sorted, (ok_pages n vm Hok)).
  rewrite Hp, Hw, lookup_empty. pose proof (ok_count n vm Hok) as Hn.
  assert (∀ t, pt_ok n t → ∀ x, Get t k = Some x → k < n) as Hrange.
  { intros t Ht x Hx. destruct (decide (k < n)); [done|]. by rewrite (Get_range n) in Hx by (done || lia). }
  assert (k ∉ (entries (writePages vm)).*1 ↔ (0 ≤ k → Get (writePages vm) k = None)) as ->.
  { rewrite list_elem_of_fmap. split.
    - intros H0 Hk. destruct (Get (writePages vm) k) as [x|] eqn:E; [|done]. exfalso. apply H0. exists (k, x).
      split; [done|]. by apply Hw.
    - intros H0 ([k' x] & Heq & Hin). cbn in Heq. subst k'. apply Hw in Hin as [Hk Hx]. by rewrite H0 in Hx. }
  split.
  - intros [[Hk Hg]|[[[Hk Hg]|[? _]] Hno]]; [| |done].
    + split; [split; [done|eapply Hrange, Hg; apply Hok]|]. unfold VM.current.
      rewrite (index_u64 n) by (done || (split; [done|]; apply Z.lt_le_incl; eapply Hrange, Hg; apply Hok)). by rewrite Hg.
    + assert (k < n) by (eapply Hrange, Hg; apply Hok). split; [done|]. unfold VM.current.
      rewrite (index_u64 n) by lia. by rewrite Hno.
  - intros [Hk Hg]. unfold VM.current in Hg. rewrite (index_u64 n) in Hg by lia.
    destruct (Get (writePages vm) k) eqn:E; [left; split; [lia|done]|]. right. split; [left; split; [lia|done]|done].
Qed.
Lemma mapped_pages n vm k r :
  vm_ok n vm → (k, r) ∈ Sparse.forEachMappedPage vm ↔ 0 ≤ k < n ∧ VM.current vm k = Some r.
Proof.
  intros Hok. unfold Sparse.forEachMappedPage. rewrite merge_sort_Permutation, elem_of_map_to_list. by apply collect_spec.
Qed.

(** Writing every mapped page over zeros gives the contents. *)
Definition put_page vm (c : list Z) (e : Z * region) : list Z :=
  overwrite c (Z.to_nat (e.1 * pageSize vm)) (page_of vm e.1).
Definition page_if vm (d : list Z) (j : nat) : list Z :=
  if decide (Z.of_nat j ∈ d) then page_of vm (Z.of_nat j) else replicate (Z.to_nat (pageSize vm)) 0.
Definition some_pages n vm (d : list Z) : list Z := concat (page_if vm d <$> seq 0 (Z.to_nat n)).
Lemma some_pages_nil n vm : some_pages n vm [] = replicate (Z.to_nat n * Z.to_nat (pageSize vm)) 0.
Proof.
  unfold some_pages. generalize 0%nat as a. induction (Z.to_nat n) as [|m IH]; intros a; [done|].
  cbn [seq fmap list_fmap concat]. rewrite IH. unfold page_if at 1. rewrite decide_False by apply not_elem_of_nil.
  by rewrite <-replicate_add.
Qed.
Lemma some_pages_all n vm d :
  vm_ok n vm → (∀ i r, 0 ≤ i < n → VM.current vm i = Some r → i ∈ d) → some_pages n vm d = contents vm.
Proof.
  intros Hok Hd. unfold some_pages, contents. rewrite (pages_count n) by done. f_equal. apply list_fmap_ext.
  intros j x Hx. apply lookup_seq in Hx as [-> Hj]. unfold page_if. case_decide as Hin; [done|].
  unfold page_of. destruct (VM.current vm _) as [r|] eqn:E; [|done]. destruct Hin. apply (Hd _ r); [lia|done].
Qed.
Lemma put_pages n vm es d :
  vm_ok n vm → Forall (λ e, 0 ≤ e.1 < n) es →
  foldl (put_page vm) (some_pages n vm d) es = some_pages n vm (reverse es.*1 ++ d).
Proof.
  intros Hok. revert d. induction es as [|[i r] es IH]; intros d Hes; [done|].
  apply Forall_cons in Hes as [Hi Hes]. cbn [fst] in Hi. cbn [foldl fmap list_fmap]. rewrite reverse_cons, <-app_assoc.
  rewrite <-IH by done. f_equal. unfold put_page, some_pages. cbn [fst]. pose proof (ok_size n vm Hok).
  rewrite (pages_update (Z.to_nat (pageSize vm)) (page_if vm d) (page_if vm ([i] ++ d)) _ (Z.to_nat i) 0 (page_of vm i));
    unfold page_if; cbn [app].
  - f_equal. lia.
  - intros j Hj. case_decide; [apply (length_page_of n); [done|lia]|apply length_replicate].
  - lia.
  - intros j Hj Hne. do 2 case_decide; try done; set_solver by lia.
  - rewrite Z2Nat.id by lia. rewrite decide_True by (apply elem_of_cons; by left).
    unfold overwrite. rewrite take_0. cbn [app]. rewrite Nat.sub_0_r, take_ge, drop_ge, app_nil_r; [done|..];
      case_decide; rewrite ?length_replicate, ?(length_page_of n) by done; lia.
  - rewrite (length_page_of n) by done. lia.
Qed.
End pages.

(** ** The file *)

(** A file is a byte string: a write past its end extends it with zeros. *)
Definition os_WriteAt (f p : list Z) (off : Z) : list Z * Z * option string :=
  (overwrite (f ++ replicate (Z.to_nat (off + len p - len f)) 0) (Z.to_nat off) p, len p, None).

Section batches.
Context (n ps max : Z) (Hps : 0 < ps) (Hmax : 0 < max) (Hn : 0 ≤ n < 2^63).
Abbreviation batch := (Sparse.batch (F := list Z)).
Implicit Types b : batch.

(** The file with the pending pages laid over it. *)
Definition pending b : list Z := take (Z.to_nat (Sparse.batchPageCount b * ps)) (Sparse.batchBuf b).
Definition overlay b : list Z := overwrite (Sparse.fh b) (Z.to_nat (Sparse.batchStartOffset b)) (pending b).

(** The pending pages end with the last page that was added. *)
Record batch_ok (target : list Z) b : Prop := {
  b_count : 0 ≤ Sparse.batchPageCount b ≤ max;
  b_buf : max * ps ≤ len (Sparse.batchBuf b);
  b_file : len (Sparse.fh b) = n * ps;
  b_first : Sparse.batchPageCount b = 0 → Sparse.lastPageIndex b = 2^64 - 1;
  b_start : 0 < Sparse.batchPageCount b →
    0 ≤ Sparse.batchStartOffset b ∧ 0 ≤ Sparse.lastPageIndex b < n ∧
    Sparse.batchStartOffset b + Sparse.batchPageCount b * ps = (Sparse.lastPageIndex b + 1) * ps;
  b_overlay : overlay b = target;
}.
(** Ready for the page [i]. *)
Record batch_ready (target : list Z) (i : Z) b : Prop := {
  r_count : 0 ≤ Sparse.batchPageCount b < max;
  r_buf : max * ps ≤ len (Sparse.batchBuf b);
  r_file : len (Sparse.fh b) = n * ps;
  r_start : 0 ≤ Sparse.batchStartOffset b;
  r_next : Sparse.batchStartOffset b + Sparse.batchPageCount b * ps = i * ps;
  r_overlay : overlay b = target;
}.

Lemma flush_spec target b :
  batch_ok target b →
  ∃ w, Sparse.flushBatch os_WriteAt ps b =
    (Sparse.mkBatch (Sparse.batchBuf b) (Sparse.batchStartOffset b) 0 (Sparse.lastPageIndex b) w target, None).
Proof.
  intros Hb. unfold Sparse.flushBatch. pose proof (b_count _ _ Hb). pose proof (b_overlay _ _ Hb) as Ho.
  unfold overlay in Ho. destruct (Z.eqb_spec (Sparse.batchPageCount b) 0) as [H0|H0].
  - exists (Sparse.written b). unfold pending in Ho. rewrite H0, Z.mul_0_l in Ho. change (Z.to_nat 0) with 0%nat in Ho.
    rewrite take_0, overwrite_nil in Ho. destruct b. cbn in *. by subst.
  - unfold os_WriteAt. fold (pending b). destruct (b_start _ _ Hb) as (H1 & H2 & H3); [lia|].
    pose proof (b_file _ _ Hb). pose proof (b_buf _ _ Hb).
    assert (len (pending b) = Sparse.batchPageCount b * ps) as Hlen by (unfold pending; rewrite length_take; nia).
    assert (Z.to_nat (Sparse.batchStartOffset b + len (pending b) - len (Sparse.fh b)) = 0%nat) as -> by nia.
    cbn [replicate]. rewrite app_nil_r, Ho. eexists. destruct b. reflexivity.
Qed.

(** The first half of [add_page]: flush unless the page extends the run. *)
Lemma ready_spec target b i :
  batch_ok target b → 0 ≤ i < n → len target = n * ps →
  ∃ b', (if negb (negb (Sparse.lastPageIndex b =? 2^64 - 1) && (i =? u64 (Sparse.lastPageIndex b + 1)))
            || (Sparse.batchPageCount b >=? max) then
      match Sparse.flushBatch os_WriteAt ps b with
      | (b, Some e) => (b, Some e)
      | (b, None) => (update Sparse.batchStartOffset (λ _, i * ps) b, None)
      end
    else (b, None)) = (b', None) ∧ batch_ready target i b'.
Proof.
  intros Hb Hi Ht. destruct (negb _ || _) eqn:E.
  - destruct (flush_spec target b Hb) as [w ->]. eexists. split; [reflexivity|].
    split; cbn [Sparse.batchPageCount Sparse.batchBuf Sparse.fh Sparse.batchStartOffset update]; try lia; try nia.
    + apply Hb.
    + unfold overlay, pending. cbn. by rewrite take_0, overwrite_nil.
  - apply orb_false_iff in E as [E1 E2]. apply negb_false_iff, andb_true_iff in E1 as [E1 E3].
    apply negb_true_iff, Z.eqb_neq in E1. apply Z.eqb_eq in E3. rewrite Z.geb_leb, Z.leb_gt in E2.
    pose proof (b_count _ _ Hb). assert (0 < Sparse.batchPageCount b) as Hpos.
    { destruct (decide (Sparse.batchPageCount b = 0)) as [H0|]; [|lia]. by destruct E1; apply (b_first _ _ Hb). }
    destruct (b_start _ _ Hb Hpos) as (H1 & H2 & H3). rewrite u64_small in E3 by (unfold is_u; lia).
    exists b. split; [done|]. split; try apply Hb; [lia|lia|]. rewrite H3, E3. done.
Qed.

(** The second half: the page is read behind the pending ones. *)
Lemma take_overwrite_next (buf q : list Z) k :
  (k + length q ≤ length buf)%nat → take (k + length q) (overwrite buf k q) = take k buf ++ q.
Proof.
  intros Hk. unfold overwrite. rewrite (take_ge q) by lia.
  rewrite app_assoc, take_app_le by (rewrite length_app, length_take; lia).
  by rewrite take_ge by (rewrite length_app, length_take; lia).
Qed.
Lemma add_page_spec target b i r l :
  batch_ok target b → 0 ≤ i < n → len target = n * ps → rep r l → ps ≤ len l →
  ∃ b', Sparse.add_page os_WriteAt ps max i r b = (b', Ok tt) ∧
    batch_ok (overwrite target (Z.to_nat (i * ps)) (take (Z.to_nat ps) l)) b'.
Proof.
  intros Hb Hi Ht Hr Hl. unfold Sparse.add_page.
  destruct (ready_spec target b i Hb Hi Ht) as (b1 & -> & Hb1). clear Hb b.
  pose proof (r_count _ _ _ Hb1) as Hc. pose proof (r_buf _ _ _ Hb1) as Hbuf. pose proof (r_next _ _ _ Hb1) as Hnext.
  pose proof (r_start _ _ _ Hb1) as Hstart. pose proof (r_file _ _ _ Hb1) as Hfile.
  destruct (Z.gtb_spec (Sparse.batchPageCount b1 * ps + ps) (len (Sparse.batchBuf b1))); [nia|].
  set (k := Z.to_nat (Sparse.batchPageCount b1 * ps)).
  assert (length (sub (Sparse.batchBuf b1) k (Z.to_nat ps)) = Z.to_nat ps) as Hsub by (apply length_sub; lia).
  unfold Region.ReadAt. rewrite (read_region_of _ r l) by (done || lia). unfold read_of.
  change (Z.to_nat 0) with 0%nat. rewrite drop_0, Hsub. rewrite Z.sub_0_r, Z.min_l by lia. rewrite Z2Nat.id by lia.
  rewrite Z.eqb_refl. cbn [negb].
  assert (overwrite (sub (Sparse.batchBuf b1) k (Z.to_nat ps)) 0 l = take (Z.to_nat ps) l) as ->.
  { unfold overwrite. rewrite Hsub, take_0, Nat.sub_0_r, drop_ge, app_nil_r by lia. done. }
  assert (length (take (Z.to_nat ps) l) = Z.to_nat ps) as Hpage by (rewrite length_take; lia).
  eexists. split; [reflexivity|]. destruct b1 as [buf so cnt last w f]. cbn in *.
  split; unfold overlay, pending; cbn; [lia|by rewrite length_overwrite|done|lia| |].
  - intros _. split_and!; [done|lia|lia|lia].
  - replace (Z.to_nat ((cnt + 1) * ps)) with (k + length (take (Z.to_nat ps) l))%nat by lia.
    rewrite take_overwrite_next by lia. pose proof (r_overlay _ _ _ Hb1) as Ho. unfold overlay, pending in Ho. cbn in Ho.
    rewrite <-Ho. fold k. assert (length (take k buf) = k) as Hk by (rewrite length_take; lia).
    rewrite <-overwrite_overwrite by (rewrite Hk; nia). f_equal. lia.
Qed.

Lemma add_pages_spec {T} `{PageTableLaws T} (vm : VirtualMemory T) es target b :
  pageSize vm = ps → vm_ok n vm → batch_ok target b → len target = n * ps →
  Forall (λ e, 0 ≤ e.1 < n ∧ VM.current vm e.1 = Some e.2) es →
  ∃ b', Sparse.add_pages os_WriteAt ps max es b = (b', Ok tt) ∧ batch_ok (foldl (put_page vm) target es) b'.
Proof.
  intros Hp Hok. revert target b. induction es as [|[i r] es IH]; intros target b Hb Ht Hes; [by exists b|].
  apply Forall_cons in Hes as [[Hi Hcur] Hes]. cbn [fst snd] in *. cbn [Sparse.add_pages foldl].
  destruct (current_ok n vm i r Hok Hi Hcur) as (l & Hr & Hl).
  destruct (add_page_spec target b i r l Hb Hi Ht Hr) as (b1 & -> & Hb1); [lia|].
  assert (put_page vm target (i, r) = overwrite target (Z.to_nat (i * ps)) (take (Z.to_nat ps) l)) as ->.
  { unfold put_page. cbn [fst]. rewrite (page_of_rep vm i r l) by (done || apply Hok). by rewrite Hp. }
  apply IH; [done|by rewrite length_overwrite|done].
Qed.
End batches.

(** C20: Copying an image to a file of zeros of its size leaves exactly the
    bytes of the image in the file and reports no error, for every buffer that
    holds at least one page: batching runs of consecutive pages, flushing full
    batches and skipping unmapped pages change nothing. *)
Theorem write_sparse_copies n (vm : image) buf :
  vm_ok n vm → pageSize vm ≤ len buf →
  ∃ w, Sparse.WriteSparseTo os_WriteAt vm (replicate (Z.to_nat (totalSize vm)) 0) buf = (contents vm, w, Ok tt).
Proof.
  intros Hok Hbuf. pose proof (ok_size n vm Hok) as Hps. pose proof (ok_total n vm Hok) as Htot.
  pose proof (ok_count n vm Hok) as Hn. unfold Sparse.WriteSparseTo. destruct (_ && _) eqn:E.
  { exists 0. apply andb_true_iff in E as [E1 E2]. rewrite Nat.eqb_eq, length_zero_iff_nil in E1, E2. f_equal. f_equal.
    symmetry. apply (contents_empty n vm Hok). intros i. unfold VM.current. cbn. unfold MLPT.Get, MLPT.page.
    rewrite E1, E2, !lookup_nil. by repeat case_match. }
  assert (1 ≤ len buf / pageSize vm) as Hmax by (apply Z.div_le_lower_bound; lia).
  destruct (Z.eqb_spec (len buf / pageSize vm) 0); [lia|]. set (zeros := replicate (Z.to_nat (totalSize vm)) 0).
  assert (len zeros = n * pageSize vm) as Hz by (unfold zeros; rewrite length_replicate; nia).
  destruct (add_pages_spec n (pageSize vm) (len buf / pageSize vm) Hps ltac:(lia) Hn vm
    (Sparse.forEachMappedPage vm) zeros (Sparse.mkBatch buf 0 0 (2^64 - 1) 0 zeros)) as (b & -> & Hb); try done.
  { split; cbn; try done; try lia; [pose proof (Z.mul_div_le (len buf) (pageSize vm)); lia|]. apply overwrite_nil. }
  { apply Forall_forall. intros [i r] Hin. by apply (mapped_pages n) in Hin. }
  destruct (flush_spec n (pageSize vm) (len buf / pageSize vm) Hps ltac:(lia) Hn _ b Hb) as [w ->]. exists w. cbn [Sparse.fh Sparse.written].
  f_equal. f_equal.
  replace zeros with (some_pages n vm []) by (unfold zeros; rewrite some_pages_nil, Htot; f_equal; lia).
  rewrite put_pages; [|done|apply Forall_forall; intros [i r] Hin; by apply (mapped_pages n) in Hin as [Hin _]].
  rewrite app_nil_r. apply (some_pages_all n); [done|]. intros i r Hi Hcur. apply elem_of_reverse.
  apply (list_elem_of_fmap_2 fst _ (i, r)). by apply (mapped_pages n).
Qed.
(** The image of [image_refines_witness] copied with room for two pages in the
    buffer. *)
Lemma write_sparse_copies_witness :
  ∃ vm vm' w, VM.NewVirtualMemory 12 4 = Ok vm ∧
    run_ops vm [OMapFile [1; 2; 3; 4; 5; 6] 1 6; OWrite [10; 11] 3] = Some vm' ∧
    Sparse.WriteSparseTo os_WriteAt vm' (replicate 12 0) (replicate 9 7) =
      ([0; 1; 2; 10; 11; 5; 6; 0; 0; 0; 0; 0], w, Ok tt).
Proof.
  eexists. set (vm := mkVirtualMemory 4 (NewMultiLevelPageTable 3) (NewMultiLevelPageTable 3) 12 0 0 0 : image).
  destruct (new_vm_ok 12 4 vm ltac:(done) ltac:(done) eq_refl) as (Hok & Htot & Hpage & Hc).
  destruct (run_ops_spec _ vm [OMapFile [1; 2; 3; 4; 5; 6] 1 6; OWrite [10; 11] 3] Hok) as (vm1 & H1 & Hok1 & Htot1 & Hc1);
    [by repeat constructor|].
  assert (pageSize vm1 = 4) as Hp1 by (pose proof (ok_total _ _ Hok1); pose proof (ok_size _ _ Hok1); rewrite Htot1, Htot in *; change (12 / 4) with 3 in *; lia).
  destruct (write_sparse_copies _ vm1 (replicate 9 7) Hok1) as [w Hw]; [by rewrite Hp1|].
  exists vm1, w. split_and!; [reflexivity|done|]. rewrite Htot1, Hc1, Hc in Hw. exact Hw.
Defined.
