(* ===== verification/Bitmap.v ===== *)
(** The bitmap region of a disk image: src/internal/fsimage/vm/bitmap.go.

    A bitmap is its bytes; bit [i] is bit [i mod 8] of byte [i / 8].  Indices
    are 64-bit unsigned, so [end - 1] wraps for zero.  An index out of range
    panics.  [FindFirstClear] and [FindFirstSet] are one definition with the
    bit looked for as an argument.

    The theorems: the byte-wise routines agree with the bit-wise meaning. *)
From S2P Require Import Prelude Regions.

(** Bit [i]. *)
Definition bit (d : list Z) (i : Z) : bool := Z.testbit (nth (Z.to_nat (i / 8)) d 0) (i mod 8).
Definition maxBits (d : list Z) : Z := u64 (len d * 8).

Module BitmapRegion.
Definition Get (d : list Z) (i : Z) : bool * option string :=
  if i >=? maxBits d then (false, Some EOF)
  else (negb (Z.land (Z.shiftr (nth (Z.to_nat (i / 8)) d 0) (i mod 8)) 1 =? 0), None).

(** Set or clear the bits of a mask in a byte. *)
Definition mask_byte (value : bool) (mask b : Z) : Z := if value then Z.lor b mask else b &^ mask.
Definition set_byte (d : list Z) (k : Z) (f : Z → Z) : list Z * result () :=
  if k <? len d then (alter f (Z.to_nat k) d, Ok tt) else (d, Panic).

Definition Set_ (d : list Z) (i : Z) (value : bool) : list Z * result () :=
  if i >=? maxBits d then (d, Err EOF)
  else set_byte d (i / 8) (mask_byte value (u8 (Z.shiftl 1 (i mod 8)))).

Definition SetAll (d : list Z) (value : bool) : list Z := (λ _, if value then 0xff else 0x00) <$> d.

(** [for i := from; i < to; i++ { mask |= 1 << i }] *)
Definition mask (from to : Z) : Z := foldl (λ m i, Z.lor m (u8 (Z.shiftl 1 i))) 0 (seqZ from (to - from)).
(** The loop that fills whole bytes. *)
Definition fill (d : list Z) (startByte endByte fillByte : Z) : list Z * result () :=
  if endByte <=? startByte then (d, Ok tt)
  else if endByte <=? len d then
    (overwrite d (Z.to_nat startByte) (replicate (Z.to_nat (endByte - startByte)) fillByte), Ok tt)
  else (overwrite d (Z.to_nat startByte) (replicate (length d - Z.to_nat startByte) fillByte), Panic).

Definition SetRange (d : list Z) (start end_ : Z) (value : bool) : list Z * result () :=
  if start >? end_ then (d, Ok tt)
  else if start >=? maxBits d then (d, Err EOF)
  else
    let end_ := Z.min end_ (maxBits d) in
    let last := u64 (end_ - 1) in
    if start =? last then Set_ d start value
    else
      let startByte := start / 8 in
      let endByte := last / 8 in
      let startBit := start mod 8 in
      let endBit := last mod 8 in
      let fillByte := if value then 0xff else 0x00 in
      if startByte =? endByte then set_byte d startByte (mask_byte value (mask startBit (endBit + 1)))
      else
        let '(d, r, startByte) :=
          if negb (startBit =? 0) then
            let '(d, r) := set_byte d startByte (mask_byte value (mask startBit 8)) in (d, r, startByte + 1)
          else (d, Ok tt, startByte) in
        match r with
        | Ok _ =>
          let '(d, r, endByte) :=
            if negb (endBit =? 7) then
              let '(d, r) := set_byte d endByte (mask_byte value (mask 0 (endBit + 1))) in (d, r, endByte)
            else (d, Ok tt, endByte + 1) in
          match r with Ok _ => fill d startByte endByte fillByte | r => (d, r) end
        | r => (d, r)
        end.

(** The scan of one byte: a bit, the end of the range, or none. *)
Inductive scan := Found (i : Z) | AtEnd | NotHere.
Fixpoint scan_byte (want : bool) (b base start end_ : Z) (bits : list Z) : scan :=
  match bits with
  | [] => NotHere
  | j :: bits =>
    let bitIndex := base + j in
    if bitIndex >=? end_ then AtEnd
    else if bitIndex <? start then scan_byte want b base start end_ bits
    else if Bool.eqb (Z.land (Z.shiftr b j) 1 =? 1) want then Found bitIndex
    else scan_byte want b base start end_ bits
  end.
(** The loop over whole bytes. *)
Fixpoint scan_bytes (want : bool) (d : list Z) (start end_ : Z) (bytes : list Z) : option Z :=
  match bytes with
  | [] => None
  | k :: bytes =>
    let b := nth (Z.to_nat k) d 0 in
    if b =? (if want then 0x00 else 0xff) then scan_bytes want d start end_ bytes
    else
      match scan_byte want b (k * 8) start end_ (seqZ 0 8) with
      | Found i => Some i
      | AtEnd => None
      | NotHere => scan_bytes want d start end_ bytes
      end
  end.
Definition find_first (want : bool) (d : list Z) (start end_ : Z) : option Z :=
  if start >=? maxBits d then None
  else
    let end_ := Z.min end_ (maxBits d) in
    if start >=? end_ then None
    else
      let startByte := start / 8 in
      let endByte := (end_ - 1) / 8 in
      let startBit := start mod 8 in
      let first :=
        if negb (startBit =? 0) then
          scan_byte want (nth (Z.to_nat startByte) d 0) (startByte * 8) start end_ (seqZ startBit (8 - startBit))
        else NotHere in
      let startByte := if negb (startBit =? 0) then startByte + 1 else startByte in
      match first with
      | Found i => Some i
      | _ => scan_bytes want d start end_ (seqZ startByte (endByte + 1 - startByte))
      end.
Definition FindFirstClear : list Z → Z → Z → option Z := find_first false.
Definition FindFirstSet : list Z → Z → Z → option Z := find_first true.

Definition NewBitmap (size : Z) : list Z := replicate (Z.to_nat (size / 8)) 0.
End BitmapRegion.
Import BitmapRegion.

(** * Bits of a byte *)

Lemma eight_cases (P : Z → Prop) : P 0 → P 1 → P 2 → P 3 → P 4 → P 5 → P 6 → P 7 → ∀ i, 0 ≤ i < 8 → P i.
Proof.
  intros H0 H1 H2 H3 H4 H5 H6 H7 i Hi.
  assert (i = 0 ∨ i = 1 ∨ i = 2 ∨ i = 3 ∨ i = 4 ∨ i = 5 ∨ i = 6 ∨ i = 7) as Hc by lia.
  by destruct Hc as [->|[->|[->|[->|[->|[->|[->| ->]]]]]]].
Qed.
Lemma mask_testbit from to j :
  0 ≤ from < 8 → 0 < to ≤ 8 → 0 ≤ j < 8 → Z.testbit (mask from to) j = (from <=? j) && (j <? to).
Proof.
  intros Hf Ht Hj. replace to with (to - 1 + 1) by lia. assert (0 ≤ to - 1 < 8) as Ht' by lia. revert Ht'.
  generalize (to - 1) as t. intros t Ht'. clear Ht.
  revert t Ht'. apply eight_cases; revert from Hf; apply eight_cases; revert j Hj; apply eight_cases; reflexivity.
Qed.
Lemma mask_single j : 0 ≤ j < 8 → u8 (Z.shiftl 1 j) = mask j (j + 1).
Proof. revert j. apply eight_cases; reflexivity. Qed.
Lemma mask_byte_testbit v m b j : 0 ≤ j → Z.testbit (mask_byte v m b) j = if Z.testbit m j then v else Z.testbit b j.
Proof.
  intros Hj. unfold mask_byte. destruct v; [rewrite Z.lor_spec|rewrite Z.ldiff_spec];
    destruct (Z.testbit m j), (Z.testbit b j); done.
Qed.
Lemma byte_index i : 0 ≤ i → 0 ≤ i mod 8 < 8 ∧ i = 8 * (i / 8) + i mod 8 ∧ 0 ≤ i / 8.
Proof.
  intros Hi. pose proof (Z.mod_pos_bound i 8). pose proof (Z.div_mod i 8). pose proof (Z.div_pos i 8). lia.
Qed.

(** * Setting bits *)

(** The bits of a range are set to a value and no other bit changes. *)
Definition sets (d d' : list Z) (from to : Z) (value : bool) : Prop :=
  length d' = length d ∧
  ∀ i, 0 ≤ i < len d * 8 → bit d' i = if (from <=? i) && (i <? to) then value else bit d i.

Lemma sets_trans d d1 d2 a b c e v :
  sets d d1 a b v → sets d1 d2 c e v →
  length d2 = length d ∧
  ∀ i, 0 ≤ i < len d * 8 →
    bit d2 i = if ((a <=? i) && (i <? b)) || ((c <=? i) && (i <? e)) then v else bit d i.
Proof.
  intros [L1 H1] [L2 H2]. split; [congruence|]. intros i Hi. rewrite H2, H1 by lia.
  by destruct ((a <=? i) && (i <? b)), ((c <=? i) && (i <? e)).
Qed.
Lemma sets_empty d a b v : b ≤ a → sets d d a b v.
Proof. intros Hab. split; [done|]. intros i Hi. by destruct (Z.leb_spec a i), (Z.ltb_spec i b); try lia. Qed.

Lemma set_byte_sets d k f t v :
  0 ≤ k < len d → 0 ≤ f < 8 → 0 < t ≤ 8 →
  ∃ d', set_byte d k (mask_byte v (mask f t)) = (d', Ok tt) ∧ sets d d' (8 * k + f) (8 * k + t) v.
Proof.
  intros Hk Hf Ht. unfold set_byte. destruct (Z.ltb_spec k (len d)); [|lia]. eexists. split; [done|].
  split; [apply length_alter|]. intros i Hi. destruct (byte_index i ltac:(lia)) as (Hm & Hi' & Hq). unfold bit.
  assert (Z.to_nat (i / 8) < length d)%nat as Hlt by lia. rewrite !nth_lookup, list_lookup_alter.
  destruct (lookup_lt_is_Some_2 d _ Hlt) as [x Hx]. rewrite Hx. destruct (decide (i / 8 = k)) as [Heq|Hne].
  - rewrite decide_True by (by rewrite Heq). subst k. rewrite Hx. cbn [fmap option_fmap option_map default from_option id].
    rewrite mask_byte_testbit, mask_testbit by lia.
    replace ((f <=? i mod 8) && (i mod 8 <? t)) with ((8 * (i / 8) + f <=? i) && (i <? 8 * (i / 8) + t)); [done|].
    f_equal; lia.
  - rewrite decide_False by lia.
    destruct (Z.leb_spec (8 * k + f) i), (Z.ltb_spec i (8 * k + t)); cbn; try done. lia.
Qed.
Lemma fill_sets (d : list Z) (a b : Z) (v : bool) :
  0 ≤ a → b ≤ len d →
  ∃ d', fill d a b (if v then 0xff else 0x00) = (d', Ok tt) ∧ sets d d' (8 * a) (8 * b) v.
Proof.
  intros Ha Hb. unfold fill. destruct (Z.leb_spec b a) as [Hle|Hlt].
  { exists d. split; [done|]. apply sets_empty. lia. }
  destruct (Z.leb_spec b (len d)); [|lia]. eexists. split; [done|]. split; [apply length_overwrite|].
  intros i Hi. destruct (byte_index i ltac:(lia)) as (Hm & Hi' & Hq). unfold bit.
  rewrite !nth_lookup, lookup_overwrite, length_replicate. rewrite decide_True by lia.
  destruct (decide _) as [Hin|Hout].
  - rewrite lookup_replicate_2 by lia. cbn.
    destruct (Z.leb_spec (8 * a) i), (Z.ltb_spec i (8 * b)); cbn; try lia.
    revert Hm. generalize (i mod 8). destruct v; apply eight_cases; reflexivity.
  - destruct (Z.leb_spec (8 * a) i), (Z.ltb_spec i (8 * b)); cbn; try done. lia.
Qed.

Lemma Set_sets d i v :
  len d * 8 < 2^64 → 0 ≤ i < len d * 8 → ∃ d', Set_ d i v = (d', Ok tt) ∧ sets d d' i (i + 1) v.
Proof.
  intros Hd Hi. unfold Set_, maxBits. rewrite u64_small by (unfold is_u; lia).
  destruct (Z.geb_spec i (len d * 8)); [lia|]. destruct (byte_index i ltac:(lia)) as (Hm & Hi' & Hq).
  rewrite mask_single by done. destruct (set_byte_sets d (i / 8) (i mod 8) (i mod 8 + 1) v) as (d' & -> & H');
    [lia|lia|lia|]. exists d'. split; [done|].
  replace (8 * (i / 8) + (i mod 8 + 1)) with (i + 1) in H' by lia. by replace (8 * (i / 8) + i mod 8) with i in H' by lia.
Qed.

(** The masked first and last bytes of a range. *)
Lemma head_sets d sb sm v :
  0 ≤ sb < len d → 0 ≤ sm < 8 →
  ∃ d' sb', (if negb (sm =? 0) then
      let '(d, r) := set_byte d sb (mask_byte v (mask sm 8)) in (d, r, sb + 1)
    else (d, Ok tt, sb)) = (d', Ok tt, sb') ∧ (sm = 0 ∧ sb' = sb ∨ 0 < sm ∧ sb' = sb + 1) ∧ sets d d' (8 * sb + sm) (8 * sb') v.
Proof.
  intros Hsb Hsm. destruct (Z.eqb_spec sm 0) as [->|Hne]; cbn [negb].
  - exists d, sb. split_and!; [done|lia|]. apply sets_empty. lia.
  - destruct (set_byte_sets d sb sm 8 v) as (d' & -> & H'); [lia|lia|lia|]. exists d', (sb + 1). split_and!; [done|lia|].
    by replace (8 * (sb + 1)) with (8 * sb + 8) by lia.
Qed.
Lemma tail_sets d eb em v :
  0 ≤ eb < len d → 0 ≤ em < 8 →
  ∃ d' eb', (if negb (em =? 7) then
      let '(d, r) := set_byte d eb (mask_byte v (mask 0 (em + 1))) in (d, r, eb)
    else (d, Ok tt, eb + 1)) = (d', Ok tt, eb') ∧ (em = 7 ∧ eb' = eb + 1 ∨ em < 7 ∧ eb' = eb) ∧ sets d d' (8 * eb') (8 * eb + em + 1) v.
Proof.
  intros Heb Hem. destruct (Z.eqb_spec em 7) as [->|Hne]; cbn [negb].
  - exists d, (eb + 1). split_and!; [done|lia|]. apply sets_empty. lia.
  - destruct (set_byte_sets d eb 0 (em + 1) v) as (d' & -> & H'); [lia|lia|lia|]. exists d', eb. split_and!; [done|lia|].
    by rewrite Z.add_0_r, Z.add_assoc in H'.
Qed.

(** Setting a range of bits byte by byte is setting each bit of the range:
    whole bytes in the middle, masks at both ends and the single-byte and
    single-bit cases together set exactly the bits from the start up to the
    end or the size of the bitmap and leave every other bit. *)
Theorem setrange_sets_bits d start end_ v :
  len d * 8 < 2^64 → 0 ≤ start ≤ end_ → 0 < end_ → start < len d * 8 →
  ∃ d', SetRange d start end_ v = (d', Ok tt) ∧ sets d d' start (Z.min end_ (len d * 8)) v.
Proof.
  intros Hd Hs He Hb. unfold SetRange. destruct (Z.gtb_spec start end_); [lia|].
  unfold maxBits. rewrite u64_small by (unfold is_u; lia). destruct (Z.geb_spec start (len d * 8)); [lia|].
  set (e := Z.min end_ (len d * 8)). rewrite (u64_small (e - 1)) by (unfold is_u; lia).
  destruct (Z.eqb_spec start (e - 1)) as [Hone|Hone].
  { destruct (Set_sets d start v) as (d' & -> & H'); [done|lia|]. exists d'. split; [done|].
    by replace e with (start + 1) by lia. }
  destruct (byte_index start ltac:(lia)) as (Hm & Hsi & Hq). destruct (byte_index (e - 1) ltac:(lia)) as (Hme & Hei & Hqe).
  set (sb := start / 8) in *. set (eb := (e - 1) / 8) in *. set (sm := start mod 8) in *. set (em := (e - 1) mod 8) in *.
  destruct (Z.eqb_spec sb eb) as [Heq|Hneq].
  { destruct (set_byte_sets d sb sm (em + 1) v) as (d' & -> & H'); [lia|lia|lia|]. exists d'. split; [done|].
    replace (8 * sb + (em + 1)) with e in H' by lia. by replace (8 * sb + sm) with start in H' by lia. }
  destruct (head_sets d sb sm v) as (d1 & sb' & -> & Hsb' & H1); [lia|done|].
  destruct (tail_sets d1 eb em v) as (d2 & eb' & -> & Heb' & H2); [destruct H1; lia|done|].
  destruct (fill_sets d2 sb' eb' v) as (d3 & -> & H3); [lia|destruct H1, H2; lia|].
  exists d3. split; [done|]. pose proof (sets_trans _ _ _ _ _ _ _ _ H1 H2) as [L12 H12]. destruct H3 as [L3 H3].
  split; [congruence|]. intros i Hi. rewrite H3, H12 by lia.
  replace ((start <=? i) && (i <? e)) with
    ((8 * sb' <=? i) && (i <? 8 * eb') || ((8 * sb + sm <=? i) && (i <? 8 * sb') || ((8 * eb' <=? i) && (i <? 8 * eb + em + 1)))) by lia.
  by destruct ((8 * sb' <=? i) && (i <? 8 * eb')).
Qed.
(** Bits 3 to 20 of four bytes. *)
Lemma setrange_sets_bits_witness :
  ∃ d', SetRange [0; 0; 0; 0] 3 21 true = (d', Ok tt) ∧ bit d' 2 = false ∧ bit d' 3 = true ∧ bit d' 20 = true ∧ bit d' 21 = false.
Proof.
  destruct (setrange_sets_bits [0; 0; 0; 0] 3 21 true) as (d' & H1 & _ & H2); [done..|].
  exists d'. rewrite !H2 by done. done.
Defined.

(** An empty range at the start of a bitmap: the end of the range wraps, every
    byte is filled and the loop then runs past the bitmap and panics. *)
Theorem setrange_empty_panics d v :
  0 < len d * 8 < 2^64 - 8 → SetRange d 0 0 v = (replicate (length d) (if v then 0xff else 0x00), Panic).
Proof.
  intros Hd. unfold SetRange, maxBits. rewrite u64_small by (unfold is_u; lia). cbn [Z.gtb Z.compare].
  destruct (Z.geb_spec 0 (len d * 8)); [lia|]. rewrite Z.min_l by lia. change (u64 (0 - 1)) with (2^64 - 1).
  change (0 =? 2^64 - 1) with false. change (0 / 8 =? (2^64 - 1) / 8) with false. cbn iota.
  change (negb (0 mod 8 =? 0)) with false. change (negb ((2^64 - 1) mod 8 =? 7)) with false. cbn iota beta.
  change ((2^64 - 1) / 8 + 1) with (2^61). unfold fill. change (0 / 8) with 0. change (2^61 <=? 0) with false. cbn iota.
  destruct (Z.leb_spec (2^61) (len d)); [lia|]. change (Z.to_nat 0) with 0%nat. f_equal. unfold overwrite.
  rewrite !Nat.sub_0_r, take_0, take_ge, drop_ge, app_nil_r by (rewrite length_replicate; lia). done.
Qed.
Lemma setrange_empty_panics_witness : SetRange [1; 2] 0 0 true = ([0xff; 0xff], Panic).
Proof. apply (setrange_empty_panics [1; 2] true). done. Defined.

(** * Finding bits *)

Lemma bit_value b j : 0 ≤ j → (Z.land (Z.shiftr b j) 1 =? 1) = Z.testbit b j.
Proof.
  intros Hj. change 1 with (Z.ones 1) at 1. rewrite Z.land_ones, Z.pow_1_r, Zmod_odd, <-Z.testbit_odd by lia.
  by destruct (Z.testbit b j).
Qed.
Lemma bit_of_byte d k j : 0 ≤ k → 0 ≤ j < 8 → bit d (8 * k + j) = Z.testbit (nth (Z.to_nat k) d 0) j.
Proof.
  intros Hk Hj. unfold bit.
  replace ((8 * k + j) / 8) with k by (apply (Z.div_unique _ _ _ j); lia).
  by replace ((8 * k + j) mod 8) with j by (apply (Z.mod_unique _ _ k j); lia).
Qed.

(** No bit of the range has the value. *)
Definition none (want : bool) (d : list Z) (from to : Z) : Prop := ∀ i, from ≤ i < to → bit d i = negb want.
(** The first bit of the range with the value. *)
Definition first (want : bool) (d : list Z) (from to i : Z) : Prop :=
  from ≤ i < to ∧ bit d i = want ∧ none want d from i.

Lemma none_app want d a b c : none want d a b → none want d b c → none want d a c.
Proof. intros H1 H2 i Hi. destruct (decide (i < b)); [apply H1; lia|apply H2; lia]. Qed.
Lemma none_sub want d a b a' b' : none want d a b → a ≤ a' → b' ≤ b → none want d a' b'.
Proof. intros H1 Ha Hb i Hi. apply H1. lia. Qed.
Lemma first_app want d a b c i : none want d a b → first want d b c i → a ≤ b → first want d a c i.
Proof. intros H1 (H2 & H3 & H4) Hab. split_and!; [lia|lia|done|]. by eapply none_app. Qed.
Lemma none_one want d i : bit d i ≠ want → none want d i (i + 1).
Proof. intros Hb j Hj. replace j with i by lia. by destruct (bit d i), want. Qed.

Lemma scan_byte_spec want d k start end_ j n :
  0 ≤ k → 0 ≤ j → j + Z.of_nat n ≤ 8 →
  match scan_byte want (nth (Z.to_nat k) d 0) (k * 8) start end_ (seqZ j (Z.of_nat n)) with
  | Found i => first want d (Z.max start (8 * k + j)) (Z.min end_ (8 * k + j + Z.of_nat n)) i
  | AtEnd => none want d (Z.max start (8 * k + j)) end_
  | NotHere => none want d (Z.max start (8 * k + j)) (8 * k + j + Z.of_nat n)
  end.
Proof.
  intros Hk. revert j. induction n as [|n IH]; intros j Hj Hn.
  { cbn. intros i Hi. lia. }
  rewrite seqZ_cons by lia. cbn [scan_byte]. replace (Z.pred (Z.of_nat (S n))) with (Z.of_nat n) by lia.
  replace (k * 8 + j) with (8 * k + j) by lia. specialize (IH (Z.succ j) ltac:(lia) ltac:(lia)).
  replace (8 * k + Z.succ j + Z.of_nat n) with (8 * k + j + Z.of_nat (S n)) in IH by lia.
  destruct (Z.geb_spec (8 * k + j) end_) as [He|He]; [intros i Hi; lia|].
  destruct (Z.ltb_spec (8 * k + j) start) as [Hs|Hs].
  { by replace (Z.max start (8 * k + j)) with (Z.max start (8 * k + Z.succ j)) by lia. }
  rewrite bit_value, <-bit_of_byte by lia. rewrite (Z.max_r start) by lia. rewrite (Z.max_r start) in IH by lia.
  destruct (eqb_spec (bit d (8 * k + j)) want) as [Hb|Hb].
  { split_and!; [lia|lia|done|]. intros i Hi. lia. }
  apply none_one in Hb. replace (8 * k + j + 1) with (8 * k + Z.succ j) in Hb by lia.
  destruct (scan_byte _ _ _ _ _ _) as [i| |]; [eapply first_app; [done|done|lia]|by eapply none_app..].
Qed.

(** A byte of zeros has no set bit, a byte of ones no clear bit. *)
Lemma skip_byte (want : bool) d k :
  0 ≤ k → nth (Z.to_nat k) d 0 = (if want then 0x00 else 0xff) → none want d (8 * k) (8 * k + 8).
Proof.
  intros Hk Hb i Hi. replace i with (8 * k + (i - 8 * k)) by lia. rewrite bit_of_byte, Hb by lia.
  assert (0 ≤ i - 8 * k < 8) as Hj by lia. revert Hj. generalize (i - 8 * k). destruct want; apply eight_cases; reflexivity.
Qed.

Lemma scan_bytes_spec want d start end_ k n :
  0 ≤ k →
  match scan_bytes want d start end_ (seqZ k (Z.of_nat n)) with
  | Some i => first want d (Z.max start (8 * k)) end_ i
  | None => none want d (Z.max start (8 * k)) (Z.min end_ (8 * (k + Z.of_nat n)))
  end.
Proof.
  revert k. induction n as [|n IH]; intros k Hk.
  { cbn. intros i Hi. lia. }
  rewrite seqZ_cons by lia. cbn [scan_bytes]. replace (Z.pred (Z.of_nat (S n))) with (Z.of_nat n) by lia.
  specialize (IH (Z.succ k) ltac:(lia)). replace (8 * (Z.succ k + Z.of_nat n)) with (8 * (k + Z.of_nat (S n))) in IH by lia.
  assert (none want d (Z.max start (8 * k)) (8 * k + 8) →
    match scan_bytes want d start end_ (seqZ (Z.succ k) (Z.of_nat n)) with
    | Some i => first want d (Z.max start (8 * k)) end_ i
    | None => none want d (Z.max start (8 * k)) (Z.min end_ (8 * (k + Z.of_nat (S n))))
    end) as Hnext.
  { intros Hno. assert (none want d (Z.max start (8 * k)) (Z.max start (8 * Z.succ k))) as Hno'.
    { intros i Hi. apply Hno. lia. }
    destruct (scan_bytes _ _ _ _ _); [eapply first_app; [done|done|lia]|by eapply none_app]. }
  destruct (Z.eqb_spec (nth (Z.to_nat k) d 0) (if want then 0x00 else 0xff)) as [Hb|Hb].
  { apply Hnext. eapply none_sub; [by apply skip_byte|lia|lia]. }
  pose proof (scan_byte_spec want d k start end_ 0 8 Hk ltac:(lia) ltac:(lia)) as Hsc. rewrite Z.add_0_r in Hsc.
  change (Z.of_nat 8) with 8 in Hsc. destruct (scan_byte _ _ _ _ _ _) as [i| |].
  - destruct Hsc as (H1 & H2 & H3). split_and!; [lia|lia|done|done].
  - eapply none_sub; [done|lia|lia].
  - by apply Hnext.
Qed.

(** Finding the first clear or set bit of a range returns the first bit with
    that value between the start and the end or the size of the bitmap, and
    nothing exactly when there is none: the partial first byte, the skipping of
    full bytes and the stop at the end of the range agree with the bits. *)
Theorem find_first_is_first want d start end_ :
  len d * 8 < 2^64 → 0 ≤ start →
  match find_first want d start end_ with
  | Some i => first want d start (Z.min end_ (len d * 8)) i
  | None => none want d start (Z.min end_ (len d * 8))
  end.
Proof.
  intros Hd Hs. unfold find_first, maxBits. rewrite u64_small by (unfold is_u; lia).
  destruct (Z.geb_spec start (len d * 8)); [intros i Hi; lia|].
  set (e := Z.min end_ (len d * 8)). destruct (Z.geb_spec start e); [intros i Hi; lia|].
  destruct (byte_index start Hs) as (Hm & Hsi & Hq). destruct (byte_index (e - 1) ltac:(lia)) as (Hme & Hei & Hqe).
  set (sb := start / 8) in *. set (eb := (e - 1) / 8) in *. set (sm := start mod 8) in *.
  assert (sb ≤ eb) as Hle by lia. destruct (Z.eqb_spec sm 0) as [Hz|Hz]; cbn [negb].
  - pose proof (scan_bytes_spec want d start e sb (Z.to_nat (eb + 1 - sb)) Hq) as Hsc. rewrite Z2Nat.id in Hsc by lia.
    rewrite Z.max_l in Hsc by lia. by replace (Z.min e (8 * (sb + (eb + 1 - sb)))) with e in Hsc by lia.
  - pose proof (scan_byte_spec want d sb start e sm (Z.to_nat (8 - sm)) Hq ltac:(lia) ltac:(lia)) as Hsc.
    rewrite Z2Nat.id in Hsc by lia. rewrite Z.max_l in Hsc by lia.
    replace (8 * sb + sm + (8 - sm)) with (8 * (sb + 1)) in Hsc by lia.
    pose proof (scan_bytes_spec want d start e (sb + 1) (Z.to_nat (eb + 1 - (sb + 1))) ltac:(lia)) as Hrest.
    rewrite Z2Nat.id in Hrest by lia. rewrite Z.max_r in Hrest by lia.
    replace (Z.min e (8 * (sb + 1 + (eb + 1 - (sb + 1))))) with e in Hrest by lia.
    destruct (scan_byte _ _ _ _ _ _) as [i| |].
    + destruct Hsc as (H1 & H2 & H3). split_and!; [lia|lia|done|done].
    + destruct (scan_bytes _ _ _ _ _) as [i|]; [|done].
      destruct Hrest as (H1 & H2 & H3). specialize (Hsc i ltac:(lia)). rewrite H2 in Hsc. by destruct want.
    + destruct (scan_bytes _ _ _ _ _) as [i|]; [eapply first_app; [done|done|lia]|by eapply none_app].
Qed.
(** The first clear bit after bit 3 of three bytes is in the second byte. *)
Lemma find_first_is_first_witness : FindFirstClear [0xff; 0xfb; 0] 3 24 = Some 10 ∧ bit [0xff; 0xfb; 0] 10 = false.
Proof.
  pose proof (find_first_is_first false [0xff; 0xfb; 0] 3 24 ltac:(done) ltac:(done)) as H.
  change (find_first false [0xff; 0xfb; 0] 3 24) with (Some 10) in H. destruct H as (_ & H & _). by split.
Defined.
