(* ===== verification/Fdt.v ===== *)
(** The device tree: src/internal/fdt (build.go and node.go).

    Strings are lists of bytes.  A Go map of properties is the list of its
    entries, which have distinct names and come in any order; the builder sorts
    them.  The three buffers of the builder are its state.

    The format of the devicetree specification is given by a reader,
    [parse_blob]: header, structure block and strings block.  The theorem: a blob
    built from a tree reads back as that tree with its properties sorted. *)
From stdpp Require Import sorting.
From S2P Require Import Prelude.

Definition headerSize : Z := 0x28.
Definition version : Z := 17.
Definition lastCompVer : Z := 16.
Definition magic : Z := 0xd00dfeed.
Definition beginNodeToken : Z := 0x1.
Definition endNodeToken : Z := 0x2.
Definition propToken : Z := 0x3.
Definition endToken : Z := 0x9.

Record Property := mkProperty {
  Strings : list (list Z);
  U32 : list Z;
  U64 : list Z;
  Bytes : list Z;
  Flag : bool;
}.
Inductive Node := mkNode (Name : list Z) (Properties : list (list Z * Property)) (Children : list Node).

Inductive kind := KStrings | KU32 | KU64 | KBytes | KFlag | KNone.
Definition Kind (p : Property) : kind :=
  if len (Strings p) >? 0 then KStrings
  else if len (U32 p) >? 0 then KU32
  else if len (U64 p) >? 0 then KU64
  else if len (Bytes p) >? 0 then KBytes
  else if Flag p then KFlag
  else KNone.
Definition DefinedCount (p : Property) : Z :=
  Z.b2z (len (Strings p) >? 0) + Z.b2z (len (U32 p) >? 0) + Z.b2z (len (U64 p) >? 0) +
  Z.b2z (len (Bytes p) >? 0) + Z.b2z (Flag p).

(** * The builder *)

Record builder := mkBuilder {
  structBuf : list Z;
  strings : list Z;
  stringsOff : gmap (list Z) Z;
}.
#[export] Instance eta_builder : Eta builder := λ b, mkBuilder (structBuf b) (strings b) (stringsOff b).

Definition emit (bytes : list Z) (b : builder) : builder := b <| structBuf := structBuf b ++ bytes |>.
Definition writeToken (token : Z) : builder → builder := emit (be_bytes 4 token).
(** The zeros that align a length to four. *)
Definition padding (n : nat) : nat := ((4 - n mod 4) mod 4)%nat.
Definition padStruct (b : builder) : builder := emit (replicate (padding (length (structBuf b))) 0) b.

Definition stringOffset (name : list Z) (b : builder) : builder * Z :=
  match stringsOff b !! name with
  | Some off => (b, off)
  | None =>
    let off := u32 (len (strings b)) in
    (b <| strings := strings b ++ name ++ [0] |> <| stringsOff := <[name := off]> (stringsOff b) |>, off)
  end.
Definition beginNode (name : list Z) (b : builder) : builder :=
  padStruct (emit (name ++ [0]) (writeToken beginNodeToken b)).
Definition endNode : builder → builder := writeToken endNodeToken.
Definition property (name value : list Z) (b : builder) : builder :=
  let b := writeToken propToken b in
  let b := emit (be_bytes 4 (u32 (len value))) b in
  let '(b, off) := stringOffset name b in
  padStruct (emit value (emit (be_bytes 4 off) b)).

(** The bytes of a property's value. *)
Definition property_data (p : Property) : option (list Z) :=
  match Kind p with
  | KStrings => Some (concat (map (λ v, v ++ [0]) (Strings p)))
  | KU32 => Some (concat (map (be_bytes 4) (U32 p)))
  | KU64 => Some (concat (map (be_bytes 8) (U64 p)))
  | KBytes => Some (Bytes p)
  | KFlag => Some []
  | KNone => None
  end.
Definition emitProperty (name : list Z) (p : Property) (b : builder) : builder * option string :=
  if DefinedCount p =? 0 then (b, Some "fdt property has no values")
  else if DefinedCount p >? 1 then (b, Some "fdt property has multiple value kinds")
  else
    match property_data p with
    | Some data => (property name data b, None)
    | None => (b, Some "fdt property has unsupported kind")
    end.
Fixpoint emitProperties (ps : list (list Z * Property)) (b : builder) : builder * option string :=
  match ps with
  | [] => (b, None)
  | (name, p) :: ps =>
    match emitProperty name p b with
    | (b, None) => emitProperties ps b
    | res => res
    end
  end.

(** [sort.Strings]: by bytes. *)
Fixpoint bytes_le (a b : list Z) : bool :=
  match a, b with
  | [], _ => true
  | _ :: _, [] => false
  | x :: a, y :: b => (x <? y) || ((x =? y) && bytes_le a b)
  end.
Definition name_le (a b : list Z * Property) : Prop := bytes_le a.1 b.1 = true.
#[export] Instance name_le_dec a b : Decision (name_le a b) := decide (bytes_le a.1 b.1 = true).
Definition sorted_properties (ps : list (list Z * Property)) : list (list Z * Property) := merge_sort name_le ps.

Fixpoint emitNode (n : Node) (b : builder) : builder * option string :=
  match n with
  | mkNode name ps children =>
    match emitProperties (sorted_properties ps) (beginNode name b) with
    | (b, Some e) => (b, Some e)
    | (b, None) =>
      match (fix emitChildren (cs : list Node) (b : builder) : builder * option string :=
               match cs with
               | [] => (b, None)
               | c :: cs => match emitNode c b with (b, None) => emitChildren cs b | res => res end
               end) children b with
      | (b, Some e) => (b, Some e)
      | (b, None) => (endNode b, None)
      end
    end
  end.

Definition finish (b : builder) : list Z :=
  let b := padStruct (writeToken endToken b) in
  let structBytes := structBuf b in
  let stringsBytes := strings b in
  let memReserve := replicate 16 0 in
  let offMemReserve := headerSize in
  let offStruct := offMemReserve + len memReserve in
  let offStrings := offStruct + len structBytes in
  let totalSize := offStrings + len stringsBytes in
  let field v := be_bytes 4 (u32 v) in
  field magic ++ field totalSize ++ field offStruct ++ field offStrings ++ field offMemReserve ++
  field version ++ field lastCompVer ++ field 0 ++ field (len stringsBytes) ++ field (len structBytes) ++
  memReserve ++ structBytes ++ stringsBytes.
Definition Build (root : Node) : list Z + string :=
  match emitNode root (mkBuilder [] [] ∅) with
  | (b, None) => inl (finish b)
  | (_, Some e) => inr e
  end.

(** * The format *)

Inductive tree := Tree (name : list Z) (props : list (list Z * list Z)) (children : list tree).

Definition get32 (s : list Z) : option (Z * list Z) :=
  if 4 <=? len s then Some (be_val (take 4 s), drop 4 s) else None.
(** A string up to its zero. *)
Fixpoint cstr (s : list Z) : option (list Z) :=
  match s with
  | [] => None
  | c :: s => if c =? 0 then Some [] else name ← cstr s; Some (c :: name)
  end.
Definition align4 (n : nat) : nat := (n + padding n)%nat.

(** The items of a node up to its end token. *)
Fixpoint parse_items (fuel : nat) (strs s : list Z) (props : list (list Z * list Z)) (children : list tree)
    : option (list (list Z * list Z) * list tree * list Z) :=
  match fuel with
  | O => None
  | S fuel =>
    '(token, s) ← get32 s;
    if token =? endNodeToken then Some (props, children, s)
    else if token =? propToken then
      '(n, s) ← get32 s;
      '(off, s) ← get32 s;
      name ← cstr (drop (Z.to_nat off) strs);
      let n := Z.to_nat n in
      if (n <=? length s)%nat then parse_items fuel strs (drop (align4 n) s) (props ++ [(name, take n s)]) children
      else None
    else if token =? beginNodeToken then
      name ← cstr s;
      '(ps, cs, s) ← parse_items fuel strs (drop (align4 (S (length name))) s) [] [];
      parse_items fuel strs s props (children ++ [Tree name ps cs])
    else None
  end.
Definition parse_struct (strs s : list Z) : option tree :=
  '(token, s) ← get32 s;
  if token =? beginNodeToken then
    name ← cstr s;
    '(ps, cs, s) ← parse_items (length s) strs (drop (align4 (S (length name))) s) [] [];
    '(token, _) ← get32 s;
    if token =? endToken then Some (Tree name ps cs) else None
  else None.
(** A blob: its magic number, size and version, and the two blocks the header
    points to. *)
Definition header_field (blob : list Z) (i : nat) : Z := be_val (sub blob (4 * i) 4).
Definition parse_blob (blob : list Z) : option tree :=
  let f := header_field blob in
  if (f 0%nat =? magic) && (f 1%nat =? len blob) && (f 5%nat =? version) then
    parse_struct (sub blob (Z.to_nat (f 3%nat)) (Z.to_nat (f 8%nat))) (sub blob (Z.to_nat (f 2%nat)) (Z.to_nat (f 9%nat)))
  else None.

(** The tree a blob should hold. *)
Definition prop_value (p : list Z * Property) : list Z * list Z := (p.1, default [] (property_data p.2)).
Fixpoint tree_of (n : Node) : tree :=
  match n with
  | mkNode name ps children => Tree name (prop_value <$> sorted_properties ps) (map tree_of children)
  end.

(** * Pieces *)

Definition no_zero (s : list Z) : Prop := Forall (λ c, c ≠ 0) s.
#[export] Instance no_zero_dec s : Decision (no_zero s) := Forall_dec _ s.
Lemma cstr_app s rest : no_zero s → cstr (s ++ 0 :: rest) = Some s.
Proof.
  induction 1 as [|c s Hc Hs IH]; [done|]. cbn [app cstr]. destruct (Z.eqb_spec c 0); [done|]. by rewrite IH.
Qed.
Lemma get32_app v rest : is_u32 v → get32 (be_bytes 4 v ++ rest) = Some (v, rest).
Proof.
  intros Hv. unfold get32. rewrite length_app, length_be_bytes. destruct (Z.leb_spec 4 (Z.of_nat (4 + length rest))); [|lia].
  rewrite take_app_le, drop_app_le by (rewrite length_be_bytes; lia).
  rewrite take_ge, drop_ge by (rewrite length_be_bytes; lia). cbn [app].
  rewrite be_val_bytes. rewrite Z.mod_small; [done|exact Hv].
Qed.
Lemma padding_add n m : (n mod 4 = 0)%nat → padding (n + m) = padding m.
Proof. intros Hn. unfold padding. rewrite Nat.Div0.add_mod, Hn, Nat.add_0_l, Nat.Div0.mod_mod. done. Qed.
Lemma padding_aligned n : ((n + padding n) mod 4 = 0)%nat.
Proof.
  unfold padding. pose proof (Nat.mod_upper_bound n 4). pose proof (Nat.div_mod_eq n 4).
  destruct (decide (n mod 4 = 0)%nat) as [Heq|Hne].
  - rewrite Heq. change ((4 - 0) mod 4)%nat with 0%nat. by rewrite Nat.add_0_r.
  - rewrite (Nat.mod_small (4 - n mod 4)) by lia.
    replace (n + (4 - n mod 4))%nat with ((n / 4 + 1) * 4)%nat by lia. apply Nat.Div0.mod_mul.
Qed.
(** Four-byte pieces and padded ones keep the buffer aligned. *)
Definition aligned (s : list Z) : Prop := (length s mod 4 = 0)%nat.
Lemma aligned_app s t : aligned s → aligned t → aligned (s ++ t).
Proof. unfold aligned. intros H1 H2. rewrite length_app, Nat.Div0.add_mod, H1, H2. done. Qed.
Lemma aligned_token v : aligned (be_bytes 4 v).
Proof. unfold aligned. by rewrite length_be_bytes. Qed.
Definition padded (s : list Z) : list Z := s ++ replicate (padding (length s)) 0.
Lemma aligned_padded s : aligned (padded s).
Proof. unfold aligned, padded. rewrite length_app, length_replicate. apply padding_aligned. Qed.
Lemma length_padded s : length (padded s) = align4 (length s).
Proof. unfold padded, align4. by rewrite length_app, length_replicate. Qed.

Lemma padStruct_emit s b :
  aligned (structBuf b) → padStruct (emit s b) = emit (padded s) b.
Proof.
  intros Hb. unfold padStruct, emit, padded. cbn [structBuf update eta_builder].
  rewrite length_app, padding_add by done. by rewrite app_assoc.
Qed.
Lemma emit_emit s t b : emit t (emit s b) = emit (s ++ t) b.
Proof. unfold emit. cbn. by rewrite app_assoc. Qed.

(** * Names *)

(** Every recorded offset points to its name, and recorded names are as many
    bytes as the block has. *)
Definition names_ok (b : builder) : Prop :=
  ∀ name off, stringsOff b !! name = Some off →
    ∃ pre post, strings b = pre ++ name ++ 0 :: post ∧ off = len pre.
Lemma stringOffset_spec name b :
  names_ok b → len (strings b) < 2^32 →
  let '(b', off) := stringOffset name b in
  names_ok b' ∧ structBuf b' = structBuf b ∧ strings b `prefix_of` strings b' ∧
  ∃ pre post, strings b' = pre ++ name ++ 0 :: post ∧ off = len pre.
Proof.
  intros Hok Hlen. unfold stringOffset. destruct (stringsOff b !! name) as [off|] eqn:E.
  { split_and!; [done|done|done|by apply Hok]. }
  rewrite u32_small by (unfold is_u; lia). cbn. split_and!; [|done|by eexists|].
  - intros name' off'. cbn. destruct (decide (name = name')) as [<-|Hne].
    + rewrite lookup_insert_eq. intros [= <-]. exists (strings b), []. split; [done|done].
    + rewrite lookup_insert_ne by done. intros Hl. destruct (Hok _ _ Hl) as (pre & post & Hs & Ho).
      exists pre, (post ++ name ++ [0]). rewrite Hs, <-!app_assoc. done.
  - exists (strings b), []. done.
Qed.

(** * What a call appends *)

(** [appends b b' parse]: the call went from [b] to [b'] and appended aligned
    bytes for which [parse] holds with every final strings block. *)
Definition appends (b b' : builder) (parses : list Z → list Z → Prop) : Prop :=
  names_ok b' ∧ aligned (structBuf b') ∧ strings b `prefix_of` strings b' ∧
  ∃ bytes, structBuf b' = structBuf b ++ bytes ∧
    ∀ strs, strings b' `prefix_of` strs → len strs < 2^32 → parses strs bytes.

(** The bytes are items that the reader adds to what it has. *)
Definition items (ps : list (list Z * list Z)) (cs : list tree) (strs bytes : list Z) : Prop :=
  ∀ fuel rest props children,
    (length bytes + length rest ≤ fuel)%nat →
    ∃ fuel', (length rest ≤ fuel')%nat ∧
      parse_items fuel strs (bytes ++ rest) props children = parse_items fuel' strs rest (props ++ ps) (children ++ cs).

Lemma items_nil strs : items [] [] strs [].
Proof. intros fuel rest props children Hf. exists fuel. rewrite !app_nil_r. split; [cbn in Hf; lia|done]. Qed.
Lemma items_app ps ps' cs cs' strs x y :
  items ps cs strs x → items ps' cs' strs y → items (ps ++ ps') (cs ++ cs') strs (x ++ y).
Proof.
  intros Hx Hy fuel rest props children Hf. rewrite <-app_assoc.
  destruct (Hx fuel (y ++ rest) props children) as (f1 & Hf1 & ->); [rewrite !length_app in *; lia|].
  destruct (Hy f1 rest (props ++ ps) (children ++ cs)) as (f2 & Hf2 & ->); [rewrite length_app in Hf1; lia|].
  exists f2. rewrite <-!app_assoc. done.
Qed.

(** A property. *)
Lemma item_property name value strs off pre post :
  no_zero name → strs = pre ++ name ++ 0 :: post → off = len pre → len strs < 2^32 → len value < 2^32 →
  items [(name, value)] [] strs (be_bytes 4 propToken ++ be_bytes 4 (len value) ++ be_bytes 4 off ++ padded value).
Proof.
  intros Hname Hstrs -> Hlen Hv fuel rest props children Hf.
  rewrite !length_app, !length_be_bytes in Hf. destruct fuel as [|fuel]; [lia|].
  exists fuel. split; [lia|]. cbn [parse_items]. rewrite <-!app_assoc.
  rewrite get32_app by done. cbn [mbind option_bind].
  change (propToken =? endNodeToken) with false. change (propToken =? propToken) with true. cbn iota.
  rewrite get32_app by (unfold is_u; lia). cbn [mbind option_bind].
  assert (length pre ≤ length strs)%nat by (rewrite Hstrs, length_app; lia).
  rewrite get32_app by (unfold is_u; lia). cbn [mbind option_bind]. rewrite !Nat2Z.id.
  rewrite Hstrs at 1. rewrite drop_app_length, cstr_app by done. cbn [mbind option_bind].
  unfold padded. rewrite <-app_assoc, length_app. destruct (Nat.leb_spec (length value) (length value + length (replicate (padding (length value)) 0 ++ rest))); [|lia].
  rewrite take_app_length, app_nil_r. f_equal.
  rewrite app_assoc. fold (padded value). rewrite <-(length_padded value). by rewrite drop_app_length.
Qed.

(** A node between its tokens. *)
Lemma item_node name ps cs strs x :
  no_zero name → items ps cs strs x →
  items [] [Tree name ps cs] strs
    (be_bytes 4 beginNodeToken ++ padded (name ++ [0]) ++ x ++ be_bytes 4 endNodeToken).
Proof.
  intros Hname Hx fuel rest props children Hf.
  rewrite !length_app, !length_be_bytes in Hf. destruct fuel as [|fuel]; [lia|].
  exists fuel. split; [lia|]. cbn [parse_items]. rewrite <-!app_assoc.
  rewrite get32_app by done. cbn [mbind option_bind].
  change (beginNodeToken =? endNodeToken) with false. change (beginNodeToken =? propToken) with false.
  change (beginNodeToken =? beginNodeToken) with true. cbn iota.
  assert (padded (name ++ [0]) ++ x ++ be_bytes 4 endNodeToken ++ rest =
    name ++ 0 :: (replicate (padding (length (name ++ [0]))) 0 ++ x ++ be_bytes 4 endNodeToken ++ rest)) as Hs
    by (unfold padded; by rewrite <-!app_assoc).
  rewrite Hs at 1. rewrite cstr_app by done. cbn [mbind option_bind].
  replace (align4 (S (length name))) with (length (padded (name ++ [0])))
    by (rewrite length_padded, length_app; cbn [length]; f_equal; lia).
  rewrite drop_app_length.
  destruct (Hx fuel (be_bytes 4 endNodeToken ++ rest) [] []) as (f1 & Hf1 & ->);
    [rewrite length_app, length_be_bytes; lia|].
  rewrite length_app, length_be_bytes in Hf1. destruct f1 as [|f1]; [lia|]. cbn [parse_items].
  rewrite get32_app by done. cbn [mbind option_bind]. change (endNodeToken =? endNodeToken) with true. cbn iota.
  by rewrite app_nil_r.
Qed.

(** * Emitting *)

Lemma stringOffset_mono name b : strings b `prefix_of` strings (stringOffset name b).1.
Proof. unfold stringOffset. destruct (stringsOff b !! name); [done|]. cbn. by eexists. Qed.
Lemma property_mono name value b : strings b `prefix_of` strings (property name value b).
Proof.
  unfold property. set (b1 := emit _ _). change (strings b) with (strings b1).
  pose proof (stringOffset_mono name b1) as H. by destruct (stringOffset name b1).
Qed.
Lemma emitProperties_mono ps b : strings b `prefix_of` strings (emitProperties ps b).1.
Proof.
  revert b. induction ps as [|[name p] ps IH]; intros b; [done|]. cbn [emitProperties]. unfold emitProperty.
  destruct (DefinedCount p =? 0); [done|]. destruct (DefinedCount p >? 1); [done|].
  destruct (property_data p) as [data|]; [|done]. etrans; [apply property_mono|apply IH].
Qed.

Definition valid_property (p : list Z * Property) : Prop :=
  no_zero p.1 ∧ DefinedCount p.2 = 1 ∧ len (default [] (property_data p.2)) < 2^32.
Lemma valid_data p : DefinedCount p = 1 → ∃ data, property_data p = Some data.
Proof.
  unfold DefinedCount, property_data, Kind. destruct (_ >? 0); [eauto|]. destruct (_ >? 0); [eauto|].
  destruct (_ >? 0); [eauto|]. destruct (_ >? 0); [eauto|]. destruct (Flag p); [eauto|done].
Qed.

Lemma property_appends name value b :
  names_ok b → aligned (structBuf b) → no_zero name → len value < 2^32 →
  len (strings (property name value b)) < 2^32 →
  appends b (property name value b) (items [(name, value)] []).
Proof.
  intros Hok Hal Hname Hv Hlen. unfold property in *. set (b1 := emit _ _) in *.
  assert (structBuf b1 = structBuf b ++ be_bytes 4 propToken ++ be_bytes 4 (len value)) as Hs1.
  { unfold b1, writeToken. rewrite emit_emit. cbn. rewrite u32_small by (unfold is_u; lia). done. }
  assert (aligned (structBuf b1)) as Hal1 by (rewrite Hs1; auto using aligned_app, aligned_token).
  pose proof (stringOffset_mono name b1) as Hmono.
  assert (len (strings b1) < 2^32) as Hlen1.
  { destruct (stringOffset name b1) as [b2 off]. cbn in *. apply prefix_length in Hmono. lia. }
  pose proof (stringOffset_spec name b1 Hok Hlen1) as Hspec.
  destruct (stringOffset name b1) as [b2 off]. destruct Hspec as (Hok2 & Hs2 & Hp2 & pre & post & Hstr & Hoff).
  assert (aligned (structBuf (emit (be_bytes 4 off) b2))) as Hal2.
  { unfold emit. cbn [structBuf update eta_builder]. rewrite Hs2. apply aligned_app; [done|apply aligned_token]. }
  rewrite padStruct_emit, emit_emit by done. rewrite padStruct_emit, emit_emit in Hlen by done. split_and!.
  - exact Hok2.
  - unfold emit. cbn [structBuf update eta_builder]. rewrite Hs2. auto using aligned_app, aligned_token, aligned_padded.
  - exact Hp2.
  - eexists. split; [unfold emit; cbn [structBuf update eta_builder]; rewrite Hs2, Hs1, <-!app_assoc; reflexivity|].
    intros strs [k ->] Hk. cbn [strings emit update eta_builder] in *.
    apply (item_property _ _ _ _ pre (post ++ k)); [done| |done|done|done].
    rewrite Hstr, <-!app_assoc. done.
Qed.

Lemma appends_trans b b1 b2 ps ps' cs cs' :
  appends b b1 (items ps cs) → appends b1 b2 (items ps' cs') → appends b b2 (items (ps ++ ps') (cs ++ cs')).
Proof.
  intros (_ & _ & Hp1 & x & Hx & Hparse1) (Hok2 & Hal2 & Hp2 & y & Hy & Hparse2).
  split_and!; [done|done|by etrans|]. exists (x ++ y). split; [by rewrite Hy, Hx, app_assoc|].
  intros strs Hstrs Hlen. apply items_app; [apply Hparse1; [by etrans|done]|by apply Hparse2].
Qed.

Lemma emitProperties_appends ps b b' e :
  names_ok b → aligned (structBuf b) → Forall valid_property ps → emitProperties ps b = (b', e) →
  len (strings b') < 2^32 → e = None ∧ appends b b' (items (prop_value <$> ps) []).
Proof.
  revert b. induction ps as [|[name p] ps IH]; intros b Hok Hal Hv E Hlen.
  { cbn in E. simplify_eq. split; [done|]. split_and!; [done|done|done|]. exists []. rewrite app_nil_r.
    split; [done|]. intros. apply items_nil. }
  apply Forall_cons in Hv as [(Hname & Hcount & Hdata) Hv]. cbn in Hname, Hcount, Hdata.
  cbn [emitProperties] in E. unfold emitProperty in E.
  destruct (valid_data p Hcount) as [data Hd]. rewrite Hd in E, Hdata. rewrite Hcount in E.
  change (1 =? 0) with false in E. change (1 >? 1) with false in E. cbn iota in E. cbn in Hdata.
  pose proof (emitProperties_mono ps (property name data b)) as Hmono. rewrite E in Hmono. cbn in Hmono.
  apply prefix_length in Hmono as Hmono'.
  assert (appends b (property name data b) (items [(name, data)] [])) as Ha by (apply property_appends; [done..|lia]).
  pose proof Ha as (Hok1 & Hal1 & _). destruct (IH _ Hok1 Hal1 Hv E Hlen) as [-> Ha'].
  split; [done|]. pose proof (appends_trans _ _ _ _ _ _ _ Ha Ha') as Ht.
  change (prop_value <$> (name, p) :: ps) with (prop_value (name, p) :: (prop_value <$> ps)).
  replace (prop_value (name, p)) with (name, data) by (unfold prop_value; cbn; by rewrite Hd). exact Ht.
Qed.

Definition emitChildren : list Node → builder → builder * option string :=
  fix emitChildren cs b :=
    match cs with
    | [] => (b, None)
    | c :: cs => match emitNode c b with (b, None) => emitChildren cs b | res => res end
    end.
Lemma emitNode_eq name ps cs b :
  emitNode (mkNode name ps cs) b =
    match emitProperties (sorted_properties ps) (beginNode name b) with
    | (b, Some e) => (b, Some e)
    | (b, None) => match emitChildren cs b with (b, Some e) => (b, Some e) | (b, None) => (endNode b, None) end
    end.
Proof. done. Qed.

(** Names without zeros and properties of one kind. *)
Inductive valid : Node → Prop :=
  | valid_node name ps cs : no_zero name → Forall valid_property ps → Forall valid cs → valid (mkNode name ps cs).
Fixpoint height (n : Node) : nat :=
  match n with mkNode _ _ cs => S (foldr (λ c h, max (height c) h) 0%nat cs) end.

Lemma emitChildren_mono cs b :
  (∀ c b, c ∈ cs → strings b `prefix_of` strings (emitNode c b).1) →
  strings b `prefix_of` strings (emitChildren cs b).1.
Proof.
  revert b. induction cs as [|c cs IH]; intros b Hc; [done|]. cbn [emitChildren].
  pose proof (Hc c b ltac:(apply list_elem_of_here)) as H1. destruct (emitNode c b) as [b1 [e|]]; [done|]. cbn in H1.
  etrans; [done|]. apply IH. intros c' b' Hc'. apply Hc. by apply list_elem_of_further.
Qed.
Lemma height_child c cs : c ∈ cs → (height c ≤ foldr (λ c h, max (height c) h) 0%nat cs)%nat.
Proof. induction 1; cbn; lia. Qed.
Lemma emitNode_mono n b : strings b `prefix_of` strings (emitNode n b).1.
Proof.
  remember (height n) as h eqn:Hh. assert (height n ≤ h)%nat as Hle by lia. clear Hh. revert n b Hle.
  induction h as [|h IH]; intros [name ps cs] b Hle; cbn [height] in Hle; [lia|]. rewrite emitNode_eq.
  pose proof (emitProperties_mono (sorted_properties ps) (beginNode name b)) as H1.
  destruct (emitProperties _ _) as [b1 [e|]]; [done|]. cbn in H1.
  pose proof (emitChildren_mono cs b1) as H2. destruct (emitChildren cs b1) as [b2 [e|]]; cbn in *.
  - etrans; [done|]. apply H2. intros c b' Hc. apply IH. apply height_child in Hc. lia.
  - etrans; [done|]. apply H2. intros c b' Hc. apply IH. apply height_child in Hc. lia.
Qed.

(** What a node appends: its tokens, its name and the items between them. *)
Definition is_node (n : Node) (strs bytes : list Z) : Prop :=
  let '(mkNode name ps cs) := n in
  no_zero name ∧ ∃ x, items (prop_value <$> sorted_properties ps) (map tree_of cs) strs x ∧
    bytes = be_bytes 4 beginNodeToken ++ padded (name ++ [0]) ++ x ++ be_bytes 4 endNodeToken.
Lemma is_node_items n strs bytes : is_node n strs bytes → items [] [tree_of n] strs bytes.
Proof. destruct n as [name ps cs]. intros (Hname & x & Hx & ->). by apply item_node. Qed.
Lemma appends_weaken b b' (P Q : list Z → list Z → Prop) :
  (∀ strs bytes, P strs bytes → Q strs bytes) → appends b b' P → appends b b' Q.
Proof. intros HPQ (Hok & Hal & Hp & x & Hx & HP). split_and!; [done..|]. exists x. auto. Qed.
Definition node_appends (n : Node) : Prop :=
  ∀ b b' e, names_ok b → aligned (structBuf b) → emitNode n b = (b', e) → len (strings b') < 2^32 →
    e = None ∧ appends b b' (is_node n).
Lemma emitChildren_appends cs b b' e :
  Forall node_appends cs → names_ok b → aligned (structBuf b) → emitChildren cs b = (b', e) →
  len (strings b') < 2^32 → e = None ∧ appends b b' (items [] (map tree_of cs)).
Proof.
  intros Hcs. revert b. induction Hcs as [|c cs Hc Hcs IH]; intros b Hok Hal E Hlen; cbn [emitChildren] in E.
  { simplify_eq. split; [done|]. split_and!; [done|done|done|]. exists []. rewrite app_nil_r.
    split; [done|]. intros. apply items_nil. }
  destruct (emitNode c b) as [b1 e1] eqn:E1.
  assert (strings b1 `prefix_of` strings b') as Hmono.
  { destruct e1; [by simplify_eq|]. pose proof (emitChildren_mono cs b1 (λ c b _, emitNode_mono c b)) as H. by rewrite E in H. }
  apply prefix_length in Hmono. destruct (Hc b b1 e1 Hok Hal E1 ltac:(lia)) as [-> Ha].
  apply (appends_weaken _ _ _ _ (is_node_items c)) in Ha.
  pose proof Ha as (Hok1 & Hal1 & _). destruct (IH b1 Hok1 Hal1 E Hlen) as [-> Ha'].
  split; [done|]. exact (appends_trans _ _ _ _ _ _ _ Ha Ha').
Qed.

Lemma emitNode_appends n : valid n → node_appends n.
Proof.
  remember (height n) as h eqn:Hh. assert (height n ≤ h)%nat as Hle by lia. clear Hh. revert n Hle.
  induction h as [|h IH]; intros n Hle Hv; [destruct n; cbn in Hle; lia|].
  destruct Hv as [name ps cs Hname Hps Hcs]. cbn [height] in Hle. intros b b' e Hok Hal E Hlen.
  rewrite emitNode_eq in E. set (b0 := beginNode name b) in *.
  assert (b0 = emit (be_bytes 4 beginNodeToken ++ padded (name ++ [0])) b) as Hb0.
  { unfold b0, beginNode, writeToken. rewrite padStruct_emit, emit_emit; [done|]. unfold emit.
    cbn [structBuf update eta_builder]. auto using aligned_app, aligned_token. }
  assert (aligned (structBuf b0)) as Hal0.
  { rewrite Hb0. unfold emit. cbn [structBuf update eta_builder]. auto using aligned_app, aligned_token, aligned_padded. }
  assert (names_ok b0) as Hok0 by (rewrite Hb0; exact Hok).
  destruct (emitProperties _ b0) as [b1 e1] eqn:E1.
  assert (∃ b2, (∃ e2, emitChildren cs b1 = (b2, e2)) ∧ strings b1 `prefix_of` strings b2) as (b2 & [e2 E2] & Hmono).
  { pose proof (emitChildren_mono cs b1 (λ c b _, emitNode_mono c b)) as H.
    destruct (emitChildren cs b1) as [b2 e2]. exists b2. split; [by exists e2|done]. }
  rewrite E2 in E. assert (Forall valid_property (sorted_properties ps)) as Hsorted.
  { unfold sorted_properties. by rewrite merge_sort_Permutation. }
  apply prefix_length in Hmono.
  assert (len (strings b1) < 2^32) as Hlen1 by (destruct e1, e2; simplify_eq; cbn in *; lia).
  destruct (emitProperties_appends _ _ _ _ Hok0 Hal0 Hsorted E1 Hlen1) as [-> Ha1]. pose proof Ha1 as (Hok1 & Hal1 & _).
  assert (len (strings b2) < 2^32) as Hlen2 by (destruct e2; simplify_eq; cbn in *; lia).
  assert (Forall node_appends cs) as Hrec.
  { apply Forall_forall. intros c Hc. apply IH; [apply height_child in Hc; lia|]. by eapply Forall_forall in Hcs. }
  destruct (emitChildren_appends _ _ _ _ Hrec Hok1 Hal1 E2 Hlen2) as [-> Ha2]. simplify_eq. split; [done|].
  destruct (appends_trans _ _ _ _ _ _ _ Ha1 Ha2) as (Hok2 & Hal2 & Hp & x & Hx & Hparse).
  split_and!; [done|unfold endNode, writeToken, emit; cbn [structBuf update eta_builder]; auto using aligned_app, aligned_token|by rewrite Hb0 in Hp|].
  eexists. split; [unfold endNode, writeToken, emit; cbn [structBuf update eta_builder]; rewrite Hx, Hb0; unfold emit;
    cbn [structBuf update eta_builder]; rewrite <-!app_assoc; reflexivity|].
  intros strs Hstrs Hk. specialize (Hparse strs Hstrs Hk). rewrite app_nil_r in Hparse.
  split; [done|]. by exists x.
Qed.

(** * The blob *)

Lemma parse_struct_node n strs bytes rest :
  is_node n strs bytes → parse_struct strs (bytes ++ be_bytes 4 endToken ++ rest) = Some (tree_of n).
Proof.
  destruct n as [name ps cs]. intros (Hname & x & Hx & ->). unfold parse_struct. rewrite <-!app_assoc.
  rewrite get32_app by done. cbn [mbind option_bind]. change (beginNodeToken =? beginNodeToken) with true. cbn iota.
  set (more := be_bytes 4 endToken ++ rest).
  assert (padded (name ++ [0]) ++ x ++ be_bytes 4 endNodeToken ++ more =
    name ++ 0 :: (replicate (padding (length (name ++ [0]))) 0 ++ x ++ be_bytes 4 endNodeToken ++ more)) as Hs
    by (unfold padded; by rewrite <-!app_assoc).
  rewrite Hs at 1. rewrite cstr_app by done. cbn [mbind option_bind].
  replace (align4 (S (length name))) with (length (padded (name ++ [0])))
    by (rewrite length_padded, length_app; cbn [length]; f_equal; lia).
  rewrite drop_app_length. set (total := length (padded (name ++ [0]) ++ _)).
  destruct (Hx total (be_bytes 4 endNodeToken ++ more) [] []) as (f1 & Hf1 & ->);
    [unfold total; rewrite !length_app; lia|].
  rewrite length_app, length_be_bytes in Hf1. destruct f1 as [|f1]; [lia|]. cbn [parse_items].
  rewrite get32_app by done. cbn [mbind option_bind]. change (endNodeToken =? endNodeToken) with true. cbn iota.
  cbn [mbind option_bind]. unfold more. rewrite get32_app by done. cbn [mbind option_bind].
  by change (endToken =? endToken) with true.
Qed.

Lemma sub_app_skip x y i n : length x = i → sub (x ++ y) i n = take n y.
Proof. intros <-. unfold sub. by rewrite drop_app_length. Qed.
Lemma field_at (fs : list Z) i rest v :
  fs !! i = Some v → is_u32 v →
  header_field (concat (map (λ v, be_bytes 4 (u32 v)) fs) ++ rest) i = v.
Proof.
  intros Hv Hu. unfold header_field. apply list_elem_of_split_length in Hv as (pre & post & -> & ->).
  rewrite map_app, concat_app, <-app_assoc. rewrite sub_app_skip.
  - cbn [map concat]. rewrite <-app_assoc, take_app_le, take_ge by (rewrite length_be_bytes; lia).
    rewrite u32_small, be_val_bytes by done. apply Z.mod_small. exact Hu.
  - induction pre as [|a pre IH]; [done|]. cbn [map concat length]. rewrite length_app, length_be_bytes, IH. lia.
Qed.

(** The header leads to both blocks. *)
Definition finished (b : builder) : list Z := structBuf (padStruct (writeToken endToken b)).
Lemma parse_finish b :
  len (finish b) < 2^32 → parse_blob (finish b) = parse_struct (strings b) (finished b).
Proof.
  unfold finished. set (s := structBuf _). set (t := strings b).
  assert (finish b = concat (map (λ v, be_bytes 4 (u32 v))
    [magic; 56 + len s + len t; 56; 56 + len s; 40; version; lastCompVer; 0; len t; len s]) ++ replicate 16 0 ++ s ++ t) as ->.
  { unfold finish. cbn [map concat]. rewrite !app_nil_r, <-!app_assoc. done. }
  set (fs := [_; _; _; _; _; _; _; _; _; _]).
  assert (length (concat (map (λ v, be_bytes 4 (u32 v)) fs)) = 40%nat) as Hhdr by done.
  set (hdr := concat _) in *. intros Hlen.
  assert (len (hdr ++ replicate 16 0 ++ s ++ t) = 56 + len s + len t) as Htotal
    by (rewrite !length_app, Hhdr, length_replicate; lia).
  unfold parse_blob, hdr. cbv zeta.
  pose proof (field_at fs 0 (replicate 16 0 ++ s ++ t) magic eq_refl ltac:(done)) as F0.
  pose proof (field_at fs 1 (replicate 16 0 ++ s ++ t) (56 + len s + len t) eq_refl ltac:(unfold is_u; lia)) as F1.
  pose proof (field_at fs 2 (replicate 16 0 ++ s ++ t) 56 eq_refl ltac:(done)) as F2.
  pose proof (field_at fs 3 (replicate 16 0 ++ s ++ t) (56 + len s) eq_refl ltac:(unfold is_u; lia)) as F3.
  pose proof (field_at fs 5 (replicate 16 0 ++ s ++ t) version eq_refl ltac:(done)) as F5.
  pose proof (field_at fs 8 (replicate 16 0 ++ s ++ t) (len t) eq_refl ltac:(unfold is_u; lia)) as F8.
  pose proof (field_at fs 9 (replicate 16 0 ++ s ++ t) (len s) eq_refl ltac:(unfold is_u; lia)) as F9.
  rewrite F0, F1, F2, F3, F5, F8, F9.
  fold hdr. rewrite Htotal, !Z.eqb_refl. cbn [andb].
  replace (sub _ _ (Z.to_nat (len t))) with t; [replace (sub _ _ (Z.to_nat (len s))) with s; [done|]|].
  - rewrite app_assoc, sub_app_skip by (rewrite length_app, Hhdr, length_replicate; lia).
    rewrite Nat2Z.id. by rewrite take_app_length.
  - rewrite (app_assoc hdr), (app_assoc _ s t), sub_app_skip by (rewrite !length_app, Hhdr, length_replicate; lia).
    rewrite Nat2Z.id. by rewrite take_ge.
Qed.

(** C37: A tree whose names have no zero byte, whose properties have one kind of
    value each, and whose blob is under four gigabytes: [Build] succeeds, and
    the blob, read by the format's rules, is that tree with each node's
    properties in the order of their names. *)
Theorem build_roundtrip root :
  valid root → len (finish (emitNode root (mkBuilder [] [] ∅)).1) < 2^32 →
  ∃ blob, Build root = inl blob ∧ parse_blob blob = Some (tree_of root).
Proof.
  intros Hv Hlen. unfold Build. destruct (emitNode root _) as [b e] eqn:E. cbn [fst] in Hlen.
  assert (len (strings b) < 2^32) as Hstr.
  { unfold finish in Hlen. cbn [strings writeToken padStruct emit update eta_builder] in Hlen.
    rewrite !length_app in Hlen. lia. }
  destruct (emitNode_appends root Hv (mkBuilder [] [] ∅) b e) as [-> (_ & Hal & _ & x & Hx & Hnode)]; [done|done|done|done|].
  eexists. split; [done|]. rewrite parse_finish by done. unfold finished.
  unfold writeToken. rewrite padStruct_emit by done.
  unfold emit. cbn [structBuf update eta_builder]. rewrite Hx. cbn [structBuf app].
  unfold padded. rewrite (parse_struct_node root) by (by apply Hnode). done.
Qed.

Definition sample_tree : Node :=
  mkNode [] [([109], mkProperty [[97; 98]] [] [] [] false); ([35], mkProperty [] [2] [] [] false)]
    [mkNode [99; 112; 117] [([35], mkProperty [] [] [0x40000000; 1] [] false); ([100], mkProperty [] [] [] [] true)] []].
Lemma build_roundtrip_witness : ∃ blob, Build sample_tree = inl blob ∧ parse_blob blob = Some (tree_of sample_tree).
Proof.
  apply (build_roundtrip sample_tree); [|vm_compute; reflexivity].
  assert (∀ name p, bool_decide (no_zero name) && (DefinedCount p =? 1) && (len (default [] (property_data p)) <? 2^32) = true →
    valid_property (name, p)) as Hp.
  { intros name p [[H1 H2]%andb_true_iff H3]%andb_true_iff. split_and!; cbn [fst snd];
      [by apply bool_decide_eq_true in H1|by apply Z.eqb_eq|by apply Z.ltb_lt]. }
  apply valid_node; [apply Forall_nil_2| |].
  { repeat (apply Forall_cons_2; [apply Hp; vm_compute; reflexivity|]). apply Forall_nil_2. }
  apply Forall_cons_2; [|apply Forall_nil_2]. apply valid_node; [by repeat (apply Forall_cons_2; [done|]); apply Forall_nil_2| |apply Forall_nil_2].
  repeat (apply Forall_cons_2; [apply Hp; vm_compute; reflexivity|]). apply Forall_nil_2.
Defined.

(** * Errors *)

Fixpoint single_kinds (n : Node) : bool :=
  match n with mkNode _ ps cs => forallb (λ p, DefinedCount p.2 =? 1) ps && forallb single_kinds cs end.

Lemma DefinedCount_nonneg p : 0 ≤ DefinedCount p.
Proof. unfold DefinedCount. do 4 (destruct (_ >? 0)); destruct (Flag p); cbn; lia. Qed.
Lemma emitProperty_none name p b : (emitProperty name p b).2 = None ↔ DefinedCount p = 1.
Proof.
  unfold emitProperty. pose proof (DefinedCount_nonneg p).
  destruct (Z.eqb_spec (DefinedCount p) 0); [split; [done|lia]|].
  rewrite Z.gtb_ltb. destruct (Z.ltb_spec 1 (DefinedCount p)); [split; [done|lia]|].
  destruct (valid_data p ltac:(lia)) as [data ->]. split; [lia|done].
Qed.
Lemma emitProperties_none ps b : (emitProperties ps b).2 = None ↔ Forall (λ p, DefinedCount p.2 = 1) ps.
Proof.
  revert b. induction ps as [|[name p] ps IH]; intros b; [by split|]. cbn [emitProperties]. rewrite Forall_cons.
  cbn [snd]. rewrite <-(emitProperty_none name p b). destruct (emitProperty name p b) as [b1 [e|]]; cbn [snd].
  - split; [done|by intros [? _]].
  - rewrite IH. tauto.
Qed.
Lemma emitNode_none n b : (emitNode n b).2 = None ↔ single_kinds n = true.
Proof.
  remember (height n) as h eqn:Hh. assert (height n ≤ h)%nat as Hle by lia. clear Hh. revert n b Hle.
  induction h as [|h IH]; intros [name ps cs] b Hle; cbn [height] in Hle; [lia|].
  assert (∀ b, (emitChildren cs b).2 = None ↔ forallb single_kinds cs = true) as Hcs.
  { assert (∀ c, c ∈ cs → ∀ b, (emitNode c b).2 = None ↔ single_kinds c = true) as Hc
      by (intros c Hin b'; apply IH; apply height_child in Hin; lia).
    clear -Hc. induction cs as [|c cs IHcs]; intros b; [done|]. cbn [emitChildren forallb]. rewrite andb_true_iff.
    rewrite <-(Hc c ltac:(apply list_elem_of_here) b). destruct (emitNode c b) as [b1 [e|]]; cbn [snd].
    - split; [done|by intros [? _]].
    - rewrite IHcs; [tauto|]. intros c' Hc'. apply Hc. by apply list_elem_of_further. }
  rewrite emitNode_eq. cbn [single_kinds]. rewrite andb_true_iff.
  assert (forallb (λ p, DefinedCount p.2 =? 1) ps = true ↔ (emitProperties (sorted_properties ps) (beginNode name b)).2 = None) as ->.
  { rewrite emitProperties_none. unfold sorted_properties. rewrite merge_sort_Permutation, forallb_forall, Forall_forall.
    setoid_rewrite Z.eqb_eq. setoid_rewrite list_elem_of_In. done. }
  destruct (emitProperties _ _) as [b1 [e|]]; cbn [snd]; [split; [done|by intros [? _]]|].
  rewrite <-(Hcs b1). destruct (emitChildren cs b1) as [b2 [e|]]; cbn [snd]; [|tauto]. split; [done|by intros [_ ?]].
Qed.

(** [Build] fails exactly when some property of the tree has no value or
    values of two kinds. *)
Theorem build_error_iff root : (∃ e, Build root = inr e) ↔ single_kinds root = false.
Proof.
  pose proof (emitNode_none root (mkBuilder [] [] ∅)) as H. unfold Build. destruct (emitNode root _) as [b [e|]]; cbn [snd] in H.
  - split; [intros _|by exists e]. destruct (single_kinds root); [|done]. destruct H as [_ H]. by specialize (H eq_refl).
  - split; [by intros [e ?]|]. rewrite (proj1 H eq_refl). done.
Qed.
