(* ===== verification/NvmePrp.v ===== *)
(** Data transfers of the NVMe controller: src/internal/nvme/controller.go,
    transferPRP and the functions around it.

    A command names its buffer by two physical region page entries: the first
    page, and the second page or the address of a list of further pages; the
    last entry of a full list page leads to the next one.  The code walks the
    lists with a callback and merges neighbouring pages into one access.

    [prp_segments] gives the segments the entries describe, [scatter] and
    [gather] access them one by one.  The theorems: a transfer accesses exactly
    these segments in order, and the check for a contiguous buffer accepts
    only buffers whose segments follow each other. *)
From S2P Require Import Prelude GuestMemory GuestViews.

(** The state of a transfer: the caller's buffer, guest memory, and the
    variables that [transferPRP] shares with its closures. *)
Record xfer (T : Type) := mkXfer {
  data : list Z;
  xmem : T;
  off : Z;
  runAddr : Z;
  runOff : Z;
  runLen : Z;
}.
Arguments mkXfer {T}.
Arguments data {T}.
Arguments xmem {T}.
Arguments off {T}.
Arguments runAddr {T}.
Arguments runOff {T}.
Arguments runLen {T}.
#[export] Instance eta_xfer {T} : Eta (xfer T) := λ x,
  mkXfer (data x) (xmem x) (off x) (runAddr x) (runOff x) (runLen x).

Section prp.
Context {T : Type} `{!GuestMemory T, !GuestViews T}.
(** [c.pageSz]. *)
Variable pageSz : Z.

Definition page : Z := if pageSz =? 0 then 4096 else pageSz.

Definition readBytes (m : T) (addr n : Z) : result (list Z) :=
  if reader_into then ReadIPAInto m addr n else ReadIPA m addr n.

(** [binary.LittleEndian.Uint64(list[i*8 : i*8+8])]. *)
Definition entry (l : list Z) (i : nat) : Z := le_val (sub l (i * 8) 8).

Section walk.
Context {S : Type} (memOf : S → T) (fn : Z → Z → M S unit).

Fixpoint walk_entries (l : list Z) (i usable : nat) (remaining : Z) : M S Z :=
  match usable with
  | O => mret remaining
  | Datatypes.S usable =>
    let chunk := if page >? remaining then remaining else page in
    fn (entry l i) chunk ;;;
    walk_entries l (Datatypes.S i) usable (remaining - chunk)
  end.

(** The bound is the number of entries; each list page has at least one. *)
Fixpoint walk_lists (fuel : nat) (listAddr remaining entriesRemaining : Z) : M S unit :=
  match fuel with
  | O => mret tt
  | Datatypes.S fuel =>
    l ← (λ s, (s, readBytes (memOf s) listAddr page));
    let entriesPerList := page / 8 in
    let hasNextList := entriesRemaining >? entriesPerList in
    let usable := if hasNextList then entriesPerList - 1 else entriesRemaining in
    remaining ← walk_entries l 0 (Z.to_nat usable) remaining;
    if negb hasNextList then mret tt
    else
      let listAddr := entry l (Z.to_nat (entriesPerList - 1)) in
      if listAddr =? 0 then fail "nvme chained PRP list address is zero"
      else walk_lists fuel listAddr remaining (entriesRemaining - usable)
  end.

Definition walkPRPListLocked (listAddr remaining : Z) : M S unit :=
  if remaining <=? 0 then mret tt
  else if listAddr =? 0 then fail "nvme PRP list address is zero"
  else if page / 8 <? 2 then fail "nvme page size too small for PRP list"
  else
    let entriesRemaining := (remaining + page - 1) / page in
    walk_lists (Z.to_nat entriesRemaining) listAddr remaining entriesRemaining.
End walk.

(** [transferPage(addr, data[o:o+n], write)]. *)
Definition transferPage (write : bool) (addr o n : Z) : M (xfer T) unit := λ x,
  if addr =? 0 then (x, Err "nvme PRP address is zero")
  else if write then
    let '(m, r) := WriteIPA (xmem x) addr (sub (data x) (Z.to_nat o) (Z.to_nat n)) in
    (x <| xmem := m |>, r)
  else
    match readBytes (xmem x) addr n with
    | Ok raw => (x <| data := overwrite (data x) (Z.to_nat o) raw |>, Ok tt)
    | Err e => (x, Err e)
    | Panic => (x, Panic)
    end.

Definition flushRun (write : bool) : M (xfer T) unit := λ x,
  if runLen x =? 0 then (x, Ok tt)
  else (transferPage write (runAddr x) (runOff x) (runLen x) ;;; modify (λ x, x <| runLen := 0 |>)) x.

Definition startRun (addr chunk : Z) : M (xfer T) unit :=
  modify (λ x, x <| runAddr := addr |> <| runOff := off x |> <| runLen := chunk |>).

(** The callback of [transferPRP]. *)
Definition add_chunk (write : bool) (addr chunk : Z) : M (xfer T) unit :=
  x ← gets id;
  (if runLen x =? 0 then startRun addr chunk
   else if addr =? u64 (runAddr x + runLen x) then modify (λ x, x <| runLen := runLen x + chunk |>)
   else flushRun write ;;; startRun addr chunk) ;;;
  modify (λ x, x <| off := off x + chunk |>).

Definition transfer_body (write : bool) (prp1 prp2 total : Z) : M (xfer T) unit :=
  if total =? 0 then mret tt
  else if prp1 =? 0 then fail "nvme command missing PRP1"
  else
    let n := page - prp1 mod page in
    let n := if n >? total then total else n in
    transferPage write prp1 0 n ;;;
    modify (λ x, x <| off := n |>) ;;;
    if n >=? total then mret tt
    else
      let remaining := total - n in
      if remaining <=? page then transferPage write prp2 n remaining
      else walkPRPListLocked xmem (add_chunk write) prp2 remaining ;;; flushRun write.

(** The buffer is returned as it is after a transfer from the guest. *)
Definition transferPRP (write : bool) (m : T) (prp1 prp2 : Z) (d : list Z) : T * result (list Z) :=
  let '(x, r) := transfer_body write prp1 prp2 (len d) (mkXfer d m 0 0 0 0) in
  (xmem x, _ ← r; Ok (data x)).
Definition readPRP (m : T) (prp1 prp2 : Z) (d : list Z) : T * result (list Z) := transferPRP false m prp1 prp2 d.
Definition writePRP (m : T) (prp1 prp2 : Z) (d : list Z) : T * result (list Z) := transferPRP true m prp1 prp2 d.

(** The callback's state is the address expected next. *)
Definition check_chunk (addr chunk : Z) : M Z unit := λ expected,
  if negb (addr =? expected) then (expected, Err "nvme PRP is not contiguous")
  else (u64 (expected + page), Ok tt).
Definition prpIsContiguousLocked (m : T) (prp1 prp2 size : Z) : result bool :=
  let first := page - prp1 mod page in
  if first >=? size then Ok true
  else
    let remaining := size - first in
    let expected := u64 (prp1 + first) in
    if remaining <=? page then Ok (prp2 =? expected)
    else
      match (walkPRPListLocked (λ _, m) check_chunk prp2 remaining expected).2 with
      | Ok _ => Ok true
      | Err _ => Ok false
      | Panic => Panic
      end.

(** * The segments of a buffer *)

Fixpoint segs_of (l : list Z) (i usable : nat) (remaining : Z) : list (Z * Z) :=
  match usable with
  | O => []
  | S usable =>
    let chunk := Z.min page remaining in
    (entry l i, chunk) :: segs_of l (S i) usable (remaining - chunk)
  end.
(** The list pages that are read and the segments they describe. *)
Fixpoint list_pages (fuel : nat) (m : T) (listAddr remaining entries : Z) : result (list Z * list (Z * Z)) :=
  match fuel with
  | O => Ok ([], [])
  | S fuel =>
    l ← readBytes m listAddr page;
    let per := page / 8 in
    if entries <=? per then Ok ([listAddr], segs_of l 0 (Z.to_nat entries) remaining)
    else
      let next := entry l (Z.to_nat (per - 1)) in
      if next =? 0 then Err "no next list"
      else
        '(ls, segs) ← list_pages fuel m next (remaining - page * (per - 1)) (entries - (per - 1));
        Ok (listAddr :: ls, segs_of l 0 (Z.to_nat (per - 1)) remaining ++ segs)
  end.
Definition prp_segments (m : T) (prp1 prp2 total : Z) : result (list Z * list (Z * Z)) :=
  let n := Z.min (page - prp1 mod page) total in
  let remaining := total - n in
  if remaining =? 0 then Ok ([], [(prp1, n)])
  else if remaining <=? page then Ok ([], [(prp1, n); (prp2, remaining)])
  else if prp2 =? 0 then Err "no list"
  else
    let entries := (remaining + page - 1) / page in
    '(ls, segs) ← list_pages (Z.to_nat entries) m prp2 remaining entries;
    Ok (ls, (prp1, n) :: segs).

(** Access to segments one by one. *)
Fixpoint scatter (m : T) (segs : list (Z * Z)) (d : list Z) : T :=
  match segs with
  | [] => m
  | (a, n) :: segs => scatter (WriteIPA m a (take (Z.to_nat n) d)).1 segs (drop (Z.to_nat n) d)
  end.
Fixpoint gather (m : T) (segs : list (Z * Z)) : result (list Z) :=
  match segs with
  | [] => Ok []
  | (a, n) :: segs => x ← ReadIPA m a n; y ← gather m segs; Ok (x ++ y)
  end.
End prp.

(** * Walking the lists *)

Definition total_of (segs : list (Z * Z)) : Z := foldr (λ s a, s.2 + a) 0 segs.
Lemma total_of_app xs ys : total_of (xs ++ ys) = total_of xs + total_of ys.
Proof. induction xs as [|x xs IH]; [done|]. cbn [app total_of foldr] in *. fold (total_of xs) (total_of (xs ++ ys)). lia. Qed.

Lemma total_of_nonneg (P : Z * Z → Prop) segs : (∀ s, P s → 0 < s.2) → Forall P segs → 0 ≤ total_of segs.
Proof.
  intros HP Hs. induction Hs as [|s segs Hp _ IH]; [done|]. specialize (HP s Hp). unfold total_of in *. cbn [foldr]. lia.
Qed.

(** One call per segment. *)
Fixpoint each {S} (fn : Z → Z → M S unit) (segs : list (Z * Z)) : M S unit :=
  match segs with
  | [] => mret tt
  | (a, n) :: segs => fn a n ;;; each fn segs
  end.
Lemma each_segments_app {S} (fn : Z → Z → M S unit) xs ys s : each fn (xs ++ ys) s = (each fn xs ;;; each fn ys) s.
Proof.
  revert s. induction xs as [|[a n] xs IH]; intros s; [done|]. cbn [app each].
  unfold mbind, M_bind in *. destruct (fn a n s) as [s' [?| |]]; [apply IH|done|done].
Qed.

Section walking.
Context {T : Type} `{!GuestMemory T, !GuestViews T}.
Variable pageSz : Z.
Hypothesis Hpage : 16 ≤ page pageSz.
Abbreviation page := (page pageSz).

Lemma segs_of_total l i k remaining : page * Z.of_nat k ≤ remaining → total_of (segs_of pageSz l i k remaining) = page * Z.of_nat k.
Proof.
  revert i remaining. induction k as [|k IH]; intros i remaining H; [cbn; lia|]. cbn [segs_of total_of foldr snd].
  fold (total_of (segs_of pageSz l (S i) k (remaining - Z.min page remaining))).
  rewrite IH by nia. nia.
Qed.
Lemma segs_of_all l i k remaining :
  0 ≤ remaining ≤ page * Z.of_nat k → total_of (segs_of pageSz l i k remaining) = remaining.
Proof.
  revert i remaining. induction k as [|k IH]; intros i remaining H; [cbn; lia|]. cbn [segs_of total_of foldr snd].
  fold (total_of (segs_of pageSz l (S i) k (remaining - Z.min page remaining))).
  rewrite IH by nia. lia.
Qed.
(** A segment is part of a page, and not empty as long as bytes remain. *)
Lemma segs_of_sizes l i k remaining :
  page * (Z.of_nat k - 1) < remaining → Forall (λ s, 0 < s.2 ≤ page) (segs_of pageSz l i k remaining).
Proof.
  revert i remaining. induction k as [|k IH]; intros i remaining H; [constructor|]. cbn [segs_of].
  constructor; [cbn [snd]; nia|]. apply IH. nia.
Qed.

Lemma list_pages_total fuel (m : T) la remaining entries ls segs :
  list_pages pageSz fuel m la remaining entries = Ok (ls, segs) →
  page * (entries - 1) < remaining ≤ page * entries → 0 < entries → entries ≤ Z.of_nat fuel →
  total_of segs = remaining.
Proof.
  revert la remaining entries ls segs.
  induction fuel as [|fuel IH]; intros la remaining entries ls segs E Hrem H0 Hf; [lia|].
  cbn [list_pages] in E. destruct (readBytes m la page) as [l| |]; [|done|done]. cbn [mbind result_bind] in E.
  destruct (Z.leb_spec entries (page / 8)) as [Hle|Hgt].
  - injection E as <- <-. apply segs_of_all. rewrite Z2Nat.id by lia. nia.
  - destruct (_ =? 0); [done|]. destruct (list_pages _ _ _ _ _ _) as [[ls' segs']| |] eqn:E'; [|done|done].
    injection E as <- <-. assert (2 ≤ page / 8) by (apply Z.div_le_lower_bound; lia).
    rewrite total_of_app, (IH _ _ _ _ _ E') by nia. rewrite segs_of_total by nia. nia.
Qed.

Lemma prp_segments_head (m : T) prp1 prp2 n ls segs :
  prp_segments pageSz m prp1 prp2 n = Ok (ls, segs) →
  ∃ segs', segs = (prp1, Z.min (page - prp1 mod page) n) :: segs'.
Proof.
  unfold prp_segments. intros E. destruct (_ =? 0); [injection E as _ <-; eauto|].
  destruct (_ <=? page); [injection E as _ <-; eauto|]. destruct (prp2 =? 0); [done|].
  destruct (list_pages _ _ _ _ _ _) as [[? ?]| |]; [|done|done]. injection E as _ <-. eauto.
Qed.

Section each.
Context {S : Type} (memOf : S → T) (fn : Z → Z → M S unit).

Lemma walk_entries_each l i k remaining s :
  walk_entries pageSz fn l i k remaining s =
    (each fn (segs_of pageSz l i k remaining) ;;; mret (remaining - total_of (segs_of pageSz l i k remaining))) s.
Proof.
  revert i remaining s. induction k as [|k IH]; intros i remaining s.
  { unfold mbind, M_bind. cbn. by rewrite Z.sub_0_r. }
  cbn [walk_entries segs_of each total_of foldr snd]. rewrite Z.gtb_ltb.
  replace (if remaining <? page then remaining else page) with (Z.min page remaining)
    by (destruct (Z.ltb_spec remaining page); lia).
  unfold mbind, M_bind in *. destruct (fn _ _ s) as [s' [?| |]]; [|done|done]. rewrite IH.
  destruct (each fn _ s') as [s'' [?| |]]; [|done|done]. by rewrite Z.sub_add_distr.
Qed.

(** As long as the callback leaves the list pages alone, the walk calls it once
    for each segment. *)
Lemma walk_lists_each (P : S → Prop) m fuel la remaining entries ls segs s :
  list_pages pageSz fuel m la remaining entries = Ok (ls, segs) →
  page * (entries - 1) < remaining → 0 < entries → entries ≤ Z.of_nat fuel →
  (∀ s l, P s → l ∈ ls → readBytes (memOf s) l page = readBytes m l page) →
  (∀ a n s s', (a, n) ∈ segs → P s → fn a n s = (s', Ok tt) → P s') →
  P s → walk_lists pageSz memOf fn fuel la remaining entries s = each fn segs s.
Proof.
  revert la remaining entries ls segs s.
  induction fuel as [|fuel IH]; intros la remaining entries ls segs s E Hrem H0 Hf Hread Hfn HP; [lia|].
  cbn [walk_lists list_pages] in *. unfold mbind at 1, M_bind at 1.
  destruct (readBytes m la page) as [l| |] eqn:El; [|done|done]. cbn [mbind result_bind] in E.
  rewrite Z.gtb_ltb, Z.ltb_antisym. destruct (Z.leb_spec entries (page / 8)) as [Hle|Hgt]; cbn [negb].
  - injection E as <- <-. rewrite (Hread s la), El by (done || apply list_elem_of_here).
    unfold mbind, M_bind. rewrite walk_entries_each. unfold mbind, M_bind.
    destruct (each fn _ s) as [s' [[]| |]]; done.
  - destruct (Z.eqb_spec (entry l (Z.to_nat (page / 8 - 1))) 0) as [?|Hne]; [done|].
    destruct (list_pages pageSz fuel m _ _ _) as [[ls' segs']| |] eqn:E'; [|done|done].
    injection E as <- <-. rewrite (Hread s la), El by (done || apply list_elem_of_here).
    unfold mbind, M_bind. rewrite walk_entries_each, each_segments_app. unfold mbind, M_bind.
    assert (2 ≤ page / 8) by (apply Z.div_le_lower_bound; lia).
    assert (∀ xs s s', (∀ a n, (a, n) ∈ xs → (a, n) ∈ segs_of pageSz l 0 (Z.to_nat (page / 8 - 1)) remaining) →
      P s → each fn xs s = (s', Ok tt) → P s') as Heach.
    { induction xs as [|[a n] xs IHxs]; intros s1 s2 Hin HP1 E1; [by injection E1 as <-|].
      cbn [each] in E1. unfold mbind, M_bind in E1. destruct (fn a n s1) as [s1' [[]| |]] eqn:E2; [|done|done].
      apply IHxs in E1; [done|intros; apply Hin; by apply list_elem_of_further|].
      apply (Hfn a n s1); [|done|done]. apply elem_of_app. left. apply Hin, list_elem_of_here. }
    destruct (each fn _ s) as [s' [[]| |]] eqn:Es; [|done|done]. cbn [mret M_ret].
    destruct (Z.eqb_spec (entry l (Z.to_nat (page / 8 - 1))) 0) as [?|_]; [done|].
    rewrite segs_of_total by nia. rewrite Z2Nat.id by lia.
    eapply IH; [exact E'|nia|lia|lia| | |].
    + intros s0 l0 HP0 Hl0. apply Hread; [done|]. by apply list_elem_of_further.
    + intros a n s0 s0' Hin. apply Hfn. apply elem_of_app. by right.
    + by apply (Heach _ s s' (λ _ _ H, H)).
Qed.
End each.
End walking.

(** * Accesses and merged accesses *)

Section transfer.
Context {T : Type} `{GuestMemoryOk T, !GuestViews T, !GuestViewsOk T}.
Variables (pageSz : Z) (write : bool).
Hypothesis Hpage : 16 ≤ page pageSz.
Abbreviation page := (page pageSz).
Implicit Types (x : xfer T) (m : T) (d : list Z) (dm : list Z * T) (segs : list (Z * Z)).

Lemma readBytes_ReadIPA m a n : readBytes m a n = ReadIPA m a n.
Proof. unfold readBytes. destruct reader_into; [apply read_into|done]. Qed.

(** What an access that succeeds does to the buffer and to memory. *)
Definition bytes_at m (a n : Z) : list Z := match ReadIPA m a n with Ok l => l | _ => [] end.
Definition effect (a o n : Z) dm : list Z * T :=
  let '(d, m) := dm in
  if write then (d, (WriteIPA m a (sub d (Z.to_nat o) (Z.to_nat n))).1)
  else (overwrite d (Z.to_nat o) (bytes_at m a n), m).
Definition core x : list Z * T := (data x, xmem x).
Definition core_ok dm : Prop := is_bytes dm.1 ∧ mem_ok dm.2.
Definition inside dm (a o n : Z) : Prop := mapped dm.2 a n ∧ 0 < n < 2^63 ∧ 0 ≤ o ∧ o + n ≤ len dm.1.

Lemma bytes_at_read m a n : mem_ok m → mapped m a n → 0 ≤ n → ReadIPA m a n = Ok (bytes_at m a n).
Proof. intros Hm Ha Hn. unfold bytes_at. by destruct (read_mapped m a n Hm Hn Ha) as [l ->]. Qed.
Lemma length_bytes_at m a n : mem_ok m → mapped m a n → 0 ≤ n < 2^63 → len (bytes_at m a n) = n.
Proof. intros Hm Ha Hn. eapply read_length; [done|done|]. apply bytes_at_read; [done|done|lia]. Qed.

Lemma effect_length a o n dm : length (effect a o n dm).1 = length dm.1.
Proof. destruct dm as [d m]. unfold effect. destruct write; [done|]. apply length_overwrite. Qed.
Lemma effect_mapped a o n dm b k : core_ok dm → mapped dm.2 b k → mapped (effect a o n dm).2 b k.
Proof. destruct dm as [d m]. intros [_ Hm] Hb. unfold effect. destruct write; [by apply mapped_write|done]. Qed.
Lemma effect_ok a o n dm : core_ok dm → core_ok (effect a o n dm).
Proof.
  destruct dm as [d m]. intros [Hd Hm]. cbn in Hd, Hm. unfold effect. destruct write; split; cbn [fst snd]; try done.
  - apply write_mem_ok; [done|]. by apply is_bytes_sub.
  - apply is_bytes_overwrite; [done|]. unfold bytes_at. destruct (ReadIPA m a n) eqn:E; [by eapply read_bytes|constructor|constructor].
Qed.

Lemma transferPage_effect a o n x :
  core_ok (core x) → inside (core x) a o n → a ≠ 0 →
  transferPage write a o n x =
    (x <| data := (effect a o n (core x)).1 |> <| xmem := (effect a o n (core x)).2 |>, Ok tt).
Proof.
  intros [Hd Hm] (Ha & Hn & Ho & Hl) Hne. cbn [core fst snd] in *. unfold transferPage, effect, core.
  destruct (Z.eqb_spec a 0); [done|]. destruct write.
  - assert (len (sub (data x) (Z.to_nat o) (Z.to_nat n)) = n) as Hs by (rewrite length_sub; lia).
    pose proof (write_mapped (xmem x) a (sub (data x) (Z.to_nat o) (Z.to_nat n)) Hm) as Hw. rewrite Hs in Hw.
    specialize (Hw Ha). destruct (WriteIPA _ _ _) as [m' r]. cbn in Hw. rewrite Hw. by destruct x.
  - rewrite readBytes_ReadIPA, (bytes_at_read (xmem x)) by (done || lia). by destruct x.
Qed.

(** Neighbouring accesses combine. *)
Lemma effect_app a o n k dm :
  core_ok dm → 0 < n → 0 < k → n + k < 2^63 → mapped dm.2 a (n + k) → 0 ≤ o → o + (n + k) ≤ len dm.1 →
  effect a o (n + k) dm = effect (a + n) (o + n) k (effect a o n dm).
Proof.
  destruct dm as [d m]. intros [Hd Hm] Hn Hk Hb Ha Ho Hl. cbn [fst snd] in *. unfold effect. destruct write.
  - assert (len (sub d (Z.to_nat o) (Z.to_nat n)) = n) as H1 by (rewrite length_sub; lia).
    assert (len (sub d (Z.to_nat (o + n)) (Z.to_nat k)) = k) as H2 by (rewrite length_sub; lia).
    replace (Z.to_nat (n + k)) with (Z.to_nat n + Z.to_nat k)%nat by lia.
    rewrite sub_split. replace (Z.to_nat o + Z.to_nat n)%nat with (Z.to_nat (o + n)) by lia.
    rewrite write_app by (done || (by apply is_bytes_sub) || (rewrite ?H1, ?H2; done) || lia). by rewrite H1.
  - assert (mapped m a n) as Ha1 by (apply (mapped_prefix _ _ (n + k)); [done|lia]).
    assert (mapped m (a + n) k) as Ha2.
    { replace k with (n + k - n) by lia. apply mapped_suffix; [done|lia]. }
    pose proof (length_bytes_at m a n Hm Ha1 ltac:(lia)) as H1.
    assert (bytes_at m a (n + k) = bytes_at m a n ++ bytes_at m (a + n) k) as ->.
    { unfold bytes_at at 1. rewrite (read_app m a n k (bytes_at m a n) (bytes_at m (a + n) k)); try done;
        apply bytes_at_read; done || lia. }
    rewrite <-overwrite_overwrite by lia. do 2 f_equal. lia.
Qed.

(** The pending run. *)
Definition settle x : list Z * T :=
  if runLen x =? 0 then core x else effect (runAddr x) (runOff x) (runLen x) (core x).

Variables (m0 : T) (ls : list Z).
(** [a, n] does not meet the list pages, which matters if memory is written. *)
Definition apart (a n : Z) : Prop := ∀ l, l ∈ ls → write = true → a + n ≤ l ∨ l + page ≤ a.
Definition good (s : Z * Z) : Prop := mapped m0 s.1 s.2 ∧ s.1 ≠ 0 ∧ 0 < s.2 ≤ page ∧ apart s.1 s.2.

(** Invariant of the walk: list pages read as at the start. *)
Record kept x : Prop := {
  kept_core : core_ok (core x);
  kept_mapped a n : mapped m0 a n → mapped (xmem x) a n;
  kept_lists l : l ∈ ls → mapped m0 l page ∧ readBytes (xmem x) l page = readBytes m0 l page;
  kept_run : 0 ≤ runLen x ∧ (runLen x ≠ 0 → mapped m0 (runAddr x) (runLen x) ∧ runAddr x ≠ 0 ∧ apart (runAddr x) (runLen x));
}.

Lemma transferPage_kept a o n x x' r :
  kept x → mapped m0 a n → 0 ≤ n → apart a n → transferPage write a o n x = (x', r) → kept x'.
Proof.
  intros [Hc Hm Hl Hr] Ha Hn Hap E. unfold transferPage in E. destruct (a =? 0); [by injection E as <- _|].
  destruct Hc as [Hd Hmem]. cbn in Hd, Hmem.
  destruct write eqn:Ew.
  - set (bs := sub (data x) (Z.to_nat o) (Z.to_nat n)) in *.
    assert (len bs ≤ n) as Hlen by (unfold bs, sub; rewrite length_take, length_drop; lia).
    pose proof (write_mem_ok (xmem x) a bs Hmem (is_bytes_sub _ _ _ Hd)) as Hok.
    pose proof (λ b k, mapped_write (xmem x) a bs b k Hmem) as Hmw.
    pose proof (λ b k, read_write_other (xmem x) a bs b k Hmem) as Hrw.
    destruct (WriteIPA (xmem x) a bs) as [m' r']. injection E as <- <-. cbn in Hok, Hmw, Hrw.
    split; [done| | |done].
    + intros b k Hb. apply Hmw, Hm, Hb.
    + intros l Hl'. destruct (Hl l Hl') as [Hlm Hlr]. split; [done|]. rewrite <-Hlr, !readBytes_ReadIPA. cbn.
      apply Hrw; [apply (mapped_prefix _ _ n); [by apply Hm|lia]|by apply Hm|lia|]. specialize (Hap l Hl' Ew). lia.
  - rewrite readBytes_ReadIPA in E. destruct (ReadIPA (xmem x) a n) as [raw| |] eqn:Er; injection E as <- _; [|done|done].
    split; [|done|done|done]. split; cbn; [|done]. apply is_bytes_overwrite; [done|]. by eapply read_bytes.
Qed.
Lemma kept_fields x o ra ro rl :
  kept x → 0 ≤ rl → (rl ≠ 0 → mapped m0 ra rl ∧ ra ≠ 0 ∧ apart ra rl) →
  kept (mkXfer (data x) (xmem x) o ra ro rl).
Proof. intros [Hc Hm Hl Hr] H1 H2. by split. Qed.

Ltac xcbn := cbn [data xmem off runAddr runOff runLen update eta_xfer fst snd].
Definition run_at x : Prop := 0 ≤ off x ≤ len (data x) ∧ (runLen x ≠ 0 → 0 ≤ runOff x ∧ runOff x + runLen x = off x).
Lemma xfer_eta x : x = mkXfer (data x) (xmem x) (off x) (runAddr x) (runOff x) (runLen x).
Proof. by destruct x. Qed.

Lemma flushRun_kept x x' : kept x → flushRun write x = (x', Ok tt) → kept x' ∧ runLen x' = 0 ∧ off x' = off x.
Proof.
  intros Hk. unfold flushRun. destruct (Z.eqb_spec (runLen x) 0) as [E0|Hne]; [by intros [= <-]|].
  destruct (kept_run _ Hk) as [Hr0 Hr]. destruct (Hr Hne) as (Hm & Ha & Hap). unfold mbind, M_bind.
  destruct (transferPage write _ _ _ x) as [x1 [[]| |]] eqn:E; [|done|done]. intros [= <-].
  pose proof (transferPage_kept _ _ _ _ _ _ Hk Hm Hr0 Hap E) as Hk1. split_and!; [by apply kept_fields|done|].
  unfold transferPage in E. destruct (_ =? 0); [done|]. destruct write.
  - destruct (WriteIPA _ _ _). by injection E as <- _.
  - destruct (readBytes _ _ _); [by injection E as <-|done|done].
Qed.

Lemma add_chunk_kept a n x x' : kept x → good (a, n) → add_chunk write a n x = (x', Ok tt) → kept x'.
Proof.
  intros Hk (Hm & Ha & Hn & Hap) E. cbn [fst snd] in *. unfold add_chunk, gets, modify, startRun, mbind, M_bind, id in E.
  destruct (kept_run _ Hk) as [Hr0 Hr].
  destruct (Z.eqb_spec (runLen x) 0) as [E0|Hne].
  { injection E as <-. apply kept_fields; [done|cbn; lia|done]. }
  destruct (Z.eqb_spec a (u64 (runAddr x + runLen x))) as [Hadj|_].
  - destruct (Hr Hne) as (Hm1 & Ha1 & Hap1). injection E as <-.
    destruct (mapped_bound (xmem x) (runAddr x) (runLen x)) as [? ?]; [apply Hk|lia|by apply Hk|].
    rewrite u64_small in Hadj by (unfold is_u; lia). subst a.
    apply kept_fields; [done|cbn; lia|]. intros _. cbn. split_and!; [apply mapped_app; done || lia|done|].
    intros l Hl Hw. specialize (Hap l Hl Hw). specialize (Hap1 l Hl Hw). lia.
  - destruct (flushRun write x) as [x1 [[]| |]] eqn:Ef; [|done|done]. apply flushRun_kept in Ef as (Hk1 & _); [|done].
    injection E as <-. apply kept_fields; [done|cbn; lia|done].
Qed.

Lemma flushRun_settles x :
  kept x → run_at x → len (data x) < 2^63 →
  flushRun write x = (mkXfer (settle x).1 (settle x).2 (off x) (runAddr x) (runOff x) 0, Ok tt).
Proof.
  intros Hk [Ho Hr] Hb. unfold flushRun, settle. destruct (Z.eqb_spec (runLen x) 0) as [E0|Hne].
  { unfold core. cbn. rewrite <-E0. by destruct x. }
  destruct (kept_run _ Hk) as [Hr0 Hr']. destruct (Hr' Hne) as (Hm & Ha & _). destruct (Hr Hne) as [? ?].
  unfold mbind, M_bind. rewrite transferPage_effect; [done|apply Hk| |done].
  split_and!; [by apply Hk|lia|lia|lia|cbn; lia].
Qed.

(** Taking a segment into the run is accessing it after what is pending. *)
Lemma add_chunk_settles a n x :
  kept x → run_at x → good (a, n) → off x + n ≤ len (data x) → len (data x) < 2^63 →
  ∃ x', add_chunk write a n x = (x', Ok tt) ∧ run_at x' ∧ off x' = off x + n ∧ length (data x') = length (data x) ∧
    settle x' = effect a (off x) n (settle x).
Proof.
  intros Hk Hrun (Hm & Ha & Hn & _) Hfit Hb. cbn [fst snd] in *. pose proof Hrun as [Ho Hr].
  unfold add_chunk, gets, modify, startRun, mbind, M_bind, id.
  destruct (kept_run _ Hk) as [Hr0 Hr'].
  destruct (Z.eqb_spec (runLen x) 0) as [E0|Hne].
  { eexists. split; [done|]. xcbn. unfold run_at, settle, core. xcbn. rewrite E0.
    destruct (Z.eqb_spec n 0); [lia|]. xcbn. split_and!; done || lia. }
  destruct (Hr' Hne) as (Hm1 & Ha1 & _). destruct (Hr Hne) as [? ?].
  destruct (Z.eqb_spec a (u64 (runAddr x + runLen x))) as [Hadj|_].
  - destruct (mapped_bound (xmem x) (runAddr x) (runLen x)) as [? ?]; [apply Hk|lia|by apply Hk|].
    rewrite u64_small in Hadj by (unfold is_u; lia). subst a.
    eexists. split; [done|]. unfold run_at, settle, core. xcbn.
    destruct (Z.eqb_spec (runLen x + n) 0); [lia|]. destruct (Z.eqb_spec (runLen x) 0); [lia|].
    split_and!; [lia|lia|intros; lia|done|done|].
    rewrite effect_app; xcbn; [|apply Hk|lia|lia|lia| |lia|lia].
    + do 2 f_equal; lia.
    + apply mapped_app; [by apply Hk|lia|by apply Hk|lia].
  - rewrite flushRun_settles by done. eexists. split; [done|]. unfold run_at. xcbn.
    assert (length (settle x).1 = length (data x)) as Hlen.
    { unfold settle. destruct (_ =? 0); [done|]. apply effect_length. }
    rewrite Hlen. split_and!; [lia|lia|intros; lia|done|done|]. unfold settle at 1. xcbn.
    destruct (Z.eqb_spec n 0); [lia|]. unfold core at 1. xcbn. by rewrite <-surjective_pairing.
Qed.

(** Accesses one after the other, from offset [o] of the buffer. *)
Fixpoint effects segs (o : Z) dm : list Z * T :=
  match segs with
  | [] => dm
  | (a, n) :: segs => effects segs (o + n) (effect a o n dm)
  end.

Lemma each_settles segs x :
  kept x → run_at x → Forall good segs → off x + total_of segs ≤ len (data x) → len (data x) < 2^63 →
  ∃ x', each (add_chunk write) segs x = (x', Ok tt) ∧ kept x' ∧ run_at x' ∧ len (data x') < 2^63 ∧
    settle x' = effects segs (off x) (settle x).
Proof.
  intros Hk Hrun Hsegs. revert x Hk Hrun. induction Hsegs as [|[a n] segs Hs Hsegs IH]; intros x Hk Hrun Hfit Hb.
  { by exists x. }
  assert (0 ≤ total_of segs) as Ht by (eapply total_of_nonneg, Hsegs; intros s (_ & _ & ? & _); lia).
  cbn [total_of foldr snd] in Hfit. fold (total_of segs) in Hfit.
  destruct (add_chunk_settles a n x Hk Hrun Hs ltac:(lia) Hb) as (x1 & E1 & Hrun1 & Ho1 & Hl1 & Hs1).
  pose proof (add_chunk_kept _ _ _ _ Hk Hs E1) as Hk1.
  destruct (IH x1 Hk1 Hrun1 ltac:(lia) ltac:(lia)) as (x' & E' & Hk' & Hrun' & Hb' & Hs').
  exists x'. cbn [each effects]. unfold mbind, M_bind. rewrite E1. split_and!; [done..|]. by rewrite Hs', Hs1, Ho1.
Qed.

Lemma entries_bounds remaining :
  page < remaining →
  let entries := (remaining + page - 1) / page in
  page * (entries - 1) < remaining ≤ page * entries ∧ 1 < entries.
Proof.
  intros Hr entries. unfold entries. pose proof (Z.div_mod (remaining + page - 1) page ltac:(lia)).
  pose proof (Z.mod_pos_bound (remaining + page - 1) page ltac:(lia)). nia.
Qed.

Lemma walk_transfer x prp2 remaining segs :
  kept x → runLen x = 0 → 0 ≤ off x → off x + remaining = len (data x) → len (data x) < 2^63 →
  page < remaining → prp2 ≠ 0 →
  (let entries := (remaining + page - 1) / page in
   list_pages pageSz (Z.to_nat entries) m0 prp2 remaining entries = Ok (ls, segs)) →
  Forall good segs →
  ∃ x', (walkPRPListLocked pageSz xmem (add_chunk write) prp2 remaining ;;; flushRun write) x = (x', Ok tt) ∧
    core x' = effects segs (off x) (core x).
Proof.
  intros Hk Hr0 Ho Hfit Hb Hrem Hne E Hgood. destruct (entries_bounds remaining Hrem) as [Hent H1].
  cbn zeta in E, Hent, H1. unfold walkPRPListLocked, mbind, M_bind.
  assert (2 ≤ page / 8) by (apply Z.div_le_lower_bound; lia).
  destruct (Z.leb_spec remaining 0); [lia|]. destruct (Z.eqb_spec prp2 0); [done|]. destruct (Z.ltb_spec (page / 8) 2); [lia|].
  rewrite (walk_lists_each pageSz Hpage xmem (add_chunk write) kept m0 _ _ _ _ ls segs); try done; try lia.
  - destruct (each_settles segs x Hk) as (x' & E' & Hk' & Hrun' & Hb' & Hs'); try done.
    { split; [lia|done]. }
    { rewrite (list_pages_total pageSz Hpage _ _ _ _ _ _ _ E); lia. }
    rewrite E', flushRun_settles by done. eexists. split; [done|]. unfold core at 1. xcbn.
    rewrite <-surjective_pairing, Hs'. unfold settle. by rewrite Hr0.
  - intros x1 l Hk1 Hl. by apply (kept_lists _ Hk1).
  - intros a k x1 x2 Hin Hk1. apply add_chunk_kept; [done|]. by eapply Forall_forall in Hgood.
Qed.

Lemma start_kept d : mem_ok m0 → is_bytes d → (∀ l, l ∈ ls → mapped m0 l page) → kept (mkXfer d m0 0 0 0 0).
Proof. intros Hm Hd Hl. split; [done|done| |done]. intros l Hin. split; [by apply Hl|done]. Qed.

(** A transfer accesses the segments in order. *)
Lemma transfer_body_spec d prp1 prp2 segs :
  mem_ok m0 → is_bytes d → 0 < len d < 2^63 → (∀ l, l ∈ ls → mapped m0 l page) →
  prp_segments pageSz m0 prp1 prp2 (len d) = Ok (ls, segs) → Forall good segs →
  ∃ x, transfer_body pageSz write prp1 prp2 (len d) (mkXfer d m0 0 0 0 0) = (x, Ok tt) ∧ core x = effects segs 0 (d, m0).
Proof.
  intros Hm Hd Hlen Hls E Hgood. pose proof (start_kept d Hm Hd Hls) as Hk0. set (x0 := mkXfer d m0 0 0 0 0) in *.
  unfold prp_segments in E. unfold transfer_body. pose proof (Z.mod_pos_bound prp1 page ltac:(lia)) as Hmod.
  rewrite Z.gtb_ltb. replace (if len d <? page - prp1 mod page then len d else page - prp1 mod page)
    with (Z.min (page - prp1 mod page) (len d)) by (destruct (Z.ltb_spec (len d) (page - prp1 mod page)); lia).
  set (n := Z.min _ _) in *. destruct (Z.eqb_spec (len d) 0); [lia|].
  destruct (prp_segments_head pageSz m0 prp1 prp2 (len d) ls segs E) as [segs' ->]. fold n in E, Hgood |- *.
  apply Forall_cons in Hgood as [Hg1 Hgood]. pose proof Hg1 as (Hm1 & Ha1 & Hn1 & Hap1). cbn [fst snd] in *.
  destruct (Z.eqb_spec prp1 0); [done|]. unfold mbind, M_bind.
  pose proof (transferPage_effect prp1 0 n x0 (kept_core _ Hk0)) as E1. rewrite E1; [|split_and!; cbn; done || lia|done].
  pose proof (transferPage_kept _ _ _ _ _ _ Hk0 Hm1 ltac:(lia) Hap1 (E1 ltac:(split_and!; cbn; done || lia) Ha1)) as Hk1.
  clear E1. cbn [modify fst snd]. set (dm1 := effect prp1 0 n (core x0)) in *. cbn [effects].
  assert (length dm1.1 = length d) as Hl1 by apply effect_length.
  rewrite Z.geb_leb. destruct (Z.leb_spec (len d) n) as [Hdone|Hmore].
  { replace (len d - n) with 0 in E by lia. injection E as _ <-. eexists. split; [done|]. unfold core, dm1. xcbn. by destruct (effect _ _ _ _). }
  destruct (Z.eqb_spec (len d - n) 0); [lia|]. destruct (Z.leb_spec (len d - n) page) as [Htwo|Hlist].
  - injection E as _ <-. apply Forall_cons in Hgood as [(Hm2 & Ha2 & Hn2 & _) _]. cbn [fst snd] in *.
    rewrite transferPage_effect; [|apply Hk1| |done].
    + eexists. split; [done|]. unfold core. xcbn. cbn [effects]. rewrite <-!surjective_pairing. done.
    + unfold core. split_and!; xcbn; [by apply (kept_mapped _ Hk1)|lia..].
  - destruct (Z.eqb_spec prp2 0); [done|].
    destruct (list_pages _ _ _ _ _ _) as [[ls' segs'']| |] eqn:El; [|done|done]. injection E as -> ->.
    assert (kept (mkXfer dm1.1 dm1.2 n 0 0 0)) as Hk2 by (by apply (kept_fields _ n 0 0 0) in Hk1).
    destruct (walk_transfer (mkXfer dm1.1 dm1.2 n 0 0 0) prp2 (len d - n) segs') as (x' & Ex & Ec); xcbn; try done; try lia.
    exists x'. split; [exact Ex|]. rewrite Ec. unfold core. xcbn. by rewrite <-surjective_pairing.
Qed.
End transfer.

(** * What a transfer does *)

Section claims.
Context {T : Type} `{GuestMemoryOk T, !GuestViews T, !GuestViewsOk T}.
Implicit Types (m : T) (d : list Z) (segs : list (Z * Z)).

Lemma effects_scatter segs o d m :
  Forall (λ s, 0 < s.2) segs → 0 ≤ o → effects true segs o (d, m) = (d, scatter m segs (drop (Z.to_nat o) d)).
Proof.
  intros Hs. revert o m. induction Hs as [|[a n] segs Hn Hs IH]; intros o m Ho; [done|].
  cbn [effects effect scatter snd] in *. rewrite IH by lia. f_equal. rewrite drop_drop. do 2 f_equal. lia.
Qed.
Lemma effects_gather segs o d m :
  mem_ok m → Forall (λ s, mapped m s.1 s.2 ∧ 0 < s.2 < 2^63) segs → 0 ≤ o → o + total_of segs ≤ len d →
  ∃ bs, gather m segs = Ok bs ∧ len bs = total_of segs ∧ effects false segs o (d, m) = (overwrite d (Z.to_nat o) bs, m).
Proof.
  intros Hm Hs. revert o d. induction Hs as [|[a n] segs [Ha Hn] Hs IH]; intros o d Ho Hl.
  { exists []. split_and!; [done|done|]. cbn. by rewrite overwrite_nil. }
  cbn [effects effect gather total_of foldr fst snd] in *. fold (total_of segs) in *.
  pose proof (length_bytes_at m a n Hm Ha ltac:(lia)) as Hlen.
  assert (0 ≤ total_of segs) as Ht by (eapply total_of_nonneg, Hs; intros s [_ ?]; lia).
  destruct (IH (o + n) (overwrite d (Z.to_nat o) (bytes_at m a n))) as (bs & -> & Hbs & Heff); [lia|rewrite length_overwrite; lia|].
  rewrite (bytes_at_read m a n Hm Ha) by lia. exists (bytes_at m a n ++ bs). split_and!; [done|rewrite length_app; lia|].
  rewrite Heff. f_equal. replace (Z.to_nat (o + n)) with (Z.to_nat o + length (bytes_at m a n))%nat by lia.
  apply overwrite_overwrite. lia.
Qed.

(** Segments that do not meet keep what was written to them. *)
Definition disjoint_segs segs : Prop :=
  ∀ i j s t, i ≠ j → segs !! i = Some s → segs !! j = Some t → s.1 + s.2 ≤ t.1 ∨ t.1 + t.2 ≤ s.1.
Lemma disjoint_segs_cons s segs : disjoint_segs (s :: segs) → disjoint_segs segs ∧ Forall (λ t, s.1 + s.2 ≤ t.1 ∨ t.1 + t.2 ≤ s.1) segs.
Proof.
  intros Hd. split.
  - intros i j a b Hij Ha Hb. apply (Hd (S i) (S j)); [lia|done|done].
  - apply Forall_lookup. intros i t Ht. by apply (Hd 0%nat (S i)).
Qed.
Lemma scatter_other segs d m a n :
  mem_ok m → is_bytes d → mapped m a n → 0 ≤ n → total_of segs = len d →
  Forall (λ s, mapped m s.1 s.2 ∧ 0 < s.2) segs → Forall (λ t, a + n ≤ t.1 ∨ t.1 + t.2 ≤ a) segs →
  ReadIPA (scatter m segs d) a n = ReadIPA m a n.
Proof.
  intros Hm Hd Ha Hn Ht Hs Hap. revert m d Hm Hd Ha Ht Hs. induction Hap as [|[b k] segs Hb Hap IH]; intros m d Hm Hd Ha Ht Hs; [done|].
  apply Forall_cons in Hs as [[Hmb Hk] Hs]. cbn [scatter total_of foldr fst snd] in *. fold (total_of segs) in *.
  assert (0 ≤ total_of segs) as Ht0 by (eapply total_of_nonneg, Hs; intros s [_ ?]; lia).
  assert (len (take (Z.to_nat k) d) = k) as Hlk by (rewrite length_take; lia).
  rewrite IH; [|apply write_mem_ok; auto with go|auto with go|by apply mapped_write|rewrite length_drop; lia|].
  - apply read_write_other; [done|by rewrite Hlk|done|done|rewrite Hlk; lia].
  - eapply Forall_impl; [exact Hs|]. intros s [? ?]. split; [by apply mapped_write|done].
Qed.
Lemma gather_ext segs m m' :
  Forall (λ s, ReadIPA m' s.1 s.2 = ReadIPA m s.1 s.2) segs → gather m' segs = gather m segs.
Proof. induction 1 as [|[a n] segs Hs _ IH]; [done|]. cbn [gather fst snd] in *. by rewrite Hs, IH. Qed.
Lemma gather_bytes segs m d : mem_ok m → gather m segs = Ok d → is_bytes d.
Proof.
  intros Hm. revert d. induction segs as [|[a k] segs IH]; intros d Hg; [injection Hg as <-; constructor|].
  cbn [gather] in Hg. destruct (ReadIPA m a k) as [x| |] eqn:Ex; [|done|done]. cbn in Hg.
  destruct (gather m segs) as [y| |]; [|done|done]. injection Hg as <-. apply is_bytes_app; [by eapply read_bytes|by apply IH].
Qed.
Lemma scatter_ok segs d m :
  mem_ok m → is_bytes d → mem_ok (scatter m segs d) ∧ ∀ a n, mapped m a n → mapped (scatter m segs d) a n.
Proof.
  revert d m. induction segs as [|[a n] segs IH]; intros d m Hm Hd; [done|]. cbn [scatter].
  destruct (IH (drop (Z.to_nat n) d) (WriteIPA m a (take (Z.to_nat n) d)).1) as [H1 H2]; [apply write_mem_ok; auto with go|auto with go|].
  split; [done|]. intros b k Hb. apply H2. by apply mapped_write.
Qed.
Lemma scatter_gather segs d m :
  mem_ok m → is_bytes d → total_of segs = len d → Forall (λ s, mapped m s.1 s.2 ∧ 0 < s.2) segs → disjoint_segs segs →
  gather (scatter m segs d) segs = Ok d.
Proof.
  revert d m. induction segs as [|[a n] segs IH]; intros d m Hm Hd Ht Hs Hdis.
  { destruct d; [done|]. cbn in Ht. lia. }
  apply disjoint_segs_cons in Hdis as [Hdis Hap]. apply Forall_cons in Hs as [[Ha Hn] Hs].
  cbn [scatter gather total_of foldr fst snd] in *. fold (total_of segs) in *.
  assert (0 ≤ total_of segs) as Ht0 by (eapply total_of_nonneg, Hs; intros s [_ ?]; lia).
  set (x := take (Z.to_nat n) d). assert (len x = n) as Hx by (unfold x; rewrite length_take; lia).
  set (m1 := (WriteIPA m a x).1). assert (mem_ok m1) as Hm1 by (apply write_mem_ok; unfold x; auto with go).
  assert (Forall (λ s, mapped m1 s.1 s.2 ∧ 0 < s.2) segs) as Hs1.
  { eapply Forall_impl; [exact Hs|]. intros s [? ?]. split; [by apply mapped_write|done]. }
  assert (total_of segs = len (drop (Z.to_nat n) d)) as Ht1 by (rewrite length_drop; lia).
  rewrite scatter_other; try done; [|auto with go|by apply mapped_write|lia].
  pose proof (read_write_same m a x Hm) as Hsame. rewrite Hx in Hsame. fold m1 in Hsame. rewrite Hsame by done.
  cbn [mbind result_bind]. rewrite IH by (done || auto with go). cbn [mbind result_bind]. f_equal. unfold x. apply take_drop.
Qed.

(** * Contiguous buffers *)

(** Each segment starts where the one before it ends. *)
Fixpoint chain (a : Z) segs : Prop :=
  match segs with
  | [] => True
  | (b, n) :: segs => b = a ∧ chain (a + n) segs
  end.
Lemma scatter_chain segs d m a :
  mem_ok m → is_bytes d → total_of segs = len d → Forall (λ s, 0 < s.2) segs → chain a segs → mapped m a (len d) →
  segs ≠ [] → scatter m segs d = (WriteIPA m a d).1.
Proof.
  revert d m a. induction segs as [|[b n] segs IH]; intros d m a Hm Hd Ht Hs Hc Ha Hne; [done|].
  destruct Hc as [-> Hc].
  apply Forall_cons in Hs as [Hn Hs]. cbn [scatter total_of foldr fst snd] in *. fold (total_of segs) in *.
  assert (0 ≤ total_of segs) as Ht0 by (eapply total_of_nonneg, Hs; done).
  destruct segs as [|s segs]; [cbn in *; by rewrite take_ge by lia|].
  assert (0 < total_of (s :: segs)) as Ht1.
  { apply Forall_cons in Hs as [? Hs]. cbn [total_of foldr]. fold (total_of segs).
    pose proof (total_of_nonneg _ _ (λ _ H, H) Hs). lia. }
  assert (len (take (Z.to_nat n) d) = n) as Hx by (rewrite length_take; lia).
  assert (len (drop (Z.to_nat n) d) = len d - n) as Hy by (rewrite length_drop; lia).
  rewrite (IH _ _ (a + n)); [|apply write_mem_ok; auto with go|auto with go|lia|done|done| |done].
  - rewrite <-(take_drop (Z.to_nat n) d) at 3. rewrite write_app; [by rewrite Hx|done|auto with go|lia|lia|by rewrite Hx, Hy, Z.add_sub_assoc, Z.add_simpl_l].
  - apply mapped_write; [done|]. rewrite Hy. apply mapped_suffix; [done|lia].
Qed.
Lemma gather_chain segs m a n :
  mem_ok m → total_of segs = n → Forall (λ s, 0 < s.2) segs → chain a segs → mapped m a n → n < 2^63 → segs ≠ [] →
  gather m segs = ReadIPA m a n.
Proof.
  revert a n. induction segs as [|[b k] segs IH]; intros a n Hm Ht Hs Hc Ha Hb Hne; [done|].
  destruct Hc as [-> Hc].
  apply Forall_cons in Hs as [Hk Hs]. cbn [gather total_of foldr fst snd] in *. fold (total_of segs) in *.
  assert (mapped m a k) as Hak by (apply (mapped_prefix _ _ n); [done|]; pose proof (total_of_nonneg _ _ (λ _ H, H) Hs); lia).
  rewrite (bytes_at_read m a k) by (done || lia). cbn [mbind result_bind].
  destruct segs as [|s segs]; [cbn in *; replace n with k by lia; rewrite app_nil_r; symmetry; apply bytes_at_read; done || lia|].
  assert (0 < total_of (s :: segs)) as Ht1.
  { apply Forall_cons in Hs as [? Hs]. cbn [total_of foldr]. fold (total_of segs).
    pose proof (total_of_nonneg _ _ (λ _ H, H) Hs). lia. }
  assert (mapped m (a + k) (n - k)) as Hak2 by (apply mapped_suffix; [done|lia]).
  rewrite (IH (a + k) (n - k)) by (done || lia). rewrite (bytes_at_read m (a + k)) by (done || lia). cbn [mbind result_bind].
  replace n with (k + (n - k)) at 2 by lia. symmetry. apply read_app; try lia; try done;
    [apply bytes_at_read; done || lia|apply bytes_at_read; done || lia|by replace (k + (n - k)) with n by lia].
Qed.

(** All segments but the last are whole pages. *)
Fixpoint full (page : Z) segs : Prop :=
  match segs with
  | [] | [_] => True
  | (_, n) :: segs => n = page ∧ full page segs
  end.
Lemma full_app page xs ys : Forall (λ s, s.2 = page) xs → full page ys → full page (xs ++ ys).
Proof.
  intros Hx Hy. induction Hx as [|[a n] xs Hn Hx IH]; [done|]. cbn [app full]. cbn in Hn. destruct (xs ++ ys); [done|]. done.
Qed.
Lemma segs_of_whole pageSz l i k remaining :
  0 < page pageSz → page pageSz * Z.of_nat k ≤ remaining → Forall (λ s, s.2 = page pageSz) (segs_of pageSz l i k remaining).
Proof.
  intros Hp. revert i remaining. induction k as [|k IH]; intros i remaining Hr; cbn [segs_of]; constructor; [cbn; nia|].
  apply IH. nia.
Qed.
Lemma segs_of_full pageSz l i k remaining :
  0 < page pageSz → page pageSz * (Z.of_nat k - 1) < remaining → full (page pageSz) (segs_of pageSz l i k remaining).
Proof.
  intros Hp. revert i remaining. induction k as [|k IH]; intros i remaining Hr; [done|]. cbn [segs_of full].
  specialize (IH (S i) (remaining - Z.min (page pageSz) remaining) ltac:(nia)).
  destruct k as [|k]; [done|]. cbn [segs_of] in *. split; [nia|done].
Qed.
Lemma list_pages_full pageSz fuel m la remaining entries ls segs :
  16 ≤ page pageSz → list_pages pageSz fuel m la remaining entries = Ok (ls, segs) →
  page pageSz * (entries - 1) < remaining → 0 < entries → entries ≤ Z.of_nat fuel → full (page pageSz) segs.
Proof.
  intros Hp. revert la remaining entries ls segs.
  induction fuel as [|fuel IH]; intros la remaining entries ls segs E Hrem Hpos Hf; [lia|].
  cbn [list_pages] in E. destruct (readBytes m la _) as [l| |]; [|done|done]. cbn [mbind result_bind] in E.
  destruct (Z.leb_spec entries (page pageSz / 8)) as [Hle|Hgt].
  - injection E as <- <-. apply segs_of_full; [lia|]. rewrite Z2Nat.id by lia. done.
  - destruct (_ =? 0); [done|]. destruct (list_pages _ _ _ _ _ _) as [[ls' segs']| |] eqn:E'; [|done|done].
    injection E as <- <-. assert (2 ≤ page pageSz / 8) by (apply Z.div_le_lower_bound; lia).
    apply full_app; [apply segs_of_whole; [lia|nia]|]. apply (IH _ _ _ _ _ E'); nia.
Qed.

Definition usable m (s : Z * Z) : Prop := mapped m s.1 s.2 ∧ 0 < s.2.
Lemma chain_mapped segs m a :
  Forall (usable m) segs → chain a segs → segs ≠ [] → mapped m a (total_of segs).
Proof.
  intros Hs. revert a. induction Hs as [|[b n] segs [Hb Hn] Hs IH]; intros a Hc Hne; [done|]. destruct Hc as [-> Hc].
  cbn [total_of foldr fst snd] in *. fold (total_of segs) in *. destruct Hs as [|s segs Hs1 Hs]; [by rewrite Z.add_0_r|].
  apply mapped_app; [done|done|by apply IH|]. cbn [total_of foldr]. fold (total_of segs). destruct Hs1.
  pose proof (total_of_nonneg (usable m) segs (λ _ H, proj2 H) Hs). lia.
Qed.

Lemma each_check pageSz m segs e e' :
  mem_ok m → each (check_chunk pageSz) segs e = (e', Ok tt) → full (page pageSz) segs → Forall (usable m) segs →
  chain e segs.
Proof.
  intros Hm. revert e. induction segs as [|[a n] segs IH]; intros e E Hf Hs; [done|].
  apply Forall_cons in Hs as [[Ha Hn] Hs]. cbn [each fst snd] in *.
  unfold mbind, M_bind, check_chunk in E. destruct (Z.eqb_spec a e) as [->|]; [|done]. cbn [negb] in E.
  split; [done|]. destruct segs as [|s segs]; [done|]. destruct Hf as [-> Hf].
  destruct (mapped_bound m e (page pageSz)) as [? ?]; [done..|].
  rewrite u64_small in E by (unfold is_u; lia). by apply IH.
Qed.
Lemma each_check_total pageSz segs e : (each (check_chunk pageSz) segs e).2 ≠ Panic.
Proof.
  revert e. induction segs as [|[a n] segs IH]; intros e; [done|]. cbn [each]. unfold mbind, M_bind, check_chunk.
  destruct (negb _); [done|]. apply IH.
Qed.

(** The check does not panic, and what it accepts is one range. *)
Lemma contiguous_chain pageSz m prp1 prp2 size ls segs :
  16 ≤ page pageSz → mem_ok m → 0 < size → prp_segments pageSz m prp1 prp2 size = Ok (ls, segs) →
  Forall (usable m) segs →
  ∃ b, prpIsContiguousLocked pageSz m prp1 prp2 size = Ok b ∧ (b = true → chain prp1 segs).
Proof.
  intros Hp Hm Hsz Es Hs. unfold prpIsContiguousLocked. unfold prp_segments in Es.
  pose proof (Z.mod_pos_bound prp1 (page pageSz) ltac:(lia)) as Hmod. rewrite Z.geb_leb.
  set (first := page pageSz - prp1 mod page pageSz) in *.
  destruct (Z.leb_spec size first).
  { replace (size - Z.min first size) with 0 in Es by lia. injection Es as _ <-. by exists true. }
  rewrite Z.min_l in Es by lia. destruct (Z.eqb_spec (size - first) 0); [lia|].
  assert (mapped m prp1 first → u64 (prp1 + first) = prp1 + first) as Hu.
  { intros Hmap. destruct (mapped_bound m prp1 first Hm) as [? ?]; [lia|done|]. apply u64_small. unfold is_u. lia. }
  destruct (Z.leb_spec (size - first) (page pageSz)).
  { injection Es as _ <-. apply Forall_cons in Hs as [[Hs1 _] _]. rewrite Hu by done. eexists. split; [done|].
    intros E%Z.eqb_eq. cbn. split_and!; done || lia. }
  destruct (entries_bounds pageSz Hp (size - first)) as [Hent Hgt]; [lia|]. cbn zeta in Hent, Hgt.
  destruct (Z.eqb_spec prp2 0); [done|].
  destruct (list_pages _ _ _ _ _ _) as [[ls' segs']| |] eqn:El; [|done|done]. injection Es as <- <-.
  apply Forall_cons in Hs as [[Hs1 _] Hs]. rewrite Hu by done.
  assert (2 ≤ page pageSz / 8) by (apply Z.div_le_lower_bound; lia).
  unfold walkPRPListLocked. destruct (Z.leb_spec (size - first) 0); [lia|]. destruct (Z.eqb_spec prp2 0); [done|].
  destruct (Z.ltb_spec (page pageSz / 8) 2); [lia|].
  rewrite (walk_lists_each pageSz Hp (λ _, m) (check_chunk pageSz) (λ _, True) m _ _ _ _ ls' segs'); try done; try lia.
  pose proof (each_check_total pageSz segs' (prp1 + first)) as Hnp.
  destruct (each _ _ _) as [e' [[]| |]] eqn:Ee; [|by exists false|done].
  exists true. split; [done|]. intros _. split; [done|].
  apply (each_check pageSz m _ _ e'); try done. eapply list_pages_full; [done|exact El|lia..].
Qed.

(** * Whole transfers *)

(** The entries describe a buffer of [n] bytes in mapped memory; a buffer that
    is written does not meet its own list pages. *)
Record prp_buffer (pageSz : Z) (write : bool) m (prp1 prp2 n : Z) (ls : list Z) segs : Prop := {
  buffer_segs : prp_segments pageSz m prp1 prp2 n = Ok (ls, segs);
  buffer_good : Forall (good pageSz write m ls) segs;
  buffer_lists l : l ∈ ls → mapped m l (page pageSz);
}.

Lemma prp_segments_total pageSz m prp1 prp2 n ls segs :
  16 ≤ page pageSz → 0 < n → prp_segments pageSz m prp1 prp2 n = Ok (ls, segs) → total_of segs = n ∧ segs ≠ [].
Proof.
  intros Hp Hn E. unfold prp_segments in E. pose proof (Z.mod_pos_bound prp1 (page pageSz) ltac:(lia)) as Hmod.
  set (first := Z.min _ _) in *. destruct (Z.eqb_spec (n - first) 0).
  { injection E as _ <-. cbn. split; [lia|done]. }
  destruct (Z.leb_spec (n - first) (page pageSz)).
  { injection E as _ <-. cbn. split; [lia|done]. }
  destruct (entries_bounds pageSz Hp (n - first)) as [Hent Hgt]; [lia|]. cbn zeta in Hent, Hgt.
  destruct (prp2 =? 0); [done|]. destruct (list_pages _ _ _ _ _ _) as [[ls' segs']| |] eqn:El; [|done|done].
  injection E as _ <-. split; [|done]. cbn [total_of foldr snd]. fold (total_of segs').
  rewrite (list_pages_total pageSz Hp _ _ _ _ _ _ _ El) by lia. lia.
Qed.

Section buffer.
Variables (pageSz : Z) (m : T) (prp1 prp2 : Z) (ls : list Z) (segs : list (Z * Z)).
Hypotheses (Hpage : 16 ≤ page pageSz < 2^63) (Hm : mem_ok m).

Lemma writePRP_scatter d :
  is_bytes d → 0 < len d < 2^63 → prp_buffer pageSz true m prp1 prp2 (len d) ls segs →
  writePRP pageSz m prp1 prp2 d = (scatter m segs d, Ok d).
Proof.
  intros Hd Hlen [Hsegs Hgood Hls]. unfold writePRP, transferPRP.
  destruct (transfer_body_spec pageSz true ltac:(lia) m ls d prp1 prp2 segs) as (x & -> & Hx); try done.
  rewrite effects_scatter in Hx; [|eapply Forall_impl; [exact Hgood|]; intros s (_ & _ & ? & _); lia|done].
  injection Hx as -> ->. done.
Qed.
Lemma readPRP_gather d :
  is_bytes d → 0 < len d < 2^63 → prp_buffer pageSz false m prp1 prp2 (len d) ls segs →
  readPRP pageSz m prp1 prp2 d = (m, gather m segs) ∧ ∃ bs, gather m segs = Ok bs ∧ len bs = len d.
Proof.
  intros Hd Hlen [Hsegs Hgood Hls]. unfold readPRP, transferPRP.
  destruct (transfer_body_spec pageSz false ltac:(lia) m ls d prp1 prp2 segs) as (x & -> & Hx); try done.
  destruct (prp_segments_total pageSz m prp1 prp2 (len d) ls segs) as [Ht _]; [lia|lia|done|].
  destruct (effects_gather segs 0 d m) as (bs & -> & Hbs & Heff); try done; try lia.
  { eapply Forall_impl; [exact Hgood|]. intros s (? & _ & ? & _). split; [done|lia]. }
  rewrite Heff in Hx. injection Hx as Hx1 Hx2. rewrite Hx1, Hx2. split; [|exists bs; split; [done|lia]].
  unfold mbind, result_bind. do 2 f_equal. unfold overwrite. change (Z.to_nat 0) with 0%nat. rewrite take_0, Nat.sub_0_r, Nat.add_0_l, take_ge, drop_ge by lia.
  by rewrite app_nil_r.
Qed.
End buffer.
End claims.
