(* ===== verification/NvmeIO.v ===== *)
(** Read and write commands of the NVMe controller.

    [BlockBackendOk] says what the controller relies on: within the size of the
    device, reads and writes act on an array of bytes.  The theorems hold for
    any guest memory and any device with these laws: a command moves exactly
    the blocks it names between the device and the segments of its buffer,
    whether or not the buffer is contiguous and the transfer goes through a
    slice of guest memory. *)
From S2P Require Import Prelude KvmArm64 Regions RegionWrite PageTable ImageVm VirtMmio GuestMemory GuestViews NvmePrp Nvme.

Class BlockBackendOk (B : Type) `{BlockBackend B} := {
  backend_ok : B → Prop;
  disk : B → list Z;
  disk_bytes b : backend_ok b → is_bytes (disk b);
  read_disk b n off :
    backend_ok b → 0 ≤ off → 0 < n → off + n ≤ len (disk b) →
    ∃ e, backend_ReadAt b n off = (sub (disk b) (Z.to_nat off) (Z.to_nat n), e) ∧ e ≠ Some IOError;
  write_disk b d off :
    backend_ok b → is_bytes d → 0 ≤ off → 0 < len d → off + len d ≤ len (disk b) →
    ∃ b', backend_WriteAt b d off = (b', (len d, None)) ∧ backend_ok b' ∧
      disk b' = overwrite (disk b) (Z.to_nat off) d;
}.
#[global] Hint Mode BlockBackendOk ! - : typeclass_instances.

(** The blocks a command names. *)
Definition cmd_offset (cmd : command) : Z := Z.lor (cdw10 cmd) (Z.shiftl (cdw11 cmd) 32) * blockSize.
Definition cmd_count (cmd : command) : Z := (Z.land (cdw12 cmd) 0xffff + 1) * blockSize.

Section io.
Context {T I B : Type} `{GuestMemoryOk T, !GuestViews T, !GuestViewsOk T, !IRQController I, !MSIController I}
  `{BlockBackendOk B}.
Implicit Types (c : Controller T I B) (m : T) (b : B).

(** What a transfer leaves alone. *)
Record same_queues c c' : Prop := {
  same_heap : heap c' = heap c;
  same_map : queues c' = queues c;
  same_page : pageSz c' = pageSz c;
  same_irq : irq c' = irq c ∧ irqHigh c' = irqHigh c ∧ intMask c' = intMask c ∧ IRQ c' = IRQ c ∧ msi c' = msi c;
}.
#[local] Instance same_queues_refl : Reflexive same_queues.
Proof. by intros c. Qed.
#[local] Instance same_queues_trans : Transitive same_queues.
Proof. intros c1 c2 c3 [? ? ? (? & ? & ? & ? & ?)] [? ? ? (? & ? & ? & ? & ?)]. split; [congruence..|]. split_and!; congruence. Qed.

Record ctl_mem c : Prop := {
  ctl_mem_ok : mem_ok (mem c);
  ctl_page : 16 ≤ page (pageSz c) < 2^63;
}.

Lemma good_usable pageSz write m ls segs : Forall (good pageSz write m ls) segs → Forall (usable m) segs.
Proof. intros Hs. eapply Forall_impl; [exact Hs|]. intros s (? & _ & ? & _). split; [done|lia]. Qed.

(** The direct path is taken only for a buffer that is one range. *)
Lemma directBuffer_spec write cmd n ls segs c :
  ctl_mem c → is_u64 (prp1 cmd) → 0 < n < 2^63 →
  prp_buffer (pageSz c) write (mem c) (prp1 cmd) (prp2 cmd) n ls segs →
  ∃ w, directBuffer n cmd c = (c, Ok w) ∧
    match w with None => True | Some w => view_of (mem c) w (prp1 cmd) n ∧ chain (prp1 cmd) segs end.
Proof.
  intros [Hm Hp] Hprp Hn [Hsegs Hgood Hls]. pose proof (good_usable _ _ _ _ _ Hgood) as Hus.
  unfold directBuffer, gets, mbind, M_bind, Datatypes.id. destruct (negb slicer || (n =? 0)); [by exists None|].
  destruct (prp_segments_total _ _ _ _ _ _ _ (proj1 Hp) (proj1 Hn) Hsegs) as [Ht Hne].
  assert (prp1 cmd ≠ 0) as Hnz.
  { destruct (prp_segments_head _ _ _ _ _ _ _ Hsegs) as [segs' ->]. by apply Forall_cons in Hgood as [(_ & ? & _) _]. }
  destruct (Z.eqb_spec (prp1 cmd) 0); [done|].
  destruct (contiguous_chain (pageSz c) (mem c) (prp1 cmd) (prp2 cmd) n ls segs) as (k & -> & Hk); [lia|done|lia|done|done|].
  cbn [lift]. destruct k; cbn [negb]; [|by exists None]. specialize (Hk eq_refl).
  pose proof (chain_mapped segs (mem c) (prp1 cmd) Hus Hk Hne) as Hmap. rewrite Ht in Hmap.
  destruct (slice_mapped (mem c) (prp1 cmd) n Hm (proj1 Hn) Hmap) as [w Hw]. rewrite Hw. exists (Some w).
  split; [done|]. split; [|done]. by apply slice_view.
Qed.

Lemma length_pad d n : len d ≤ n → len (d ++ replicate (Z.to_nat (n - len d)) 0) = n.
Proof. intros Hd. rewrite length_app, length_replicate. lia. Qed.
Lemma replicate_bytes n : is_bytes (replicate n 0).
Proof. apply Forall_replicate. done. Qed.

(** Reading from the device. *)
Lemma ioRead_spec b off n cmd ls segs buf c :
  ctl_mem c → backend_ok b → is_u64 (prp1 cmd) → 0 < n < 2^63 → 0 ≤ off → off + n ≤ len (disk b) →
  prp_buffer (pageSz c) true (mem c) (prp1 cmd) (prp2 cmd) n ls segs →
  ∃ c', ioRead_ b off n cmd buf c = (c', Ok (0, 0)) ∧
    mem c' = scatter (mem c) segs (sub (disk b) (Z.to_nat off) (Z.to_nat n)) ∧ backend c' = backend c ∧ same_queues c c'.
Proof.
  intros Hc Hb Hprp Hn Ho Hfit Hbuf. destruct (directBuffer_spec true cmd n ls segs c Hc Hprp Hn Hbuf) as (w & Ew & Hw).
  destruct (read_disk b n off Hb Ho (proj1 Hn) Hfit) as (e & Er & He). set (d := sub _ _ _) in *.
  assert (len d = n) as Hd by (unfold d; rewrite length_sub; lia).
  assert (is_bytes d) as Hdb by (apply is_bytes_sub, disk_bytes, Hb).
  unfold ioRead_, readBackendToPRP, mbind, M_bind. rewrite Ew, Er, Hd. rewrite (Z.gtb_ltb n n), Z.ltb_irrefl.
  rewrite Z.sub_diag. cbn [Z.to_nat replicate]. rewrite app_nil_r. destruct w as [w|].
  - destruct Hw as [Hw Hchain]. destruct Hbuf as [Hsegs Hgood _]. destruct Hc as [Hm Hp].
    destruct (prp_segments_total _ _ _ _ _ _ _ (proj1 Hp) (proj1 Hn) Hsegs) as [Ht Hne].
    assert (view_write (mem c) w 0 d = scatter (mem c) segs d) as Hv.
    { pose proof (good_usable _ _ _ _ _ Hgood) as Hus.
      rewrite (view_update (mem c) w (prp1 cmd) n) by (done || lia). rewrite Z.add_0_r.
      symmetry. apply scatter_chain; try done; [lia|eapply Forall_impl; [exact Hus|]; by intros s [_ ?]|].
      rewrite Hd, <-Ht. by apply chain_mapped. }
    destruct e as [[|]|]; [|done|].
    all: cbn; rewrite Hv; eexists; split; [done|]; cbn; split_and!; [done|done|by split].
  - destruct Hc as [Hm Hp].
    pose proof (writePRP_scatter (pageSz c) (mem c) (prp1 cmd) (prp2 cmd) ls segs Hp Hm d Hdb) as Ewr.
    rewrite Hd in Ewr. specialize (Ewr Hn Hbuf).
    destruct e as [[|]|]; [|done|].
    all: unfold keep_scratch, recordIOLocked, nvmeWritePRP, modify; cbn; rewrite Ewr; eexists; split; [done|]; cbn; split_and!; [done|done|by split].
Qed.

(** Writing to the device. *)
Lemma ioWrite_spec b off n cmd ls segs buf c :
  ctl_mem c → backend c = Some b → backend_ok b → is_u64 (prp1 cmd) → 0 < n < 2^63 → 0 ≤ off → off + n ≤ len (disk b) →
  is_bytes buf → len buf = n →
  prp_buffer (pageSz c) false (mem c) (prp1 cmd) (prp2 cmd) n ls segs →
  ∃ c' b' d, ioWrite_ b off n cmd buf c = (c', Ok (0, 0)) ∧ gather (mem c) segs = Ok d ∧ len d = n ∧
    mem c' = mem c ∧ backend c' = Some b' ∧ backend_ok b' ∧ disk b' = overwrite (disk b) (Z.to_nat off) d ∧ same_queues c c'.
Proof.
  intros Hc Hcb Hb Hprp Hn Ho Hfit Hbb Hbl Hbuf. destruct (directBuffer_spec false cmd n ls segs c Hc Hprp Hn Hbuf) as (w & Ew & Hw).
  destruct Hc as [Hm Hp].
  pose proof (readPRP_gather (pageSz c) (mem c) (prp1 cmd) (prp2 cmd) ls segs Hp Hm buf Hbb) as Erd.
  rewrite Hbl in Erd. destruct (Erd Hn Hbuf) as (Eprp & d & Hg & Hd). clear Erd.
  assert (is_bytes d) as Hdb by (by eapply gather_bytes).
  destruct (write_disk b d off Hb Hdb Ho ltac:(lia) ltac:(lia)) as (b' & Ewr & Hb' & Hdisk).
  unfold ioWrite_, writeBackendFromPRP, mbind, M_bind. rewrite Ew. destruct w as [w|].
  - destruct Hw as [Hw Hchain]. destruct Hbuf as [Hsegs Hgood _].
    destruct (prp_segments_total _ _ _ _ _ _ _ (proj1 Hp) (proj1 Hn) Hsegs) as [Ht Hne].
    assert (view_read (mem c) w = d) as Hv.
    { pose proof (good_usable _ _ _ _ _ Hgood) as Hus. pose proof (view_len (mem c) w _ _ Hm Hw) as Hvl.
      pose proof (view_bytes (mem c) w (prp1 cmd) n 0 n Hm Hw) as Hvb.
      rewrite (gather_chain segs (mem c) (prp1 cmd) n) in Hg; try done; try lia.
      - rewrite Z.add_0_r in Hvb. rewrite Hvb in Hg by lia. injection Hg as <-. unfold sub. rewrite drop_0, take_ge; [done|lia].
      - eapply Forall_impl; [exact Hus|]. by intros s [_ ?].
      - rewrite <-Ht. by apply chain_mapped. }
    unfold gets, write_backend, Datatypes.id. rewrite Hv, Ewr, Hd, Z.eqb_refl. cbn.
    eexists _, b', d. split; [done|]. cbn. split_and!; [done|done|done|done|done|done|by split].
  - unfold nvmeReadPRP, write_backend. cbn. rewrite Eprp, Hg. cbn. rewrite Ewr.
    eexists _, b', d. split; [done|]. cbn. split_and!; [done|done|done|done|done|done|by split].
Qed.

(** * Commands *)

(** A command for blocks of the device. *)
Record io_command b (cmd : command) : Prop := {
  io_u64 : is_u64 (prp1 cmd);
  io_fields : is_u32 (cdw10 cmd) ∧ is_u32 (cdw11 cmd) ∧ is_u32 (cdw12 cmd);
  io_fits : cmd_offset cmd + cmd_count cmd ≤ len (disk b) < 2^63;
}.

Lemma cmd_bounds b cmd :
  io_command b cmd → 0 ≤ cmd_offset cmd ∧ 0 < cmd_count cmd < 2^63 ∧ i64 (u64 (cmd_offset cmd)) = cmd_offset cmd.
Proof.
  intros [_ (H10 & H11 & H12) Hfit]. unfold cmd_offset, cmd_count, blockSize in *.
  assert (0 ≤ Z.lor (cdw10 cmd) (Z.shiftl (cdw11 cmd) 32)) as Hlba.
  { apply Z.lor_nonneg. split; [apply H10|]. apply Z.shiftl_nonneg, H11. }
  assert (0 ≤ Z.land (cdw12 cmd) 65535) as Hcnt by (apply Z.land_nonneg; right; done).
  split_and!; [lia|lia|lia|]. set (off := Z.lor _ _ * 512) in *. unfold i64, signed.
  rewrite (u64_small off) by (unfold is_u; lia). rewrite Z.mod_small by lia. change (64 - 1) with 63. destruct (Z.ltb_spec off (2^63)); lia.
Qed.

Lemma scratchLocked_spec n c :
  0 < n →
  ∃ c' buf, scratchLocked n c = (c', Ok buf) ∧ (is_bytes (scratch c) → is_bytes buf) ∧ len buf = n ∧
    mem c' = mem c ∧ backend c' = backend c ∧ same_queues c c'.
Proof.
  intros Hn. unfold scratchLocked. do 2 eexists. split; [done|]. cbn. destruct (Z.ltb_spec (len (scratch c)) n).
  - rewrite take_ge by (rewrite length_replicate; lia). rewrite length_replicate.
    split_and!; [intros _; apply replicate_bytes|lia|done|done|by split].
  - rewrite length_take. split_and!; [auto with go|lia|done|done|by split].
Qed.

Lemma executeIO_read b cmd ls segs c :
  ctl_mem c → backend c = Some b → backend_ok b → io_command b cmd → opcode cmd = ioRead →
  prp_buffer (pageSz c) true (mem c) (prp1 cmd) (prp2 cmd) (cmd_count cmd) ls segs →
  ∃ c', executeIOLocked cmd c = (c', Ok (0, 0)) ∧
    mem c' = scatter (mem c) segs (sub (disk b) (Z.to_nat (cmd_offset cmd)) (Z.to_nat (cmd_count cmd))) ∧
    backend c' = Some b ∧ same_queues c c'.
Proof.
  intros Hc Hb Hbok Hio Hop Hbuf. pose proof Hio as [Hprp _ Hfit]. destruct (cmd_bounds b cmd Hio) as (Hoff & Hcnt & Hi64).
  unfold executeIOLocked, gets, mbind, M_bind, Datatypes.id. rewrite Hb, Hop.
  change (ioRead =? ioFlush) with false. change (ioRead =? ioRead) with true. cbn iota.
  fold (cmd_count cmd) (cmd_offset cmd). rewrite Hi64.
  destruct (scratchLocked_spec (cmd_count cmd) c (proj1 Hcnt)) as (c1 & buf & -> & _ & _ & Em & Eb & Hq).
  assert (ctl_mem c1) as Hc1 by (destruct Hc; split; [by rewrite Em|by rewrite (same_page _ _ Hq)]).
  rewrite <-Em, <-(same_page _ _ Hq) in Hbuf.
  destruct (ioRead_spec b (cmd_offset cmd) (cmd_count cmd) cmd ls segs buf c1) as (c' & -> & Hm' & Hb' & Hq'); try done; try lia.
  exists c'. split_and!; [done|by rewrite Hm', Em|by rewrite Hb', Eb|by etrans].
Qed.
Lemma executeIO_write b cmd ls segs c :
  ctl_mem c → is_bytes (scratch c) → backend c = Some b → backend_ok b → io_command b cmd → opcode cmd = ioWrite →
  prp_buffer (pageSz c) false (mem c) (prp1 cmd) (prp2 cmd) (cmd_count cmd) ls segs →
  ∃ c' b' d, executeIOLocked cmd c = (c', Ok (0, 0)) ∧ gather (mem c) segs = Ok d ∧ len d = cmd_count cmd ∧
    mem c' = mem c ∧ backend c' = Some b' ∧ backend_ok b' ∧
    disk b' = overwrite (disk b) (Z.to_nat (cmd_offset cmd)) d ∧ same_queues c c'.
Proof.
  intros Hc Hs Hb Hbok Hio Hop Hbuf. pose proof Hio as [Hprp _ Hfit]. destruct (cmd_bounds b cmd Hio) as (Hoff & Hcnt & Hi64).
  unfold executeIOLocked, gets, mbind, M_bind, Datatypes.id. rewrite Hb, Hop.
  change (ioWrite =? ioFlush) with false. change (ioWrite =? ioRead) with false. change (ioWrite =? ioWrite) with true. cbn iota.
  fold (cmd_count cmd) (cmd_offset cmd). rewrite Hi64.
  destruct (scratchLocked_spec (cmd_count cmd) c (proj1 Hcnt)) as (c1 & buf & -> & Hbb & Hbl & Em & Eb & Hq).
  assert (ctl_mem c1) as Hc1 by (destruct Hc; split; [by rewrite Em|by rewrite (same_page _ _ Hq)]).
  rewrite <-Em, <-(same_page _ _ Hq) in Hbuf.
  destruct (ioWrite_spec b (cmd_offset cmd) (cmd_count cmd) cmd ls segs buf c1)
    as (c' & b' & d & -> & Hg & Hd & Hm' & Hb' & Hbok' & Hdisk & Hq'); try done; try lia; [by rewrite Eb|by apply Hbb|].
  exists c', b', d. rewrite <-Em. split_and!; [done|done|done|done|done|done|done|by etrans].
Qed.
End io.

(** * A disk image behind the controller *)

Definition io_error_of (e : option string) : option io_error :=
  e ← e; Some (if String.eqb e Regions.EOF then EOF else IOError).
(** An access that never returns has no result to report; the laws below are
    about accesses that do. *)
#[export] Instance image_backend : BlockBackend image := {
  backend_ReadAt vm n off :=
    match VM.ReadAt vm (replicate (Z.to_nat n) 0) off with
    | Some (p, k, e) => (take (Z.to_nat k) p, io_error_of e)
    | None => ([], Some IOError)
    end;
  backend_WriteAt vm p off :=
    match VM.WriteAt vm p off with
    | Some (vm, k, e) => (vm, (k, io_error_of e))
    | None => (vm, (0, Some IOError))
    end;
  backend_Size vm := totalSize vm;
}.
#[export] Instance image_backend_ok : BlockBackendOk image.
Proof.
  refine {| backend_ok vm := (∃ n, vm_ok n vm) ∧ is_bytes (contents vm); disk vm := contents vm |}.
  - by intros vm [_ ?].
  - intros vm n off [[k Hok] _] Ho Hn Hfit. rewrite (length_contents k vm Hok) in Hfit. cbn [backend_ReadAt image_backend]. unfold VM.ReadAt.
    assert (length (replicate (Z.to_nat n) 0) = Z.to_nat n) as Hl by apply length_replicate.
    rewrite (read_loop_spec _ k) by (done || lia). rewrite Hl. exists None. split; [|done]. f_equal.
    apply take_ge. unfold sub. rewrite length_take. lia.
  - intros vm d off [[k Hok] Hb] Hd Ho Hn Hfit. rewrite (length_contents k vm Hok) in Hfit. cbn [backend_WriteAt image_backend]. unfold VM.WriteAt.
    destruct (write_loop_spec (S (length d)) k vm d off 0) as (vm' & -> & _ & Hok' & _ & _ & Hc); try done; try lia.
    exists vm'. split_and!; [done|by exists k|rewrite Hc; by apply is_bytes_overwrite|done].
Defined.

(** * What the commands do *)

Section commands.
Context {T I B : Type} `{GuestMemoryOk T, !GuestViews T, !GuestViewsOk T, !IRQController I, !MSIController I}
  `{BlockBackendOk B}.

(** C6: A read command whose blocks are on the device and whose buffer is
    mapped succeeds; afterwards the segments of the buffer hold exactly these
    blocks, and memory that the buffer does not meet and the device are as
    before.  The buffer may be one page, two, or a chain of list pages, and the
    data may go through a slice of guest memory or a scratch buffer. *)
Theorem nvme_read_blocks (c : Controller T I B) b cmd ls segs :
  ctl_mem c → backend c = Some b → backend_ok b → io_command b cmd → opcode cmd = ioRead →
  prp_buffer (pageSz c) true (mem c) (prp1 cmd) (prp2 cmd) (cmd_count cmd) ls segs → disjoint_segs segs →
  ∃ c', executeIOLocked cmd c = (c', Ok (0, 0)) ∧
    gather (mem c') segs = Ok (sub (disk b) (Z.to_nat (cmd_offset cmd)) (Z.to_nat (cmd_count cmd))) ∧
    backend c' = Some b ∧ heap c' = heap c ∧
    ∀ a n, mapped (mem c) a n → 0 ≤ n → Forall (λ t, a + n ≤ t.1 ∨ t.1 + t.2 ≤ a) segs →
      ReadIPA (mem c') a n = ReadIPA (mem c) a n.
Proof.
  intros Hc Hb Hbok Hio Hop Hbuf Hdis. destruct (cmd_bounds b cmd Hio) as (Hoff & Hcnt & _).
  destruct (executeIO_read b cmd ls segs c) as (c' & E & Hm & Hb' & Hq); try done.
  pose proof Hc as [Hmem Hp]. pose proof Hbuf as [Hsegs Hgood _]. pose proof (good_usable _ _ _ _ _ Hgood) as Hus.
  destruct (prp_segments_total (pageSz c) (mem c) (prp1 cmd) (prp2 cmd) (cmd_count cmd) ls segs) as [Ht _]; [lia|lia|done|].
  destruct Hio as [_ _ Hfit]. set (d := sub _ _ _) in *.
  assert (is_bytes d) as Hd by (apply is_bytes_sub, disk_bytes, Hbok).
  assert (total_of segs = len d) as Hl by (unfold d; rewrite length_sub; lia).
  exists c'. split_and!; [done| |done|apply Hq|].
  - rewrite Hm. by apply scatter_gather.
  - intros a n Ha Hn Hap. rewrite Hm. by apply scatter_other.
Qed.

(** C14: A write command whose blocks are on the device and whose buffer is
    mapped succeeds; the bytes of the buffer's segments, in order, replace the
    blocks on the device, and nothing else of the device or of memory changes. *)
Theorem nvme_write_blocks (c : Controller T I B) b cmd ls segs :
  ctl_mem c → is_bytes (scratch c) → backend c = Some b → backend_ok b → io_command b cmd → opcode cmd = ioWrite →
  prp_buffer (pageSz c) false (mem c) (prp1 cmd) (prp2 cmd) (cmd_count cmd) ls segs →
  ∃ c' b' d, executeIOLocked cmd c = (c', Ok (0, 0)) ∧ gather (mem c) segs = Ok d ∧ len d = cmd_count cmd ∧
    mem c' = mem c ∧ backend c' = Some b' ∧ disk b' = overwrite (disk b) (Z.to_nat (cmd_offset cmd)) d.
Proof.
  intros Hc Hs Hb Hbok Hio Hop Hbuf.
  destruct (executeIO_write b cmd ls segs c) as (c' & b' & d & ? & ? & ? & ? & ? & ? & ? & ?); try done.
  by exists c', b', d.
Qed.

(** C4: What one buffer wrote another one reads: after a write command and a
    read command for the same blocks the segments of the second buffer hold
    what the segments of the first one held. *)
Theorem nvme_write_then_read (c : Controller T I B) b w r lsw segsw lsr segsr :
  ctl_mem c → is_bytes (scratch c) → backend c = Some b → backend_ok b →
  io_command b w → opcode w = ioWrite → io_command b r → opcode r = ioRead →
  cmd_offset r = cmd_offset w → cmd_count r = cmd_count w →
  prp_buffer (pageSz c) false (mem c) (prp1 w) (prp2 w) (cmd_count w) lsw segsw →
  prp_buffer (pageSz c) true (mem c) (prp1 r) (prp2 r) (cmd_count r) lsr segsr → disjoint_segs segsr →
  ∃ c1 c2, executeIOLocked w c = (c1, Ok (0, 0)) ∧ executeIOLocked r c1 = (c2, Ok (0, 0)) ∧
    gather (mem c2) segsr = gather (mem c) segsw.
Proof.
  intros Hc Hs Hb Hbok Hw Hopw Hr Hopr Eoff Ecnt Hbufw Hbufr Hdis. destruct (cmd_bounds b w Hw) as (Hoff & Hcnt & _).
  destruct (executeIO_write b w lsw segsw c) as (c1 & b1 & d & E1 & Hg & Hd & Hm1 & Hb1 & Hbok1 & Hdisk & Hq1); try done.
  assert (len (disk b1) = len (disk b)) as Hlen by (rewrite Hdisk, length_overwrite; done).
  assert (io_command b1 r) as Hr1 by (destruct Hr; split; [done|done|by rewrite Hlen]).
  assert (ctl_mem c1) as Hc1 by (destruct Hc; split; [by rewrite Hm1|by rewrite (same_page _ _ Hq1)]).
  rewrite <-Hm1, <-(same_page _ _ Hq1) in Hbufr.
  destruct (executeIO_read b1 r lsr segsr c1) as (c2 & E2 & Hm2 & _); try done.
  exists c1, c2. split_and!; [done|done|]. rewrite Hg, Hm2, Hdisk, Eoff, Ecnt.
  destruct Hw as [_ _ Hfit]. rewrite <-Hd, Nat2Z.id, sub_overwrite_same by lia.
  destruct Hc1 as [Hmem1 Hp1]. destruct Hbufr as [Hsegs Hgood _].
  destruct (prp_segments_total (pageSz c1) (mem c1) (prp1 r) (prp2 r) (cmd_count r) lsr segsr) as [Ht _]; [lia|lia|done|].
  apply scatter_gather; try done; [|lia|exact (good_usable _ _ _ _ _ Hgood)].
  destruct Hc as [Hm _]. exact (gather_bytes segsw (mem c) d Hm Hg).
Qed.
End commands.

(** ** An arm64 guest with an image as its disk *)

Definition sample_memory : option VM := Some (mkVM 0x40000000 16384 (replicate (Z.to_nat 16384) 7)).
Definition sample_controller (vm : image) : Controller (option VM) (list (Z * bool)) image :=
  nvmeAttach sample_memory None (NewController None (Some vm)).
(** Nine blocks from block two, to two pages that do not follow each other. *)
Definition sample_read : command := mkCommand ioRead 1 1 0x40000000 0x40002000 2 0 8 0.
(** Nine blocks from block two, from one range. *)
Definition sample_write : command := mkCommand ioWrite 1 1 0x40001000 0x40002000 2 0 8 0.

Lemma sample_memory_ok vm : ctl_mem (sample_controller vm).
Proof.
  split; [|done]. assert (len (replicate (Z.to_nat 16384) 7) = 16384) as Hl by (rewrite length_replicate; lia).
  cbn [mem sample_controller nvmeAttach update eta_Controller sample_memory mem_ok arm64_memory_ok KvmArm64.vm_ok
    GuestPhysAddr MemorySize KvmArm64.mem]. rewrite Hl. split_and!; [lia|lia|done|]. by apply Forall_replicate.
Qed.
Lemma sample_mapped a n : 0x40000000 ≤ a → a + n ≤ 0x40000000 + 16384 → mapped sample_memory a n.
Proof. intros H1 H2. right. cbn. lia. Qed.
Lemma sample_image : ∃ vm, VM.NewVirtualMemory 8192 4096 = Ok vm ∧ backend_ok vm ∧ disk vm = replicate (Z.to_nat 8192) 0.
Proof.
  set (vm := mkVirtualMemory 4096 (NewMultiLevelPageTable 2) (NewMultiLevelPageTable 2) 8192 0 0 0 : image).
  destruct (new_vm_ok 8192 4096 vm ltac:(done) ltac:(done) eq_refl) as (Hok & _ & _ & Hc).
  exists vm. split; [reflexivity|]. split; [|exact Hc]. split; [by eexists|]. rewrite Hc. apply replicate_bytes.
Qed.
Lemma sample_io (vm : image) : disk vm = replicate (Z.to_nat 8192) 0 → io_command vm sample_read ∧ io_command vm sample_write.
Proof.
  intros Hd. assert (len (disk vm) = 8192) as Hl by (rewrite Hd, length_replicate; lia).
  split; (split; [done|done|]); rewrite Hl; [change (cmd_offset sample_read + cmd_count sample_read) with 5632; lia|].
  change (cmd_offset sample_write + cmd_count sample_write) with 5632. lia.
Qed.
Lemma sample_good write s : 0x40000000 ≤ s.1 → s.1 + s.2 ≤ 0x40000000 + 16384 → 0 < s.2 ≤ 4096 → good 4096 write sample_memory [] s.
Proof. intros H1 H2 H3. split_and!; [by apply sample_mapped|lia|lia|change (page 4096) with 4096; lia|]. intros l Hl. by apply elem_of_nil in Hl. Qed.
Lemma sample_buffers :
  prp_buffer 4096 true sample_memory (prp1 sample_read) (prp2 sample_read) (cmd_count sample_read) []
    [(0x40000000, 4096); (0x40002000, 512)] ∧
  prp_buffer 4096 false sample_memory (prp1 sample_write) (prp2 sample_write) (cmd_count sample_write) []
    [(0x40001000, 4096); (0x40002000, 512)] ∧
  disjoint_segs [(0x40000000, 4096); (0x40002000, 512)].
Proof.
  split_and!.
  - split; [reflexivity| |by intros l Hl%elem_of_nil]. repeat (apply Forall_cons_2; [apply sample_good; cbn; lia|]). apply Forall_nil_2.
  - split; [reflexivity| |by intros l Hl%elem_of_nil]. repeat (apply Forall_cons_2; [apply sample_good; cbn; lia|]). apply Forall_nil_2.
  - intros [|[|i]] [|[|j]] s t Hij Hs Ht; try done; injection Hs as <-; injection Ht as <-; cbn; lia.
Qed.

Lemma nvme_read_blocks_witness :
  ∃ vm c', VM.NewVirtualMemory 8192 4096 = Ok vm ∧ executeIOLocked sample_read (sample_controller vm) = (c', Ok (0, 0)) ∧
    gather (Nvme.mem c') [(0x40000000, 4096); (0x40002000, 512)] = Ok (sub (disk vm) 1024 4608).
Proof.
  destruct sample_image as (vm & Hnew & Hok & Hd). destruct sample_buffers as (Hr & _ & Hdis).
  destruct (nvme_read_blocks (sample_controller vm) vm sample_read [] _ (sample_memory_ok vm) eq_refl Hok
    (proj1 (sample_io vm Hd)) eq_refl Hr Hdis) as (c' & E & Hg & _).
  exists vm, c'. split_and!; [done|done|exact Hg].
Defined.
Lemma nvme_write_blocks_witness :
  ∃ vm c' vm' d, VM.NewVirtualMemory 8192 4096 = Ok vm ∧ executeIOLocked sample_write (sample_controller vm) = (c', Ok (0, 0)) ∧
    gather sample_memory [(0x40001000, 4096); (0x40002000, 512)] = Ok d ∧ backend c' = Some vm' ∧
    disk vm' = overwrite (disk vm) 1024 d.
Proof.
  destruct sample_image as (vm & Hnew & Hok & Hd). destruct sample_buffers as (_ & Hw & _).
  destruct (nvme_write_blocks (sample_controller vm) vm sample_write [] _ (sample_memory_ok vm) ltac:(constructor) eq_refl Hok
    (proj2 (sample_io vm Hd)) eq_refl Hw) as (c' & vm' & d & E & Hg & _ & _ & Hb & Hdisk).
  exists vm, c', vm', d. split_and!; [done|done|exact Hg|done|exact Hdisk].
Defined.
Lemma nvme_write_then_read_witness :
  ∃ vm c1 c2, VM.NewVirtualMemory 8192 4096 = Ok vm ∧ executeIOLocked sample_write (sample_controller vm) = (c1, Ok (0, 0)) ∧
    executeIOLocked sample_read c1 = (c2, Ok (0, 0)) ∧
    gather (Nvme.mem c2) [(0x40000000, 4096); (0x40002000, 512)] = gather sample_memory [(0x40001000, 4096); (0x40002000, 512)].
Proof.
  destruct sample_image as (vm & Hnew & Hok & Hd). destruct sample_buffers as (Hr & Hw & Hdis). destruct (sample_io vm Hd) as [Hir Hiw].
  destruct (nvme_write_then_read (sample_controller vm) vm sample_write sample_read [] _ [] _ (sample_memory_ok vm) ltac:(constructor)
    eq_refl Hok Hiw eq_refl Hir eq_refl eq_refl eq_refl Hw Hr Hdis) as (c1 & c2 & E1 & E2 & Hg).
  exists vm, c1, c2. split_and!; [done|done|done|exact Hg].
Defined.
