(* ===== verification/NvmeQueue.v ===== *)
(** Queues and interrupts of the NVMe controller.

    Theorems over [Nvme]: a submission queue whose tail is in range is emptied
    in one turn per entry; with a tail out of range, or a queue created with
    the largest size, a doorbell never completes; completions reach the driver
    in order with the right phase; and the interrupt line follows the
    completion queues. *)
From S2P Require Import Prelude KvmArm64 VirtMmio GuestMemory GuestViews NvmePrp Nvme.

Section queues.
Context {T I B : Type} `{!GuestMemory T, !GuestViews T, !IRQController I, !MSIController I, !BlockBackend B}.
Implicit Types c : Controller T I B.

(** * What commands leave alone *)

(** The queues and the interrupt state are those of [c0]. *)
Record untouched c0 c : Prop := {
  un_heap : heap c = heap c0;
  un_map : queues c = queues c0;
  un_irq : irq c = irq c0 ∧ irqHigh c = irqHigh c0 ∧ intMask c = intMask c0 ∧ IRQ c = IRQ c0 ∧ msi c = msi c0 ∧ cc c = cc c0;
}.

Ltac untouched_step :=
  lazymatch goal with
  | |- preserves _ (modify _) => apply preserves_modify; intros ? [? ? (? & ? & ? & ? & ? & ?)]
  | |- untouched _ (if ?b then _ else _) => destruct b
  | |- untouched _ _ => split; [done..|by split_and!]
  | |- _ => preserves_step
  end.

Lemma executeIO_untouched c0 cmd : preserves (untouched c0) (executeIOLocked cmd).
Proof.
  assert (∀ cmd d, preserves (untouched c0) (nvmeWritePRP cmd d)) as Hw.
  { intros cmd' d c [? ? (? & ? & ? & ? & ? & ?)]. unfold nvmeWritePRP. destruct (writePRP _ _ _ _ _). untouched_step. }
  assert (∀ cmd d, preserves (untouched c0) (nvmeReadPRP cmd d)) as Hr.
  { intros cmd' d c [? ? (? & ? & ? & ? & ? & ?)]. unfold nvmeReadPRP. destruct (readPRP _ _ _ _ _). untouched_step. }
  assert (∀ b d o, preserves (untouched c0) (write_backend b d o)) as Hb.
  { intros b d o c [? ? (? & ? & ? & ? & ? & ?)]. unfold write_backend. destruct (backend_WriteAt _ _ _). untouched_step. }
  assert (∀ n, preserves (untouched c0) (scratchLocked n)) as Hs.
  { intros n c [? ? (? & ? & ? & ? & ? & ?)]. untouched_step. }
  unfold executeIOLocked, ioRead_, ioWrite_, readBackendToPRP, writeBackendFromPRP, directBuffer, keep_scratch, recordIOLocked.
  repeat first [apply Hw|apply Hr|apply Hb|apply Hs|untouched_step].
Qed.

(** * One turn of the loop *)

Lemma queue_at_alter c f r r' :
  queue_at (c <| heap := alter f r (heap c) |>) r' =
    if decide (r = r' ∧ (r < length (heap c))%nat) then f (queue_at c r') else queue_at c r'.
Proof.
  unfold queue_at. cbn [heap update eta_Controller]. destruct (decide (r = r' ∧ _)) as [[<- Hr]|Hne].
  - rewrite list_lookup_alter_eq. by destruct (lookup_lt_is_Some_2 (heap c) r Hr) as [q ->].
  - destruct (decide (r = r')) as [<-|Hrr]; [|by rewrite list_lookup_alter_ne].
    rewrite list_lookup_alter_eq, lookup_ge_None_2 by lia. done.
Qed.
(** A field that the update leaves alone. *)
Lemma queue_at_field {A} (g : queue → A) c f r r' :
  (∀ q, g (f q) = g q) → g (queue_at (c <| heap := alter f r (heap c) |>) r') = g (queue_at c r').
Proof. intros Hg. rewrite queue_at_alter. by destruct (decide _). Qed.

(** The submission side of a queue. *)
Definition sq_side (q : queue) : Z * Z * Z * Z * Z * Z := (id q, size q, sqAddr q, cqID q, sqHead q, sqTail q).

Lemma writeCompletion_sq cq sqid h cd res st c r :
  sq_side (queue_at (writeCompletionLocked cq sqid h cd res st c).1 r) = sq_side (queue_at c r) ∧
  length (heap (writeCompletionLocked cq sqid h cd res st c).1) = length (heap c).
Proof.
  unfold writeCompletionLocked, gets, mbind, M_bind, Datatypes.id, modify, writeMem, lift, set_queue.
  set (raw := completion _ _ _ _ _ _).
  assert (∀ m r, queue_at (c <| mem := m |>) r = queue_at c r) as Hm by done.
  assert (∀ m tail, let c1 := c <| mem := m |> in let c2 := c1 <| heap := alter (λ q, q <| cqTail := tail |>
      <| cqPending := if cqPending q <? size q then u16 (cqPending q + 1) else cqPending q |>
      <| cqPhase := if tail =? 0 then negb (cqPhase q) else cqPhase q |>) cq (heap c1) |> in
      sq_side (queue_at c2 r) = sq_side (queue_at c r) ∧ length (heap c2) = length (heap c)) as Hset.
  { intros m tail c1 c2. split; [|apply length_alter]. unfold c2. by rewrite queue_at_field. }
  destruct (cqMem (queue_at c cq)) as [w|]; [destruct (_ >=? _)|]; try destruct (WriteIPA _ _ _) as [m [[]| |]];
    unfold next_index; destruct (size (queue_at c cq) =? 0); try done; apply Hset.
Qed.

(** A turn on an I/O queue advances its head by one and keeps the rest of its
    submission side. *)
Lemma process_entry_io r c c' :
  (r < length (heap c))%nat → id (queue_at c r) ≠ adminQueueID → process_entry r c = (c', Ok tt) →
  let q := queue_at c r in
  size q ≠ 0 ∧ length (heap c') = length (heap c) ∧
  sq_side (queue_at c' r) = sq_side (q <| sqHead := u16 (sqHead q + 1) mod size q |>).
Proof.
  intros Hr Hid E q. unfold process_entry, mbind, M_bind, read_entry, gets, Datatypes.id in E. fold q in E, Hid.
  destruct (match queueSubmissionEntry c r (sqHead q) with Some raw => (c, Ok raw) | None => _ end)
    as [c1 [raw| |]] eqn:E1; [|done|done].
  assert (c1 = c) as -> by (destruct (queueSubmissionEntry _ _ _); congruence). clear E1. fold q in E.
  destruct (Z.eqb_spec (id q) adminQueueID); [done|]. cbn [andb] in E. unfold executeCommandLocked in E.
  destruct (Z.eqb_spec (id q) adminQueueID); [done|].
  pose proof (executeIO_untouched c (parseCommand raw) c ltac:(split; [done..|by split_and!])) as Hun.
  destruct (executeIOLocked (parseCommand raw) c) as [c2 [[res st]| |]]; [|done|done]. cbn [fst] in Hun.
  assert (queue_at c2 r = q) as Hq2 by (unfold queue_at; by rewrite (un_heap _ _ Hun)).
  unfold advance_head, gets, mbind, M_bind, Datatypes.id, lift, next_index in E. rewrite Hq2 in E.
  destruct (Z.eqb_spec (size q) 0) as [?|Hsz]; [done|]. unfold set_queue, modify in E.
  set (c3 := c2 <| heap := _ |>) in E.
  assert (queue_at c3 r = q <| sqHead := u16 (sqHead q + 1) mod size q |>) as Hq3.
  { unfold c3. rewrite queue_at_alter, Hq2, (un_heap _ _ Hun). by destruct (decide _) as [_|Hn]; [|destruct Hn]. }
  assert (length (heap c3) = length (heap c)) as Hl3 by (unfold c3; cbn; by rewrite length_alter, (un_heap _ _ Hun)).
  destruct (if id (queue_at c3 r) =? adminQueueID then Some r else queues c3 !! cqID (queue_at c3 r)) as [cq|]; [|done].
  pose proof (writeCompletion_sq cq (id (queue_at c3 r)) (sqHead (queue_at c3 r)) (cid (parseCommand raw)) res st c3 r) as [Hs Hl].
  rewrite E in Hs, Hl. cbn [fst] in Hs, Hl. rewrite Hs, Hl, Hq3. done.
Qed.

(** * Emptying a queue *)

Lemma small_multiple t n : Z.abs (t * n) < n → t = 0.
Proof. intros Ht. destruct (decide (t = 0)); [done|]. rewrite Z.abs_mul in Ht. nia. Qed.

(** An I/O queue whose head is in range. *)
Record io_queue c (r : nat) : Prop := {
  ioq_ref : (r < length (heap c))%nat;
  ioq_id : id (queue_at c r) ≠ adminQueueID;
  ioq_size : 0 < size (queue_at c r) < 2^16;
  ioq_head : 0 ≤ sqHead (queue_at c r) < size (queue_at c r);
}.
(** The entries between head and tail. *)
Definition waiting (q : queue) : Z := (sqTail q - sqHead q) mod size q.

Lemma process_entry_next r c c' :
  io_queue c r → process_entry r c = (c', Ok tt) →
  io_queue c' r ∧ size (queue_at c' r) = size (queue_at c r) ∧ sqTail (queue_at c' r) = sqTail (queue_at c r) ∧
  sqHead (queue_at c' r) = (sqHead (queue_at c r) + 1) mod size (queue_at c r).
Proof.
  intros [Hr Hid Hsz Hh] E. destruct (process_entry_io r c c' Hr Hid E) as (_ & Hl & Hs). cbn zeta in Hs.
  unfold sq_side in Hs. cbn [id size sqAddr cqID sqHead sqTail update eta_queue] in Hs. injection Hs as Ei Es _ _ Eh Et.
  rewrite u16_small in Eh by (unfold is_u; lia).
  split_and!; [|done|done|done]. split; [by rewrite Hl|by rewrite Ei|by rewrite Es|].
  rewrite Es, Eh. apply Z.mod_pos_bound. lia.
Qed.
Lemma waiting_next h t n : 0 < n → 0 ≤ h < n → 0 ≤ t < n → h ≠ t → (t - (h + 1) mod n) mod n = (t - h) mod n - 1.
Proof.
  intros Hn Hh Ht Hne. rewrite Zminus_mod_idemp_r. replace (t - (h + 1)) with (t - h - 1) by lia.
  destruct (decide (h < t)).
  - rewrite !Z.mod_small by lia. lia.
  - rewrite <-(Z.mod_add (t - h - 1) 1), <-(Z.mod_add (t - h) 1) by lia. rewrite !Z.mod_small by lia. lia.
Qed.

Lemma process_drains n r c :
  io_queue c r → 0 ≤ sqTail (queue_at c r) < size (queue_at c r) → waiting (queue_at c r) = Z.of_nat n →
  ∃ c' res, processSubmissionQueueLocked (S n) r c = Some (c', res) ∧
    (res = Ok tt → ∃ c1, io_queue c1 r ∧ sqHead (queue_at c1 r) = sqTail (queue_at c r) ∧ updateIRQLocked c1 = (c', Ok tt)).
Proof.
  revert c. induction n as [|n IH]; intros c Hq Ht Hw; cbn [processSubmissionQueueLocked].
  all: destruct (Z.eqb_spec (sqHead (queue_at c r)) (sqTail (queue_at c r))) as [Heq|Hne].
  1,3: destruct (updateIRQLocked c) as [c' res] eqn:E; exists c', res; split; [done|]; intros ->; exists c; done.
  { destruct Hq as [_ _ Hsz Hh]. unfold waiting in Hw. set (s := size _) in *. set (h := sqHead _) in *. set (t := sqTail _) in *.
    exfalso. apply Hne. apply Z.mod_divide in Hw as [k Hk]; [|lia].
    rewrite (small_multiple k s) in Hk by lia. lia. }
  destruct (process_entry r c) as [c1 res] eqn:E. destruct res as [[]| |]; [|by exists c1, (Err msg)|by exists c1, Panic].
  destruct (process_entry_next r c c1 Hq E) as (Hq1 & Es & Et & Eh).
  destruct (IH c1 Hq1) as (c' & res & E' & Hres); [by rewrite Es, Et| |].
  - unfold waiting in *. rewrite Es, Et, Eh. rewrite waiting_next; try done; [lia| |]; apply Hq.
  - exists c', res. rewrite <-Et. split; [exact E'|done].
Qed.

(** A submission doorbell stores the tail and runs the loop. *)
Lemma doorbell_sq fuel qid value c r :
  0 ≤ qid < 2^16 → queues c !! qid = Some r → (r < length (heap c))%nat → is_u16 value →
  ∃ c1, writeDoorbellLocked fuel (qid * 8) value c = processSubmissionQueueLocked fuel r c1 ∧
    queue_at c1 r = (queue_at c r) <| sqTail := value |> ∧ length (heap c1) = length (heap c) ∧
    queues c1 = queues c ∧ backend c1 = backend c ∧ mem c1 = mem c.
Proof.
  intros Hqid Hr Hlen Hv. unfold writeDoorbellLocked.
  replace (qid * 8 / 4 / 2) with qid by (rewrite Z.div_div by lia; rewrite Z.div_mul by lia; done).
  rewrite u16_small, Hr by done. replace (qid * 8 / 4) with (qid * 2) by (replace (qid * 8) with (qid * 2 * 4) by lia; rewrite Z.div_mul; lia).
  rewrite Z.mod_mul by lia. cbn [Z.eqb]. rewrite (u16_small value) by done. eexists. split; [reflexivity|].
  split_and!; [|apply length_alter|done..]. rewrite queue_at_alter. by destruct (decide _) as [_|Hn]; [|destruct Hn].
Qed.
Lemma io_queue_tail c c1 r value :
  io_queue c r → queue_at c1 r = (queue_at c r) <| sqTail := value |> → length (heap c1) = length (heap c) → io_queue c1 r.
Proof. intros [Hlen Hid Hsz Hh] Eq El. split; [by rewrite El|by rewrite Eq..]. Qed.

(** C31: A doorbell that puts the tail of an I/O queue inside the queue returns
    after one turn per entry that is waiting; unless a turn fails, the head
    has then reached the tail. *)
Theorem nvme_queue_drains c qid value r :
  0 ≤ qid < 2^16 → queues c !! qid = Some r → io_queue c r → is_u16 value → value < size (queue_at c r) →
  let fuel := S (Z.to_nat ((value - sqHead (queue_at c r)) mod size (queue_at c r))) in
  ∃ c' res, writeDoorbellLocked fuel (qid * 8) value c = Some (c', res) ∧
    (res = Ok tt → ∃ c1, sqHead (queue_at c1 r) = value ∧ updateIRQLocked c1 = (c', Ok tt)).
Proof.
  intros Hqid Hr Hq Hv Hlt fuel. destruct (doorbell_sq fuel qid value c r Hqid Hr (ioq_ref _ _ Hq) Hv) as (c1 & -> & Eq & El & _).
  pose proof (io_queue_tail _ _ _ _ Hq Eq El) as Hq1.
  pose proof (Z.mod_pos_bound (value - sqHead (queue_at c r)) (size (queue_at c r)) ltac:(destruct Hq; lia)).
  destruct (process_drains (Z.to_nat ((value - sqHead (queue_at c r)) mod size (queue_at c r))) r c1 Hq1) as (c' & res & E & Hres).
  { rewrite Eq. cbn. unfold is_u in Hv. lia. }
  { rewrite Eq. unfold waiting. cbn [sqTail sqHead size update eta_queue]. rewrite Z2Nat.id by lia. done. }
  exists c', res. split; [exact E|]. intros Hok. destruct (Hres Hok) as (c2 & _ & Hh & Hu). exists c2. split; [|done].
  by rewrite Hh, Eq.
Qed.

(** C32: A doorbell that puts the tail of an I/O queue past its end does not
    return normally: the head wraps at the end of the queue and never meets
    the tail, so that however many turns the loop makes, either it is still
    running or it ended with the error or panic of the turn it had reached. *)
Theorem nvme_tail_out_of_range c qid value r fuel :
  0 ≤ qid < 2^16 → queues c !! qid = Some r → io_queue c r → is_u16 value → size (queue_at c r) ≤ value →
  match writeDoorbellLocked fuel (qid * 8) value c with
  | None => True
  | Some (c', res) => res ≠ Ok tt ∧ ∃ c1, io_queue c1 r ∧ sqTail (queue_at c1 r) = value ∧ process_entry r c1 = (c', res)
  end.
Proof.
  intros Hqid Hr Hq Hv Hge. destruct (doorbell_sq fuel qid value c r Hqid Hr (ioq_ref _ _ Hq) Hv) as (c1 & -> & Eq & El & _).
  pose proof (io_queue_tail _ _ _ _ Hq Eq El) as Hq1.
  assert (size (queue_at c1 r) ≤ value ∧ sqTail (queue_at c1 r) = value) as Hge1 by (by rewrite Eq).
  clear -Hq1 Hge1. revert c1 Hq1 Hge1. induction fuel as [|fuel IH]; intros c Hq [Hge Ht]; [done|].
  cbn [processSubmissionQueueLocked]. destruct (Z.eqb_spec (sqHead (queue_at c r)) (sqTail (queue_at c r))); [destruct Hq; lia|].
  destruct (process_entry r c) as [c1 [[]| |]] eqn:E; [|split; [done|by exists c]..].
  destruct (process_entry_next r c c1 Hq E) as (Hq1 & Es & Et & _). apply IH; [done|]. by rewrite Es, Et.
Qed.

(** * The largest size *)

Lemma queue_at_new c q : queue_at (c <| heap := heap c ++ [q] |>) (length (heap c)) = q.
Proof. unfold queue_at. cbn [heap update eta_Controller]. by rewrite lookup_app_r, Nat.sub_diag by lia. Qed.

(** A guest that creates an I/O submission queue with the largest size
    field gets a queue of size zero, since the size is one more in 16 bits.
    The next doorbell of this queue divides by the size and panics, here with
    a flush command in the first entry. *)
Theorem nvme_largest_queue_panics c cmd qid b raw value fuel :
  0 < qid < 2^16 → opcode cmd = adminCreateSQ → cdw10 cmd = Z.shiftl 0xffff 16 + qid → is_u64 (prp1 cmd) →
  queues c !! qid = None → backend c = Some b → 0 < value < 2^16 →
  ReadIPA (mem c) (prp1 cmd) 64 = Ok raw → opcode (parseCommand raw) = ioFlush →
  ∃ c1 c2, executeAdminLocked cmd c = (c1, Ok (0, 0)) ∧ writeDoorbellLocked (S fuel) (qid * 8) value c1 = Some (c2, Panic).
Proof.
  intros Hqid Hop Hcdw Hprp Hq Hb Hv Hraw Hflush.
  assert (u16 (cdw10 cmd) = qid) as Eqid.
  { rewrite Hcdw. change (Z.shiftl 0xffff 16) with (0xffff * 2^16). unfold u16. rewrite Z.add_comm, Z.mod_add by lia.
    apply Z.mod_small. lia. }
  assert (u16 (u16 (Z.shiftr (cdw10 cmd) 16) + 1) = 0) as Esz.
  { rewrite Hcdw, Z.shiftr_div_pow2 by lia. change (Z.shiftl 0xffff 16) with (0xffff * 2^16).
    rewrite Z.div_add_l by lia. rewrite (Z.div_small qid) by lia. done. }
  set (r := length (heap c)). set (q := (newQueue qid) <| size := 0 |> <| sqAddr := prp1 cmd |> <| cqID := u16 (Z.shiftr (cdw11 cmd) 16) |>).
  set (c1 := c <| heap := heap c ++ [q] |> <| queues := <[qid := r]> (queues c) |>).
  assert (queue_at c1 r = q) as Eq by exact (queue_at_new c q).
  assert (executeAdminLocked cmd c = (c1, Ok (0, 0))) as E1.
  { unfold executeAdminLocked, gets, mbind, M_bind, Datatypes.id. rewrite Hop. cbn [Z.eqb adminIdentify adminCreateSQ adminCreateCQ Pos.eqb].
    unfold adminCreateSQ_, find_queue, gets, mbind, M_bind, Datatypes.id. rewrite Eqid, Hq, Esz.
    unfold new_queue, modify, mret, M_ret, set_queue, modify. fold r.
    set (c0 := c <| heap := heap c ++ [newQueue qid] |> <| queues := <[qid := r]> (queues c) |>).
    change (c <| heap := heap c ++ [newQueue qid] |> <| queues := _ |>) with c0.
    assert (c0 <| heap := alter (λ q, q <| size := 0 |> <| sqAddr := prp1 cmd |> <| cqID := u16 (Z.shiftr (cdw11 cmd) 16) |>) r (heap c0) |> = c1) as ->.
    { unfold c0, c1. cbn [heap queues update eta_Controller]. unfold r. by rewrite alter_app_r_alt, Nat.sub_diag by lia. }
    unfold cacheQueueMemoryLocked, gets, mbind, M_bind, Datatypes.id. rewrite Eq. by rewrite orb_true_r. }
  destruct (doorbell_sq (S fuel) qid value c1 r) as (c2 & E2 & Eq2 & _ & _ & Eb2 & Em2);
    [lia|apply lookup_insert_eq|unfold c1; cbn; rewrite length_app; cbn; lia|unfold is_u; lia|].
  assert (executeIOLocked (parseCommand raw) c2 = (c2, Ok (0, 0))) as Eio.
  { unfold executeIOLocked, gets, mbind, M_bind, Datatypes.id. rewrite Eb2. change (backend c1) with (backend c). by rewrite Hb, Hflush. }
  assert (read_entry r c2 = (c2, Ok raw)) as Eraw.
  { unfold read_entry, queueSubmissionEntry. rewrite Eq2, Eq. cbn [sqMem sqHead sqAddr q newQueue update eta_queue].
    rewrite Z.mul_0_l, Z.add_0_r, u64_small, Em2 by done. change (mem c1) with (mem c). by rewrite Hraw. }
  assert (id (queue_at c2 r) =? adminQueueID = false) as Eid.
  { rewrite Eq2, Eq. apply Z.eqb_neq. cbn. unfold adminQueueID. lia. }
  exists c1, c2. split; [exact E1|]. rewrite E2. cbn [processSubmissionQueueLocked].
  replace (sqHead (queue_at c2 r) =? sqTail (queue_at c2 r)) with false by (rewrite Eq2, Eq; symmetry; apply Z.eqb_neq; cbn; lia).
  unfold process_entry, mbind, M_bind. rewrite Eraw. cbn [gets Datatypes.id]. rewrite Eid. cbn [andb].
  unfold executeCommandLocked. rewrite Eid, Eio. unfold advance_head, gets, mbind, M_bind, Datatypes.id. by rewrite Eq2, Eq.
Qed.
End queues.

(** * Completions *)

(** What a driver reads from a completion entry. *)
Record cq_entry := mkEntry { ce_result : Z; ce_sqHead : Z; ce_sqid : Z; ce_cid : Z; ce_status : Z }.
Definition entry_phase (raw : list Z) : bool := Z.odd (le_val (sub raw 14 2)).
Definition decode_entry (raw : list Z) : cq_entry :=
  mkEntry (le_val (sub raw 0 4)) (le_val (sub raw 8 2)) (le_val (sub raw 10 2)) (le_val (sub raw 12 2))
    (le_val (sub raw 14 2) / 2).
Definition entry_ok (e : cq_entry) : Prop :=
  is_u32 (ce_result e) ∧ is_u16 (ce_sqHead e) ∧ is_u16 (ce_sqid e) ∧ is_u16 (ce_cid e) ∧ 0 ≤ ce_status e < 2^15.

Lemma lor_double x : Z.lor (2 * x) 1 = 2 * x + 1.
Proof.
  pose proof (lor_shift 1 x 1 ltac:(lia) ltac:(lia)) as H. rewrite Z.shiftl_mul_pow2 in H by lia.
  rewrite Z.lor_comm, Z.mul_comm. change (2^1) with 2 in H. lia.
Qed.
Lemma completion_decodes q e :
  entry_ok e →
  let raw := completion q (ce_sqid e) (ce_sqHead e) (ce_cid e) (ce_result e) (ce_status e) in
  decode_entry raw = e ∧ entry_phase raw = cqPhase q ∧ length raw = 16%nat ∧ is_bytes raw.
Proof.
  intros (H1 & H2 & H3 & H4 & H5) raw.
  set (st := if cqPhase q then 2 * ce_status e + 1 else 2 * ce_status e).
  assert (raw = le_bytes 4 (ce_result e) ++ replicate 4 0 ++ le_bytes 2 (ce_sqHead e) ++ le_bytes 2 (ce_sqid e) ++
    le_bytes 2 (ce_cid e) ++ le_bytes 2 st) as Eraw.
  { unfold raw, completion, st. rewrite Z.shiftl_mul_pow2, u16_small by (unfold is_u in *; lia).
    change (2^1) with 2. rewrite (Z.mul_comm _ 2). destruct (cqPhase q); [|done].
    by rewrite lor_double. }
  assert (is_u16 st) as Hst by (unfold st, is_u in *; destruct (cqPhase q); lia).
  assert (st / 2 = ce_status e) as Hhalf.
  { unfold st. rewrite (Z.mul_comm 2). destruct (cqPhase q); [rewrite Z.div_add_l by lia; change (1 / 2) with 0; lia|by apply Z.div_mul]. }
  rewrite Eraw. split_and!.
  - change (mkEntry (le_val (le_bytes 4 (ce_result e))) (le_val (le_bytes 2 (ce_sqHead e))) (le_val (le_bytes 2 (ce_sqid e)))
      (le_val (le_bytes 2 (ce_cid e))) (le_val (le_bytes 2 st) / 2) = e).
    rewrite !le_val_bytes, !Z.mod_small by (unfold is_u in *; cbn; lia). rewrite Hhalf. by destruct e.
  - change (Z.odd (le_val (le_bytes 2 st)) = cqPhase q). rewrite le_val_bytes, Z.mod_small by (unfold is_u in *; cbn; lia). unfold st.
    destruct (cqPhase q); [by rewrite Z.add_comm, Z.odd_add_mul_2|by rewrite Z.odd_mul].
  - done.
  - repeat apply is_bytes_app; try apply le_bytes_is_bytes. by apply Forall_replicate.
Qed.

Section completions.
Context {T I B : Type} `{GuestMemoryOk T, !GuestViews T, !GuestViewsOk T, !IRQController I, !MSIController I, !BlockBackend B}.
Implicit Types c : Controller T I B.

(** The driver waits for its completion number [j] in slot [j mod size], with a
    phase that changes with each round. *)
Definition slot (q : queue) (j : Z) : Z := cqAddr q + j mod size q * 16.
Definition expected_phase (q : queue) (j : Z) : bool := Z.even (j / size q).
Definition poll (m : T) (q : queue) (j : Z) : option cq_entry :=
  match ReadIPA m (slot q j) 16 with
  | Ok raw => if eqb (entry_phase raw) (expected_phase q j) then Some (decode_entry raw) else None
  | _ => None
  end.

(** A completion queue in mapped memory, cached or not. *)
Record cq_ok c (r : nat) : Prop := {
  cq_ref : (r < length (heap c))%nat;
  cq_size : 0 < size (queue_at c r) < 2^16;
  cq_mem : mem_ok (mem c);
  cq_mapped : mapped (mem c) (cqAddr (queue_at c r)) (size (queue_at c r) * 16);
  cq_view w : cqMem (queue_at c r) = Some w → view_of (mem c) w (cqAddr (queue_at c r)) (size (queue_at c r) * 16);
}.
(** The entries [es] were posted: the driver finds the last round of them and
    finds none of the next round. *)
Record ring_holds c (r : nat) (es : list cq_entry) : Prop := {
  ring_tail : cqTail (queue_at c r) = len es mod size (queue_at c r);
  ring_phase : cqPhase (queue_at c r) = expected_phase (queue_at c r) (len es);
  ring_posted (j : nat) e : es !! j = Some e → len es - size (queue_at c r) ≤ Z.of_nat j →
    poll (mem c) (queue_at c r) (Z.of_nat j) = Some e;
  ring_next j : len es ≤ j < len es + size (queue_at c r) → poll (mem c) (queue_at c r) j = None;
}.

Lemma slot_mapped c r j : cq_ok c r → mapped (mem c) (slot (queue_at c r) j) 16.
Proof.
  intros [_ Hsz _ Hm _]. unfold slot. pose proof (Z.mod_pos_bound j (size (queue_at c r)) ltac:(lia)).
  set (s := j mod _) in *. apply (mapped_prefix _ _ (size (queue_at c r) * 16 - s * 16)); [|lia].
  apply mapped_suffix; [done|lia].
Qed.

(** Posting writes the slot of the tail and moves the tail. *)
Lemma writeCompletion_spec c r k e :
  cq_ok c r → 0 ≤ k → cqTail (queue_at c r) = k mod size (queue_at c r) → entry_ok e →
  let q := queue_at c r in
  let raw := completion q (ce_sqid e) (ce_sqHead e) (ce_cid e) (ce_result e) (ce_status e) in
  ∃ c', writeCompletionLocked r (ce_sqid e) (ce_sqHead e) (ce_cid e) (ce_result e) (ce_status e) c = (c', Ok tt) ∧
    mem c' = (WriteIPA (mem c) (slot q k) raw).1 ∧ length (heap c') = length (heap c) ∧
    size (queue_at c' r) = size q ∧ cqAddr (queue_at c' r) = cqAddr q ∧ cqMem (queue_at c' r) = cqMem q ∧
    cqTail (queue_at c' r) = (k + 1) mod size q ∧
    cqPhase (queue_at c' r) = (if (k + 1) mod size q =? 0 then negb (cqPhase q) else cqPhase q) ∧
    cqHead (queue_at c' r) = cqHead q ∧
    cqPending (queue_at c' r) = if cqPending q <? size q then u16 (cqPending q + 1) else cqPending q.
Proof.
  intros Hok Hk Ht He q raw. pose proof (slot_mapped c r k Hok) as Hslot. destruct Hok as [Hr Hsz Hm Hmap Hview].
  fold q in Ht, Hsz, Hmap, Hview, Hslot. destruct (completion_decodes q e He) as (_ & _ & Hlen & Hb). fold raw in Hlen, Hb.
  pose proof (Z.mod_pos_bound k (size q) ltac:(lia)) as Hmod.
  unfold writeCompletionLocked, gets, mbind, M_bind, Datatypes.id. fold q. fold raw.
  assert (slot q k = cqAddr q + cqTail q * 16) as Hslot_eq by (unfold slot; by rewrite Ht).
  destruct (mapped_bound (mem c) (slot q k) 16 Hm ltac:(lia) Hslot) as [Hb0 Hb1].
  assert ((match cqMem q with
    | Some w => if view_length (mem c) (cqMem q) >=? cqTail q * 16 + 16
                then modify (λ c, c <| mem := view_write (mem c) w (cqTail q * 16) raw |>)
                else writeMem (u64 (cqAddr q + cqTail q * 16)) raw
    | None => writeMem (u64 (cqAddr q + cqTail q * 16)) raw
    end) c = (c <| mem := (WriteIPA (mem c) (slot q k) raw).1 |>, Ok tt)) as ->.
  { assert (writeMem (u64 (cqAddr q + cqTail q * 16)) raw c = (c <| mem := (WriteIPA (mem c) (slot q k) raw).1 |>, Ok tt)) as Hw.
    { unfold writeMem. rewrite <-Hslot_eq, u64_small by (unfold is_u; lia).
      pose proof (write_mapped (mem c) (slot q k) raw Hm) as Hwm. rewrite Hlen in Hwm. specialize (Hwm Hslot).
      destruct (WriteIPA (mem c) (slot q k) raw). cbn in *. by rewrite Hwm. }
    destruct (cqMem q) as [w|] eqn:Ew; [|exact Hw]. destruct (_ >=? _); [|exact Hw].
    unfold modify. rewrite (view_update (mem c) w (cqAddr q) (size q * 16)); [by rewrite <-Hslot_eq|done|by apply Hview|lia|lia|lia]. }
  unfold lift, next_index. destruct (Z.eqb_spec (size q) 0); [lia|]. unfold set_queue, modify.
  rewrite u16_small by (unfold is_u; lia). rewrite Ht, Zplus_mod_idemp_l.
  eexists. split; [reflexivity|]. rewrite queue_at_alter. destruct (decide _) as [_|Hn]; [|by destruct Hn].
  split_and!; try done. apply length_alter.
Qed.

Lemma phase_next k n : 0 < n → Z.even ((k + 1) / n) = if (k + 1) mod n =? 0 then negb (Z.even (k / n)) else Z.even (k / n).
Proof.
  intros Hn. pose proof (Z.div_mod k n ltac:(lia)) as Hk. pose proof (Z.mod_pos_bound k n Hn) as Hm.
  destruct (decide (k mod n = n - 1)) as [He|Hne].
  - assert (k + 1 = (k / n + 1) * n) as -> by lia. rewrite Z.mod_mul, Z.div_mul, Z.add_1_r, Z.even_succ by lia. by rewrite Z.negb_even.
  - assert ((k + 1) mod n = k mod n + 1) as Em.
    { symmetry. apply (Z.mod_unique_pos _ _ (k / n)); lia. }
    assert ((k + 1) / n = k / n) as -> by (symmetry; apply (Z.div_unique_pos _ _ _ (k mod n + 1)); lia).
    rewrite Em. destruct (Z.eqb_spec (k mod n + 1) 0); [lia|done].
Qed.
Lemma slots_apart q j k :
  0 < size q → 0 < Z.abs (j - k) < size q → slot q k + 16 ≤ slot q j ∨ slot q j + 16 ≤ slot q k.
Proof.
  intros Hn Hjk. unfold slot. assert (j mod size q ≠ k mod size q) as Hne; [|lia].
  intros E. assert ((j - k) mod size q = 0) as E0 by (rewrite Zminus_mod, E, Z.sub_diag; done).
  apply Z.mod_divide in E0 as [t Ht]; [|lia]. rewrite Ht in Hjk.
  rewrite (small_multiple t (size q)) in Hjk by lia. lia.
Qed.

(** Posting one more completion. *)
Lemma post_completion c r es e :
  cq_ok c r → ring_holds c r es → entry_ok e →
  ∃ c', writeCompletionLocked r (ce_sqid e) (ce_sqHead e) (ce_cid e) (ce_result e) (ce_status e) c = (c', Ok tt) ∧
    cq_ok c' r ∧ ring_holds c' r (es ++ [e]) ∧ size (queue_at c' r) = size (queue_at c r) ∧
    cqHead (queue_at c' r) = cqHead (queue_at c r) ∧
    cqPending (queue_at c' r) =
      if cqPending (queue_at c r) <? size (queue_at c r) then u16 (cqPending (queue_at c r) + 1) else cqPending (queue_at c r).
Proof.
  intros Hok [Ht Hp Hposted Hnext] He. pose proof (slot_mapped c r) as Hslot.
  destruct (writeCompletion_spec c r (len es) e Hok ltac:(lia) Ht He) as (c' & E & Em & El & Es & Ea & Ev & Et & Ep & Hcount).
  cbn zeta in *. destruct (completion_decodes (queue_at c r) e He) as (Hd & Hph & Hlen & Hb). cbn zeta in *.
  set (q := queue_at c r) in *. set (raw := completion _ _ _ _ _ _) in *.
  assert (cq_ok c' r) as Hok'.
  { destruct Hok as [Hr Hsz Hm Hmap Hview]. split; fold q in Hsz, Hmap, Hview.
    - by rewrite El.
    - by rewrite Es.
    - rewrite Em. by apply write_mem_ok.
    - rewrite Em, Ea, Es. by apply mapped_write.
    - intros w. rewrite Ev, Em, Ea, Es. intros Hw. apply view_keep; [done|]. by apply Hview. }
  exists c'. split; [done|]. split; [done|]. split; [|by split].
  assert (∀ j, poll (mem c') (queue_at c' r) j = poll (mem c') q j) as Hpoll.
  { intros j. unfold poll, slot, expected_phase. by rewrite Es, Ea. }
  assert (∀ j, 0 < Z.abs (j - len es) < size q → poll (mem c') q j = poll (mem c) q j) as Hother.
  { intros j Hj. unfold poll. rewrite Em, read_write_other; [done|apply Hok|rewrite Hlen; by apply Hslot|by apply Hslot|lia|].
    rewrite Hlen. apply slots_apart; [apply Hok|done]. }
  assert (∀ j, slot q j = slot q (len es) → poll (mem c') q j = if eqb (cqPhase q) (expected_phase q j) then Some e else None) as Hsame.
  { intros j Hj. unfold poll. rewrite Hj, Em. change 16 with (Z.of_nat 16). rewrite <-Hlen.
    rewrite read_write_same; [|apply Hok|rewrite Hlen; by apply Hslot]. by rewrite Hph, Hd. }
  pose proof (cq_size _ _ Hok) as Hsz. fold q in Hsz. rewrite Hp in Hsame, Ep.
  split; rewrite ?length_app; cbn [length]; rewrite ?Es.
  - rewrite Et. f_equal. lia.
  - rewrite Ep. unfold expected_phase. rewrite Es. rewrite Nat2Z.inj_add. by rewrite phase_next by lia.
  - intros j e' Hj Hrange. rewrite Hpoll. apply lookup_app_Some in Hj as [Hj|[Hge Hj]].
    + pose proof (lookup_lt_Some _ _ _ Hj). rewrite Hother by lia. apply Hposted; [done|]. fold q. lia.
    + assert (j = length es) as ->. { destruct (j - length es)%nat eqn:Ej; [lia|]. by rewrite lookup_nil in Hj || destruct n. }
      rewrite Nat.sub_diag in Hj. injection Hj as <-. rewrite Hsame by done. by rewrite eqb_reflx.
  - intros j Hj. rewrite Hpoll. destruct (decide (j = len es + size q)) as [->|Hne].
    + rewrite Hsame.
      * unfold expected_phase. replace (len es + size q) with (len es + 1 * size q) by lia. rewrite Z.div_add by lia.
        rewrite Z.add_1_r, Z.even_succ, <-Z.negb_even. by destruct (Z.even _).
      * unfold slot. do 2 f_equal. replace (len es + size q) with (len es + 1 * size q) by lia. apply Z.mod_add. lia.
    + rewrite Hother by lia. apply Hnext. fold q. lia.
Qed.

(** ** Runs of a completion queue *)

(** What stays of a completion queue while the rest changes: other queues, the
    interrupt state, and guest memory outside the ring, by the guest or by a
    transfer. *)
Record cq_frame c c' (r : nat) : Prop := {
  cf_ref : (r < length (heap c'))%nat;
  cf_size : size (queue_at c' r) = size (queue_at c r);
  cf_addr : cqAddr (queue_at c' r) = cqAddr (queue_at c r);
  cf_tail : cqTail (queue_at c' r) = cqTail (queue_at c r);
  cf_phase : cqPhase (queue_at c' r) = cqPhase (queue_at c r);
  cf_mem : mem_ok (mem c');
  cf_mapped : mapped (mem c') (cqAddr (queue_at c r)) (size (queue_at c r) * 16);
  cf_view w : cqMem (queue_at c' r) = Some w → view_of (mem c') w (cqAddr (queue_at c r)) (size (queue_at c r) * 16);
  cf_ring j : ReadIPA (mem c') (slot (queue_at c r) j) 16 = ReadIPA (mem c) (slot (queue_at c r) j) 16;
}.
Lemma cq_frame_ok c c' r : cq_frame c c' r → cq_ok c r → cq_ok c' r.
Proof. intros [] []. split; rewrite ?cf_size0, ?cf_addr0; auto. Qed.
Lemma cq_frame_poll c c' r j : cq_frame c c' r → poll (mem c') (queue_at c' r) j = poll (mem c) (queue_at c r) j.
Proof. intros []. unfold poll, slot, expected_phase in *. by rewrite cf_size0, cf_addr0, cf_ring0. Qed.
Lemma cq_frame_ring c c' r es : cq_frame c c' r → ring_holds c r es → ring_holds c' r es.
Proof.
  intros Hf []. split.
  - by rewrite (cf_tail _ _ _ Hf), (cf_size _ _ _ Hf).
  - unfold expected_phase in *. by rewrite (cf_phase _ _ _ Hf), (cf_size _ _ _ Hf).
  - intros j e Hj. rewrite (cf_size _ _ _ Hf), (cq_frame_poll _ _ _ _ Hf). by apply ring_posted0.
  - intros j. rewrite (cf_size _ _ _ Hf), (cq_frame_poll _ _ _ _ Hf). apply ring_next0.
Qed.
(** A write beside the ring. *)
Lemma cq_frame_write c r a bs :
  cq_ok c r → is_bytes bs → 0 < len bs → mapped (mem c) a (len bs) →
  a + len bs ≤ cqAddr (queue_at c r) ∨ cqAddr (queue_at c r) + size (queue_at c r) * 16 ≤ a →
  cq_frame c (c <| mem := (WriteIPA (mem c) a bs).1 |>) r.
Proof.
  intros Hok Hb Hl Hm Ha. pose proof (slot_mapped c r) as Hslot. destruct Hok as [Hr Hsz Hmem Hmap Hview].
  split; try done.
  - by apply write_mem_ok.
  - by apply mapped_write.
  - intros w Hw. apply view_keep; [done|]. by apply Hview.
  - intros j. apply read_write_other; [done|done|by apply Hslot|lia|].
    unfold slot. pose proof (Z.mod_pos_bound j (size (queue_at c r)) ltac:(lia)). lia.
Qed.

(** The two places where a completion queue comes into being: the admin queue,
    and the command that creates one under a number that is not in use. *)
Inductive creates c0 c (r : nat) : Prop :=
  | creates_admin : configureAdminQueueLocked c0 = (c, Ok tt) → r = length (heap c0) → is_u64 (acq c0) → creates c0 c r
  | creates_io cmd : adminCreateCQ_ cmd c0 = (c, Ok tt) → queues c0 !! u16 (cdw10 cmd) = None → r = length (heap c0) →
      is_u64 (prp1 cmd) → creates c0 c r.
(** The completion side of a queue. *)
Definition cq_side (q : queue) : Z * Z * Z * bool * Z * Z := (size q, cqAddr q, cqTail q, cqPhase q, cqHead q, cqPending q).
Lemma slice_into_set addr n r (f : Z * Z → queue → queue) c :
  let c' := (slice_into addr n (λ w, set_queue r (f w)) c).1 in
  c' = c ∨ ∃ w, SliceIPA (mem c) addr n = Ok w ∧ c' = c <| heap := alter (f w) r (heap c) |>.
Proof.
  unfold slice_into, gets, mbind, M_bind, Datatypes.id, set_queue, modify.
  destruct (_ =? 0); [by left|]. destruct (SliceIPA _ _ _) as [w| |]; [right; by exists w|by left|by left].
Qed.
(** Caching a queue. *)
Lemma cache_new c r c' :
  cacheQueueMemoryLocked r c = (c', Ok tt) → (r < length (heap c))%nat → cqMem (queue_at c r) = None →
  is_u64 (cqAddr (queue_at c r)) → mem_ok (mem c) → 0 ≤ size (queue_at c r) < 2^16 →
  mem c' = mem c ∧ length (heap c') = length (heap c) ∧ cq_side (queue_at c' r) = cq_side (queue_at c r) ∧
  ∀ w, cqMem (queue_at c' r) = Some w → view_of (mem c) w (cqAddr (queue_at c r)) (size (queue_at c r) * 16).
Proof.
  intros E Hr Hn Ha Hm Hsz. unfold cacheQueueMemoryLocked, gets, mbind, M_bind, Datatypes.id in E.
  assert (∀ c1, mem c1 = mem c ∧ length (heap c1) = length (heap c) ∧ cq_side (queue_at c1 r) = cq_side (queue_at c r) ∧
    cqMem (queue_at c1 r) = None → mem c1 = mem c ∧ length (heap c1) = length (heap c) ∧ cq_side (queue_at c1 r) = cq_side (queue_at c r) ∧
    ∀ w, cqMem (queue_at c1 r) = Some w → view_of (mem c) w (cqAddr (queue_at c r)) (size (queue_at c r) * 16)) as Hsame.
  { intros c1 (? & ? & ? & Hw). split_and!; [done|done|done|]. by rewrite Hw. }
  destruct (negb slicer || _) eqn:Esl; [injection E as <-; by apply Hsame|]. apply orb_false_iff in Esl as [_ Es]. apply Z.eqb_neq in Es.
  pose proof (slice_into_set (sqAddr (queue_at c r)) (size (queue_at c r) * 64) r (λ w q, q <| sqMem := Some w |>) c) as H1.
  cbn beta zeta in H1. destruct (slice_into (sqAddr (queue_at c r)) _ _ c) as [c1 [[]| |]]; [|done|done]. cbn [fst] in H1.
  assert (mem c1 = mem c ∧ length (heap c1) = length (heap c) ∧ cq_side (queue_at c1 r) = cq_side (queue_at c r) ∧ cqMem (queue_at c1 r) = None) as H2.
  { destruct H1 as [->|(w & _ & ->)]; [done|]. rewrite queue_at_alter. split_and!; [done|apply length_alter| |]; by destruct (decide _). }
  pose proof (slice_into_set (cqAddr (queue_at c r)) (size (queue_at c r) * 16) r (λ w q, q <| cqMem := Some w |>) c1) as H3.
  cbn beta zeta in H3. rewrite E in H3. cbn [fst] in H3. destruct H3 as [->|(w & Ew & ->)]; [by apply Hsame|].
  destruct H2 as (Em & El & Eside & _). rewrite queue_at_alter.
  destruct (decide _) as [_|Hno]; [|destruct Hno; split; [done|by rewrite El]].
  split_and!; [done|by rewrite <-El; apply length_alter|done|]. intros w' [= <-]. rewrite Em in Ew. apply slice_view; [done..|lia|done].
Qed.
(** A new queue is empty, in its first round, and its cache is the ring. *)
Lemma created_queue c0 c r :
  creates c0 c r → mem_ok (mem c0) → size (queue_at c r) ≠ 0 →
  mem c = mem c0 ∧ (r < length (heap c))%nat ∧ 0 < size (queue_at c r) < 2^16 ∧
  cqTail (queue_at c r) = 0 ∧ cqPhase (queue_at c r) = true ∧ cqHead (queue_at c r) = 0 ∧ cqPending (queue_at c r) = 0 ∧
  ∀ w, cqMem (queue_at c r) = Some w → view_of (mem c) w (cqAddr (queue_at c r)) (size (queue_at c r) * 16).
Proof.
  intros Hc Hm Hs.
  assert (∃ c1 c2, cacheQueueMemoryLocked r c1 = (c2, Ok tt) ∧ heap c = heap c2 ∧ mem c = mem c2 ∧ mem c1 = mem c0 ∧
    (r < length (heap c1))%nat ∧ cqMem (queue_at c1 r) = None ∧ is_u64 (cqAddr (queue_at c1 r)) ∧
    0 ≤ size (queue_at c1 r) < 2^16 ∧ (cqTail (queue_at c1 r), cqPhase (queue_at c1 r), cqHead (queue_at c1 r), cqPending (queue_at c1 r)) = (0, true, 0, 0))
    as (c1 & c2 & E & Eh & Emm & Em & Hr & Hn & Ha & Hsz & Hside).
  { destruct Hc as [E -> Ha|cmd E Hq -> Ha].
    - unfold configureAdminQueueLocked, gets, mbind, M_bind, Datatypes.id, new_queue in E.
      set (n := if (if _ <? _ then _ else _) =? 0 then 1 else _) in E.
      assert (0 ≤ n < 2^16) as Hsz by (unfold n; repeat case_match; try apply is_u16_u16; lia). clearbody n.
      set (q := _ <| interrupts := true |>) in E. set (c1 := c0 <| heap := heap c0 ++ [q] |>) in E.
      destruct (cacheQueueMemoryLocked (length (heap c0)) c1) as [c2 [[]| |]] eqn:E2; [|done|done].
      apply (f_equal fst) in E. cbn [fst modify] in E. subst c. exists c1, c2.
      assert (queue_at c1 (length (heap c0)) = q) as -> by exact (queue_at_new c0 q).
      split_and!; try done; [unfold c1; cbn; rewrite length_app; cbn; lia|apply Hsz..].
    - unfold adminCreateCQ_, find_queue, gets, mbind, M_bind, Datatypes.id in E. rewrite Hq in E. unfold new_queue, modify, mret, M_ret, set_queue, modify in E.
      set (ca := c0 <| heap := _ |> <| queues := _ |>) in E. set (f := λ q : queue, _) in E.
      set (c1 := ca <| heap := alter f (length (heap c0)) (heap ca) |>) in E.
      exists c1, c. assert (queue_at c1 (length (heap c0)) = f (newQueue (u16 (cdw10 cmd)))) as ->.
      { unfold c1. rewrite queue_at_alter. destruct (decide _) as [_|Hno].
        - f_equal. exact (queue_at_new c0 _).
        - destruct Hno. split; [done|]. cbn. rewrite length_app. cbn. lia. }
      split_and!; try done; [unfold c1; cbn; rewrite length_alter, length_app; cbn; lia|apply is_u16_u16..]. }
  destruct (cache_new c1 r c2 E Hr Hn Ha ltac:(by rewrite Em) Hsz) as (Em2 & El & Es2 & Hview).
  assert (queue_at c r = queue_at c2 r) as Eq by (unfold queue_at; by rewrite Eh). rewrite Eq in *.
  unfold cq_side in Es2. injection Es2 as E1 E3 E4 E5 E6 E7. injection Hside as F1 F2 F3 F4.
  rewrite E1 in Hs. rewrite E1, E3, E4, E5, E6, E7, Emm, Em2, Em, Eh, El.
  split_and!; try done; [lia|lia|]. by rewrite <-Em.
Qed.

(** The runs of completion queue [qid], from its creation: the entries the
    controller posted and those the driver took.  The driver has cleared a ring
    that is mapped and not empty, takes what it polls and tells the controller
    its new head, and has no more commands outstanding than the queue has
    slots.  Between these steps anything happens that leaves the queue alone. *)
Inductive cq_run (qid : Z) (r : nat) : Controller T I B → list cq_entry → list cq_entry → Prop :=
  | cq_created c0 c :
      creates c0 c r → mem_ok (mem c0) → size (queue_at c r) ≠ 0 →
      mapped (mem c) (cqAddr (queue_at c r)) (size (queue_at c r) * 16) →
      (∀ j, 0 ≤ j < size (queue_at c r) → poll (mem c) (queue_at c r) j = None) →
      cq_run qid r c [] []
  | cq_post c es ts e c' res :
      cq_run qid r c es ts → entry_ok e → len es < len ts + size (queue_at c r) →
      writeCompletionLocked r (ce_sqid e) (ce_sqHead e) (ce_cid e) (ce_result e) (ce_status e) c = (c', res) →
      cq_run qid r c' (es ++ [e]) ts
  | cq_take c es ts e fuel c' res :
      cq_run qid r c es ts → queues c !! qid = Some r → poll (mem c) (queue_at c r) (len ts) = Some e →
      writeDoorbellLocked fuel (qid * 8 + 4) ((len ts + 1) mod size (queue_at c r)) c = Some (c', res) →
      cq_run qid r c' es (ts ++ [e])
  | cq_other c es ts c' :
      cq_run qid r c es ts → cq_frame c c' r →
      cqHead (queue_at c' r) = cqHead (queue_at c r) → cqPending (queue_at c' r) = cqPending (queue_at c r) →
      cq_run qid r c' es ts.

(** The driver took a prefix of what was posted, and the controller knows how
    long it is. *)
Record cq_inv c (r : nat) (es ts : list cq_entry) : Prop := {
  ci_ok : cq_ok c r;
  ci_ring : ring_holds c r es;
  ci_prefix : ts = take (length ts) es;
  ci_len : len ts ≤ len es ≤ len ts + size (queue_at c r);
  ci_head : cqHead (queue_at c r) = len ts mod size (queue_at c r);
  ci_pending : cqPending (queue_at c r) = len es - len ts;
}.
Lemma cq_inv_poll c r es ts : cq_inv c r es ts → poll (mem c) (queue_at c r) (len ts) = es !! length ts.
Proof.
  intros [Hok Hring _ Hl _ _]. destruct (es !! length ts) as [e|] eqn:E.
  - apply (ring_posted _ _ _ Hring); [done|lia].
  - apply lookup_ge_None in E. apply (ring_next _ _ _ Hring). pose proof (cq_size _ _ Hok). lia.
Qed.

(** A completion doorbell moves the head and leaves the rest of the queue. *)
Lemma updateIRQ_frame c : heap (updateIRQLocked c).1 = heap c ∧ mem (updateIRQLocked c).1 = mem c.
Proof.
  unfold updateIRQLocked, gets, modify, mbind, M_bind, Datatypes.id, setIRQ, setMSI. destruct (eqb _ _); [done|].
  cbn [irq update eta_Controller]. destruct (irq c) as [i|]; [|done]. destruct (msi_enabled _).
  - destruct (negb _); [done|]. destruct has_msi; [|done]. unfold M_bind. cbn. by destruct (SetMSI i _ _).
  - cbn. by destruct (SetIRQ i _ _).
Qed.
Lemma advance_side head q :
  let q' := advanceCompletionHeadLocked head q in
  size q' = size q ∧ cqAddr q' = cqAddr q ∧ cqTail q' = cqTail q ∧ cqPhase q' = cqPhase q ∧ cqMem q' = cqMem q.
Proof. unfold advanceCompletionHeadLocked. destruct (size q =? 0); [done|]. destruct (_ && _); [done|]. by destruct (_ >=? _). Qed.
Lemma advance_one q k n :
  0 < size q < 2^16 → 0 ≤ k → 0 < n ≤ size q → cqHead q = k mod size q → cqPending q = n →
  let q' := advanceCompletionHeadLocked ((k + 1) mod size q) q in
  cqHead q' = (k + 1) mod size q ∧ cqPending q' = n - 1.
Proof.
  intros Hs Hk Hn Hh Hp. unfold advanceCompletionHeadLocked. destruct (Z.eqb_spec (size q) 0); [lia|].
  rewrite Z.mod_mod, Hh by lia. pose proof (Z.mod_pos_bound k (size q) ltac:(lia)) as Hb.
  set (new := (k + 1) mod size q). set (consumed := if new <? _ then _ else _).
  assert ((size q = 1 ∧ consumed = 0) ∨ (size q ≠ 1 ∧ consumed = 1)) as Hc.
  { unfold consumed. assert (new = if decide (k mod size q + 1 < size q) then k mod size q + 1 else 0) as ->.
    { unfold new. rewrite <-Zplus_mod_idemp_l. destruct (decide _); [apply Z.mod_small; lia|].
      replace (k mod size q + 1) with (1 * size q) by lia. apply Z.mod_mul. lia. }
    clear consumed. set (o := k mod size q) in *.
    destruct (decide _); [right; split; [lia|]|destruct (decide (size q = 1)); [left|right]; (split; [done|])].
    - destruct (Z.ltb_spec (o + 1) o); [lia|]. rewrite u16_small by (unfold is_u; lia). lia.
    - destruct (Z.ltb_spec 0 o); [lia|]. replace o with 0 by lia. done.
    - destruct (Z.ltb_spec 0 o); [|lia]. rewrite u16_add_u16. rewrite u16_small by (unfold is_u; lia). lia. }
  clearbody consumed. clearbody new. cbn [cqPending cqHead update eta_queue]. rewrite Hp.
  destruct Hc as [[Hs1 ->]|[Hs1 ->]].
  - replace n with 1 by lia. rewrite Hs1. done.
  - cbn [Z.eqb andb]. destruct (1 >=? n) eqn:E; cbn; lia.
Qed.
Lemma doorbell_cq fuel qid value c c' r res :
  0 ≤ qid < 2^16 → queues c !! qid = Some r → (r < length (heap c))%nat → is_u16 value →
  writeDoorbellLocked fuel (qid * 8 + 4) value c = Some (c', res) →
  queue_at c' r = advanceCompletionHeadLocked value (queue_at c r) ∧ length (heap c') = length (heap c) ∧ mem c' = mem c.
Proof.
  intros Hqid Hr Hlen Hv. unfold writeDoorbellLocked.
  replace ((qid * 8 + 4) / 4) with (1 + qid * 2) by (replace (qid * 8 + 4) with ((1 + qid * 2) * 4) by lia; rewrite Z.div_mul; lia).
  rewrite Z.div_add, Z.mod_add by lia. change (1 / 2 + qid) with qid. change (1 mod 2 =? 0) with false. cbv iota.
  rewrite u16_small, Hr, (u16_small value) by done. unfold mbind, M_bind, set_queue, modify.
  set (c1 := c <| heap := _ |>). destruct (updateIRQ_frame c1) as [Eh Em]. destruct (updateIRQLocked c1) as [c2 res2].
  cbn [fst] in Eh, Em. intros [= <- _]. unfold queue_at at 1. rewrite Eh, Em. fold (queue_at c1 r).
  split_and!; [|apply length_alter|done]. unfold c1. rewrite queue_at_alter. by destruct (decide _) as [_|Hno]; [|destruct Hno].
Qed.

Lemma cq_created_inv c0 c r :
  creates c0 c r → mem_ok (mem c0) → size (queue_at c r) ≠ 0 →
  mapped (mem c) (cqAddr (queue_at c r)) (size (queue_at c r) * 16) →
  (∀ j, 0 ≤ j < size (queue_at c r) → poll (mem c) (queue_at c r) j = None) → cq_inv c r [] [].
Proof.
  intros Hc Hm Hs Hmap Hz. destruct (created_queue c0 c r Hc Hm Hs) as (Em & Hr & Hsz & Ht & Hph & Hh & Hp & Hv).
  split; [| |done|cbn; lia|by rewrite Hh, Z.mod_0_l|done].
  - split; [done|done|by rewrite Em|done|done].
  - split; [by rewrite Ht, Z.mod_0_l|by rewrite Hph|by intros j e|exact Hz].
Qed.
Lemma cq_post_inv c r es ts e :
  cq_inv c r es ts → entry_ok e → len es < len ts + size (queue_at c r) →
  ∃ c', writeCompletionLocked r (ce_sqid e) (ce_sqHead e) (ce_cid e) (ce_result e) (ce_status e) c = (c', Ok tt) ∧
    cq_inv c' r (es ++ [e]) ts.
Proof.
  intros [Hok Hring Hpre Hl Hh Hp] He Hlt. pose proof (cq_size _ _ Hok) as Hsz.
  destruct (post_completion c r es e Hok Hring He) as (c' & E & Hok' & Hring' & Es & Eh & Ep).
  exists c'. split; [done|]. split; [done|done| | | |].
  - rewrite take_app_le by lia. done.
  - rewrite length_app, Es. cbn. lia.
  - by rewrite Eh, Es.
  - rewrite Ep, Hp, length_app. destruct (Z.ltb_spec (len es - len ts) (size (queue_at c r))); [|lia].
    rewrite u16_small by (unfold is_u; lia). cbn. lia.
Qed.
Lemma cq_take_inv fuel qid c c' r es ts e res :
  cq_inv c r es ts → 0 ≤ qid < 2^16 → queues c !! qid = Some r → poll (mem c) (queue_at c r) (len ts) = Some e →
  writeDoorbellLocked fuel (qid * 8 + 4) ((len ts + 1) mod size (queue_at c r)) c = Some (c', res) →
  cq_inv c' r es (ts ++ [e]).
Proof.
  intros Hinv Hqid Hq He E. rewrite (cq_inv_poll _ _ _ _ Hinv) in He. destruct Hinv as [Hok Hring Hpre Hl Hh Hp].
  pose proof (cq_size _ _ Hok) as Hsz. pose proof (Z.mod_pos_bound (len ts + 1) (size (queue_at c r)) ltac:(lia)) as Hb.
  assert (is_u16 ((len ts + 1) mod size (queue_at c r))) as Hu by (unfold is_u; lia).
  destruct (doorbell_cq _ _ _ _ _ _ _ Hqid Hq (cq_ref _ _ Hok) Hu E) as (Eq & El & Em).
  pose proof (lookup_lt_Some _ _ _ He) as Hlt.
  destruct (advance_one (queue_at c r) (len ts) (len es - len ts) Hsz ltac:(lia) ltac:(lia) Hh Hp) as [Hh' Hp'].
  destruct (advance_side ((len ts + 1) mod size (queue_at c r)) (queue_at c r)) as (S1 & S2 & S3 & S4 & S5).
  cbn zeta in *. rewrite <-Eq in *.
  assert (cq_frame c c' r) as Hf.
  { destruct Hok as [Hr _ Hm Hmap Hv]. split; try done; rewrite ?El, ?Em, ?S5; done. }
  split.
  - by apply (cq_frame_ok c).
  - by apply (cq_frame_ring c).
  - rewrite length_app. cbn. rewrite Nat.add_1_r, (take_S_r _ _ e) by done. by rewrite <-Hpre.
  - rewrite length_app, S1. cbn. lia.
  - rewrite length_app, S1, Hh'. cbn. f_equal. lia.
  - rewrite length_app, Hp'. cbn. lia.
Qed.
Lemma cq_run_inv qid r c es ts : 0 ≤ qid < 2^16 → cq_run qid r c es ts → cq_inv c r es ts.
Proof.
  intros Hqid. induction 1 as [c0 c Hc Hm Hs Hmap Hz|c es ts e c' res _ IH He Hlt E|c es ts e fuel c' res _ IH Hq He E|c es ts c' _ IH Hf Hh Hp].
  - by apply (cq_created_inv c0).
  - destruct (cq_post_inv c r es ts e IH He Hlt) as (c1 & E1 & ?). rewrite E1 in E. by injection E as <- _.
  - by eapply cq_take_inv.
  - destruct IH as [Hok Hring Hpre Hl Hh0 Hp0]. split; [by eapply cq_frame_ok|by eapply cq_frame_ring|done|..].
    all: by rewrite ?Hh, ?Hp, ?(cf_size _ _ _ Hf).
Qed.


(** The controller does not look whether the queue is full: with as many
    completions as the queue has slots not yet taken, one more replaces the
    oldest, and the driver that polls for it finds nothing. *)
Lemma nvme_completion_overflow c r es ts e :
  cq_inv c r es ts → entry_ok e → len es = len ts + size (queue_at c r) →
  ∃ c', writeCompletionLocked r (ce_sqid e) (ce_sqHead e) (ce_cid e) (ce_result e) (ce_status e) c = (c', Ok tt) ∧
    poll (mem c) (queue_at c r) (len ts) = es !! length ts ∧ is_Some (es !! length ts) ∧
    poll (mem c') (queue_at c' r) (len ts) = None.
Proof.
  intros Hinv He Hfull. pose proof (cq_inv_poll _ _ _ _ Hinv) as Hp. destruct Hinv as [Hok Hring _ _ _ _].
  pose proof (cq_size _ _ Hok) as Hsz. destruct (post_completion c r es e Hok Hring He) as (c' & E & _ & Hring' & Es & _).
  exists c'. split_and!; [done|done|apply lookup_lt_is_Some; lia|].
  assert (poll (mem c') (queue_at c' r) (len es) = Some e) as Hlast.
  { apply (ring_posted _ _ _ Hring'); [by apply list_lookup_middle|]. rewrite length_app, Es. cbn. lia. }
  revert Hlast. rewrite Hfull. unfold poll, slot, expected_phase. rewrite Es.
  replace (len ts + size (queue_at c r)) with (len ts + 1 * size (queue_at c r)) by lia. rewrite Z.mod_add, Z.div_add by lia.
  destruct (ReadIPA _ _ _) as [raw| |]; [|done|done]. rewrite Z.add_1_r, Z.even_succ, <-Z.negb_even.
  by destruct (Z.even _), (entry_phase raw).
Qed.
End completions.

(** * The interrupt line *)

Section interrupts.
Context {T I B : Type} `{!GuestMemory T, !GuestViews T, !IRQController I, !IRQControllerOk I, !MSIController I, !BlockBackend B}.
Implicit Types c : Controller T I B.

Definition irq_side c := (irq c, irqHigh c, intMask c, IRQ c, msi c, cc c).

(** While message-signalled interrupts were never on, the line has the recorded
    level; [never] says that this is such a run. *)
Variable never : bool.
Definition line_ok c : Prop :=
  never = true → msi_enabled (msi c) = false ∧ ∀ i, irq c = Some i → level i (IRQ c) = irqHigh c.
(** The recorded level is high exactly when an unmasked queue has completions
    that the driver has not taken. *)
Definition follows c : Prop := irqHigh c = (Z.land (intMask c) 1 =? 0) && pending c.
(** A disabled controller has no queues. *)
Definition quiet c : Prop := has (cc c) 1 = false → queues c = ∅.
Definition irq_inv c : Prop := line_ok c ∧ follows c ∧ quiet c.

Lemma line_ok_side c c' : irq_side c' = irq_side c → line_ok c → line_ok c'.
Proof. intros [= E1 E2 E3 E4 E5 E6] Hl. unfold line_ok. rewrite E1, E2, E4, E5. exact Hl. Qed.

Lemma pending_ext c c' : heap c' = heap c → queues c' = queues c → pending c' = pending c.
Proof. intros E1 E2. unfold pending, queue_at. by rewrite E1, E2. Qed.
Lemma follows_ext c c' : irq_side c' = irq_side c → heap c' = heap c → queues c' = queues c → follows c → follows c'.
Proof. intros [= E1 E2 E3 E4 E5 E6] Eh Eq. unfold follows. by rewrite E2, E3, (pending_ext c c'). Qed.

Lemma setIRQ_spec high c :
  let '(c', res) := setIRQ high c in
  res = Ok tt ∧ heap c' = heap c ∧ queues c' = queues c ∧ irqHigh c' = irqHigh c ∧ intMask c' = intMask c ∧
  IRQ c' = IRQ c ∧ msi c' = msi c ∧ cc c' = cc c ∧ ∀ i, irq c' = Some i → level i (IRQ c) = high.
Proof.
  unfold setIRQ. destruct (irq c) as [i|] eqn:E; [|split_and!; try done; congruence].
  pose proof (set_ok i (IRQ c) high) as Hok. pose proof (set_level i (IRQ c) high) as Hl.
  destruct (SetIRQ i (IRQ c) high) as [i' res]. cbn in *. split_and!; try done. by intros ? [= <-].
Qed.

Lemma updateIRQ_spec c c' :
  line_ok c → updateIRQLocked c = (c', Ok tt) → line_ok c' ∧ follows c' ∧ queues c' = queues c ∧ cc c' = cc c.
Proof.
  intros Hl E. unfold updateIRQLocked, gets, mbind, M_bind, Datatypes.id, modify in E.
  set (high := _ && _) in E. destruct (eqb high (irqHigh c)) eqn:Eh.
  { injection E as <-. apply eqb_prop in Eh. split_and!; done. }
  assert (∀ c1, heap c1 = heap c → queues c1 = queues c → irqHigh c1 = high → intMask c1 = intMask c → follows c1) as Hf.
  { intros c1 H1 H2 H3 H4. unfold follows. by rewrite H3, H4, (pending_ext c c1). }
  destruct (irq c) as [i|] eqn:Ei.
  2:{ injection E as <-. split_and!; [|by apply Hf|done|done]. intros Hk. split; [by apply Hl|]. intros i. cbn. congruence. }
  destruct (msi_enabled (msi c)) eqn:Em.
  - assert (line_ok c') as Hl'.
    { intros Hk. destruct (Hl Hk) as [Hm _]. congruence. }
    destruct (negb high); [injection E as <-; split_and!; [done|by apply Hf|done|done]|].
    destruct has_msi; [|injection E as <-; split_and!; [done|by apply Hf|done|done]].
    unfold setMSI in E. destruct (SetMSI _ _ _). injection E as <- _. split_and!; [done|by apply Hf|done|done].
  - pose proof (setIRQ_spec high (c <| irqHigh := high |>)) as Hs. rewrite E in Hs.
    destruct Hs as (_ & H1 & H2 & H3 & H4 & H5 & H6 & H7 & H8). split_and!; [|by apply Hf|done|done].
    intros Hk. split; [by rewrite H6|]. intros i' Hi'. rewrite H5, H3. by apply H8.
Qed.

(** Processing does not touch the interrupt state. *)
Ltac side_step := first [preserves_step | apply preserves_modify; by intros ? ?].
Lemma cacheQueueMemory_side c0 r : preserves (λ c, irq_side c = irq_side c0) (cacheQueueMemoryLocked r).
Proof. unfold cacheQueueMemoryLocked, slice_into, set_queue. repeat side_step. Qed.
Lemma executeCommand_side c0 q cmd : preserves (λ c, irq_side c = irq_side c0) (executeCommandLocked q cmd).
Proof.
  assert (∀ d, preserves (λ c, irq_side c = irq_side c0) (nvmeWritePRP cmd d)) as Hw.
  { intros d c Hc. unfold nvmeWritePRP. by destruct (writePRP _ _ _ _ _). }
  assert (∀ q, preserves (λ c, irq_side c = irq_side c0) (new_queue q)) as Hn by (by intros q' c Hc).
  unfold executeCommandLocked. destruct (_ =? _).
  - unfold executeAdminLocked, adminCreateCQ_, adminCreateSQ_, find_queue, set_queue.
    repeat first [apply Hw|apply Hn|apply cacheQueueMemory_side|side_step].
  - intros c Hc. pose proof (executeIO_untouched c cmd c ltac:(split; [done..|by split_and!])) as [_ _ (E1 & E2 & E3 & E4 & E5 & E6)].
    unfold irq_side in *. rewrite <-Hc. congruence.
Qed.
Lemma process_entry_side c0 r : preserves (λ c, irq_side c = irq_side c0) (process_entry r).
Proof.
  assert (preserves (λ c, irq_side c = irq_side c0) (read_entry r)) as Hr.
  { intros c Hc. unfold read_entry. by destruct (queueSubmissionEntry _ _ _). }
  assert (∀ a bs, preserves (λ c, irq_side c = irq_side c0) (writeMem a bs)) as Hw.
  { intros a bs c Hc. unfold writeMem. by destruct (WriteIPA _ _ _). }
  unfold process_entry, advance_head, writeCompletionLocked, set_queue.
  repeat first [apply Hr|apply Hw|apply executeCommand_side|side_step].
Qed.

Lemma process_irq fuel r c c' :
  line_ok c → processSubmissionQueueLocked fuel r c = Some (c', Ok tt) → line_ok c' ∧ follows c' ∧ cc c' = cc c.
Proof.
  revert c. induction fuel as [|fuel IH]; intros c Hl E; [done|]. cbn [processSubmissionQueueLocked] in E.
  destruct (_ =? _).
  { injection E as E. apply updateIRQ_spec in E as (? & ? & _ & ?); done. }
  pose proof (process_entry_side c r c eq_refl) as Hs. destruct (process_entry r c) as [c1 [[]| |]]; [|done|done].
  cbn [fst] in Hs. pose proof Hs as [= _ _ _ _ _ Ecc]. rewrite <-Ecc. apply IH; [|done]. by apply (line_ok_side c).
Qed.

(** The new admin queue has no completions. *)
Lemma configureAdmin_spec c c' :
  queues c = ∅ → configureAdminQueueLocked c = (c', Ok tt) → irq_side c' = irq_side c ∧ pending c' = false.
Proof.
  intros Hq E. unfold configureAdminQueueLocked, gets, mbind, M_bind, Datatypes.id, new_queue in E.
  set (q := (newQueue adminQueueID) <| size := _ |> <| sqAddr := _ |> <| cqAddr := _ |> <| cqPhase := _ |> <| interrupts := _ |>) in E.
  set (c1 := c <| heap := heap c ++ [q] |>) in E. set (r := length (heap c)) in E.
  pose proof (cacheQueueMemory_side c1 r c1 eq_refl) as Hs.
  assert (preserves (λ c, cqPending (queue_at c r) = 0 ∧ queues c = ∅) (cacheQueueMemoryLocked r)) as Hp.
  { unfold cacheQueueMemoryLocked, slice_into, set_queue. repeat first [side_step|
      apply preserves_modify; intros c2 [H1 H2]; split; [by rewrite (queue_at_field cqPending)|done]]. }
  specialize (Hp c1 ltac:(split; [unfold c1, r; by rewrite queue_at_new|done])).
  destruct (cacheQueueMemoryLocked r c1) as [c2 [[]| |]]; [|done|done]. cbn [fst] in Hs, Hp. destruct Hp as [Hp Hq2].
  injection E as <-. split; [exact Hs|]. unfold pending. cbn [queues update eta_Controller]. rewrite Hq2.
  rewrite insert_empty, map_to_list_singleton. cbn [existsb]. change (queue_at _ r) with (queue_at c2 r). rewrite Hp.
  by rewrite andb_false_r.
Qed.

(** * Register writes *)

Lemma writeCC_irq value c c' :
  irq_inv c → ¬ (has (cc c) 1 = true ∧ has (u32 value) 1 = true) → writeCC value c = (c', Ok tt) → irq_inv c'.
Proof.
  intros (Hl & Hf & Hq) Hre E. unfold writeCC, gets, mbind, M_bind, Datatypes.id, modify in E. cbv beta iota in E.
  destruct (has (u32 value) 1) eqn:Ev; cbn [negb] in E.
  - assert (has (cc c) 1 = false) as Hoff by (destruct (has (cc c) 1); [by destruct Hre|done]). specialize (Hq Hoff).
    assert (irqHigh c = false) as Hlow by (rewrite Hf; unfold pending; by rewrite Hq, map_to_list_empty, andb_false_r).
    match type of E with context [configureAdminQueueLocked ?x] => set (c1 := x) in E end.
    destruct (configureAdminQueueLocked c1) as [c2 [[]| |]] eqn:Ec; [|done|done]. injection E as <-.
    destruct (configureAdmin_spec c1 c2) as [Hs Hp]; [exact Hq|done|]. pose proof Hs as [= E1 E2 E3 E4 E5 E6]. split_and!.
    + apply (line_ok_side c1); [done|exact Hl].
    + unfold follows. cbn. change (pending _) with (pending c2). rewrite Hp, andb_false_r, E2. exact Hlow.
    + intros Hc. cbn in Hc. rewrite E6 in Hc. cbn in Hc. by rewrite Ev in Hc.
  - destruct (has (cc c) 1) eqn:Eo.
    + match type of E with setIRQ _ ?x = _ => set (c1 := x) in E end.
      pose proof (setIRQ_spec false c1) as Hs. rewrite E in Hs. destruct Hs as (_ & H1 & H2 & H3 & H4 & H5 & H6 & H7 & H8). split_and!.
      * intros Hk. split; [by rewrite H6; apply Hl|]. intros i Hi. rewrite H5, H3. by apply H8.
      * unfold follows. rewrite H3, (pending_ext c1 c') by done. unfold pending. cbn. by rewrite map_to_list_empty, andb_false_r.
      * intros _. by rewrite H2.
    + injection E as <-. split_and!; [exact Hl|exact Hf|]. intros _. cbn. by apply Hq.
Qed.

Lemma writeCC_cc value c c' : writeCC value c = (c', Ok tt) → cc c' = u32 value.
Proof.
  intros E. unfold writeCC, gets, mbind, M_bind, Datatypes.id, modify in E. cbv beta iota in E.
  destruct (has (u32 value) 1); cbn [negb] in E.
  - match type of E with context [configureAdminQueueLocked ?x] => set (c1 := x) in E end.
    assert (preserves (λ c, irq_side c = irq_side c1) configureAdminQueueLocked) as Hp.
    { unfold configureAdminQueueLocked, new_queue. repeat first [apply cacheQueueMemory_side|side_step|by intros c0 Hc0]. }
    specialize (Hp c1 eq_refl). destruct (configureAdminQueueLocked c1) as [c2 [[]| |]]; [|done|done].
    injection E as <-. pose proof Hp as [= _ _ _ _ _ Ecc]. exact Ecc.
  - destruct (has (cc c) 1); [|by injection E as <-].
    match type of E with setIRQ _ ?x = _ => pose proof (setIRQ_spec false x) as Hs end. rewrite E in Hs.
    by destruct Hs as (_ & _ & _ & _ & _ & _ & _ & Hcc & _).
Qed.

Lemma update_irq_inv c c' : line_ok c → quiet c → updateIRQLocked c = (c', Ok tt) → irq_inv c' ∧ cc c' = cc c.
Proof.
  intros Hl Hq E. apply updateIRQ_spec in E as (? & ? & E1 & E2); [|done]. split; [|done].
  split_and!; [done|done|]. intros Hc. rewrite E1. apply Hq. by rewrite <-E2.
Qed.
Lemma doorbell_irq fuel offset value c c' :
  irq_inv c → writeDoorbellLocked fuel offset value c = Some (c', Ok tt) → irq_inv c' ∧ cc c' = cc c.
Proof.
  intros Hinv E. pose proof Hinv as (Hl & Hf & Hq). unfold writeDoorbellLocked in E.
  destruct (queues c !! u16 (offset / 4 / 2)) as [r|] eqn:Er; [|by injection E as <-].
  assert (has (cc c) 1 = true) as Hon.
  { destruct (has (cc c) 1) eqn:Ec; [done|]. specialize (Hq Ec). by rewrite Hq, lookup_empty in Er. }
  destruct (_ =? 0).
  - apply process_irq in E as (Hl' & Hf' & Ecc); [|exact Hl]. split; [|exact Ecc]. split_and!; [done|done|].
    intros Hc. rewrite Ecc in Hc. cbn in Hc. congruence.
  - injection E as E. unfold set_queue, modify, mbind, M_bind in E. apply update_irq_inv in E; [exact E|exact Hl|exact Hq].
Qed.
Lemma WriteMMIO_irq fuel offset value c c' :
  irq_inv c → ¬ (offset = regCC ∧ has (cc c) 1 = true ∧ has (u32 value) 1 = true) →
  WriteMMIO fuel offset value c = Some (c', Ok tt) →
  irq_inv c' ∧ cc c' = if offset =? regCC then u32 value else cc c.
Proof.
  intros Hinv Hre E. pose proof Hinv as (Hl & Hf & Hq). unfold WriteMMIO, modify, mbind, M_bind in E.
  destruct (Z.eqb_spec offset regINTMS) as [->|H1].
  { injection E as E. apply update_irq_inv in E; [exact E|exact Hl|exact Hq]. }
  destruct (Z.eqb_spec offset regINTMC) as [->|H2].
  { injection E as E. apply update_irq_inv in E; [exact E|exact Hl|exact Hq]. }
  destruct (Z.eqb_spec offset regCC) as [->|H3].
  { injection E as E. split; [|by apply writeCC_cc in E]. apply (writeCC_irq value c); [done| |done]. intros [? ?]. by apply Hre. }
  do 5 (destruct (offset =? _); [injection E as <-; exact (conj Hinv eq_refl)|]).
  destruct (offset >=? doorbellBase); [by apply doorbell_irq in E|]. by injection E as <-.
Qed.

End interrupts.

(** ** Runs *)

Section line_runs.
Context {T I B : Type} `{!GuestMemory T, !GuestViews T, !IRQController I, !IRQControllerOk I, !MSIController I, !BlockBackend B}.
Implicit Types c : Controller T I B.

(** A register or doorbell write, a change of guest memory by the guest or
    another device, a change of the message-signalled interrupts. *)
Inductive nvme_action :=
  | AWrite (offset value : Z)
  | AGuest (m : T)
  | AMSI (enabled : bool) (addr data : Z).

(** Actions one after the other; each write returned without an error. *)
Fixpoint run_writes (fuel : nat) (acts : list nvme_action) c : option (Controller T I B) :=
  match acts with
  | [] => Some c
  | AWrite offset value :: acts =>
    match WriteMMIO fuel offset value c with
    | Some (c, Ok _) => run_writes fuel acts c
    | _ => None
    end
  | AGuest m :: acts => run_writes fuel acts (c <| mem := m |>)
  | AMSI enabled addr data :: acts => run_writes fuel acts (ConfigureMSI enabled addr data c)
  end.
(** No write to CC enables a controller that is enabled. *)
Fixpoint never_reenables (acts : list nvme_action) (enabled : bool) : bool :=
  match acts with
  | [] => true
  | AWrite offset value :: acts =>
    if offset =? regCC then negb (enabled && has (u32 value) 1) && never_reenables acts (has (u32 value) 1)
    else never_reenables acts enabled
  | _ :: acts => never_reenables acts enabled
  end.
Definition never_msi (acts : list nvme_action) : bool :=
  forallb (λ a, match a with AMSI enabled _ _ => negb enabled | _ => true end) acts.

Lemma run_writes_inv never fuel acts c c' :
  irq_inv never c → never_reenables acts (has (cc c) 1) = true → (never = true → never_msi acts = true) →
  run_writes fuel acts c = Some c' → irq_inv never c'.
Proof.
  revert c. induction acts as [|[offset value|m|e a d] acts IH]; intros c Hinv Hnr Hnm E; cbn [run_writes never_reenables never_msi forallb] in *.
  - by injection E as <-.
  - destruct (WriteMMIO fuel offset value c) as [[c1 [[]| |]]|] eqn:E1; [|done..].
    apply (WriteMMIO_irq never) in E1 as [Hinv1 Ecc]; [|done|].
    + apply (IH c1); [done| |done|done]. rewrite Ecc. destruct (offset =? regCC); [|done]. by apply andb_true_iff in Hnr as [_ ?].
    + intros (-> & H1 & H2). rewrite Z.eqb_refl, H1, H2 in Hnr. done.
  - by apply (IH (c <| mem := m |>)).
  - apply (IH (ConfigureMSI e a d c)); [|done| |done].
    + destruct Hinv as (Hl & Hf & Hq). split_and!; [|exact Hf|exact Hq]. intros Hk. specialize (Hnm Hk).
      apply andb_true_iff in Hnm as [He _]. split; [by apply negb_true_iff in He|]. by apply Hl.
    + intros Hk. specialize (Hnm Hk). by apply andb_true_iff in Hnm as [_ ?].
Qed.

(** C16: From a new controller, whatever registers and doorbells the guest
    writes, while guest memory and the message-signalled interrupts change
    between the writes, and as long as every write returns without an error
    and CC is not written with the enable bit while it is set: the recorded
    interrupt level is high exactly when interrupts are not masked and some
    queue with interrupts has completions that the driver has not taken; and
    if message-signalled interrupts were never on, the interrupt line has that
    level. *)
Theorem nvme_line_follows_queues nil b m i fuel acts c' :
  level i 0 = false → never_reenables acts false = true →
  run_writes fuel acts (nvmeAttach m (Some i) (NewController nil b)) = Some c' →
  irqHigh c' = (Z.land (intMask c') 1 =? 0) && pending c' ∧
  (never_msi acts = true → ∀ i', irq c' = Some i' → level i' (IRQ c') = irqHigh c').
Proof.
  intros Hi Hnr E.
  assert (irq_inv (never_msi acts) (nvmeAttach m (Some i) (NewController nil b))) as Hinv.
  { split_and!; [intros _; split; [done|by intros i' [= <-]]|unfold follows, pending; cbn; by rewrite map_to_list_empty|done]. }
  apply (run_writes_inv (never_msi acts)) in E as (Hl & Hf & _); [|done..]. split; [exact Hf|]. intros Hk. by apply Hl.
Qed.
End line_runs.

(** * Concrete controllers *)

(** An arm64 guest whose memory starts with a Set Features command, and an I/O
    queue of two entries: submissions at the start of memory, completions
    after them. *)
Definition small_memory (op : Z) : option VM := Some (mkVM 0x40000000 192 (op :: replicate 191 0)).
Definition small_controller (op : Z) : Controller (option VM) (list (Z * bool)) (list Z) :=
  nvmeAttach (small_memory op) (Some []) (NewController None (Some (replicate 512 0))).
Definition small_queue : queue :=
  mkQueue 1 2 0x40000000 0x40000080 1 0 0 0 0 0 true true None None.
Definition small_io (op : Z) : Controller (option VM) (list (Z * bool)) (list Z) :=
  (small_controller op) <| queues := {[1 := 0%nat]} |> <| heap := [small_queue] |>.

Lemma small_io_queue op : io_queue (small_io op) 0.
Proof. split; cbn; done || lia. Qed.
Lemma nvme_queue_drains_witness :
  ∃ c' res, writeDoorbellLocked 2 8 1 (small_io ioFlush) = Some (c', res) ∧
    (res = Ok tt → ∃ c1, sqHead (queue_at c1 0) = 1 ∧ updateIRQLocked c1 = (c', Ok tt)).
Proof. refine (nvme_queue_drains (small_io ioFlush) 1 1 0 _ _ (small_io_queue _) _ _); done. Defined.
Lemma nvme_tail_out_of_range_witness :
  match writeDoorbellLocked 100 (1 * 8) 2 (small_io ioFlush) with
  | None => True
  | Some (c', res) => res ≠ Ok tt ∧ ∃ c1, io_queue c1 0 ∧ sqTail (queue_at c1 0) = 2 ∧ process_entry 0 c1 = (c', res)
  end.
Proof. apply (nvme_tail_out_of_range (small_io ioFlush) 1 2 0 100); [done|done|apply small_io_queue|done|done]. Defined.

(** Create I/O Submission Queue with the largest size. *)
Definition largest_sq : command := mkCommand adminCreateSQ 3 0 0x40000000 0 0xffff0001 0x10001 0 0.
Lemma nvme_largest_queue_panics_witness :
  ∃ c1 c2, executeAdminLocked largest_sq (small_controller ioFlush) = (c1, Ok (0, 0)) ∧
    writeDoorbellLocked 1 8 1 c1 = Some (c2, Panic).
Proof.
  apply (nvme_largest_queue_panics (small_controller ioFlush) largest_sq 1 (replicate 512 0) (replicate 64 0) 1 0); done.
Defined.

(** A completion queue of two entries is created; the controller posts twice,
    the driver takes the first entry, and the third lands in its slot. *)
Definition small_cq : command := mkCommand adminCreateCQ 3 0 0x40000080 0 0x10001 3 0 0.
Definition small_entry (cid : Z) : cq_entry := mkEntry 0 1 1 cid 0.
Notation small := (Controller (option VM) (list (Z * bool)) (list Z)).
Definition small_created : small := (adminCreateCQ_ small_cq (small_controller ioFlush)).1.
Definition small_post (cid : Z) (c : small) : small := (writeCompletionLocked 0 1 1 cid 0 0 c).1.
Definition small_take (head : Z) (c : small) : small :=
  match writeDoorbellLocked 0 12 head c with Some (c, _) => c | None => c end.
Definition small_posted : small := small_post 9 (small_take 1 (small_post 8 (small_post 7 small_created))).
Lemma small_run : cq_run 1 0 small_posted [small_entry 7; small_entry 8; small_entry 9] [small_entry 7].
Proof.
  assert (∀ cid, 0 ≤ cid < 2^16 → entry_ok (small_entry cid)) as He by (intros cid ?; unfold entry_ok, is_u; cbn; lia).
  assert (∀ c es ts cid, cq_run 1 0 c es ts → 0 ≤ cid < 2^16 → len es < len ts + size (queue_at c 0) →
    cq_run 1 0 (small_post cid c) (es ++ [small_entry cid]) ts) as Hpost.
  { intros c es ts cid Hrun Hcid Hlt. eapply cq_post; [exact Hrun|by apply He|done|apply surjective_pairing]. }
  apply (Hpost _ [small_entry 7; small_entry 8]); [|lia|by vm_compute].
  apply (cq_take 1 0 (small_post 8 (small_post 7 small_created)) _ [] (small_entry 7) 0 _ (Ok tt)); [|vm_compute; reflexivity..].
  apply (Hpost _ [small_entry 7]); [|lia|by vm_compute]. apply (Hpost _ []); [|lia|by vm_compute].
  apply (cq_created 1 0 (small_controller ioFlush)).
  - apply (creates_io _ _ _ small_cq); vm_compute; done.
  - split_and!; [done|done|done|]. apply Forall_cons_2; [done|by apply Forall_replicate].
  - by vm_compute.
  - right. vm_compute. done.
  - intros j Hj. replace (size (queue_at small_created 0)) with 2 in Hj by (vm_compute; reflexivity). assert (j = 0 ∨ j = 1) as [-> | ->] by lia; vm_compute; reflexivity.
Qed.

(** A guest that sets up the admin queues, enables the controller and rings
    the doorbell of the admin submission queue. *)
Definition small_boot : list nvme_action :=
  [AWrite regAQA 0x10001; AWrite regASQ 0x40000000; AWrite regACQ 0x40000080; AGuest (small_memory adminSetFeatures);
   AWrite regCC 1; AWrite doorbellBase 1].
Lemma nvme_line_follows_queues_witness :
  ∃ c', run_writes 2 small_boot (small_controller ioFlush) = Some c' ∧
    irqHigh c' = (Z.land (intMask c') 1 =? 0) && pending c' ∧
    (never_msi small_boot = true → ∀ i', irq c' = Some i' → level i' (IRQ c') = irqHigh c').
Proof.
  destruct (run_writes 2 small_boot (small_controller ioFlush)) as [c'|] eqn:E; [|vm_compute in E; discriminate E].
  exists c'. split; [done|].
  exact (nvme_line_follows_queues None (Some (replicate 512 0)) (small_memory ioFlush) [] 2 small_boot c' eq_refl eq_refl E).
Defined.
