(* ===== verification/Initramfs.v ===== *)
(** The initial RAM file system: src/internal/linux/initramfs/initramfs.go.

    [Build] writes a cpio archive in the [newc] format, which the kernel unpacks
    before the first program runs.  Paths, link targets and contents are
    strings of bytes, [os.FileMode] is a 32-bit word.  The walk over a directory
    of the host is the list of calls that [filepath.WalkDir] makes.

    The format is given by a reader, [unpack]: headers of hexadecimal fields,
    names and contents aligned to four bytes of the archive, up to the trailer.
    The theorems: what [Build] returns unpacks to the files it was given, it
    fails exactly on the files it must refuse, and a directory arrives as it was
    walked. *)
From S2P Require Import Prelude.

(** * Files *)

Definition TypeRegular : Z := 0.
Definition TypeDirectory : Z := 1.
Definition TypeCharDevice : Z := 2.
Definition TypeBlockDevice : Z := 3.
Definition TypeSymlink : Z := 4.

Record File := mkFile {
  Path : list Z;
  Mode : Z;
  Data : list Z;
  Linkname : list Z;
  Type_ : Z;
  DevMajor : Z;
  DevMinor : Z;
}.

Definition newcMagic : list Z := [48; 55; 48; 55; 48; 49].
Definition newcHeaderLen : Z := 110.
Definition newcTrailerName : list Z := [84; 82; 65; 73; 76; 69; 82; 33; 33; 33].
Definition newcRegularFileBit : Z := 32768.
Definition newcDirectoryBit : Z := 16384.
Definition newcCharDeviceBit : Z := 8192.
Definition newcBlockDeviceBit : Z := 24576.
Definition newcSymlinkBit : Z := 40960.

(** [os.FileMode]: the permission bits and the bits of the type. *)
Definition Perm (mode : Z) : Z := Z.land mode 511.
Definition ModeDir : Z := Z.shiftl 1 31.
Definition ModeSymlink : Z := Z.shiftl 1 27.
Definition ModeType : Z :=
  Z.lor ModeDir (Z.lor ModeSymlink (Z.lor (Z.shiftl 1 26) (Z.lor (Z.shiftl 1 25)
    (Z.lor (Z.shiftl 1 24) (Z.lor (Z.shiftl 1 21) (Z.shiftl 1 19)))))).

(** * One member of the archive *)

Record entry := mkEntry {
  ino : Z;
  mode : Z;
  uid : Z;
  gid : Z;
  nlink : Z;
  mtime : Z;
  filesize : Z;
  devmajor : Z;
  devminor : Z;
  rdevmajor : Z;
  rdevminor : Z;
  name : list Z;
  data : list Z;
}.

(** [%08x]: as many hexadecimal digits as the value needs, eight at least. *)
Definition hex_digit (d : Z) : Z := if d <? 10 then 48 + d else 87 + d.
Fixpoint hex_digits (n : nat) (v : Z) : list Z :=
  match n with
  | O => []
  | S n => hex_digits n (v / 16) ++ [hex_digit (v mod 16)]
  end.
Definition hex_width (v : Z) : Z := if v =? 0 then 1 else Z.log2 v / 4 + 1.
Definition x08 (v : Z) : list Z := hex_digits (Z.to_nat (Z.max 8 (hex_width v))) v.

Definition alignTo4 (length : Z) : Z := if length mod 4 =? 0 then 0 else 4 - length mod 4.
Definition zeros (n : Z) : list Z := replicate (Z.to_nat n) 0.

(** The buffer grows by the bytes of the entry. *)
Definition writeEntry (e : entry) : result (list Z) :=
  let nameSize := len (name e) + 1 in
  let header := newcMagic ++ concat (map x08
    [ino e; mode e; uid e; gid e; nlink e; mtime e; filesize e; devmajor e; devminor e;
     rdevmajor e; rdevminor e; nameSize; 0]) in
  if negb (len header =? newcHeaderLen) then Err "unexpected header length"
  else Ok (header ++ name e ++ [0] ++ zeros (alignTo4 (newcHeaderLen + nameSize)) ++
           data e ++ zeros (alignTo4 (len (data e)))).

(** * The archive *)

(** [strings.TrimPrefix(path, "/")] *)
Definition trimPrefix (path : list Z) : list Z :=
  match path with 47 :: rest => rest | _ => path end.

Definition encodeMode (f : File) : result Z :=
  let m := Perm (Mode f) in
  if Type_ f =? TypeRegular then Ok (Z.lor m newcRegularFileBit)
  else if Type_ f =? TypeDirectory then Ok (Z.lor m newcDirectoryBit)
  else if Type_ f =? TypeCharDevice then Ok (Z.lor m newcCharDeviceBit)
  else if Type_ f =? TypeBlockDevice then Ok (Z.lor m newcBlockDeviceBit)
  else if Type_ f =? TypeSymlink then Ok (Z.lor m newcSymlinkBit)
  else Err "unsupported file type".

Definition fileData (f : File) : list Z := if Type_ f =? TypeSymlink then Linkname f else Data f.

(** The body of the loop over the files. *)
Definition build_file (i : Z) (f : File) : result (list Z) :=
  let nm := trimPrefix (Path f) in
  match nm with
  | [] => Err "file has empty path"
  | _ =>
    m ← encodeMode f;
    let d := fileData f in
    writeEntry (mkEntry i m 0 0 1 0 (u32 (len d)) 0 0 (DevMajor f) (DevMinor f) nm d)
  end.
Fixpoint build_files (buf : list Z) (i : Z) (files : list File) : result (list Z) :=
  match files with
  | [] => Ok buf
  | f :: files => b ← build_file i f; build_files (buf ++ b) (u32 (i + 1)) files
  end.
Definition Build (files : list File) : result (list Z) :=
  buf ← build_files [] 1 files;
  b ← writeEntry (mkEntry 0 newcRegularFileBit 0 0 1 0 0 0 0 0 0 newcTrailerName []);
  Ok (buf ++ b).

(** * A directory of the host *)

(** One call of the function given to [filepath.WalkDir], with what the host
    answers to the calls it makes. *)
Record visit := mkVisit {
  walk_err : option string;
  is_root : bool;
  Rel : result (list Z);
  Lstat : result Z;
  Readlink : result (list Z);
  ReadFile : result (list Z);
}.
Definition walk_file (v : visit) : result (option File) :=
  match walk_err v with
  | Some e => Err e
  | None =>
    if is_root v then Ok None else
    rel ← Rel v;
    let rel := 47 :: rel in
    m ← Lstat v;
    let file d l t := Ok (Some (mkFile rel (Perm m) d l t 0 0)) in
    if has m ModeDir then file [] [] TypeDirectory
    else if has m ModeSymlink then target ← Readlink v; file [] target TypeSymlink
    else if negb (has m ModeType) then d ← ReadFile v; file d [] TypeRegular
    else Err "unsupported filesystem entry"
  end.
Fixpoint walk_files (files : list File) (vs : list visit) : result (list File) :=
  match vs with
  | [] => Ok files
  | v :: vs =>
    f ← walk_file v;
    walk_files (match f with Some f => files ++ [f] | None => files end) vs
  end.
Definition BuildFromDirectory (walk : list visit) (extra : list File) : result (list Z) :=
  files ← walk_files [] walk;
  Build (files ++ extra).

(** * The format *)

Definition hex_val (c : Z) : option Z :=
  if (48 <=? c) && (c <=? 57) then Some (c - 48)
  else if (97 <=? c) && (c <=? 102) then Some (c - 87)
  else if (65 <=? c) && (c <=? 70) then Some (c - 55)
  else None.
Fixpoint read_hex (acc : Z) (l : list Z) : option Z :=
  match l with
  | [] => Some acc
  | c :: l => d ← hex_val c; read_hex (16 * acc + d) l
  end.
(** Fields of eight digits. *)
Fixpoint read_fields (n : nat) (l : list Z) : option (list Z) :=
  match n with
  | O => Some []
  | S n => v ← read_hex 0 (take 8 l); vs ← read_fields n (drop 8 l); Some (v :: vs)
  end.
Definition align4 (n : nat) : nat := ((n + 3) / 4 * 4)%nat.

(** The member at an offset of the archive, and where the next one starts. *)
Definition read_member (a : list Z) (off : nat) : option (entry * nat) :=
  guard (sub a off 6 = newcMagic);;
  fields ← read_fields 13 (sub a (off + 6) 104);
  match fields with
  | [f_ino; f_mode; f_uid; f_gid; f_nlink; f_mtime; f_filesize; f_devmajor; f_devminor;
     f_rdevmajor; f_rdevminor; f_namesize; _] =>
    let name_off := (off + 110)%nat in
    let data_off := align4 (name_off + Z.to_nat f_namesize) in
    let next := align4 (data_off + Z.to_nat f_filesize) in
    guard (next ≤ length a)%nat;;
    guard (1 ≤ f_namesize);;
    guard (a !! (name_off + Z.to_nat f_namesize - 1)%nat = Some 0);;
    Some (mkEntry f_ino f_mode f_uid f_gid f_nlink f_mtime f_filesize f_devmajor f_devminor
            f_rdevmajor f_rdevminor (sub a name_off (Z.to_nat f_namesize - 1))
            (sub a data_off (Z.to_nat f_filesize)), next)
  | _ => None
  end.
Fixpoint read_members (fuel : nat) (a : list Z) (off : nat) : option (list entry) :=
  match fuel with
  | O => None
  | S fuel =>
    '(e, next) ← read_member a off;
    if decide (name e = newcTrailerName) then Some []
    else es ← read_members fuel a next; Some (e :: es)
  end.

(** What the kernel makes of a member. *)
Definition unpack_entry (e : entry) : option File :=
  let fmt := Z.land (mode e) 61440 in
  let file l d t := Some (mkFile (name e) (Perm (mode e)) d l t (rdevmajor e) (rdevminor e)) in
  if fmt =? newcRegularFileBit then file [] (data e) TypeRegular
  else if fmt =? newcDirectoryBit then file [] (data e) TypeDirectory
  else if fmt =? newcCharDeviceBit then file [] (data e) TypeCharDevice
  else if fmt =? newcBlockDeviceBit then file [] (data e) TypeBlockDevice
  else if fmt =? newcSymlinkBit then file (data e) [] TypeSymlink
  else None.
Definition unpack (a : list Z) : option (list File) :=
  es ← read_members (length a) a 0; mapM unpack_entry es.

(** A file as it arrives: without the leading slash, with permissions only, and
    with the contents or the target that its type has. *)
Definition arrives (f : File) : File :=
  mkFile (trimPrefix (Path f)) (Perm (Mode f))
    (if Type_ f =? TypeSymlink then [] else Data f) (if Type_ f =? TypeSymlink then Linkname f else [])
    (Type_ f) (DevMajor f) (DevMinor f).

(** The files an archive can hold. *)
Record file_ok (f : File) : Prop := {
  ok_name : trimPrefix (Path f) ≠ [];
  ok_trailer : trimPrefix (Path f) ≠ newcTrailerName;
  ok_type : 0 ≤ Type_ f < 5;
  ok_name_size : len (trimPrefix (Path f)) + 1 < 2^32;
  ok_size : len (fileData f) < 2^32;
  ok_major : is_u32 (DevMajor f);
  ok_minor : is_u32 (DevMinor f);
}.

(** * Hexadecimal fields *)

Lemma length_hex_digits n v : length (hex_digits n v) = n.
Proof. revert v. induction n as [|n IH]; intros v; cbn; [done|]. rewrite length_app, IH. cbn. lia. Qed.
Lemma hex_val_digit d : 0 ≤ d < 16 → hex_val (hex_digit d) = Some d.
Proof.
  intros Hd. unfold hex_digit, hex_val. destruct (Z.ltb_spec d 10); bool_cases; f_equal; lia.
Qed.
Lemma read_hex_app acc l k : read_hex acc (l ++ k) = read_hex acc l ≫= λ v, read_hex v k.
Proof.
  revert acc. induction l as [|c l IH]; intros acc; cbn; [done|]. destruct (hex_val c); cbn; [apply IH|done].
Qed.
Lemma read_hex_digits n v : 0 ≤ v < 16 ^ Z.of_nat n → read_hex 0 (hex_digits n v) = Some v.
Proof.
  revert v. induction n as [|n IH]; intros v Hv; cbn [hex_digits].
  { cbn in *. f_equal. lia. }
  rewrite Nat2Z.inj_succ, Z.pow_succ_r in Hv by lia.
  rewrite read_hex_app, IH by (split; [apply Z.div_pos; lia|apply Z.div_lt_upper_bound; lia]). cbn.
  rewrite hex_val_digit by (apply Z.mod_pos_bound; lia). cbn. f_equal. symmetry. apply Z.div_mod. lia.
Qed.
Lemma hex_width_u32 v : 0 ≤ v → hex_width v ≤ 8 ↔ v < 2^32.
Proof.
  intros Hv. unfold hex_width. destruct (Z.eqb_spec v 0) as [->|Hne]; [split; lia|].
  pose proof (Z.div_mod (Z.log2 v) 4 ltac:(lia)). pose proof (Z.mod_pos_bound (Z.log2 v) 4 ltac:(lia)).
  rewrite Z.log2_lt_pow2 by lia. lia.
Qed.
Lemma length_x08 v : len (x08 v) = Z.max 8 (hex_width v).
Proof. unfold x08. rewrite length_hex_digits. lia. Qed.
Lemma length_x08_u32 v : is_u32 v → length (x08 v) = 8%nat.
Proof. intros Hv. apply Nat2Z.inj. rewrite length_x08. unfold is_u in Hv. pose proof (hex_width_u32 v). lia. Qed.
Lemma read_x08 v : is_u32 v → read_hex 0 (x08 v) = Some v.
Proof.
  intros Hv. pose proof (length_x08_u32 v Hv) as Hl. unfold x08 in *. rewrite length_hex_digits in Hl. rewrite Hl.
  by apply read_hex_digits.
Qed.
Lemma length_fields vs : Forall is_u32 vs → length (concat (map x08 vs)) = (8 * length vs)%nat.
Proof.
  induction 1 as [|v vs Hv _ IH]; [done|]. cbn [map concat length]. rewrite length_app, IH, length_x08_u32 by done. lia.
Qed.
Lemma read_fields_x08 vs : Forall is_u32 vs → read_fields (length vs) (concat (map x08 vs)) = Some vs.
Proof.
  induction 1 as [|v vs Hv _ IH]; [done|]. cbn [map concat length read_fields].
  rewrite take_app_length', drop_app_length', read_x08 by (by rewrite ?length_x08_u32). cbn. by rewrite IH.
Qed.

(** * Members *)

Definition entry_fields (e : entry) : list Z :=
  [ino e; mode e; uid e; gid e; nlink e; mtime e; filesize e; devmajor e; devminor e; rdevmajor e; rdevminor e;
   len (name e) + 1; 0].
Record entry_ok (e : entry) : Prop := {
  ok_fields : Forall is_u32 (entry_fields e);
  ok_filesize : filesize e = len (data e);
}.
Definition header_bytes (e : entry) : list Z := newcMagic ++ concat (map x08 (entry_fields e)).
Definition entry_bytes (e : entry) : list Z :=
  header_bytes e ++ (name e ++ [0] ++ zeros (alignTo4 (newcHeaderLen + (len (name e) + 1)))) ++
  (data e ++ zeros (alignTo4 (len (data e)))).

Lemma alignTo4_spec n : 0 ≤ n → 0 ≤ alignTo4 n < 4 ∧ (n + alignTo4 n) mod 4 = 0.
Proof.
  intros Hn. unfold alignTo4. pose proof (Z.mod_pos_bound n 4 ltac:(lia)). destruct (Z.eqb_spec (n mod 4) 0) as [E|E].
  { rewrite Z.add_0_r. lia. }
  split; [lia|]. rewrite Z.add_sub_assoc, <-(Z.add_opp_r (n + 4)), Zplus_mod, Z.mod_opp_l_nz by (rewrite ?Z.mod_mod; lia).
  rewrite Z.mod_mod, <-(Z.mul_1_l 4) at 1 by lia. rewrite Z.mod_add by lia.
  replace (n mod 4 + (4 - n mod 4)) with (1 * 4) by lia. by apply Z.mod_mul.
Qed.
Lemma align4_spec n : (n ≤ align4 n < n + 4)%nat ∧ (align4 n mod 4 = 0)%nat.
Proof.
  unfold align4. pose proof (Nat.div_mod_eq (n + 3) 4). pose proof (Nat.mod_upper_bound (n + 3) 4 ltac:(lia)).
  split; [lia|]. by apply Nat.Div0.mod_mul.
Qed.
(** Padding in front of an aligned place is padding of the place. *)
Lemma align4_pad p n : (p mod 4 = 0)%nat → align4 (p + n) = (p + n + Z.to_nat (alignTo4 (Z.of_nat n)))%nat.
Proof.
  intros Hp. destruct (alignTo4_spec (Z.of_nat n)) as [Hb Hm]; [lia|]. destruct (align4_spec (p + n)) as [Hb' Hm'].
  apply Nat.Div0.mod_divides in Hp as [i Hi]. apply Nat.Div0.mod_divides in Hm' as [j Hj].
  apply Z.mod_divide in Hm as [k Hk]; [|lia]. lia.
Qed.

Lemma length_header e : Forall is_u32 (entry_fields e) → length (header_bytes e) = 110%nat.
Proof. intros Hf. unfold header_bytes. by rewrite length_app, length_fields. Qed.
Lemma writeEntry_ok e : Forall is_u32 (entry_fields e) → writeEntry e = Ok (entry_bytes e).
Proof.
  intros He. pose proof (length_header e He) as Hl. unfold writeEntry.
  change (newcMagic ++ concat _) with (header_bytes e). rewrite Hl. cbn [negb]. unfold entry_bytes. by rewrite <-!app_assoc.
Qed.

Lemma length_padding n : length (zeros n) = Z.to_nat n.
Proof. apply length_replicate. Qed.
Lemma length_entry_bytes e : entry_ok e → (length (entry_bytes e) mod 4 = 0)%nat.
Proof.
  intros He. unfold entry_bytes. rewrite !length_app, !length_padding, length_header by apply He.
  destruct (alignTo4_spec (newcHeaderLen + (len (name e) + 1))) as [? Hm]; [unfold newcHeaderLen; lia|].
  destruct (alignTo4_spec (len (data e))) as [? Hm']; [lia|]. unfold newcHeaderLen in *.
  apply Z.mod_divide in Hm as [i Hi]; [|lia]. apply Z.mod_divide in Hm' as [j Hj]; [|lia].
  apply Nat.Div0.mod_divides. exists (Z.to_nat (i + j)). cbn [length]. lia.
Qed.

(** Where the parts of a member are, after the first bytes of the archive. *)
Lemma length_entry e : entry_ok e →
  length (entry_bytes e) =
    (110 + (length (name e) + 1 + Z.to_nat (alignTo4 (newcHeaderLen + (len (name e) + 1)))) +
     (length (data e) + Z.to_nat (alignTo4 (len (data e)))))%nat.
Proof. intros He. unfold entry_bytes. rewrite !length_app, !length_padding, length_header by apply He. cbn [length]. lia. Qed.
Lemma member_data_offset (p : nat) e : (p mod 4 = 0)%nat →
  align4 (p + 110 + Z.to_nat (len (name e) + 1)) =
    (p + (110 + (length (name e) + 1 + Z.to_nat (alignTo4 (newcHeaderLen + (len (name e) + 1))))))%nat.
Proof.
  intros Hp. replace (p + 110 + Z.to_nat (len (name e) + 1))%nat with (p + (110 + (length (name e) + 1)))%nat by lia.
  rewrite align4_pad by done. replace (Z.of_nat _) with (newcHeaderLen + (len (name e) + 1)) by (unfold newcHeaderLen; lia). lia.
Qed.
Lemma next_offset (p : nat) e : (p mod 4 = 0)%nat → entry_ok e →
  align4 (align4 (p + 110 + Z.to_nat (len (name e) + 1)) + Z.to_nat (filesize e)) = (p + length (entry_bytes e))%nat.
Proof.
  intros Hp He. rewrite align4_pad by apply align4_spec. rewrite (ok_filesize e He), Nat2Z.id, member_data_offset, length_entry by done. lia.
Qed.

Section member.
Context (pre rest : list Z) (e : entry).
Hypothesis Hp : (length pre mod 4 = 0)%nat.
Hypothesis He : entry_ok e.
Let a := pre ++ entry_bytes e ++ rest.

Lemma member_magic : sub a (length pre) 6 = newcMagic.
Proof. unfold a, entry_bytes, header_bytes. rewrite <-!app_assoc. by apply sub_at. Qed.
Lemma member_fields : sub a (length pre + 6) 104 = concat (map x08 (entry_fields e)).
Proof.
  unfold a, entry_bytes, header_bytes. rewrite <-!app_assoc, (app_assoc pre).
  apply sub_at; [by rewrite length_app|apply length_fields, He].
Qed.
Lemma member_name : sub a (length pre + 110) (length (name e)) = name e.
Proof.
  unfold a, entry_bytes. rewrite <-!app_assoc, (app_assoc pre). apply sub_at; [|done].
  rewrite length_app, length_header; [done|apply He].
Qed.
Lemma member_nul : a !! (length pre + 110 + length (name e))%nat = Some 0.
Proof.
  unfold a, entry_bytes. rewrite <-!app_assoc, (app_assoc pre), (app_assoc (pre ++ _)). apply list_lookup_middle.
  rewrite !length_app, length_header; [done|apply He].
Qed.
Lemma member_data : sub a (align4 (length pre + 110 + Z.to_nat (len (name e) + 1))) (length (data e)) = data e.
Proof.
  replace a with ((pre ++ header_bytes e ++ name e ++ [0] ++ zeros (alignTo4 (newcHeaderLen + (len (name e) + 1)))) ++
    data e ++ (zeros (alignTo4 (len (data e))) ++ rest)) by (unfold a, entry_bytes; by rewrite <-!app_assoc).
  apply sub_at; [|done]. rewrite member_data_offset, !length_app, length_padding, length_header by first [done|apply He]. cbn [length]. lia.
Qed.
(** A member that was written reads back, wherever it is in the archive. *)
Lemma read_member_at : read_member a (length pre) = Some (e, (length pre + length (entry_bytes e))%nat).
Proof.
  unfold read_member. rewrite option_guard_True by apply member_magic.
  change (read_fields 13) with (read_fields (length (entry_fields e))).
  rewrite member_fields, read_fields_x08 by apply He. cbn [mbind option_bind entry_fields]. cbv zeta.
  rewrite next_offset by done. rewrite !option_guard_True.
  - replace (Z.to_nat (len (name e) + 1) - 1)%nat with (length (name e)) by lia.
    rewrite member_name, (ok_filesize e He), Nat2Z.id, member_data, <-(ok_filesize e He). by destruct e.
  - replace (length pre + 110 + Z.to_nat (len (name e) + 1) - 1)%nat with (length pre + 110 + length (name e))%nat by lia.
    apply member_nul.
  - lia.
  - unfold a. rewrite !length_app. lia.
Qed.
End member.

(** * Files as members *)

Lemma perm_bound x : 0 ≤ Perm x < 2^9.
Proof. unfold Perm. change 511 with (Z.ones 9). rewrite Z.land_ones by lia. by apply Z.mod_pos_bound. Qed.
(** The permissions and the bits of the type are apart. *)
Lemma mode_parts x bit : Z.land bit 61440 = bit →
  Z.land (Z.lor (Perm x) bit) 61440 = bit ∧ Perm (Z.lor (Perm x) bit) = Perm x.
Proof.
  intros Hb. unfold Perm. rewrite !Z.land_lor_distr_l, <-!Z.land_assoc, Hb. split.
  - by rewrite Z.land_0_r.
  - rewrite <-Hb, <-Z.land_assoc, Z.land_0_r. apply Z.lor_0_r.
Qed.
Lemma encodeMode_spec f : 0 ≤ Type_ f < 5 →
  ∃ m, encodeMode f = Ok m ∧ is_u32 m ∧ ∀ e, mode e = m → unpack_entry e =
    Some (mkFile (name e) (Perm (Mode f)) (if Type_ f =? TypeSymlink then [] else data e)
      (if Type_ f =? TypeSymlink then data e else []) (Type_ f) (rdevmajor e) (rdevminor e)).
Proof.
  intros Ht. assert (∀ bit, is_u32 bit → is_u32 (Z.lor (Perm (Mode f)) bit)) as Hu.
  { intros bit Hbit. apply is_u_lor; [lia| |done]. pose proof (perm_bound (Mode f)). unfold is_u. lia. }
  unfold encodeMode, unpack_entry.
  assert (Type_ f = 0 ∨ Type_ f = 1 ∨ Type_ f = 2 ∨ Type_ f = 3 ∨ Type_ f = 4) as [E|[E|[E|[E|E]]]] by lia; rewrite E;
    (eexists; split; [reflexivity|]; split; [apply Hu; by split|]; intros e ->;
     match goal with |- context [Z.lor (Perm _) ?b] => destruct (mode_parts (Mode f) b eq_refl) as [-> ->] end; done).
Qed.

Lemma build_file_spec i f : is_u32 i → file_ok f →
  ∃ e, build_file i f = Ok (entry_bytes e) ∧ entry_ok e ∧ name e ≠ newcTrailerName ∧ unpack_entry e = Some (arrives f).
Proof.
  intros Hi []. destruct (encodeMode_spec f) as (m & Hm & Hmu & Hun); [done|].
  set (e := mkEntry i m 0 0 1 0 (u32 (len (fileData f))) 0 0 (DevMajor f) (DevMinor f) (trimPrefix (Path f)) (fileData f)).
  assert (entry_ok e) as He.
  { split; [|by apply u32_small; split; [lia|]].
    repeat (apply Forall_cons; split; [first [done|by split|apply is_u32_u32|cbn; split; lia]|]). by apply Forall_nil. }
  exists e. split_and!; [|done|done|].
  - unfold build_file. destruct (trimPrefix (Path f)) eqn:E; [done|]. rewrite Hm. cbn [mbind result_bind]. by apply (writeEntry_ok e), He.
  - rewrite (Hun e) by done. unfold arrives, fileData. cbn. unfold fileData. by destruct (_ =? _).
Qed.

Definition trailer : entry := mkEntry 0 newcRegularFileBit 0 0 1 0 0 0 0 0 0 newcTrailerName [].
Lemma trailer_ok : entry_ok trailer.
Proof. split; [|done]. repeat (apply Forall_cons; split; [by split|]). by apply Forall_nil. Qed.

(** The loop appends members that read back, in order. *)
Lemma build_files_spec files : ∀ buf i,
  Forall file_ok files → is_u32 i → (length buf mod 4 = 0)%nat →
  ∃ body es, build_files buf i files = Ok (buf ++ body) ∧ (length (buf ++ body) mod 4 = 0)%nat ∧
    (length files ≤ length body)%nat ∧ mapM unpack_entry es = Some (map arrives files) ∧
    ∀ fuel, (length files < fuel)%nat →
      read_members fuel (buf ++ body ++ entry_bytes trailer) (length buf) = Some es.
Proof.
  induction files as [|f files IH]; intros buf i Hok Hi Hbuf.
  { exists [], []. rewrite app_nil_r. split_and!; [done..|]. intros [|fuel] Hfuel; [cbn in Hfuel; lia|]. cbn [read_members app].
    rewrite <-(app_nil_r (entry_bytes trailer)), read_member_at by first [done|apply trailer_ok]. done. }
  apply Forall_cons in Hok as [Hf Hok]. destruct (build_file_spec i f Hi Hf) as (e & Hb & He & Hn & Hu).
  destruct (IH (buf ++ entry_bytes e) (u32 (i + 1)) Hok) as (body & es & Hbs & Hl & Hlen & Hmap & Hread); [apply is_u32_u32|..].
  { rewrite length_app, Nat.Div0.add_mod, Hbuf, length_entry_bytes by done. done. }
  exists (entry_bytes e ++ body), (e :: es). cbn [build_files]. rewrite Hb. cbn [mbind result_bind].
  rewrite Hbs, <-app_assoc. split_and!; [done|by rewrite app_assoc| | |].
  - rewrite length_app, length_entry by done. cbn [length]. lia.
  - cbn [mapM]. rewrite Hu. cbn [mbind option_bind]. by rewrite Hmap.
  - intros [|fuel] Hfuel; [cbn in Hfuel; lia|]. cbn [read_members]. rewrite <-app_assoc, read_member_at by done. cbn [mbind option_bind].
    rewrite decide_False by done. rewrite <-length_app. rewrite <-app_assoc in Hread. rewrite Hread by (cbn in Hfuel; lia). done.
Qed.

(** What [Build] returns unpacks to the files it was given, in their order. *)
Lemma build_unpack files :
  Forall file_ok files → ∃ out, Build files = Ok out ∧ unpack out = Some (map arrives files).
Proof.
  intros Hok. destruct (build_files_spec files [] 1 Hok) as (body & es & Hb & Hl & Hlen & Hmap & Hread); [by split|done|].
  exists (body ++ entry_bytes trailer). unfold Build. rewrite Hb. cbn [mbind result_bind app].
  change (writeEntry _) with (writeEntry trailer). rewrite (writeEntry_ok trailer (ok_fields _ trailer_ok)). split; [done|]. unfold unpack. cbn [app length] in Hread. rewrite Hread; [done|].
  rewrite length_app, (length_entry trailer) by apply trailer_ok. lia.
Qed.

Definition sample_files : list File :=
  [mkFile [47; 105; 110; 105; 116] 493 [35; 33; 47] [] TypeRegular 0 0;
   mkFile [47; 100; 101; 118] 493 [] [] TypeDirectory 0 0;
   mkFile [47; 100; 101; 118; 47; 99] 384 [] [] TypeCharDevice 5 1;
   mkFile [115; 104] 511 [] [98; 47; 115; 104] TypeSymlink 0 0].
Lemma sample_files_ok : Forall file_ok sample_files.
Proof. repeat (apply Forall_cons; split; [by split|]). by apply Forall_nil. Qed.

(** * Errors *)

(** Why a file is refused. *)
Definition refusal (f : File) : option string :=
  if decide (trimPrefix (Path f) = []) then Some "file has empty path"
  else if negb ((0 <=? Type_ f) && (Type_ f <? 5)) then Some "unsupported file type"
  else if 2^32 <=? len (trimPrefix (Path f)) + 1 then Some "unexpected header length"
  else None.

Lemma build_file_result i f :
  is_u32 i → is_u32 (DevMajor f) → is_u32 (DevMinor f) →
  match refusal f with Some e => build_file i f = Err e | None => ∃ b, build_file i f = Ok b end.
Proof.
  intros Hi Hma Hmi. unfold refusal, build_file. destruct (decide _) as [->|Hne]; [done|].
  destruct (trimPrefix (Path f)) as [|c nm] eqn:E; [done|]. rewrite <-E. clear Hne.
  destruct ((0 <=? Type_ f) && (Type_ f <? 5)) eqn:Ht; cbn [negb].
  2:{ unfold encodeMode, TypeRegular, TypeDirectory, TypeCharDevice, TypeBlockDevice, TypeSymlink.
      repeat match goal with |- context [Type_ f =? ?t] => destruct (Z.eqb_spec (Type_ f) t); [lia|] end. done. }
  destruct (encodeMode_spec f) as (m & -> & Hm & _); [lia|]. cbn [mbind result_bind].
  set (e := mkEntry _ _ _ _ _ _ _ _ _ _ _ _ _).
  assert (Forall is_u32 (take 11 (entry_fields e))) as Hf.
  { repeat (apply Forall_cons; split; [first [done|by split|apply is_u32_u32]|]). by apply Forall_nil. }
  destruct (Z.leb_spec (2^32) (len (trimPrefix (Path f)) + 1)) as [Hbig|Hsmall].
  - unfold writeEntry. assert (len (newcMagic ++ concat (map x08 (entry_fields e))) ≠ newcHeaderLen) as Hne.
    { change (entry_fields e) with (take 11 (entry_fields e) ++ [len (trimPrefix (Path f)) + 1; 0]).
      rewrite map_app, concat_app, !length_app, length_fields by done. cbn [map concat]. rewrite app_nil_r, length_app, !Nat2Z.inj_add, !length_x08.
      pose proof (hex_width_u32 (len (trimPrefix (Path f)) + 1) ltac:(lia)). unfold newcHeaderLen. cbn. lia. }
    apply Z.eqb_neq in Hne. unfold entry_fields in Hne. rewrite Hne. done.
  - eexists. apply writeEntry_ok. rewrite <-(take_drop 11 (entry_fields e)). apply Forall_app. split; [done|].
    repeat (apply Forall_cons; split; [cbn; split; lia|]). by apply Forall_nil.
Qed.
Lemma build_files_result files : ∀ buf i,
  is_u32 i → Forall (λ f, is_u32 (DevMajor f) ∧ is_u32 (DevMinor f)) files →
  match head (omap refusal files) with
  | Some e => build_files buf i files = Err e
  | None => ∃ out, build_files buf i files = Ok out
  end.
Proof.
  induction files as [|f files IH]; intros buf i Hi Hd; cbn [omap list_omap build_files]; [by eexists|].
  apply Forall_cons in Hd as [[Hma Hmi] Hd]. pose proof (build_file_result i f Hi Hma Hmi) as Hf.
  destruct (refusal f) as [e|]; [by rewrite Hf|]. destruct Hf as [b ->]. apply IH; [apply is_u32_u32|done].
Qed.

(** C30: [Build] fails on the first file with an empty name, an unknown type or a
    name too long for its field, with the error that says so, and succeeds on
    every other list of files. *)
Theorem initramfs_errors files :
  Forall (λ f, is_u32 (DevMajor f) ∧ is_u32 (DevMinor f)) files →
  match head (omap refusal files) with
  | Some e => Build files = Err e
  | None => ∃ out, Build files = Ok out
  end.
Proof.
  intros Hd. pose proof (build_files_result files [] 1 ltac:(by split) Hd) as Hb. unfold Build.
  destruct (head _) as [e|]; [by rewrite Hb|]. destruct Hb as [out ->]. cbn [mbind result_bind].
  change (writeEntry _) with (writeEntry trailer). rewrite (writeEntry_ok trailer (ok_fields _ trailer_ok)). by eexists.
Qed.
Lemma initramfs_errors_witness :
  Build (sample_files ++ [mkFile [47; 120] 0 [] [] 7 0 0; mkFile [47] 0 [] [] 0 0 0]) = Err "unsupported file type".
Proof.
  apply (initramfs_errors (sample_files ++ [mkFile [47; 120] 0 [] [] 7 0 0; mkFile [47] 0 [] [] 0 0 0])).
  repeat (apply Forall_cons; split; [by split|]). by apply Forall_nil.
Defined.

(** The size field of contents of 4 GiB and more holds the size modulo 2^32: the
    archive is built without an error, and its reader takes the rest of the
    contents for headers. *)
Lemma oversized_contents f :
  trimPrefix (Path f) ≠ [] → 0 ≤ Type_ f < 5 → len (trimPrefix (Path f)) + 1 < 2^32 →
  is_u32 (DevMajor f) → is_u32 (DevMinor f) → 2^32 ≤ len (fileData f) →
  ∃ out fields, Build [f] = Ok out ∧ read_fields 13 (sub out 6 104) = Some fields ∧
    fields !! 6%nat = Some (len (fileData f) mod 2^32) ∧ (length (fileData f) < length out)%nat.
Proof.
  intros Hn Ht Hns Hma Hmi Hbig. destruct (encodeMode_spec f Ht) as (m & Hm & Hmu & _).
  set (e := mkEntry 1 m 0 0 1 0 (u32 (len (fileData f))) 0 0 (DevMajor f) (DevMinor f) (trimPrefix (Path f)) (fileData f)).
  assert (Forall is_u32 (entry_fields e)) as He.
  { repeat (apply Forall_cons; split; [first [done|by split|apply is_u32_u32|cbn; split; lia]|]). by apply Forall_nil. }
  exists (entry_bytes e ++ entry_bytes trailer), (entry_fields e). split_and!.
  - unfold Build. cbn [build_files]. unfold build_file. destruct (trimPrefix (Path f)) eqn:E; [done|]. rewrite Hm. cbn [mbind result_bind].
    change (writeEntry (mkEntry 1 _ _ _ _ _ _ _ _ _ _ _ _)) with (writeEntry e). change (writeEntry (mkEntry 0 _ _ _ _ _ _ _ _ _ _ _ _)) with (writeEntry trailer).
    by rewrite (writeEntry_ok e He), (writeEntry_ok trailer (ok_fields _ trailer_ok)).
  - unfold entry_bytes at 1, header_bytes. rewrite <-!app_assoc, (sub_at newcMagic) by first [done|by apply length_fields].
    by apply (read_fields_x08 (entry_fields e)).
  - done.
  - unfold entry_bytes at 1. rewrite !length_app, length_header by done. cbn. lia.
Qed.

(** * Directories *)

(** What the host has below the root, in the order of the walk. *)
Inductive node :=
  | NDir (rel : list Z) (perm : Z)
  | NLink (rel : list Z) (perm : Z) (target : list Z)
  | NFile (rel : list Z) (perm : Z) (contents : list Z).
Definition visit_node (n : node) : visit :=
  let v rel m link d := mkVisit None false (Ok rel) (Ok m) link d in
  match n with
  | NDir rel perm => v rel (Z.lor ModeDir (Perm perm)) (Err "EINVAL") (Err "EISDIR")
  | NLink rel perm target => v rel (Z.lor ModeSymlink (Perm perm)) (Ok target) (Err "ENOENT")
  | NFile rel perm contents => v rel (Perm perm) (Err "EINVAL") (Ok contents)
  end.
Definition visit_root : visit := mkVisit None true (Ok []) (Ok ModeDir) (Err "EINVAL") (Err "EISDIR").
Definition node_file (n : node) : File :=
  match n with
  | NDir rel perm => mkFile rel (Perm perm) [] [] TypeDirectory 0 0
  | NLink rel perm target => mkFile rel (Perm perm) [] target TypeSymlink 0 0
  | NFile rel perm contents => mkFile rel (Perm perm) contents [] TypeRegular 0 0
  end.
Definition slashed (f : File) : File :=
  mkFile (47 :: Path f) (Mode f) (Data f) (Linkname f) (Type_ f) (DevMajor f) (DevMinor f).

Lemma has_type b p t : Z.land 511 t = 0 → has (Z.lor b (Perm p)) t = has b t.
Proof. intros Ht. unfold has, Perm. by rewrite Z.land_lor_distr_l, <-Z.land_assoc, Ht, Z.land_0_r, Z.lor_0_r. Qed.
Lemma perm_type b p : Z.land b 511 = 0 → Perm (Z.lor b (Perm p)) = Perm p.
Proof. intros Hb. unfold Perm. by rewrite Z.land_lor_distr_l, Hb, <-Z.land_assoc. Qed.
Lemma walk_node n : walk_file (visit_node n) = Ok (Some (slashed (node_file n))).
Proof.
  destruct n as [rel p|rel p target|rel p contents]; unfold walk_file; cbn [visit_node walk_err is_root Rel Lstat Readlink ReadFile mbind result_bind].
  - by rewrite has_type, perm_type.
  - by rewrite !has_type, perm_type.
  - rewrite <-(Z.lor_0_l (Perm p)), !has_type, perm_type by done. done.
Qed.
Lemma walk_nodes ns : ∀ files, walk_files files (map visit_node ns) = Ok (files ++ map slashed (map node_file ns)).
Proof.
  induction ns as [|n ns IH]; intros files; cbn [map walk_files]; [by rewrite app_nil_r|].
  rewrite walk_node. cbn [mbind result_bind]. by rewrite IH, <-app_assoc.
Qed.
Lemma arrives_slashed n : arrives (slashed (node_file n)) = node_file n.
Proof.
  assert (∀ p, Perm (Perm p) = Perm p) as Hp. { intros p. unfold Perm. by rewrite <-Z.land_assoc. }
  destruct n; unfold arrives, slashed; cbn; by rewrite Hp.
Qed.

Definition sample_nodes : list node :=
  [NDir [101; 116; 99] 493; NFile [101; 116; 99; 47; 102] 420 [104; 105; 10]; NLink [108] 511 [101; 116; 99]].
