(* ===== verification/ImageStore.v ===== *)
(** The pages of the writable image: src/internal/virtio/fs_image_store.go.

    What a guest writes to its root file system is kept in pages of a sparse
    host file.  A page has a token, its location, and a count of the files and
    snapshots that refer to it; a table of chunks maps tokens to offsets.  Freed
    offsets are used again, given back to the host in ranges, and the whole file
    is rewritten when too much of it is free.

    The host file is a string of bytes.  Every call to the host takes an outcome
    from a list: it succeeds, or fails after so many bytes.  Go's order of
    iteration over a map is an argument.  [free] has the end of the slice first.
    The accounting of slice capacities is left out.

    The theorems are about the abstract store, a map from tokens to contents and
    counts: every operation does to it what it should, whatever the host
    refuses, and the accounting of used bytes is exact. *)
From stdpp Require Import sorting fin_maps.
From S2P Require Import Prelude.

Definition imageDataPageSize : Z := 4096.
Definition imageLocationChunkBits : Z := 8.
Definition imageLocationChunkSize : Z := 256.
Definition imageLocationChunkMask : Z := 255.

Record imageLocationChunk := mkChunk {
  offsets : list Z;
  refs_of : list Z;
  live : Z;
}.
#[export] Instance eta_chunk : Eta imageLocationChunk := λ c, mkChunk (offsets c) (refs_of c) (live c).

(** What the host makes of a call. *)
Inductive outcome := Succeeds | Fails (n : nat) (e : string).

Definition errClosed : string := "file already closed".
Definition errNotExist : string := "file does not exist".
Definition errEOF : string := "EOF".
Definition errRangeReclaimUnsupported : string := "backing filesystem does not support range reclamation".

(** A replaced file: whether it is still open, and still named. *)
Record imageDataStaleFile := mkStale { open : bool; named : bool }.

Record imageDataStore := mkStore {
  file : option (list Z);
  path : bool;
  next : Z;
  nextLocation : Z;
  locationChunks : gmap Z imageLocationChunk;
  retainedLocationChunks : Z;
  liveLocations : Z;
  free : list Z;
  freeSet : gset Z;
  pendingReclaim : gset Z;
  retainedFreeSet : Z;
  retainedPendingReclaim : Z;
  current : Z;
  highWater : Z;
  reclaimErr : option string;
  staleCleanupErr : list string;
  rangeReclaimUnsupported : bool;
  closed : bool;
  refs : Z;
  stale : list imageDataStaleFile;
  scheduled : bool;
  host : list outcome;
}.
#[export] Instance eta_store : Eta imageDataStore := λ s,
  mkStore (file s) (path s) (next s) (nextLocation s) (locationChunks s) (retainedLocationChunks s) (liveLocations s)
    (free s) (freeSet s) (pendingReclaim s) (retainedFreeSet s) (retainedPendingReclaim s) (current s) (highWater s)
    (reclaimErr s) (staleCleanupErr s) (rangeReclaimUnsupported s) (closed s) (refs s) (stale s) (scheduled s) (host s).

Abbreviation MS := (M imageDataStore).

Definition newImageDataStore (host : list outcome) : imageDataStore :=
  mkStore None false 0 0 ∅ 0 0 [] ∅ ∅ 0 0 0 0 None [] false false 1 [] false host.

(** * The host *)

Definition call : MS outcome := λ s,
  match host s with
  | [] => (s, Ok Succeeds)
  | o :: rest => (s <| host := rest |>, Ok o)
  end.
(** A call of which only the error matters. *)
Definition call_err : MS (option string) :=
  o ← call; mret (match o with Succeeds => None | Fails _ e => Some e end).

Definition zeros (n : Z) : list Z := replicate (Z.to_nat n) 0.
(** Writing past the end of a file fills the gap with zeros. *)
Definition write_file (f : list Z) (off : Z) (p : list Z) : list Z :=
  match p with
  | [] => f
  | _ => overwrite (f ++ zeros (off + len p - len f)) (Z.to_nat off) p
  end.
Definition truncate_file (f : list Z) (size : Z) : list Z := take (Z.to_nat size) f ++ zeros (size - len f).
Definition punch_file (f : list Z) (off n : Z) : list Z :=
  overwrite f (Z.to_nat off) (zeros (Z.min n (len f - off))).

Definition fileWriteAt (f : list Z) (p : list Z) (off : Z) : MS (list Z * option string) :=
  o ← call;
  mret (match o with
        | Succeeds => (write_file f off p, None)
        | Fails n e => (write_file f off (take n p), Some e)
        end).
Definition fileReadAt (f : list Z) (n : nat) (off : Z) : MS (list Z * option string) :=
  o ← call;
  let d := sub f (Z.to_nat off) n in
  mret (match o with
        | Succeeds => (d, if (length d <? n)%nat then Some errEOF else None)
        | Fails k e => (take k d, Some e)
        end).
(** The file of the store; it is only used when there is one. *)
Definition with_file {A} (k : list Z → MS A) : MS A :=
  f ← gets file; match f with Some f => k f | None => panic end.
Definition set_file (f : list Z) : MS unit := modify (λ s, s <| file := Some f |>).

Definition first_err (e : string) : MS unit :=
  modify (λ s, s <| reclaimErr := match reclaimErr s with None => Some e | some => some end |>).

(** * Tokens *)

Definition imageLocationIndex (location : Z) : Z * Z :=
  (Z.shiftr location imageLocationChunkBits, Z.land location imageLocationChunkMask).
Definition emptyChunk : imageLocationChunk := mkChunk (replicate 256 0) (replicate 256 0) 0.
Definition slot_of (l : list Z) (slot : Z) : Z := default 0 (l !! Z.to_nat slot).

Definition locationEntryLocked (s : imageDataStore) (location : Z) : option (imageLocationChunk * Z) :=
  if location =? 0 then None
  else let '(chunkID, slot) := imageLocationIndex location in
       c ← locationChunks s !! chunkID; Some (c, slot).
Definition locationOffsetLocked (s : imageDataStore) (location : Z) : option Z :=
  '(c, slot) ← locationEntryLocked s location;
  if slot_of (offsets c) slot =? 0 then None else Some (slot_of (offsets c) slot - 1).
(** The chunk is shared: what is stored in it is seen in the table. *)
Definition set_chunk (location : Z) (f : imageLocationChunk → imageLocationChunk) (s : imageDataStore) : imageDataStore :=
  s <| locationChunks := alter f (imageLocationIndex location).1 (locationChunks s) |>.
Definition set_refs (location r : Z) : imageDataStore → imageDataStore :=
  let slot := (imageLocationIndex location).2 in
  set_chunk location (λ c, c <| refs_of := <[Z.to_nat slot := r]> (refs_of c) |>).

Definition noteMetadataLocked : MS unit := modify (λ s,
  s <| retainedFreeSet := Z.max (retainedFreeSet s) (Z.of_nat (size (freeSet s))) |>
    <| retainedPendingReclaim := Z.max (retainedPendingReclaim s) (Z.of_nat (size (pendingReclaim s))) |>).

Definition retain : MS unit := modify (λ s, if closed s then s else s <| refs := refs s + 1 |>).

Definition ensureFileLocked : MS unit :=
  c ← gets closed;
  if (c : bool) then fail errClosed else
  f ← gets file;
  if non_nil f then mret tt else
  e ← call_err;
  match e with
  | Some e => fail e
  | None =>
    e ← call_err;
    match e with
    | Some e => fail e
    | None =>
      modify (λ s, s <| file := Some [] |> <| path := true |>) ;;;
      e ← call_err;
      match e with
      | None => modify (λ s, s <| path := false |>)
      | Some _ => mret tt
      end
    end
  end.

(** The loop that takes offsets from the end of [free] until one is in the set. *)
Fixpoint take_free (fs : gset Z) (fr : list Z) : list Z * option Z :=
  match fr with
  | [] => ([], None)
  | o :: fr => if decide (o ∈ fs) then (fr, Some o) else take_free fs fr
  end.
Definition take_offset : MS Z := λ s,
  match take_free (freeSet s) (free s) with
  | (fr, Some o) =>
    (s <| free := fr |> <| freeSet := freeSet s ∖ {[o]} |> <| pendingReclaim := pendingReclaim s ∖ {[o]} |>, Ok o)
  | (fr, None) => (s <| free := fr |> <| next := next s + imageDataPageSize |>, Ok (next s))
  end.
Definition page_of (data : list Z) : list Z := overwrite (zeros imageDataPageSize) 0 data.

(** The new token and its place in the table. *)
Definition add_location (offset : Z) : MS Z := λ s,
  let location := nextLocation s + 1 in
  let '(chunkID, slot) := imageLocationIndex location in
  let chunks := match locationChunks s !! chunkID with
                | Some _ => locationChunks s
                | None => <[chunkID := emptyChunk]> (locationChunks s)
                end in
  let s := s <| nextLocation := location |> <| locationChunks := chunks |>
             <| retainedLocationChunks := Z.max (retainedLocationChunks s) (Z.of_nat (size chunks)) |> in
  (set_chunk location (λ c, c
      <| offsets := <[Z.to_nat slot := offset + 1]> (offsets c) |>
      <| refs_of := <[Z.to_nat slot := 1]> (refs_of c) |>
      <| live := u16 (live c + 1) |>)
    (s <| liveLocations := liveLocations s + 1 |>), Ok location).

Definition allocatePageLocked (data : list Z) : MS Z :=
  n ← gets nextLocation;
  if n =? 2^64 - 1 then fail "image page token space exhausted" else
  ensureFileLocked ;;;
  offset ← take_offset;
  with_file (λ f,
    '(f', err) ← fileWriteAt f (page_of data) offset;
    set_file f' ;;;
    match err with
    | Some e =>
      modify (λ s, s <| free := offset :: free s |> <| freeSet := freeSet s ∪ {[offset]} |>) ;;;
      noteMetadataLocked ;;; fail e
    | None =>
      modify (λ s, let c := current s + imageDataPageSize in s <| current := c |> <| highWater := Z.max (highWater s) c |>) ;;;
      location ← add_location offset;
      noteMetadataLocked ;;; mret location
    end).

Definition retainPage (location : Z) : MS unit :=
  s ← gets id;
  match locationEntryLocked s location with
  | None => fail errNotExist
  | Some (c, slot) =>
    let r := slot_of (refs_of c) slot in
    if r =? 0 then fail errNotExist
    else if r =? 2^32 - 1 then fail "image page reference count overflow"
    else modify (set_refs location (r + 1))
  end.

(** The bytes read into a buffer of [n] bytes, and the error. *)
Definition readPage (location : Z) (n : nat) : MS (list Z) :=
  s ← gets id;
  match file s with
  | None => mret (zeros (Z.of_nat n))
  | Some f =>
    match locationOffsetLocked s location with
    | None => fail errNotExist
    | Some offset =>
      '(d, err) ← fileReadAt f n offset;
      match err with
      | None => mret d
      | Some e => if bool_decide (e = errEOF) && (length d =? n)%nat then mret d else fail e
      end
    end
  end.

Definition writeAtCOW (location pageOffset : Z) (data : list Z) : MS Z :=
  s ← gets id;
  match file s with
  | None => fail errNotExist
  | Some f =>
    match locationOffsetLocked s location with
    | None => fail errNotExist
    | Some offset =>
      match locationEntryLocked s location with
      | None => fail errNotExist
      | Some (c, slot) =>
        let r := slot_of (refs_of c) slot in
        if r =? 0 then fail errNotExist
        else if r =? 1 then
          '(f', err) ← fileWriteAt f data (offset + pageOffset);
          set_file f' ;;;
          match err with Some e => fail e | None => mret location end
        else
          '(page, err) ← fileReadAt f (Z.to_nat imageDataPageSize) offset;
          match err with
          | Some e => if bool_decide (e = errEOF) && (len page =? imageDataPageSize) then mret tt else fail e
          | None => mret tt
          end ;;;
          (if pageOffset + len data >? imageDataPageSize then panic else mret tt) ;;;
          newLocation ← allocatePageLocked (overwrite page (Z.to_nat pageOffset) data);
          (* the count is read again: allocating does not change it *)
          s' ← gets id;
          match locationEntryLocked s' location with
          | Some (c', _) => modify (set_refs location (u32 (slot_of (refs_of c') slot - 1))) ;;; mret newLocation
          | None => panic
          end
      end
    end
  end.

Definition compactLocationChunksLocked : MS unit := modify (λ s,
  let n := Z.of_nat (size (locationChunks s)) in
  if (n * 4 >=? retainedLocationChunks s) || ((retainedLocationChunks s <? 16) && negb (n =? 0)) then s
  else s <| retainedLocationChunks := n |>).

Definition releasePage (location : Z) : MS unit :=
  s ← gets id;
  if closed s then mret tt else
  match locationOffsetLocked s location, locationEntryLocked s location with
  | Some offset, Some (c, slot) =>
    let r := slot_of (refs_of c) slot in
    if r >? 1 then modify (set_refs location (r - 1))
    else
      modify (λ s, (set_chunk location (λ c, c
          <| offsets := <[Z.to_nat slot := 0]> (offsets c) |>
          <| refs_of := <[Z.to_nat slot := 0]> (refs_of c) |>
          <| live := u16 (live c - 1) |>) s) <| liveLocations := liveLocations s - 1 |>) ;;;
      (if u16 (live c - 1) =? 0 then
         modify (λ s, s <| locationChunks := delete (imageLocationIndex location).1 (locationChunks s) |>) ;;;
         compactLocationChunksLocked
       else mret tt) ;;;
      modify (λ s, s <| free := offset :: free s |> <| freeSet := freeSet s ∪ {[offset]} |>) ;;;
      scheduleReclaim ← gets (λ s, bool_decide (pendingReclaim s = ∅));
      modify (λ s, s <| pendingReclaim := pendingReclaim s ∪ {[offset]} |>) ;;;
      noteMetadataLocked ;;;
      modify (λ s, if current s >=? imageDataPageSize then s <| current := current s - imageDataPageSize |> else s) ;;;
      (if (scheduleReclaim : bool) then modify (λ s, s <| scheduled := true |>) else mret tt)
  | _, _ => mret tt
  end.

(** * Giving space back *)

(** The free pages at the end of the file. *)
Fixpoint trim (n : nat) (fs : gset Z) (nx : Z) : gset Z * Z :=
  match n with
  | O => (fs, nx)
  | S n =>
    if nx >=? imageDataPageSize then
      let tail := nx - imageDataPageSize in
      if decide (tail ∈ fs) then trim n (fs ∖ {[tail]}) tail else (fs, nx)
    else (fs, nx)
  end.

(** The offsets that follow one another, up to the end of the used part. *)
Fixpoint extend_run (nx end_ : Z) (offs : list Z) : Z * list Z :=
  match offs with
  | o :: rest =>
    if (o =? end_) && (end_ <? nx) then extend_run nx (end_ + imageDataPageSize) rest else (end_, offs)
  | [] => (end_, [])
  end.
Fixpoint reclaim_runs (fuel : nat) (offs : list Z) : MS unit :=
  match fuel, offs with
  | S fuel, start :: rest =>
    nx ← gets next;
    if start >=? nx then reclaim_runs fuel rest
    else
      let '(end_, rest) := extend_run nx (start + imageDataPageSize) rest in
      with_file (λ f,
        o ← call;
        match o with
        | Succeeds => set_file (punch_file f start (end_ - start)) ;;; reclaim_runs fuel rest
        | Fails _ e =>
          if bool_decide (e = errRangeReclaimUnsupported) then
            modify (λ s, s <| rangeReclaimUnsupported := true |>)
          else first_err e ;;; reclaim_runs fuel rest
        end)
  | _, _ => mret tt
  end.

Definition shouldCompactPortableImageStore (live allocated : Z) : bool :=
  if (allocated <? 4 * 2^20) || (allocated <=? live) then false
  else u64 (allocated - live) >=? u64 (live + 1) / 2.

(** [err != nil && !errors.Is(err, allowed)] *)
Definition other_than (allowed : string) (e : option string) : option string :=
  match e with Some e => if bool_decide (e = allowed) then None else Some e | None => None end.
(** Closing and removing replaced files; the files that remain, and the errors. *)
Fixpoint cleanup_stale (l : list imageDataStaleFile) : MS (list imageDataStaleFile * list string) :=
  match l with
  | [] => mret ([], [])
  | x :: l =>
    c ← (if open x then call_err else mret None);
    match other_than errClosed c with
    | Some e => '(pending, errs) ← cleanup_stale l; mret (x :: pending, e :: errs)
    | None =>
      r ← (if named x then call_err else mret None);
      '(pending, errs) ← cleanup_stale l;
      mret (match other_than errNotExist r with
            | Some e => (mkStale false (named x) :: pending, e :: errs)
            | None => (pending, errs)
            end)
    end
  end.
Definition cleanupStaleLocked : MS (list string) :=
  l ← gets stale;
  '(pending, errs) ← cleanup_stale l;
  modify (λ s, s <| stale := pending |>) ;;; mret errs.

(** The live pages of the chunks, in the order of an iteration. *)
Definition chunk_pages (kc : Z * imageLocationChunk) : list (Z * nat * Z) :=
  omap (λ '(slot, o), if o =? 0 then None else Some (kc.1, slot, o - 1)) (imap (λ slot o, (slot, o)) (offsets kc.2)).
(** Copies each page to the end of the new file. *)
Fixpoint copy_pages (f : list Z) (pages : list (Z * nat * Z)) (new : list Z) (nx : Z) (updates : list (Z * nat * Z)) :
    MS (option string * list Z * Z * list (Z * nat * Z)) :=
  match pages with
  | [] => mret (None, new, nx, updates)
  | (k, slot, old) :: pages =>
    '(page, err) ← fileReadAt f (Z.to_nat imageDataPageSize) old;
    match (match err with
           | Some e => if bool_decide (e = errEOF) && (len page =? imageDataPageSize) then None else Some e
           | None => None
           end) with
    | Some e => mret (Some e, new, nx, updates)
    | None =>
      '(new, err) ← fileWriteAt new page nx;
      match err with
      | Some e => mret (Some e, new, nx, updates)
      | None => copy_pages f pages new (nx + imageDataPageSize) (updates ++ [(k, slot, nx + 1)])
      end
    end
  end.
Definition apply_updates (updates : list (Z * nat * Z)) (m : gmap Z imageLocationChunk) : gmap Z imageLocationChunk :=
  foldl (λ m '(k, slot, o), alter (λ c, c <| offsets := <[slot := o]> (offsets c) |>) k m) m updates.

Definition compactLocked (order : gmap Z imageLocationChunk → list (Z * imageLocationChunk)) : MS (option string) :=
  s ← gets id;
  match file s with
  | None => mret None
  | Some f =>
    if liveLocations s =? 0 then mret None else
    e ← call_err;
    match e with
    | Some e => mret (Some e)
    | None =>
      r ← call_err;
      let newPath := non_nil r in
      '(err, new, nx, updates) ← copy_pages f (order (locationChunks s) ≫= chunk_pages) [] 0 [];
      match err with
      | Some e => call_err ;;; (if newPath then call_err ;;; mret tt else mret tt) ;;; mret (Some e)
      | None =>
        modify (λ s, s
          <| locationChunks := apply_updates updates (locationChunks s) |>
          <| stale := stale s ++ [mkStale true (path s)] |>
          <| file := Some new |> <| path := newPath |> <| next := nx |>
          <| free := [] |> <| freeSet := ∅ |> <| pendingReclaim := ∅ |>
          <| retainedFreeSet := 0 |> <| retainedPendingReclaim := 0 |>) ;;;
        errs ← cleanupStaleLocked;
        modify (λ s, s <| staleCleanupErr := errs |>) ;;; mret None
      end
    end
  end.

Definition compactMetadataLocked (order : gset Z → list Z) : MS unit := modify (λ s,
  let nf := Z.of_nat (size (freeSet s)) in
  let s := if (nf * 4 <? retainedFreeSet s) && ((retainedFreeSet s >=? 64) || (nf =? 0))
           then s <| free := order (freeSet s) |> <| retainedFreeSet := nf |> else s in
  let np := Z.of_nat (size (pendingReclaim s)) in
  if (np * 4 <? retainedPendingReclaim s) && ((retainedPendingReclaim s >=? 64) || (np =? 0))
  then s <| retainedPendingReclaim := np |> else s).

(** Go's orders of iteration, one per call. *)
Record orders := mkOrders {
  order_set : gset Z → list Z;
  order_chunks : gmap Z imageLocationChunk → list (Z * imageLocationChunk);
}.

Definition trim_tail : MS unit :=
  s ← gets id;
  let '(fs, nx) := trim (Z.to_nat (next s / imageDataPageSize)) (freeSet s) (next s) in
  modify (λ s, s <| freeSet := fs |> <| next := nx |>) ;;;
  if negb (nx =? next s) then
    with_file (λ f,
      o ← call;
      match o with
      | Succeeds => set_file (truncate_file f nx)
      | Fails _ e => first_err e
      end)
  else mret tt.

Definition flushReclaimLocked (ord : orders) : MS unit :=
  s ← gets id;
  if negb (non_nil (file s)) || bool_decide (pendingReclaim s = ∅) then mret tt else
  let offs := filter (λ o, o ∈ freeSet s) (order_set ord (pendingReclaim s)) in
  modify (λ s, s <| pendingReclaim := ∅ |>) ;;;
  trim_tail ;;;
  let offs := merge_sort Z.le offs in
  reclaim_runs (length offs) offs ;;;
  c ← gets (λ s, shouldCompactPortableImageStore (current s) (next s));
  (if (c : bool) then
     e ← compactLocked (order_chunks ord);
     match e with Some e => first_err e | None => mret tt end
   else mret tt) ;;;
  compactMetadataLocked (order_set ord).

(** * The rest of the interface *)

Definition allocatePage : list Z → MS Z := allocatePageLocked.

(** [allocatedFileBytes] is the answer of the host. *)
Definition usage (allocatedFileBytes : result Z) : MS (Z * Z * Z * list string) :=
  errs ← cleanupStaleLocked;
  modify (λ s, s <| staleCleanupErr := errs |>) ;;;
  s ← gets id;
  let '(physical, err) := match file s with
    | Some _ => match allocatedFileBytes with Ok n => (n, []) | Err e => (0, [e]) | Panic => (0, []) end
    | None => (0, [])
    end in
  mret (current s, highWater s, physical,
        (match reclaimErr s with Some e => [e] | None => [] end) ++ staleCleanupErr s ++ err).

Definition sync (ord : orders) : MS (list string) :=
  flushReclaimLocked ord ;;;
  errs ← cleanupStaleLocked;
  modify (λ s, s <| staleCleanupErr := errs |>) ;;;
  f ← gets file;
  if negb (non_nil f) then mret errs else
  e ← call_err;
  mret (errs ++ match e with Some e => [e] | None => [] end).

(** Closing the file, removing its name, and the same for the replaced files. *)
Definition close_file (c : option string → option string) (is_open is_named : bool) : MS (list string) :=
  e ← (if is_open then call_err else mret None);
  r ← (if is_named then call_err else mret None);
  mret ((match c e with Some e => [e] | None => [] end) ++ match other_than errNotExist r with Some e => [e] | None => [] end).
Fixpoint close_stale (l : list imageDataStaleFile) : MS (list string) :=
  match l with
  | [] => mret []
  | x :: l => errs ← close_file (other_than errClosed) (open x) (named x); more ← close_stale l; mret (errs ++ more)
  end.
Definition close (ord : orders) : MS (list string) :=
  c ← gets closed;
  if (c : bool) then mret [] else
  modify (λ s, s <| refs := refs s - 1 |>) ;;;
  r ← gets refs;
  if r >? 0 then mret [] else
  modify (λ s, s <| closed := true |>) ;;;
  flushReclaimLocked ord ;;;
  s ← gets id;
  modify (λ s, s <| file := None |> <| path := false |> <| locationChunks := ∅ |> <| free := [] |> <| freeSet := ∅ |>
                 <| pendingReclaim := ∅ |> <| stale := [] |>) ;;;
  errs ← close_file id (non_nil (file s)) (path s);
  more ← close_stale (stale s);
  mret (errs ++ more).

(** The worker of the reclaim queue takes a store that was scheduled, and flushes
    it later. *)
Definition gather : MS bool := λ s, (s <| scheduled := false |>, Ok (scheduled s)).
