(* ===== verification/ImagePages.v ===== *)
(** The page store as a map from tokens to contents and counts.

    [pages] is the abstract store.  The invariant [store_open]: every page of the
    host file is live, free or in hand, live pages are apart and inside the file,
    the chunks count their live tokens.  Every operation of [ImageStore] keeps it
    and does to the abstract store what [spec] says; the space given back to the
    host and the rewriting of the file do not show. *)
From stdpp Require Import sorting fin_maps.
From S2P Require Import Prelude ImageStore.

(** * The table of tokens *)

(** The entry of a token in one of the two arrays of its chunk. *)
Definition cell (g : imageLocationChunk → list Z) (m : gmap Z imageLocationChunk) (l : Z) : Z :=
  if l =? 0 then 0 else match m !! (l / 256) with Some c => slot_of (g c) (l mod 256) | None => 0 end.
Abbreviation off_of := (cell offsets).
Abbreviation ref_of := (cell refs_of).

Lemma imageLocationIndex_eq l : imageLocationIndex l = (l / 256, l mod 256).
Proof.
  unfold imageLocationIndex, imageLocationChunkBits, imageLocationChunkMask. rewrite Z.shiftr_div_pow2 by lia.
  change 255 with (Z.ones 8). by rewrite Z.land_ones.
Qed.
Lemma locationOffset_eq s l :
  locationOffsetLocked s l = if off_of (locationChunks s) l =? 0 then None else Some (off_of (locationChunks s) l - 1).
Proof.
  unfold locationOffsetLocked, locationEntryLocked, cell. rewrite imageLocationIndex_eq.
  destruct (l =? 0); [done|]. by destruct (locationChunks s !! (l / 256)).
Qed.
Lemma locationEntry_eq s l :
  off_of (locationChunks s) l ≠ 0 →
  ∃ c, locationEntryLocked s l = Some (c, l mod 256) ∧ locationChunks s !! (l / 256) = Some c ∧
    slot_of (refs_of c) (l mod 256) = ref_of (locationChunks s) l.
Proof.
  unfold locationEntryLocked, cell. rewrite imageLocationIndex_eq. destruct (l =? 0); [done|].
  destruct (locationChunks s !! (l / 256)) as [c|]; [|done]. intros _. by exists c.
Qed.

(** A chunk: its arrays have 256 slots, a slot without an offset has no
    references, and [live] counts the others. *)
Definition live_slots (c : imageLocationChunk) : nat := length (filter (λ o, o ≠ 0) (offsets c)).
Record chunk_ok (c : imageLocationChunk) : Prop := {
  co_offsets : length (offsets c) = 256%nat;
  co_refs : length (refs_of c) = 256%nat;
  co_used : ∀ i, 0 ≤ i → (slot_of (offsets c) i = 0 ↔ slot_of (refs_of c) i = 0) ∧ 0 ≤ slot_of (offsets c) i;
  co_live : live c = Z.of_nat (live_slots c);
}.
Definition table_ok (m : gmap Z imageLocationChunk) : Prop := map_Forall (λ _, chunk_ok) m.

Lemma slot_insert l n v i :
  0 ≤ n < len l → 0 ≤ i → slot_of (<[Z.to_nat n := v]> l) i = if i =? n then v else slot_of l i.
Proof.
  intros Hn Hi. unfold slot_of. destruct (Z.eqb_spec i n) as [->|Hne].
  - by rewrite list_lookup_insert_eq by lia.
  - by rewrite list_lookup_insert_ne by lia.
Qed.
Lemma index_inj l l' : l / 256 = l' / 256 → l mod 256 = l' mod 256 → l = l'.
Proof. intros. rewrite (Z.div_mod l 256), (Z.div_mod l' 256) by lia. congruence. Qed.
Lemma mod256 l : 0 ≤ l mod 256 < 256.
Proof. apply Z.mod_pos_bound. lia. Qed.

(** Storing at the place of a token. *)
Lemma cell_alter g f m l v c l' :
  l ≠ 0 → m !! (l / 256) = Some c → length (g c) = 256%nat → g (f c) = <[Z.to_nat (l mod 256) := v]> (g c) →
  cell g (alter f (l / 256) m) l' = if l' =? l then v else cell g m l'.
Proof.
  intros Hl Hm Hlen Hf. unfold cell. pose proof (mod256 l). pose proof (mod256 l').
  destruct (Z.eqb_spec l' l) as [->|Hne].
  - rewrite (proj2 (Z.eqb_neq l 0)), lookup_alter_eq, Hm by done. cbn. rewrite Hf, slot_insert, Z.eqb_refl by lia. done.
  - destruct (l' =? 0); [done|]. destruct (decide (l / 256 = l' / 256)) as [E|E]; [|by rewrite lookup_alter_ne].
    rewrite <-E, lookup_alter_eq, Hm. cbn. rewrite Hf, slot_insert by lia.
    destruct (Z.eqb_spec (l' mod 256) (l mod 256)); [|done]. exfalso. apply Hne. by apply index_inj.
Qed.
Lemma cell_alter_other g f m k l : (∀ c, g (f c) = g c) → cell g (alter f k m) l = cell g m l.
Proof.
  intros Hf. unfold cell. destruct (l =? 0); [done|]. destruct (decide (k = l / 256)) as [->|Hne].
  - rewrite lookup_alter_eq. destruct (m !! _); cbn; [by rewrite Hf|done].
  - by rewrite lookup_alter_ne.
Qed.
(** A new chunk, and the removal of a chunk without live slots, do not show. *)
Lemma slot_empty i : slot_of (replicate 256 0) i = 0.
Proof.
  unfold slot_of. destruct (replicate 256 0 !! Z.to_nat i) as [x|] eqn:E; [|done]. by apply lookup_replicate in E as [-> _].
Qed.
Lemma cell_new g m k l : g emptyChunk = replicate 256 0 → m !! k = None → cell g (<[k := emptyChunk]> m) l = cell g m l.
Proof.
  intros Hg Hk. unfold cell. destruct (l =? 0); [done|]. destruct (decide (k = l / 256)) as [->|Hne].
  - by rewrite lookup_insert_eq, Hk, Hg, slot_empty.
  - by rewrite lookup_insert_ne.
Qed.
Lemma cell_delete g m k c l :
  m !! k = Some c → (∀ i, 0 ≤ i < 256 → slot_of (g c) i = 0) → cell g (delete k m) l = cell g m l.
Proof.
  intros Hk Hz. unfold cell. destruct (l =? 0); [done|]. destruct (decide (k = l / 256)) as [->|Hne].
  - by rewrite lookup_delete_eq, Hk, Hz by apply mod256.
  - by rewrite lookup_delete_ne.
Qed.

(** * Counting live tokens *)

Definition total (m : gmap Z imageLocationChunk) : nat := map_fold (λ _ c n, (live_slots c + n)%nat) 0%nat m.
Lemma total_delete m k c : m !! k = Some c → total m = (live_slots c + total (delete k m))%nat.
Proof.
  intros Hk. unfold total. rewrite <-(insert_delete_id m k c) at 1 by done.
  rewrite map_fold_insert_L; [done| |apply lookup_delete_eq]. intros. lia.
Qed.
Lemma total_insert m k c : m !! k = None → total (<[k := c]> m) = (live_slots c + total m)%nat.
Proof. intros Hk. unfold total. rewrite map_fold_insert_L; [done| |done]. intros. lia. Qed.
Lemma total_alter m k f c : m !! k = Some c → (total (alter f k m) + live_slots c = total m + live_slots (f c))%nat.
Proof.
  intros Hk. rewrite (total_delete m k c Hk), (total_delete (alter f k m) k (f c)) by (by rewrite lookup_alter_eq, Hk).
  replace (delete k (alter f k m)) with (delete k m); [lia|].
  apply map_eq. intros j. destruct (decide (k = j)) as [->|]; [by rewrite !lookup_delete_eq|].
  by rewrite !lookup_delete_ne, lookup_alter_ne.
Qed.
Lemma live_insert (l : list Z) (n : nat) (o x : Z) :
  l !! n = Some x →
  Z.of_nat (length (filter (λ o, o ≠ 0) (<[n := o]> l))) =
    Z.of_nat (length (filter (λ o, o ≠ 0) l)) - (if decide (x = 0) then 0 else 1) + (if decide (o = 0) then 0 else 1).
Proof.
  revert n. induction l as [|y l IH]; intros [|n] Hn; try done.
  - injection Hn as ->. cbn [insert list_insert]. rewrite !filter_cons. repeat destruct (decide _); cbn [length]; try lia; tauto.
  - cbn in Hn. specialize (IH n Hn). change (<[S n := o]> (y :: l)) with (y :: <[n := o]> l).
    rewrite !filter_cons. destruct (decide (y ≠ 0)); cbn [length]; lia.
Qed.

(** * The invariant *)

(** Places of pages. *)
Definition aligned (o : Z) : Prop := 0 ≤ o ∧ o mod imageDataPageSize = 0.

(** [held] is an offset that was taken and is not yet in the table. *)
Record open_ok (held : option Z) (f : option (list Z)) (nx nl : Z) (m : gmap Z imageLocationChunk)
    (fr : list Z) (fs : gset Z) (cur ll : Z) : Prop := {
  oo_table : table_ok m;
  oo_slot0 : ∀ c, m !! 0 = Some c → slot_of (offsets c) 0 = 0;
  oo_next : aligned nx;
  oo_tokens : 0 ≤ nl < 2^64;
  oo_known : ∀ l, off_of m l ≠ 0 → 0 < l ≤ nl;
  oo_live : ∀ l, off_of m l ≠ 0 → aligned (off_of m l - 1) ∧ off_of m l - 1 + imageDataPageSize ≤ nx ∧
    off_of m l - 1 ∉ fs ∧ held ≠ Some (off_of m l - 1) ∧ ∃ b, f = Some b ∧ off_of m l - 1 + imageDataPageSize ≤ len b;
  oo_apart : ∀ l l', off_of m l ≠ 0 → off_of m l = off_of m l' → l = l';
  oo_free : ∀ o, o ∈ fs → aligned o ∧ o + imageDataPageSize ≤ nx ∧ o ∈ fr ∧ held ≠ Some o;
  oo_held : ∀ o, held = Some o → aligned o ∧ o + imageDataPageSize ≤ nx;
  oo_all : ∀ o, aligned o → o + imageDataPageSize ≤ nx → held = Some o ∨ o ∈ fs ∨ ∃ l, off_of m l = o + 1;
  oo_count : ll = Z.of_nat (total m);
  oo_current : cur = imageDataPageSize * ll;
  oo_refs : ∀ l, 0 ≤ ref_of m l < 2^32;
}.
Definition store_open (held : option Z) (s : imageDataStore) : Prop :=
  open_ok held (file s) (next s) (nextLocation s) (locationChunks s) (free s) (freeSet s) (current s) (liveLocations s).

(** The abstract store. *)
Definition pages (s : imageDataStore) (l : Z) : option (list Z * Z) :=
  if off_of (locationChunks s) l =? 0 then None
  else match file s with
       | Some f => Some (sub f (Z.to_nat (off_of (locationChunks s) l - 1)) 4096, ref_of (locationChunks s) l)
       | None => None
       end.

(** * The host file *)

Lemma length_zeros n : length (zeros n) = Z.to_nat n.
Proof. apply length_replicate. Qed.
Lemma length_write_file f off p : 0 ≤ off → len f ≤ len (write_file f off p) ∧ (p ≠ [] → off + len p ≤ len (write_file f off p)).
Proof.
  intros Ho. unfold write_file. destruct p; [by split|]. rewrite length_overwrite, length_app, length_zeros. split; [|intros _]; lia.
Qed.
(** A page that a write does not touch. *)
Lemma page_kept f off p o :
  0 ≤ o → 0 ≤ off → o + 4096 ≤ len f → o + 4096 ≤ off ∨ off + len p ≤ o →
  sub (write_file f off p) (Z.to_nat o) 4096 = sub f (Z.to_nat o) 4096.
Proof.
  intros Ho Hoff Hf Hd. unfold write_file. destruct p as [|x p]; [done|].
  assert (sub (f ++ zeros (off + len (x :: p) - len f)) (Z.to_nat o) 4096 = sub f (Z.to_nat o) 4096) as <-.
  { unfold sub. rewrite drop_app_le, take_app_le by (rewrite ?length_drop; lia). done. }
  destruct Hd as [Hd|Hd].
  - apply sub_overwrite_before; rewrite ?length_app, ?length_zeros; lia.
  - apply sub_overwrite_after; rewrite ?length_app, ?length_zeros; lia.
Qed.
(** The page that a write fills. *)
Lemma page_written f off p : 0 ≤ off → length p = 4096%nat → sub (write_file f off p) (Z.to_nat off) 4096 = p.
Proof.
  intros Ho Hp. unfold write_file. destruct p as [|x p]; [done|]. rewrite <-Hp. apply sub_overwrite_same.
  rewrite length_app, length_zeros. lia.
Qed.
(** A write inside a page. *)
Lemma page_updated f o po p :
  0 ≤ o → 0 ≤ po → po + len p ≤ 4096 → o + 4096 ≤ len f →
  sub (write_file f (o + po) p) (Z.to_nat o) 4096 = overwrite (sub f (Z.to_nat o) 4096) (Z.to_nat po) p.
Proof.
  intros Ho Hpo Hp Hf. unfold write_file. destruct p as [|x p]; [by rewrite overwrite_nil|].
  set (q := x :: p) in *. unfold zeros. replace (Z.to_nat (o + po + len q - len f)) with 0%nat by lia. rewrite app_nil_r.
  apply list_eq. intros i. unfold sub. rewrite lookup_overwrite, length_take, length_drop.
  destruct (decide (i < 4096)%nat) as [Hi|Hi].
  - rewrite lookup_take_lt, lookup_drop, lookup_overwrite by done. destruct (decide (Z.to_nat o + i < length f)%nat); [|lia].
    destruct (decide (i < 4096 `min` _)%nat); [|lia]. rewrite lookup_take_lt, lookup_drop by done.
    repeat destruct (decide _); try lia; try done. f_equal. lia.
  - rewrite lookup_take_ge by lia. destruct (decide _); [lia|done].
Qed.
Lemma page_truncated f nx o : 0 ≤ o → o + 4096 ≤ nx → o + 4096 ≤ len f →
  sub (truncate_file f nx) (Z.to_nat o) 4096 = sub f (Z.to_nat o) 4096.
Proof.
  intros Ho Hn Hf. unfold truncate_file, sub. rewrite drop_app_le, take_app_le by (rewrite ?length_drop, ?length_take; lia).
  rewrite !take_drop_commute, take_take. f_equal. f_equal. lia.
Qed.
Lemma length_truncate f nx : 0 ≤ nx → len (truncate_file f nx) = nx.
Proof. intros Hn. unfold truncate_file. rewrite length_app, length_take, length_zeros. lia. Qed.
Lemma page_punched f a n o : 0 ≤ o → 0 ≤ a → 0 ≤ n → o + 4096 ≤ len f → o + 4096 ≤ a ∨ a + n ≤ o →
  sub (punch_file f a n) (Z.to_nat o) 4096 = sub f (Z.to_nat o) 4096.
Proof.
  intros Ho Ha Hn Hf Hd. unfold punch_file. destruct (decide (a ≤ len f)) as [Hle|Hgt].
  - destruct Hd as [Hd|Hd].
    + apply sub_overwrite_before; lia.
    + apply sub_overwrite_after; rewrite length_zeros; lia.
  - unfold zeros. replace (Z.to_nat (Z.min n (len f - a))) with 0%nat by lia. by rewrite overwrite_nil.
Qed.
Lemma length_punch f a n : length (punch_file f a n) = length f.
Proof. apply length_overwrite. Qed.

(** Two places of pages are the same or apart. *)
Lemma aligned_apart o o' : aligned o → aligned o' → o ≠ o' → o + 4096 ≤ o' ∨ o' + 4096 ≤ o.
Proof.
  intros [? Ho] [? Ho'] Hne. unfold imageDataPageSize in *. apply Z.mod_divide in Ho as [i ->]; [|lia].
  apply Z.mod_divide in Ho' as [j ->]; [|lia]. lia.
Qed.
Lemma length_image_page d : length (page_of d) = 4096%nat.
Proof. unfold page_of. rewrite length_overwrite. apply length_zeros. Qed.

(** * Changes of the state *)

Lemma live_file held s l : store_open held s → off_of (locationChunks s) l ≠ 0 → ∃ f, file s = Some f ∧
  aligned (off_of (locationChunks s) l - 1) ∧ off_of (locationChunks s) l - 1 + 4096 ≤ len f.
Proof. intros Hs Hl. destruct (oo_live _ _ _ _ _ _ _ _ _ Hs l Hl) as (? & _ & _ & _ & f & ? & ?). by exists f. Qed.

(** Another file with room for the live pages. *)
Lemma open_file held f' s :
  store_open held s → (∀ l, off_of (locationChunks s) l ≠ 0 → off_of (locationChunks s) l - 1 + 4096 ≤ len f') →
  store_open held (s <| file := Some f' |>).
Proof.
  intros [] Hroom. split; try assumption. intros l Hl. destruct (oo_live0 l Hl) as (? & ? & ? & ? & _).
  split_and!; [done..|]. exists f'. by split; [|apply Hroom].
Qed.
(** ... and the same contents. *)
Lemma pages_file held f' s :
  store_open held s →
  (∀ l f, file s = Some f → off_of (locationChunks s) l ≠ 0 →
    sub f' (Z.to_nat (off_of (locationChunks s) l - 1)) 4096 = sub f (Z.to_nat (off_of (locationChunks s) l - 1)) 4096) →
  ∀ l, pages (s <| file := Some f' |>) l = pages s l.
Proof.
  intros Hs Hsub l. unfold pages. cbn. destruct (Z.eqb_spec (off_of (locationChunks s) l) 0) as [|Hl]; [done|].
  destruct (live_file _ _ _ Hs Hl) as (f & Hf & _). rewrite Hf. by rewrite (Hsub l f).
Qed.

Definition keeps (s s' : imageDataStore) : Prop := closed s' = closed s ∧ refs s' = refs s.
Definition same (s s' : imageDataStore) : Prop :=
  keeps s s' ∧ locationChunks s' = locationChunks s ∧ nextLocation s' = nextLocation s ∧ ∀ l, pages s' l = pages s l.

Lemma wp_call s Q : (∀ o h, Q (s <| host := h |>) (Ok o)) → wp call s Q.
Proof. intros HQ. unfold wp, call. destruct (host s) as [|o h] eqn:E; [|apply HQ]. specialize (HQ Succeeds []). rewrite <-E in HQ. by destruct s. Qed.
Lemma wp_call_err s Q : (∀ e h, Q (s <| host := h |>) (Ok e)) → wp call_err s Q.
Proof. intros HQ. apply wp_bind, wp_call. intros o h. apply wp_ret, HQ. Qed.

Lemma ensureFile_spec held s :
  store_open held s → closed s = false →
  wp ensureFileLocked s (λ s' r, store_open held s' ∧ same s s' ∧
    match r with Ok _ => ∃ f, file s' = Some f | Err _ => True | Panic => False end).
Proof.
  intros Hs Hc. unfold ensureFileLocked. apply wp_bind, wp_gets. cbn. rewrite Hc. apply wp_bind, wp_gets. cbn.
  destruct (file s) as [f|] eqn:Hf; cbn [non_nil].
  { apply wp_ret. split; [done|]. split; [by repeat split|by exists f]. }
  apply wp_bind, wp_call_err. intros [e|] h; [by apply wp_fail|].
  apply wp_bind, wp_call_err. intros [e|] h'; [by apply wp_fail|].
  assert (∀ l, off_of (locationChunks s) l = 0) as Hnone.
  { intros l. destruct (decide (off_of (locationChunks s) l = 0)) as [|Hl]; [done|]. destruct (live_file _ _ _ Hs Hl) as (f & Hf' & _). congruence. }
  assert (∀ p hh, let s' := s <| host := hh |> <| file := Some [] |> <| path := p |> in
    store_open held s' ∧ same s s' ∧ ∃ f, file s' = Some f) as Hdone.
  { intros p hh. split; [|split; [split_and!; [done..|]|by eexists]].
    - change (store_open held (s <| file := Some [] |>)). apply open_file; [done|]. intros l Hl. by rewrite Hnone in Hl.
    - intros l. unfold pages. cbn. by rewrite Hnone. }
  apply wp_bind, wp_modify, wp_bind, wp_call_err. intros [e|] hh; [apply wp_ret, Hdone|apply wp_modify, Hdone].
Qed.

Lemma take_free_spec fs fr :
  match take_free fs fr with
  | (fr', Some o) => o ∈ fs ∧ ∀ x, x ∈ fs → x ∈ fr → x = o ∨ x ∈ fr'
  | (_, None) => ∀ x, x ∈ fs → x ∉ fr
  end.
Proof.
  induction fr as [|o fr IH]; cbn; [by intros x _ Hx%elem_of_nil|]. destruct (decide (o ∈ fs)) as [Ho|Ho].
  - split; [done|]. intros x _ [->|Hx]%elem_of_cons; auto.
  - destruct (take_free fs fr) as [fr' [o'|]].
    + destruct IH as [? IH]. split; [done|]. intros x Hx [->|Hx']%elem_of_cons; [done|auto].
    + intros x Hx [->|Hx']%elem_of_cons; [done|by eapply IH].
Qed.
Lemma aligned_next nx : aligned nx → aligned (nx + imageDataPageSize).
Proof. intros [? Hm]. split; [unfold imageDataPageSize; lia|]. rewrite <-(Z.mul_1_l imageDataPageSize) at 1. by rewrite Z.mod_add. Qed.
Lemma aligned_below o nx : aligned o → aligned nx → o + imageDataPageSize ≤ nx + imageDataPageSize → o = nx ∨ o + imageDataPageSize ≤ nx.
Proof.
  intros Ho Hn Hle. destruct (decide (o = nx)) as [|Hne]; [by left|right]. destruct (aligned_apart o nx Ho Hn Hne); unfold imageDataPageSize in *; lia.
Qed.

Lemma take_offset_spec s :
  store_open None s → wp take_offset s (λ s' r, ∃ o, r = Ok o ∧ store_open (Some o) s' ∧ same s s' ∧ file s' = file s).
Proof.
  intros []. unfold wp, take_offset. pose proof (take_free_spec (freeSet s) (free s)) as Ht.
  destruct (take_free (freeSet s) (free s)) as [fr [o|]]; cbn [fst snd].
  - destruct Ht as [Ho Ht]. exists o. destruct (oo_free0 o Ho) as (Ha & Hle & _ & _). split; [done|]. split; [|by repeat split]. split; cbn; try assumption.
    + intros l Hl. destruct (oo_live0 l Hl) as (? & ? & ? & _ & ?). split_and!; [done..|set_solver|congruence|done].
    + intros x [Hx Hne]%elem_of_difference. destruct (oo_free0 x Hx) as (? & ? & Hin & _). split_and!; [done..| |set_solver].
      destruct (Ht x Hx Hin) as [->|]; [set_solver|done].
    + by intros x [= <-].
    + intros x Hx Hxl. destruct (oo_all0 x Hx Hxl) as [|[|]]; [done| |auto]. destruct (decide (x = o)) as [->|]; [by left|right; left; set_solver].
  - exists (next s). split; [done|]. split; [|by repeat split]. split; cbn; try assumption.
    + by apply aligned_next.
    + intros l Hl. destruct (oo_live0 l Hl) as (? & ? & ? & _ & ?). split_and!; try done; unfold imageDataPageSize in *; [lia|].
      intros [= E]. rewrite <-E in *. lia.
    + intros x Hx. exfalso. destruct (oo_free0 x Hx) as (_ & _ & Hin & _). by apply (Ht x).
    + intros x [= <-]. by split.
    + intros x Hx Hxl. destruct (aligned_below x (next s) Hx oo_next0 Hxl) as [->|Hle]; [by left|].
      destruct (oo_all0 x Hx Hle) as [|[|]]; [done|auto..].
Qed.

(** A page in hand goes back to the free ones. *)
Lemma put_back_spec o s :
  store_open (Some o) s → store_open None (s <| free := o :: free s |> <| freeSet := freeSet s ∪ {[o]} |>).
Proof.
  intros []. destruct (oo_held0 o eq_refl) as [Ha Hle]. split; cbn; try assumption.
  - intros l Hl. destruct (oo_live0 l Hl) as (? & ? & ? & Hne & ?). split_and!; try done.
    intros [Hx|Hx]%elem_of_union; [done|]. apply elem_of_singleton in Hx. congruence.
  - intros x [Hx| ->%elem_of_singleton]%elem_of_union.
    + destruct (oo_free0 x Hx) as (? & ? & ? & _). split_and!; [done..|by apply elem_of_cons; right|done].
    + split_and!; [done..|by apply elem_of_cons; left|done].
  - done.
  - intros x Hx Hxl. right. destruct (oo_all0 x Hx Hxl) as [Heq|[|]]; [injection Heq as <-; left; set_solver|left; set_solver|by right].
Qed.

(** * Changing an entry of the table *)

Lemma slot_lookup (l : list Z) i : 0 ≤ i < len l → l !! Z.to_nat i = Some (slot_of l i).
Proof. intros Hi. unfold slot_of. destruct (l !! Z.to_nat i) eqn:E; [done|]. apply lookup_ge_None in E. lia. Qed.
Lemma live_slots_bound c : length (offsets c) = 256%nat → (live_slots c ≤ 256)%nat.
Proof. intros <-. apply length_filter. Qed.
Lemma live_slots_zero c i : length (offsets c) = 256%nat → live_slots c = 0%nat → slot_of (offsets c) i = 0.
Proof.
  intros Hl Hz. unfold slot_of. destruct (offsets c !! Z.to_nat i) as [x|] eqn:E; [|done]. cbn.
  destruct (decide (x = 0)) as [|Hx]; [done|]. apply length_zero_iff_nil in Hz.
  assert (x ∈ filter (λ o, o ≠ 0) (offsets c)) as Hin by (apply list_elem_of_filter; split; [done|by eapply list_elem_of_lookup_2]).
  rewrite Hz in Hin. by apply elem_of_nil in Hin.
Qed.

(** An entry of a chunk: the offset, the count, and the number of live slots. *)
Lemma chunk_entry c n o r lv :
  chunk_ok c → 0 ≤ n < 256 → 0 ≤ o → (o = 0 ↔ r = 0) →
  lv = u16 (live c - (if decide (slot_of (offsets c) n = 0) then 0 else 1) + (if decide (o = 0) then 0 else 1)) →
  let c' := mkChunk (<[Z.to_nat n := o]> (offsets c)) (<[Z.to_nat n := r]> (refs_of c)) lv in
  chunk_ok c' ∧ Z.of_nat (live_slots c') = Z.of_nat (live_slots c) - (if decide (slot_of (offsets c) n = 0) then 0 else 1)
    + (if decide (o = 0) then 0 else 1).
Proof.
  intros [Ho Hr Hu Hl] Hn Ho0 Hor -> c'.
  pose proof (live_insert (offsets c) (Z.to_nat n) o _ (slot_lookup (offsets c) n ltac:(lia))) as Hcount.
  assert (length (offsets c') = 256%nat) as Hlen by (by cbn; rewrite length_insert).
  pose proof (live_slots_bound c' Hlen) as Hb. unfold live_slots in *. cbn [offsets c'] in *.
  split; [|done]. split; cbn.
  - done.
  - by rewrite length_insert.
  - intros i Hi. rewrite !slot_insert by lia. destruct (i =? n); [by split|by apply Hu].
  - rewrite Hl. unfold live_slots. cbn [offsets]. rewrite <-Hcount. apply u16_small. split; lia.
Qed.
Lemma chunk_count c n r :
  chunk_ok c → 0 ≤ n < 256 → slot_of (offsets c) n ≠ 0 → r ≠ 0 → chunk_ok (c <| refs_of := <[Z.to_nat n := r]> (refs_of c) |>).
Proof.
  intros [Ho Hr Hu Hl] Hn Hne Hr0. split; cbn; [done|by rewrite length_insert| |done].
  intros i Hi. rewrite slot_insert by lia. destruct (Z.eqb_spec i n) as [->|]; [|by apply Hu]. split; [tauto|by apply Hu].
Qed.
Lemma table_alter m k f c : table_ok m → m !! k = Some c → chunk_ok (f c) → table_ok (alter f k m).
Proof.
  intros Hm Hk Hf j d Hd. apply lookup_alter_Some in Hd as [(-> & d' & Hd' & ->)|[_ Hd]]; [congruence|by eapply Hm].
Qed.
Lemma slot0_alter (m : gmap Z imageLocationChunk) k f c n o :
  (∀ c, m !! 0 = Some c → slot_of (offsets c) 0 = 0) → m !! k = Some c → length (offsets c) = 256%nat → 0 ≤ n < 256 →
  offsets (f c) = <[Z.to_nat n := o]> (offsets c) → (k ≠ 0 ∨ n ≠ 0 ∨ o = 0) →
  ∀ c, alter f k m !! 0 = Some c → slot_of (offsets c) 0 = 0.
Proof.
  intros H0 Hk Hl Hn Hf Hne d Hd. apply lookup_alter_Some in Hd as [(-> & d' & Hd' & ->)|[_ Hd]]; [|by apply H0].
  assert (d' = c) as -> by congruence. rewrite Hf, slot_insert by lia. destruct (Z.eqb_spec 0 n); [|by apply H0]. destruct Hne as [|[|]]; congruence.
Qed.

(** The chunk of a new token. *)
Definition with_chunk (k : Z) (m : gmap Z imageLocationChunk) : gmap Z imageLocationChunk :=
  match m !! k with Some _ => m | None => <[k := emptyChunk]> m end.
Lemma empty_chunk_ok : chunk_ok emptyChunk.
Proof. split; [done..| |done]. intros i _. cbn [offsets refs_of emptyChunk]. by rewrite slot_empty. Qed.
Lemma with_chunk_spec k m : table_ok m → (∀ c, m !! 0 = Some c → slot_of (offsets c) 0 = 0) →
  table_ok (with_chunk k m) ∧ (∃ c, with_chunk k m !! k = Some c ∧ chunk_ok c) ∧ total (with_chunk k m) = total m ∧
  (∀ l, off_of (with_chunk k m) l = off_of m l ∧ ref_of (with_chunk k m) l = ref_of m l) ∧
  ∀ c, with_chunk k m !! 0 = Some c → slot_of (offsets c) 0 = 0.
Proof.
  intros Hm H0. unfold with_chunk. destruct (m !! k) as [c|] eqn:E.
  { split_and!; [done| |done..]. exists c. split; [done|by eapply Hm]. }
  split_and!.
  - apply map_Forall_insert_2; [apply empty_chunk_ok|done].
  - exists emptyChunk. rewrite lookup_insert_eq. split; [done|apply empty_chunk_ok].
  - by rewrite total_insert.
  - intros l. by rewrite !cell_new.
  - intros c [[-> <-]|[_ Hc]]%lookup_insert_Some; [apply slot_empty|by apply H0].
Qed.

(** What the operations do to the table. *)
Record table_change (m m' : gmap Z imageLocationChunk) (l o r : Z) : Prop := {
  tc_ok : table_ok m';
  tc_slot0 : ∀ c, m' !! 0 = Some c → slot_of (offsets c) 0 = 0;
  tc_off : ∀ l', off_of m' l' = if l' =? l then o else off_of m l';
  tc_ref : ∀ l', ref_of m' l' = if l' =? l then r else ref_of m l';
  tc_total : Z.of_nat (total m') = Z.of_nat (total m) - (if decide (off_of m l = 0) then 0 else 1) + (if decide (o = 0) then 0 else 1);
}.
Lemma table_entry m l o r f c :
  table_ok m → (∀ c, m !! 0 = Some c → slot_of (offsets c) 0 = 0) → l ≠ 0 → m !! (l / 256) = Some c → 0 ≤ o → (o = 0 ↔ r = 0) →
  f c = mkChunk (<[Z.to_nat (l mod 256) := o]> (offsets c)) (<[Z.to_nat (l mod 256) := r]> (refs_of c))
          (u16 (live c - (if decide (off_of m l = 0) then 0 else 1) + (if decide (o = 0) then 0 else 1))) →
  table_change m (alter f (l / 256) m) l o r.
Proof.
  intros Hm H0 Hl Hc Ho Hor Hf. pose proof (Hm _ _ Hc) as Hco. pose proof (mod256 l) as Hmod.
  assert (off_of m l = slot_of (offsets c) (l mod 256)) as Hcell.
  { unfold cell. by rewrite (proj2 (Z.eqb_neq l 0)), Hc. }
  rewrite Hcell in Hf. destruct (chunk_entry c (l mod 256) o r _ Hco Hmod Ho Hor eq_refl) as [Hok Hn]. rewrite <-Hf in Hok, Hn.
  split.
  - by eapply table_alter.
  - eapply (slot0_alter m _ f c (l mod 256) o); [done..|apply Hco|done|by rewrite Hf|].
    destruct (decide (l / 256 = 0)); [|by left]. right. left. rewrite (Z.div_mod l 256) in Hl by lia. lia.
  - intros l'. apply (cell_alter _ _ _ _ _ c); [done..|apply Hco|by rewrite Hf].
  - intros l'. apply (cell_alter _ _ _ _ _ c); [done..|apply Hco|by rewrite Hf].
  - pose proof (total_alter m _ f c Hc). rewrite Hcell. lia.
Qed.

Lemma open_add o f nx nl m m' fr fs cur ll :
  open_ok (Some o) (Some f) nx nl m fr fs cur ll → table_change m m' (nl + 1) (o + 1) 1 →
  nl < 2^64 - 1 → o + 4096 ≤ len f →
  open_ok None (Some f) nx (nl + 1) m' fr fs (cur + imageDataPageSize) (ll + 1).
Proof.
  intros [] [] Hnl Hf. destruct (oo_held0 o eq_refl) as [Ha Hle].
  assert (off_of m (nl + 1) = 0) as Hnew.
  { destruct (decide (off_of m (nl + 1) = 0)) as [|Hne]; [done|]. apply oo_known0 in Hne. lia. }
  assert (o + 1 ≠ 0) as Ho by (destruct Ha; lia).
  split; try done; try lia.
  - intros l. rewrite tc_off0. destruct (Z.eqb_spec l (nl + 1)); [lia|]. intros Hl%oo_known0. lia.
  - intros l. rewrite tc_off0. destruct (Z.eqb_spec l (nl + 1)) as [->|].
    + intros _. rewrite Z.add_simpl_r. split_and!; try done; [|by exists f]. intros Hin. by destruct (oo_free0 o Hin) as (_ & _ & _ & ?).
    + intros Hl. destruct (oo_live0 l Hl) as (? & ? & ? & _ & ?). by split_and!.
  - intros l l'. rewrite !tc_off0. destruct (Z.eqb_spec l (nl + 1)) as [->|], (Z.eqb_spec l' (nl + 1)) as [->|]; [done|..|by apply oo_apart0].
    + intros _ E. exfalso. destruct (oo_live0 l') as (_ & _ & _ & Hh & _); [lia|]. apply Hh. f_equal. lia.
    + intros Hl E. exfalso. destruct (oo_live0 l Hl) as (_ & _ & _ & Hh & _). apply Hh. f_equal. lia.
  - intros x Hx. destruct (oo_free0 x Hx) as (? & ? & ? & _). by split_and!.
  - intros x Hx Hxl. right. destruct (oo_all0 x Hx Hxl) as [E|[|[l Hl]]]; [injection E as <-|by left|]; right.
    + exists (nl + 1). by rewrite tc_off0, Z.eqb_refl.
    + exists l. rewrite tc_off0. destruct (Z.eqb_spec l (nl + 1)) as [->|]; [|done]. destruct Hx. lia.
  - rewrite tc_total0, Hnew, decide_True, decide_False by done. lia.
  - intros l. rewrite tc_ref0. destruct (l =? nl + 1); [lia|apply oo_refs0].
Qed.
Lemma open_remove l f nx nl m m' fr fs cur ll :
  open_ok None f nx nl m fr fs cur ll → table_change m m' l 0 0 → off_of m l ≠ 0 →
  open_ok None f nx nl m' (off_of m l - 1 :: fr) (fs ∪ {[off_of m l - 1]}) (cur - imageDataPageSize) (ll - 1).
Proof.
  intros [] [] Hl. destruct (oo_live0 l Hl) as (Ha & Hle & Hnf & _ & b & Hf & Hb).
  split; try done; try lia.
  - intros l'. rewrite tc_off0. destruct (l' =? l); [done|apply oo_known0].
  - intros l'. rewrite tc_off0. destruct (Z.eqb_spec l' l) as [->|Hne]; [done|]. intros Hl'.
    destruct (oo_live0 l' Hl') as (? & ? & ? & _ & ?). split_and!; try done. intros [Hx|Hx]%elem_of_union; [done|].
    apply elem_of_singleton in Hx. apply Hne, oo_apart0; [done|lia].
  - intros l1 l2. rewrite !tc_off0. destruct (l1 =? l); [done|]. intros H1. destruct (Z.eqb_spec l2 l) as [->|]; [done|by apply oo_apart0].
  - intros x [Hx| ->%elem_of_singleton]%elem_of_union.
    + destruct (oo_free0 x Hx) as (? & ? & ? & _). split_and!; [done..|by apply elem_of_cons; right|done].
    + split_and!; [done..|by apply elem_of_cons; left|done].
  - intros x Hx Hxl. right. destruct (oo_all0 x Hx Hxl) as [|[|[l' Hl']]]; [done|left; set_solver|].
    destruct (decide (l' = l)) as [->|Hne].
    + left. apply elem_of_union. right. apply elem_of_singleton. lia.
    + right. exists l'. rewrite tc_off0. by rewrite (proj2 (Z.eqb_neq l' l)).
  - rewrite tc_total0, decide_False, decide_True by done. lia.
  - intros l'. rewrite tc_ref0. destruct (l' =? l); [lia|apply oo_refs0].
Qed.
Lemma open_count held l r f nx nl m m' fr fs cur ll :
  open_ok held f nx nl m fr fs cur ll → table_ok m' → (∀ c, m' !! 0 = Some c → slot_of (offsets c) 0 = 0) →
  (∀ l', off_of m' l' = off_of m l') → (∀ l', ref_of m' l' = if l' =? l then r else ref_of m l') →
  total m' = total m → 0 ≤ r < 2^32 → open_ok held f nx nl m' fr fs cur ll.
Proof.
  intros [] Hm H0 Hoff Href Htot Hr. split; try done; try (intros l1; rewrite Hoff; auto).
  - intros l'. rewrite Hoff. auto.
  - intros x Hx Hxl. destruct (oo_all0 x Hx Hxl) as [|[|[l' ?]]]; auto. right. right. exists l'. by rewrite Hoff.
  - by rewrite Htot.
  - intros l'. rewrite Href. destruct (l' =? l); [done|apply oo_refs0].
Qed.

(** * Allocating *)

(** The entry of the new token. *)
Definition new_entry (l o : Z) (c : imageLocationChunk) : imageLocationChunk :=
  mkChunk (<[Z.to_nat (l mod 256) := o + 1]> (offsets c)) (<[Z.to_nat (l mod 256) := 1]> (refs_of c)) (u16 (live c + 1)).
Lemma add_location_table o s :
  locationChunks (add_location o s).1 =
    alter (new_entry (nextLocation s + 1) o) ((nextLocation s + 1) / 256) (with_chunk ((nextLocation s + 1) / 256) (locationChunks s)).
Proof.
  pose proof (imageLocationIndex_eq (nextLocation s + 1)) as E. apply pair_equal_spec in E as [E1 E2]. unfold new_entry.
  rewrite <-E1, <-E2. reflexivity.
Qed.
Lemma new_entry_change o m l :
  table_ok m → (∀ c, m !! 0 = Some c → slot_of (offsets c) 0 = 0) → 0 < l → off_of m l = 0 → 0 ≤ o →
  table_change m (alter (new_entry l o) (l / 256) (with_chunk (l / 256) m)) l (o + 1) 1.
Proof.
  intros Hm Hm0 Hl Hnew Ho. destruct (with_chunk_spec (l / 256) _ Hm Hm0) as (Ht & (c & Hc & Hco) & Htot & Hcell & H0).
  rewrite <-(proj1 (Hcell l)) in Hnew.
  destruct (table_entry (with_chunk (l / 256) m) l (o + 1) 1 (new_entry l o) c Ht H0) as [? ? Hoff Href Htt]; [lia|done|lia|lia| |].
  { unfold new_entry. rewrite Hnew, decide_True, decide_False by lia. by rewrite Z.sub_0_r. }
  split; [done|done| | |].
  - intros l'. rewrite Hoff. by destruct (_ =? _); [|apply Hcell].
  - intros l'. rewrite Href. by destruct (_ =? _); [|apply Hcell].
  - by rewrite Htt, Htot, (proj1 (Hcell l)).
Qed.
Lemma add_location_spec o s hw f Q :
  store_open (Some o) s → nextLocation s < 2^64 - 1 → file s = Some f → o + 4096 ≤ len f →
  (∀ s' l, store_open None s' → keeps s s' → pages s l = None →
    (∀ l', pages s' l' = if l' =? l then Some (sub f (Z.to_nat o) 4096, 1) else pages s l') → Q s' (Ok l)) →
  wp (add_location o) (s <| current := current s + imageDataPageSize |> <| highWater := hw |>) Q.
Proof.
  intros Hs Hnl Hf Hfl HQ. set (l := nextLocation s + 1). set (s0 := s <| current := _ |> <| highWater := _ |>).
  pose proof (add_location_table o s0) as Hm. change (nextLocation s0 + 1) with l in Hm. change (locationChunks s0) with (locationChunks s) in Hm.
  assert (off_of (locationChunks s) l = 0) as Hnew.
  { destruct (decide (off_of (locationChunks s) l = 0)) as [|Hne]; [done|]. apply (oo_known _ _ _ _ _ _ _ _ _ Hs) in Hne. lia. }
  assert (0 ≤ o) as Ho by apply (oo_held _ _ _ _ _ _ _ _ _ Hs o eq_refl).
  pose proof (new_entry_change o (locationChunks s) l (oo_table _ _ _ _ _ _ _ _ _ Hs) (oo_slot0 _ _ _ _ _ _ _ _ _ Hs)
    ltac:(pose proof (oo_tokens _ _ _ _ _ _ _ _ _ Hs); lia) Hnew Ho) as Hch. rewrite <-Hm in Hch.
  change (Q (add_location o s0).1 (Ok l)). set (s' := (add_location o s0).1) in *. apply HQ; [|by split|..].
  - change (open_ok None (file s) (next s) (nextLocation s + 1) (locationChunks s') (free s) (freeSet s)
      (current s + imageDataPageSize) (liveLocations s + 1)).
    unfold store_open in Hs. rewrite Hf in Hs |- *. by eapply open_add.
  - unfold pages. by rewrite Hnew.
  - intros l'. unfold pages. change (file s') with (file s). rewrite (tc_off _ _ _ _ _ Hch), (tc_ref _ _ _ _ _ Hch), Hf.
    destruct (l' =? l); [|done]. rewrite (proj2 (Z.eqb_neq (o + 1) 0)), Z.add_simpl_r by lia. done.
Qed.

(** The bookkeeping of the metadata does not show. *)
Lemma note_spec held s Q :
  store_open held s → (∀ s', store_open held s' → same s s' → file s' = file s → Q s' (Ok tt)) → wp noteMetadataLocked s Q.
Proof. intros Hs HQ. apply wp_modify, HQ; [exact Hs|by split_and!|done]. Qed.
Lemma keeps_trans s1 s2 s3 : keeps s1 s2 → keeps s2 s3 → keeps s1 s3.
Proof. unfold keeps. intros [] []. split; congruence. Qed.
Lemma same_trans s1 s2 s3 : same s1 s2 → same s2 s3 → same s1 s3.
Proof.
  intros ([Hc Hr] & Hl & Hn & Hp) ([Hc' Hr'] & Hl' & Hn' & Hp'). split_and!; [split; congruence|congruence..|]. intros l. by rewrite Hp', Hp.
Qed.

(** Writing to a page in hand leaves the live pages alone. *)
Lemma write_held o p s f Q :
  store_open (Some o) s → file s = Some f → len p ≤ 4096 →
  (∀ s', store_open (Some o) s' → same s s' → file s' = Some (write_file f o p) → Q s' (Ok tt)) →
  wp (set_file (write_file f o p)) s Q.
Proof.
  intros Hs Hf Hp HQ. assert (0 ≤ o) as Ho by apply (oo_held _ _ _ _ _ _ _ _ _ Hs o eq_refl).
  pose proof (length_write_file f o p Ho) as [Hlen _]. apply wp_modify, HQ; [|split_and!; [done..|]|done].
  - apply open_file; [done|]. intros l Hl. destruct (live_file _ _ _ Hs Hl) as (f0 & Hf0 & _ & ?). assert (f0 = f) as -> by congruence. lia.
  - apply (pages_file (Some o)); [done|]. intros l f0 Hf0 Hl. assert (f0 = f) as -> by congruence.
    destruct (oo_live _ _ _ _ _ _ _ _ _ Hs l Hl) as (Ha & _ & _ & Hne & b & Hb & ?). assert (b = f) as -> by congruence.
    unfold imageDataPageSize in *. apply page_kept; try lia; [apply Ha|]. destruct (oo_held _ _ _ _ _ _ _ _ _ Hs o eq_refl) as [Hao _].
    destruct (aligned_apart _ _ Ha Hao) as [|]; [congruence|by left|right; lia].
Qed.

Lemma length_held f o data : 0 ≤ o → o + 4096 ≤ len (write_file f o (page_of data)).
Proof.
  intros Ho. pose proof (length_write_file f o (page_of data) Ho) as [_ Hlen]. pose proof (length_image_page data) as Hp.
  specialize (Hlen ltac:(by intros E; rewrite E in Hp)). lia.
Qed.
Lemma allocate_spec data s :
  store_open None s → closed s = false →
  wp (allocatePageLocked data) s (λ s' r, store_open None s' ∧ keeps s s' ∧
    match r with
    | Ok l => pages s l = None ∧ ∀ l', pages s' l' = if l' =? l then Some (page_of data, 1) else pages s l'
    | Err _ => ∀ l, pages s' l = pages s l
    | Panic => False
    end).
Proof.
  intros Hs Hc. unfold allocatePageLocked. apply wp_bind, wp_gets. cbn beta iota.
  destruct (Z.eqb_spec (nextLocation s) (2^64 - 1)) as [|Hnl]; [by apply wp_fail|].
  assert (nextLocation s < 2^64 - 1) as Hlt by (pose proof (oo_tokens _ _ _ _ _ _ _ _ _ Hs); lia). clear Hnl.
  apply wp_bind. eapply wp_mono; [by apply ensureFile_spec|]. intros s1 [[]|e|] (H1 & Hs1 & Hfile); [|by split; [|split; apply Hs1]|done].
  destruct Hfile as [f Hf1]. apply wp_bind. eapply wp_mono; [by apply take_offset_spec|].
  intros s2 r (o & -> & H2 & Hs2 & Hf2). rewrite Hf1 in Hf2.
  unfold with_file. apply wp_bind, wp_gets. rewrite Hf2. cbn beta iota. unfold fileWriteAt.
  pose proof (oo_held _ _ _ _ _ _ _ _ _ H2 o eq_refl) as [[Ho _] _].
  apply wp_bind, wp_bind, wp_call. intros out h. apply wp_ret.
  assert (store_open (Some o) (s2 <| host := h |>)) as H3 by exact H2.
  assert (same s (s2 <| host := h |>)) as Hs3 by (by apply (same_trans _ s1 (s2 <| host := h |>))).
  assert (file (s2 <| host := h |>) = Some f) as Hf3 by exact Hf2.
  revert H3 Hs3 Hf3. generalize (s2 <| host := h |>). clear s1 s2 H1 H2 Hs1 Hs2 Hf1 Hf2 h. intros s3 H3 (Hk3 & _ & Hn3 & Hp3) Hf3.
  destruct out as [|n e]; cbn beta iota.
  - apply wp_bind. apply write_held; [done..|by rewrite length_image_page|]. intros s4 H4 (Hk4 & _ & Hn4 & Hp4) Hf4.
    apply wp_bind, wp_modify. cbn beta.
    apply wp_bind. apply (add_location_spec o s4 _ (write_file f o (page_of data))); [done|congruence|done|by apply length_held|].
    intros s5 l H5 Hk5 Hn5 Hp5. rewrite page_written in Hp5 by (done || apply length_image_page).
    apply wp_bind. apply (note_spec None); [done|]. intros s6 H6 (Hk6 & _ & _ & Hp6) _. apply wp_ret. split; [done|]. split.
    { eauto using keeps_trans. }
    split; [by rewrite <-Hp3, <-Hp4|]. intros l'. by rewrite Hp6, Hp5, Hp4, Hp3.
  - apply wp_bind. apply write_held; [done..|rewrite length_take, length_image_page; lia|]. intros s4 H4 (Hk4 & _ & Hn4 & Hp4) Hf4.
    apply wp_bind, wp_modify. cbn beta.
    apply wp_bind. apply (note_spec None); [by apply put_back_spec|]. intros s6 H6 (Hk6 & _ & _ & Hp6) _. apply wp_fail.
    split; [done|]. split; [|intros l; rewrite Hp6; change (pages s4 l = pages s l); by rewrite Hp4, Hp3].
    eapply keeps_trans; [done|]. by eapply keeps_trans.
Qed.
